(* ===== verification/_CoqProject ===== *)
-Q . S2P
Prelude.v
Platform.v
X86.v
Segment.v
SegmentProofs.v
Symbol.v
BeanInterface.v
Trampoline.v
TrampolineProofs.v
CodeStore.v
ObjectMemory.v
ObjectMemoryProofs.v
Redirect.v
RedirectProofs.v
Tls.v
TlsProofs.v
Process.v
ProcessProofs.v
World.v
Object.v
Identity.v
Gdb.v
Loader.v
Helper.v
Executable.v
Dynamic.v
Relocatable.v
Objects.v
DlResolve.v
Rtld.v
Fork.v
DlInterface.v
Main.v
Layout.v
Version.v
Tunables.v
Glibc.v
Patch.v
GlibcInit.v
Start.v
Assembly.v
Samples.v
WorldProofs.v
GraphProofs.v
FrameProofs.v
PhaseProofs.v
WellFormedProofs.v
ObjectsProofs.v
ExecutableProofs.v
DynamicProofs.v
RelocatableProofs.v
DlResolveProofs.v
RtldProofs.v
IdentityProofs.v
LoaderProofs.v
HelperProofs.v
LayoutProofs.v
GlibcProofs.v
PatchProofs.v
ForkProofs.v
GlibcInitProofs.v
StartProofs.v
DlInterfaceProofs.v
GdbProofs.v
InitProofs.v
MainProofs.v
StartupProofs.v
