(* ===== verification/Prelude.v ===== *)
(** * Luci: a dynamic linker and loader that updates running programs

    This library models the core of Luci (src/src/) and proves what makes it correct.  Luci loads a
    program with its libraries, watches the files, and replaces a library in the running process when
    its file changes: the new version is mapped behind the old one, relocations and function pointers
    are moved to it, and outdated code is trapped or protected.

    ** Parts and how they interact

    The loader (loader.cpp) keeps a list of identities (object/identity.cpp), each the chain of the
    loaded versions of one file.  A version is an object (object/base.cpp), of one of several kinds
    (dynamic, executable, relocatable), with memory segments (memory_segment.cpp).  Opening a file
    creates an identity and its first object, which in turn opens the libraries it needs.  The helper
    thread (loader_helper.cpp) notices modified files and has identities load another version; then
    the loader prepares, updates and finalizes everything, trampolines (trampoline.cpp) give stable
    addresses to functions and redirections (redirect.cpp) replace code of outdated functions.
    Thread local storage (tls.cpp), the start of the program (process.cpp) and the interface of
    debuggers (comp/gdb.cpp) complete the picture.

    The command line program (main.cpp) turns options into the configuration of the loader, opens the
    files and starts the program.  Luci takes the place of GLIBC's own dynamic linker (comp/glibc/): it
    provides copies of its data structures, fills them in before the program starts, exports the functions
    of libdl, patches code of the C library that relies on the original, and replaces the system call of
    fork so that parent and child do not share the data of libraries.

    ** Files

    - Prelude: machine words, bytes and memory, the state and error monad [M] with its tactics
      ([msplit], [keeps_step]), record update, the hint database [luci].
    - Platform: system calls and the history of events, the page arithmetic of the support library.
    - X86: what the processor does with the jumps and traps the loader writes.
    - Segment, SegmentProofs: struct MemorySegment: mapping, the back buffer (compose) and its
      replacement (finalize), protection (disable, enable), copies for fork (shmemdup).
    - Symbol: versioned symbols, their hashes and comparison.  BeanInterface: the views of the symbols and
      relocations of the comparison library.
    - Trampoline, TrampolineProofs: blocks of trampolines and the table of their targets.
    - CodeStore: the interface (a class with laws) of code that is composed and then made live;
      ObjectMemory, ObjectMemoryProofs: the segments of an object implement it.
    - Redirect, RedirectProofs: traps, the trap handler and static redirections, proved against
      CodeStore.
    - Tls, TlsProofs: modules, the static layout and the dynamic thread vector.
    - Process, ProcessProofs: the initial stack and registers of a program.
    - World: configuration, flags, identities, objects and the loader as one state [world] with the
      history of everything that happened; access functions and the tactics [wsplit], [branch].
    - Object: the base class of objects, and two interfaces: [ObjectOps] are the virtual functions the
      kinds of objects override, [Env] the functions of libraries (files, ELF headers, comparison).
    - Identity: opening, creating and destroying versions, watching files, the traversals of the
      object graph.  Gdb: the debugger interface.  Loader: the loader itself.  Helper: the helper
      thread.  Executable, Dynamic, Relocatable: the kinds of objects.  Objects: their operations as an
      instance of [ObjectOps].  DlResolve: the assembler around lazy resolution.  Rtld: the
      assembler around profiling, exceptions and the protection of stacks.
    - Fork: forking, and the assembler of the replaced system call.  DlInterface: the functions of libdl,
      of the unwinder and the lookups of the C library, on the world and the memory of the program.
    - Main: options, configuration and the two ways to start (main.cpp).
    - Layout: sizes, alignments and offsets of C types as in the System V ABI, bit-fields included.
      Version: the supported platforms.  Tunables: GLIBC's tunables.  Glibc: the copies of link_map,
      _rtld_global and _rtld_global_ro.  Patch: the patches of GLIBC's code, on CodeStore.  GlibcInit: the
      values of the structures, with the functions entered into them.  Start: the entry point of programs without one.  Assembly: GlibcInit and
      Start as an instance of the interface [Loader.Boot] of the loader.
    - Samples: concrete instances of all interfaces and a small world for the examples.
    - WorldProofs: what the elementary steps keep ([keeps]).  GraphProofs: the traversals of the object
      graph.  FrameProofs: what an operation leaves alone.  PhaseProofs: the phases of Loader::relocate,
      proved against a class [Confined] of laws of the kinds of objects.  WellFormedProofs: the
      well-formedness of a world, proved against a class [WellTyped].  ObjectsProofs: the kinds of
      objects obey these laws.  InitProofs: the order and number of constructor calls, proved against a class
      [InitializesQuietly] that the kinds of objects obey.  StartupProofs: the order of everything that
      happens when a program is started.
    - ExecutableProofs, DynamicProofs, RelocatableProofs, DlResolveProofs, RtldProofs, IdentityProofs, LoaderProofs,
      HelperProofs, GdbProofs, LayoutProofs, GlibcProofs, PatchProofs, ForkProofs, GlibcInitProofs, StartProofs,
      DlInterfaceProofs, MainProofs: the theorems about the single components.

    ** Conventions

    Pointers to identities and objects are numbers; [current], [current->file_previous], ... is the list
    [versions].  A function that changes the state is a function [world -> res (A * world)]: [Ok] with
    the result, [AssertFailed] when an assertion of the code fails (or a pointer leads nowhere), or
    [OutOfFuel].  System calls are answered by an arbitrary [kernel] that sees the history; what a
    theorem needs of it is a hypothesis.  Code outside of src/ (the submodules DLH, elfo, Bean and
    plog, and the kernel) is a parameter; its documented behaviour is a law of a class or a hypothesis.
    Machine words are integers with their wrap-around written out ([w64], [s32]).

    Fuel: the traversals of the object graph take the number of nested calls; [Loader.all_fuel] (one
    more than there are objects) is enough for [Identity.id_prepare] on every graph, cyclic ones
    included (GraphProofs), and for [Identity.id_initialize] (InitProofs).  [Loader.open] takes one unit for every nested archive or nested load of a
    library.  [MemorySegment.shmemdup] takes one unit for every partial copy.

    ** What the theorems show

    - Updates: replacing code is atomic for running threads (SegmentProofs); loading a version either
      adds it or changes nothing, although libraries are opened and taken back meanwhile (IdentityProofs, for the
      objects of Objects.v by way of a class [KeepsOld]); a new version is accepted only if it defines what is
      referenced, and an update carries all references over (DynamicProofs); modifications are
      debounced (HelperProofs); the trap handler, the jumps and the conditions under which a redirection
      becomes static (RedirectProofs); trampolines always lead to the latest version (TrampolineProofs).
    - Loading: the memory map an object gets (ExecutableProofs), mapping of files and shared data
      (SegmentProofs), fresh addresses (LoaderProofs), symbol lookup against a declarative
      specification (LoaderProofs), versions of symbols (DynamicProofs), dependencies first and exactly
      once (GraphProofs), relocation of everything in phases (PhaseProofs), relaxed code equivalent to
      the original and indirect relocations last (RelocatableProofs), lazy resolution that
      the program does not notice (DlResolveProofs), a world that stays well formed (WellFormedProofs),
      the library that is destroyed when loading one fails (LoaderProofs), and the list of
      versions a debugger sees (GdbProofs).
    - Initialization: constructors run once, those of the dependencies first (InitProofs), and only after
      everything was relocated and got its final protection (StartupProofs).
    - Start: from the command line to the program, the world stays well formed and a program is only started,
      at its entry point and with its stack, when its files were opened and linked and everything was
      prepared (MainProofs), where the functions of GlibcInit and Start keep the promises of
      the interface [Boot]; the configuration is what options and settings say (MainProofs); the environment
      without the consumed entries (LoaderProofs), the layout and alignment of the initial stack
      (ProcessProofs), thread local storage (TlsProofs).
    - GLIBC: the copies of its structures fit on every platform and the tunables are read right
      (GlibcProofs); patched functions lead to the loader, and only they are changed (PatchProofs); forking
      separates the memory of parent and child, and the replaced system call looks like one (ForkProofs);
      secure mode, and no function pointer of the structures is missing (GlibcInitProofs); profiling does not
      disturb the profiled function (RtldProofs); the registers and the stack __libc_start_main gets (StartProofs); the
      buffers of dlinfo and the lookup of the unwinder (DlInterfaceProofs).

    ** Not modelled

    The parsers of the command line and of configuration files are functions of the support library
    (parameters of Main.v), so are the texts of the help; the options for logging and all log messages,
    show_init_stack among them, are left out.  Of comp/glibc/: the functions without a body that the pointers in
    _rtld_global_ro mostly lead to (their names are in GlibcInit.v; audit.cpp, parts of exception.cpp and dl.cpp only log)
    and code that is commented out (stdlib.cpp); build_info.cpp prints strings of the build; the
    offsets of known builds (patch.offsets, data) are an argument of Patch.v.  Thread local storage, the
    trampolines and the redirection have states of their own; where the loader calls them ([Boot]), they
    are parameters that leave the lists of objects alone.  Locks are events, and the helper thread does not
    interleave with the program within an operation (the code holds its lock).  The contents of memory are
    only modelled for the code the loader writes, the stacks it builds and the buffers it fills. *)
From stdpp Require Export base gmap list strings pretty.
From Stdlib Require Export ZArith Lia.

Open Scope Z_scope.

(** * Machine words

    A [w]-bit integer is a [Z]; the conversions that C++ performs implicitly are written out. *)

Definition w64 (z : Z) : Z := z mod 2^64.
Definition w32 (z : Z) : Z := z mod 2^32.
Definition s32 (z : Z) : Z := let u := w32 z in if u <? 2^31 then u else u - 2^32.
Definition s64 (z : Z) : Z := let u := w64 z in if u <? 2^63 then u else u - 2^64.
Definition is_u64 (z : Z) : Prop := 0 <= z < 2^64.
Definition is_byte (z : Z) : Prop := 0 <= z < 256.

Lemma w64_range z : is_u64 (w64 z).
Proof. unfold is_u64, w64. apply Z.mod_pos_bound. lia. Qed.

Lemma w64_small z : is_u64 z -> w64 z = z.
Proof. unfold is_u64, w64. apply Z.mod_small. Qed.

Lemma w64_add_l x y : w64 (w64 x + y) = w64 (x + y).
Proof. unfold w64. apply Z.add_mod_idemp_l. lia. Qed.

Lemma w64_add_r x y : w64 (x + w64 y) = w64 (x + y).
Proof. unfold w64. apply Z.add_mod_idemp_r. lia. Qed.

Lemma w64_idemp x : w64 (w64 x) = w64 x.
Proof. apply w64_small, w64_range. Qed.

Lemma s32_small z : - 2^31 <= z < 2^31 -> s32 z = z.
Proof.
  intros Hz. unfold s32, w32. destruct (Z.ltb_spec (z mod 2^32) (2^31)) as [Hlt|Hge].
  - destruct (Z.le_gt_cases 0 z); [apply Z.mod_small; lia|].
    assert (z mod 2^32 = z + 2^32) by (symmetry; apply Z.mod_unique with (-1); lia). lia.
  - destruct (Z.le_gt_cases 0 z); [rewrite Z.mod_small in Hge by lia; lia|].
    assert (z mod 2^32 = z + 2^32) by (symmetry; apply Z.mod_unique with (-1); lia). lia.
Qed.

Lemma s32_cong z : exists k, s32 z = z + k * 2^32.
Proof.
  unfold s32, w32. pose proof (Z.div_mod z (2^32) ltac:(lia)).
  destruct (_ <? _); [exists (- (z / 2^32)) | exists (- (z / 2^32) - 1)]; lia.
Qed.

Lemma s32_range z : - 2^31 <= s32 z < 2^31.
Proof.
  unfold s32, w32. pose proof (Z.mod_pos_bound z (2^32) ltac:(lia)).
  destruct (Z.ltb_spec (z mod 2^32) (2^31)); lia.
Qed.

(** * Little endian encodings

    [*(m++) = (v >> 8*i) & 0xff] for i = 0 .. n-1. *)

Fixpoint le_bytes (n : nat) (v : Z) : list Z :=
  match n with
  | O => []
  | S n => Z.land v 255 :: le_bytes n (Z.shiftr v 8)
  end.

Fixpoint le_combine (bs : list Z) : Z :=
  match bs with
  | [] => 0
  | b :: bs => b + 256 * le_combine bs
  end.

Lemma le_bytes_length n v : length (le_bytes n v) = n.
Proof. revert v; induction n; intros; simpl; auto. Qed.

Lemma le_combine_bytes n v : le_combine (le_bytes n v) = v mod 2 ^ (8 * Z.of_nat n).
Proof.
  revert v; induction n as [|n IH]; intros v; simpl le_bytes; simpl le_combine.
  - by rewrite Z.mod_1_r.
  - rewrite IH. replace (Z.land v 255) with (v mod 256).
    2: { change 255 with (Z.ones 8). rewrite Z.land_ones by lia. done. }
    rewrite Z.shiftr_div_pow2 by lia. change (2^8) with 256.
    replace (8 * Z.of_nat (S n)) with (8 + 8 * Z.of_nat n) by lia.
    rewrite Z.pow_add_r by lia. change (2^8) with 256.
    rewrite Z.rem_mul_r by (try apply Z.pow_nonzero; lia). lia.
Qed.

Lemma le_bytes_is_byte n v : Forall is_byte (le_bytes n v).
Proof.
  revert v; induction n as [|n IH]; intros v; simpl; constructor; [|done].
  unfold is_byte. change 255 with (Z.ones 8). rewrite Z.land_ones by lia.
  apply Z.mod_pos_bound. lia.
Qed.

(** * Byte addressed memory

    A store of the process: an address that is not in the map is not mapped (and reads as zero,
    no definition relies on it). *)

Abbreviation memory := (gmap Z Z).

Definition rd (m : memory) (a : Z) : Z := default 0 (m !! a).

Fixpoint wr (m : memory) (a : Z) (bs : list Z) : memory :=
  match bs with
  | [] => m
  | b :: bs => wr (<[a := b]> m) (a + 1) bs
  end.

Fixpoint rds (m : memory) (a : Z) (n : nat) : list Z :=
  match n with
  | O => []
  | S n => rd m a :: rds m (a + 1) n
  end.

Lemma wr_lookup_out m a bs x :
  x < a \/ a + Z.of_nat (length bs) <= x -> wr m a bs !! x = m !! x.
Proof.
  revert m a; induction bs as [|b bs IH]; intros m a Hx; simpl; [done|].
  simpl length in Hx. rewrite IH by lia. rewrite lookup_insert_ne by lia. done.
Qed.

Lemma wr_lookup_in m a bs (i : nat) b :
  bs !! i = Some b -> wr m a bs !! (a + Z.of_nat i) = Some b.
Proof.
  revert m a i; induction bs as [|b' bs IH]; intros m a i Hi; [done|].
  destruct i as [|i]; simpl in Hi |- *; simplify_eq.
  - rewrite wr_lookup_out by lia. rewrite Z.add_0_r. apply lookup_insert_eq.
  - replace (a + Z.of_nat (S i)) with (a + 1 + Z.of_nat i) by lia. eauto.
Qed.

Lemma rd_wr_out m a bs x :
  x < a \/ a + Z.of_nat (length bs) <= x -> rd (wr m a bs) x = rd m x.
Proof. intros. unfold rd. by rewrite wr_lookup_out. Qed.

Lemma rds_length m a n : length (rds m a n) = n.
Proof. revert a; induction n; intros; simpl; auto. Qed.

Lemma rds_ext m1 m2 a n :
  (forall x, a <= x < a + Z.of_nat n -> rd m1 x = rd m2 x) -> rds m1 a n = rds m2 a n.
Proof.
  revert a; induction n as [|n IH]; intros a H; simpl; [done|].
  f_equal; [apply H; lia | apply IH; intros; apply H; lia].
Qed.

Lemma rds_app m a n1 n2 : rds m a (n1 + n2) = rds m a n1 ++ rds m (a + Z.of_nat n1) n2.
Proof.
  revert a; induction n1 as [|n IH]; intros a; simpl; [by rewrite Z.add_0_r|].
  rewrite IH. do 2 f_equal. f_equal. lia.
Qed.

Lemma rds_wr m a bs : rds (wr m a bs) a (length bs) = bs.
Proof.
  revert m a; induction bs as [|b bs IH]; intros m a; simpl; [done|].
  f_equal; [|apply IH].
  unfold rd. rewrite wr_lookup_out by lia. by rewrite lookup_insert_eq.
Qed.

Lemma rds_wr_out m a bs x n :
  x + Z.of_nat n <= a \/ a + Z.of_nat (length bs) <= x -> rds (wr m a bs) x n = rds m x n.
Proof. intros. apply rds_ext. intros. apply rd_wr_out. lia. Qed.

Lemma rd_wr_in m a bs x :
  a <= x < a + Z.of_nat (length bs) -> rd (wr m a bs) x = nth (Z.to_nat (x - a)) bs 0.
Proof.
  intros Hx. assert (Z.to_nat (x - a) < length bs)%nat as Hl by lia.
  destruct (lookup_lt_is_Some_2 _ _ Hl) as [b Hb]. unfold rd.
  replace x with (a + Z.of_nat (Z.to_nat (x - a))) at 1 by lia. rewrite (wr_lookup_in _ _ _ _ _ Hb). cbn.
  by apply nth_lookup_Some with (d := 0) in Hb.
Qed.

Lemma nth_rds m a n i : (i < n)%nat -> nth i (rds m a n) 0 = rd m (a + Z.of_nat i).
Proof.
  revert a i; induction n as [|n IH]; intros a i Hi; [lia|]. destruct i as [|i]; cbn [rds nth].
  - by rewrite Z.add_0_r.
  - rewrite IH by lia. f_equal. lia.
Qed.

Lemma wr_app m a bs1 bs2 :
  wr m a (bs1 ++ bs2) = wr (wr m a bs1) (a + Z.of_nat (length bs1)) bs2.
Proof.
  revert m a; induction bs1 as [|b bs IH]; intros m a; simpl; [by rewrite Z.add_0_r|].
  rewrite IH. f_equal. lia.
Qed.

(** * Effects

    [M S A]: code with state [S] that either returns, or stops at a failed [assert], or (only for
    the loops whose end depends on the environment) exhausts the fuel of the model. *)

Inductive res (A : Type) : Type :=
| Ok (a : A)
| AssertFailed
| OutOfFuel.
Arguments Ok {A} a.
Arguments AssertFailed {A}.
Arguments OutOfFuel {A}.

Definition M (S A : Type) : Type := S -> res (A * S).

#[export] Instance M_ret S : MRet (M S) := fun A a s => Ok (a, s).
#[export] Instance M_bind S : MBind (M S) := fun A B f m s =>
  match m s with
  | Ok (a, s') => f a s'
  | AssertFailed => AssertFailed
  | OutOfFuel => OutOfFuel
  end.

Definition get {S} : M S S := fun s => Ok (s, s).
Definition put {S} (s : S) : M S unit := fun _ => Ok (tt, s).
Definition modify {S} (f : S -> S) : M S unit := fun s => Ok (tt, f s).
Definition gets {S A} (f : S -> A) : M S A := fun s => Ok (f s, s).
Definition assert {S} (b : bool) : M S unit := fun s => if b then Ok (tt, s) else AssertFailed.
Definition no_fuel {S A} : M S A := fun _ => OutOfFuel.

(** [for (x : l) f(x);] *)
Fixpoint mfor {S A} (l : list A) (f : A -> M S unit) : M S unit :=
  match l with
  | [] => mret tt
  | x :: l => f x ;; mfor l f
  end.

(** [for (x : l) success &= f(x);] *)
Fixpoint mall {S A} (l : list A) (f : A -> M S bool) : M S bool :=
  match l with
  | [] => mret true
  | x :: l => b ← f x; r ← mall l f; mret (b && r)
  end.

(** Hoare triples: [hoare P m Q] is partial correctness, [total P m Q] also states that [m]
    returns (no assertion fails, no fuel is missing). *)
Definition hoare {S A} (P : S -> Prop) (m : M S A) (Q : A -> S -> Prop) : Prop :=
  forall s a s', P s -> m s = Ok (a, s') -> Q a s'.
Definition total {S A} (P : S -> Prop) (m : M S A) (Q : A -> S -> Prop) : Prop :=
  forall s, P s -> exists a s', m s = Ok (a, s') /\ Q a s'.

Section monad_lemmas.
Context {S : Type}.

Lemma Ok_inj {A} (a b : A) (s s' : S) : @Ok (A * S) (a, s) = Ok (b, s') -> a = b /\ s = s'.
Proof. intros [= -> ->]. done. Qed.

Lemma Ok_inv {A} (a b : A) (s s' : S) : @Ok (A * S) (a, s) = Ok (b, s') -> b = a /\ s' = s.
Proof. intros [= -> ->]. done. Qed.

Lemma bind_Ok {A B} (m : M S A) (f : A -> M S B) s b s'' :
  (m ≫= f) s = Ok (b, s'') <-> exists a s', m s = Ok (a, s') /\ f a s' = Ok (b, s'').
Proof.
  unfold mbind, M_bind. split.
  - destruct (m s) as [[a s']| |]; intros; [eauto|discriminate..].
  - intros (a & s' & -> & ?). done.
Qed.

Lemma hoare_bind {A B} P (m : M S A) Q (f : A -> M S B) R :
  hoare P m Q -> (forall a, hoare (Q a) (f a) R) -> hoare P (m ≫= f) R.
Proof. intros Hm Hf s b s' HP (a & s1 & H1 & H2)%bind_Ok. eapply Hf; eauto. Qed.

Lemma hoare_conseq {A} (P P' : S -> Prop) (m : M S A) (Q Q' : A -> S -> Prop) :
  hoare P m Q -> (forall s, P' s -> P s) -> (forall a s, Q a s -> Q' a s) -> hoare P' m Q'.
Proof. unfold hoare. eauto. Qed.

Lemma hoare_ret {A} (a : A) (Q : A -> S -> Prop) : hoare (Q a) (mret a) Q.
Proof. intros s a' s' HQ [= <- <-]. done. Qed.

Lemma hoare_mfor {A} (I : S -> Prop) (l : list A) (f : A -> M S unit) :
  (forall x, x ∈ l -> hoare I (f x) (fun _ => I)) -> hoare I (mfor l f) (fun _ => I).
Proof.
  induction l as [|x l IH]; intros Hf; simpl; [by intros s a s' HI [= <- <-]|].
  eapply hoare_bind; [apply Hf; set_solver|].
  cbn. intros []. apply IH. intros; apply Hf; set_solver.
Qed.

Lemma hoare_mall {A} (I : S -> Prop) (l : list A) (f : A -> M S bool) :
  (forall x, x ∈ l -> hoare I (f x) (fun _ => I)) -> hoare I (mall l f) (fun _ => I).
Proof.
  induction l as [|x l IH]; intros Hf; simpl; [by intros s a s' HI [= <- <-]|].
  eapply hoare_bind; [apply Hf; set_solver|]. intros b.
  eapply hoare_bind; [apply IH; intros; apply Hf; set_solver|].
  cbn. intros r s a s' HI Hr. apply Ok_inj in Hr as [_ <-]. done.
Qed.

Lemma total_hoare {A} (P : S -> Prop) (m : M S A) Q : total P m Q -> hoare P m Q.
Proof. intros Ht s a s' HP Hm. destruct (Ht s HP) as (a0 & s0 & E & HQ). by rewrite Hm in E; simplify_eq. Qed.

(** [keeps P m]: every run of [m] that returns keeps [P]. *)
Definition keeps {A} (P : S -> Prop) (m : M S A) : Prop := hoare P m (fun _ => P).

Lemma keeps_bind {A B} P (m : M S A) (f : A -> M S B) :
  keeps P m -> (forall a, keeps P (f a)) -> keeps P (m ≫= f).
Proof. intros. by eapply hoare_bind. Qed.
Lemma keeps_ret {A} P (a : A) : keeps P (mret a).
Proof. by intros s b s' ? [_ <-]%Ok_inj. Qed.
Lemma keeps_get P : keeps P get.
Proof. by intros s b s' ? [_ <-]%Ok_inj. Qed.
Lemma keeps_gets {A} P (f : S -> A) : keeps P (gets f).
Proof. by intros s b s' ? [_ <-]%Ok_inj. Qed.
Lemma keeps_modify (P : S -> Prop) f : (forall s, P s -> P (f s)) -> keeps P (modify f).
Proof. intros Hf s b s' ? [_ <-]%Ok_inj. auto. Qed.
Lemma keeps_assert P b : keeps P (assert b).
Proof. unfold assert. intros s a s' ?. destruct b; [by intros [_ <-]%Ok_inj|done]. Qed.
Lemma keeps_no_fuel {A} P : keeps P (@no_fuel S A).
Proof. by intros s a s' ?. Qed.
Lemma keeps_mfor {A} P (l : list A) f : (forall x, keeps P (f x)) -> keeps P (mfor l f).
Proof. intros Hf. apply hoare_mfor. intros x _. apply Hf. Qed.
Lemma keeps_mall {A} P (l : list A) f : (forall x, keeps P (f x)) -> keeps P (mall l f).
Proof. intros Hf. apply hoare_mall. intros x _. apply Hf. Qed.

(** [ends m]: no run of [m] lacks fuel. *)
Definition ends {A} (m : M S A) : Prop := forall s, m s <> OutOfFuel.

Lemma bind_OutOfFuel {A B} (m : M S A) (f : A -> M S B) s :
  (m ≫= f) s = OutOfFuel -> m s = OutOfFuel \/ exists a s', m s = Ok (a, s') /\ f a s' = OutOfFuel.
Proof. unfold mbind, M_bind. destruct (m s) as [[a s']| |]; eauto; done. Qed.
Lemma ends_bind {A B} (m : M S A) (f : A -> M S B) : ends m -> (forall a, ends (f a)) -> ends (m ≫= f).
Proof. intros Hm Hf s [Hs|(a & s' & _ & Hs)]%bind_OutOfFuel; [by apply Hm in Hs|by apply Hf in Hs]. Qed.
Lemma ends_ret {A} (a : A) : ends (mret a).
Proof. done. Qed.
Lemma ends_get : ends get.
Proof. done. Qed.
Lemma ends_gets {A} (f : S -> A) : ends (gets f).
Proof. done. Qed.
Lemma ends_modify f : ends (modify f).
Proof. done. Qed.
Lemma ends_assert b : ends (assert b).
Proof. intros s. unfold assert. by destruct b. Qed.
Lemma ends_mfor {A} (l : list A) f : (forall x, ends (f x)) -> ends (mfor l f).
Proof. intros Hf. induction l as [|x l IH]; [done|]. by apply ends_bind. Qed.
Lemma ends_mall {A} (l : list A) f : (forall x, ends (f x)) -> ends (mall l f).
Proof.
  intros Hf. induction l as [|x l IH]; [done|]. apply ends_bind; [done|]. intros a. by apply ends_bind.
Qed.
End monad_lemmas.

(** * Automation *)

(** Unfold the monad and compute. *)
Ltac munfold := unfold mbind, mret, M_bind, M_ret, get, put, modify, gets, assert, no_fuel in *.

(** Eliminate the variable an equation defines. *)
Ltac subst_eq E :=
  try match type of E with
  | ?x = _ => is_var x; subst x
  | _ = ?x => is_var x; subst x
  end.
Ltac Ok_inv_subst H :=
  let E1 := fresh "Hret" in let E2 := fresh "Hret" in
  apply Ok_inv in H as [E1 E2]; subst_eq E2; subst_eq E1.

(** Split a successful run of a monadic program into its steps. *)
Ltac msplit :=
  repeat match goal with
  | H : mbind _ _ _ = Ok _ |- _ =>
      let a := fresh "x" in let s := fresh "s" in let H1 := fresh "Hm" in
      apply bind_Ok in H as (a & s & H1 & H)
  | H : mret _ _ = Ok _ |- _ => Ok_inv_subst H
  | H : get _ = Ok _ |- _ => Ok_inv_subst H
  | H : put _ _ = Ok _ |- _ => Ok_inv_subst H
  | H : modify _ _ = Ok _ |- _ => Ok_inv_subst H
  | H : gets _ _ = Ok _ |- _ => Ok_inv_subst H
  | H : assert ?b _ = Ok _ |- _ =>
      let E := fresh "Ha" in
      unfold assert in H; destruct b eqn:E; [Ok_inv_subst H|discriminate H]
  | H : no_fuel _ = Ok _ |- _ => discriminate H
  | H : Ok _ = Ok _ |- _ => Ok_inv_subst H
  | H : AssertFailed = Ok _ |- _ => discriminate H
  end.

(** Case analysis on every condition of the code that a hypothesis or the goal is stuck on. *)
Ltac mcases := repeat (msplit; case_match); msplit.

(** Prove [keeps P m] by the structure of [m]; leaves the state changes. *)
Ltac keeps_step :=
  first
    [ apply keeps_bind; [|intros ?] | apply keeps_ret | apply keeps_get | apply keeps_gets
    | apply keeps_assert | apply keeps_no_fuel
    | apply keeps_mfor; intros ? | apply keeps_mall; intros ?
    | solve [eauto 3 with luci] | case_match ].
(** Prove [ends m] in the same way. *)
Ltac ends_step :=
  first
    [ apply ends_bind; [|intros ?] | apply ends_ret | apply ends_get | apply ends_gets | apply ends_modify
    | apply ends_assert | apply ends_mfor; intros ? | apply ends_mall; intros ?
    | solve [eauto 3 with luci] | case_match ].
Ltac solve_keeps := repeat keeps_step; try (apply keeps_modify; cbn; intros; try done).

Create HintDb luci discriminated.
#[export] Hint Resolve w64_range le_bytes_is_byte hoare_ret : luci.
#[export] Hint Rewrite le_bytes_length rds_length length_app : luci.

(** * Record update

    [r <| f := v |>] is [r] with the field [f] replaced, [r <| f ::= g |>] with [g] applied to it.
    A record type takes part by an instance of [Eta] that rebuilds it from its fields; the setter of
    a field is derived from it. *)
Class Eta (R : Type) := eta : R -> R.
Class Setter {R T : Type} (p : R -> T) := over : (T -> T) -> R -> R.
Arguments over {R T} p {_} f r /.

Ltac build_setter R p :=
  let i := constr:(_ : Eta R) in
  let h := lazymatch i with ?h => h end in
  let e := eval unfold h in i in
  match eval pattern p in e with
  | ?F _ =>
      let t := constr:(fun g (r : R) => F (fun r' => g (p r')) r) in
      let t := eval cbv beta in t in exact t
  end.
#[export] Hint Extern 1 (@Setter ?R ?T ?p) => build_setter R p : typeclass_instances.

Declare Scope luci_scope.
Notation "r <| p := v |>" := (over p (fun _ => v) r)
  (at level 1, left associativity, p constr at level 9, v constr at level 200) : luci_scope.
Notation "r <| p ::= f |>" := (over p f r)
  (at level 1, left associativity, p constr at level 9, f constr at level 200) : luci_scope.
Open Scope luci_scope.

(** * Lists *)

Lemma elem_of_concat {A} (x : A) ls : x ∈ concat ls <-> exists l, l ∈ ls /\ x ∈ l.
Proof. rewrite list_elem_of_In, in_concat. by setoid_rewrite list_elem_of_In. Qed.

Lemma existsb_exists_elem {A} (f : A -> bool) (l : list A) :
  existsb f l = true <-> exists x, x ∈ l /\ f x = true.
Proof.
  rewrite existsb_exists. split; intros (x & H & Hf); exists x; (split; [by apply list_elem_of_In|exact Hf]).
Qed.
