(* ===== verification/Platform.v ===== *)
(** The environment of the program that is not part of its sources: the DLH support library
    (git submodule) and the Linux kernel.

    DLH functions are parameters ([DlhMath]); what the code relies on is stated as the laws of
    [DlhMathSpec].  System calls are answered by an arbitrary kernel [kernel] that sees the history
    of all calls; nothing is assumed about its answers unless a theorem says so. *)
From S2P Require Import Prelude.

(** * DLH: page size and alignment arithmetic *)

Class DlhMath := {
  PAGE_SIZE : Z;                  (* Page::SIZE *)
  align_up : Z -> Z -> Z;         (* Math::align_up(value, alignment) *)
  math_max : Z -> Z -> Z;         (* Math::max *)
  math_min : Z -> Z -> Z;         (* Math::min *)
}.

(** Rounding up to a multiple: the smallest multiple of the alignment that is not below the value.
    The page size of x86-64 is a multiple of 16 (it is a power of two, at least 4096). *)
Class DlhMathSpec `{DlhMath} : Prop := {
  page_size_pos : 0 < PAGE_SIZE;
  page_size_16 : (16 | PAGE_SIZE);
  page_size_2_64 : (PAGE_SIZE | 2^64);
  align_up_ge v a : 0 <= v -> 0 < a -> v <= align_up v a;
  align_up_lt v a : 0 <= v -> 0 < a -> align_up v a < v + a;
  align_up_div v a : 0 <= v -> 0 < a -> (a | align_up v a);
  math_max_spec x y : math_max x y = Z.max x y;
  math_min_spec x y : math_min x y = Z.min x y;
  page_size_le : PAGE_SIZE <= 2^21;
}.

Section align_lemmas.
Context `{DlhMathSpec}.

Lemma align_up_mod v a : 0 <= v -> 0 < a -> align_up v a mod a = 0.
Proof. intros. apply Z.mod_divide; [lia|]. by apply align_up_div. Qed.

Lemma align_up_id v a : 0 <= v -> 0 < a -> (a | v) -> align_up v a = v.
Proof.
  intros Hv Ha [k ->]. destruct (align_up_div (k * a) a Hv Ha) as [k' Hk'].
  pose proof (align_up_ge (k * a) a Hv Ha). pose proof (align_up_lt (k * a) a Hv Ha).
  assert (k' = k) by nia. lia.
Qed.
End align_lemmas.

(** The instance the witnesses compute with. *)
Definition dlh_4k : DlhMath := {|
  PAGE_SIZE := 4096;
  align_up v a := (v + a - 1) / a * a;
  math_max := Z.max;
  math_min := Z.min;
|}.

Lemma dlh_4k_spec : @DlhMathSpec dlh_4k.
Proof.
  split; simpl; try lia; intros; try done.
  - exists 256. lia.
  - exists (2^52). lia.
  - pose proof (Z.div_mod (v + a - 1) a ltac:(lia)).
    pose proof (Z.mod_pos_bound (v + a - 1) a ltac:(lia)). nia.
  - pose proof (Z.div_mod (v + a - 1) a ltac:(lia)).
    pose proof (Z.mod_pos_bound (v + a - 1) a ltac:(lia)). nia.
  - by exists ((v + a - 1) / a).
Defined.

(** A second instance with tiny pages, where computing with whole pages has to be cheap. *)
Definition dlh_tiny : DlhMath := {|
  PAGE_SIZE := 32;
  align_up v a := (v + a - 1) / a * a;
  math_max := Z.max;
  math_min := Z.min;
|}.

Lemma dlh_tiny_spec : @DlhMathSpec dlh_tiny.
Proof.
  destruct dlh_4k_spec as [_ _ _ Hge Hlt Hdiv _ _ _]. split; simpl; try done; try lia.
  - exists 2. lia.
  - exists (2^59). lia.
Defined.

(** * Linux ABI constants *)

Definition PROT_NONE : Z := 0.
Definition PROT_READ : Z := 1.
Definition PROT_WRITE : Z := 2.
Definition PROT_EXEC : Z := 4.
Definition MAP_SHARED : Z := 0x01.
Definition MAP_PRIVATE : Z := 0x02.
Definition MAP_ANONYMOUS : Z := 0x20.
Definition MAP_NORESERVE : Z := 0x4000.
Definition MAP_POPULATE : Z := 0x8000.
Definition MAP_STACK : Z := 0x20000.
Definition MAP_FIXED_NOREPLACE : Z := 0x100000.
Definition MREMAP_MAYMOVE : Z := 1.
Definition MREMAP_FIXED : Z := 2.
Definition MREMAP_DONTUNMAP : Z := 4.
Definition MFD_CLOEXEC : Z := 1.
Definition MFD_ALLOW_SEALING : Z := 2.

Definition has_flag (x f : Z) : bool := negb (Z.land x f =? 0).

(** * System calls *)

Inductive syscall : Type :=
| Sys_mmap (addr len prot flags fd off : Z)
| Sys_munmap (addr len : Z)
| Sys_mprotect (addr len prot : Z)
| Sys_mremap (old old_len new_len flags new : Z)
| Sys_memfd_create (name : string) (flags : Z)
| Sys_ftruncate (fd len : Z)
| Sys_seal (fd : Z)                      (* fcntl(F_ADD_SEALS, GROW | SHRINK | SEAL) *)
| Sys_uffd_register (fd start len : Z)   (* ioctl(UFFDIO_REGISTER), missing mode *)
| Sys_uffd_unregister (fd start len : Z) (* ioctl(UFFDIO_UNREGISTER) *)
| Sys_uffd_copy (fd dst src len : Z)     (* ioctl(UFFDIO_COPY) *)
| Sys_copy_file_range (fd_in fd_out len : Z)
| Sys_open (path : string) (flags : Z)
| Sys_close (fd : Z)
| Sys_fstat (fd : Z)
| Sys_lstat (path : string)
| Sys_inotify_init
| Sys_inotify_add_watch (fd : Z) (path : string) (mask : Z)
| Sys_inotify_rm_watch (fd wd : Z)
| Sys_userfaultfd
| Sys_uffd_api (fd : Z)
| Sys_thread_create
| Sys_clone
| Sys_kill (pid sig : Z)
| Sys_read (fd len : Z)
| Sys_poll (fds : list Z) (timeout : Z)
| Sys_clock_gettime
| Sys_fork
| Sys_write (fd : Z) (text : string).

(** [Success v] / [Failure errno]: the two states of a DLH [ReturnValue]. *)
Inductive sysret : Type :=
| Success (v : Z)
| Failure (errno : Z).

#[export] Instance syscall_eq_dec : EqDecision syscall.
Proof. solve_decision. Defined.
#[export] Instance sysret_eq_dec : EqDecision sysret.
Proof. solve_decision. Defined.

Definition success (r : sysret) : bool := match r with Success _ => true | Failure _ => false end.

(** The virtual functions of an object (object/base.hpp) whose calls are part of the history. *)
Inductive vfun := V_preload | V_map | V_fix | V_preprepare | V_prepare | V_update | V_finalize
                | V_preinitialize | V_initialize | V_patchable | V_disable.

#[export] Instance vfun_eq_dec : EqDecision vfun.
Proof. solve_decision. Defined.

(** Elf::Relocation (elfo): place, index of the symbol (0: none), type and addend *)
Record relocation := Reloc { r_offset : Z; r_symbol : Z; r_type : Z; r_addend : Z }.
#[export] Instance relocation_eq_dec : EqDecision relocation.
Proof. solve_decision. Defined.

(** What the process does to the world: system calls with their answers, memory copies, calls of the
    virtual functions of an object, and calls of code outside of the program (an update hook of the
    user, the breakpoint function of the debugger), relocations and other stores of a word. *)
Inductive event : Type :=
| Ev_sys (c : syscall) (r : sysret)
| Ev_copy (dst src len : Z)
| Ev_virtual (f : vfun) (object : Z)
| Ev_call (function argument : Z)
| Ev_fix (r : relocation) (base value : Z)   (* Relocator::fix_value_...(base, value) *)
| Ev_add (address increment : Z)             (* *address += increment *)
| Ev_store (address value : Z)               (* *address = value *)
| Ev_lock | Ev_unlock                        (* lookup_sync.write_lock(), lookup_sync.write_unlock() *)
| Ev_read_lock | Ev_read_unlock.             (* lookup_sync.read_lock(), lookup_sync.read_unlock() *)

Definition kernel_t : Type := list event -> syscall -> sysret.

(** State of a component together with the history of events. *)
Record traced (S : Type) : Type := Traced { t_state : S; t_trace : list event }.
Arguments Traced {S} _ _.
Arguments t_state {S} _.
Arguments t_trace {S} _.

Section traced_ops.
Context {S : Type} (kernel : kernel_t).

Definition sys (c : syscall) : M (traced S) sysret := fun w =>
  let r := kernel (t_trace w) c in
  Ok (r, Traced (t_state w) (t_trace w ++ [Ev_sys c r])).

(** Memory::copy(dst, src, len) *)
Definition mem_copy (dst src len : Z) : M (traced S) unit := fun w =>
  Ok (tt, Traced (t_state w) (t_trace w ++ [Ev_copy dst src len])).

Definition st : M (traced S) S := fun w => Ok (t_state w, w).
Definition upd (f : S -> S) : M (traced S) unit := fun w =>
  Ok (tt, Traced (f (t_state w)) (t_trace w)).
End traced_ops.

Definition is_copy (e : event) : bool := match e with Ev_copy _ _ _ => true | _ => false end.

(** The mappings a history leaves: what mmap returned and mremap moved, less what munmap released. *)
Definition live_maps (tr : list event) : list (Z * Z) :=
  foldl (fun acc e =>
    match e with
    | Ev_sys (Sys_mmap _ len _ _ _ _) (Success v) => (v, len) :: acc
    | Ev_sys (Sys_munmap a _) (Success _) => filter (fun r => r.1 <> a) acc
    | Ev_sys (Sys_mremap old _ len fl new) (Success v) =>
        (if has_flag fl MREMAP_FIXED then new else v, len)
        :: (if has_flag fl MREMAP_DONTUNMAP then acc else filter (fun r => r.1 <> old) acc)
    | _ => acc
    end) [] tr.

Definition disjoint_range (a1 l1 a2 l2 : Z) : Prop := a1 + l1 <= a2 \/ a2 + l2 <= a1.

(** Without MAP_FIXED, mmap returns a range of the user address space that overlaps no mapping. *)
Definition mmap_fresh (kernel : kernel_t) : Prop :=
  forall tr a len prot flags fd off v,
    kernel tr (Sys_mmap a len prot flags fd off) = Success v ->
    0 < v /\ v + len < 2^47
    /\ (forall b l, (b, l) ∈ live_maps tr -> disjoint_range v len b l).

Lemma live_maps_app tr e : live_maps (tr ++ [e]) =
  match e with
  | Ev_sys (Sys_mmap _ len _ _ _ _) (Success v) => (v, len) :: live_maps tr
  | Ev_sys (Sys_munmap a _) (Success _) => filter (fun r => r.1 <> a) (live_maps tr)
  | Ev_sys (Sys_mremap old _ len fl new) (Success v) =>
      (if has_flag fl MREMAP_FIXED then new else v, len)
      :: (if has_flag fl MREMAP_DONTUNMAP then live_maps tr else filter (fun r => r.1 <> old) (live_maps tr))
  | _ => live_maps tr
  end.
Proof. unfold live_maps. by rewrite foldl_app. Qed.

(** ** Contents of memory

    What the events of a history do to the bytes of the process: a mapping receives zeroes or the
    contents of the file ([file_bytes]), copies and moves copy. *)
Definition apply_event (file_bytes : Z -> Z -> nat -> list Z) (m : memory) (e : event) : memory :=
  match e with
  | Ev_copy dst src len => wr m dst (rds m src (Z.to_nat len))
  | Ev_sys (Sys_mmap _ len _ fl fd off) (Success v) =>
      wr m v (if has_flag fl MAP_ANONYMOUS then replicate (Z.to_nat len) 0 else file_bytes fd off (Z.to_nat len))
  | Ev_sys (Sys_mremap old _ len fl new) (Success v) =>
      wr m (if has_flag fl MREMAP_FIXED then new else v) (rds m old (Z.to_nat len))
  | _ => m
  end.
Definition play (file_bytes : Z -> Z -> nat -> list Z) (m : memory) (es : list event) : memory :=
  foldl (apply_event file_bytes) m es.

(** A kernel for the witnesses: every mapping goes behind the existing ones. *)
Definition maps_end (tr : list event) : Z :=
  foldr (fun r acc => Z.max (r.1 + r.2) acc) 0x100000 (live_maps tr).
Definition bump_kernel : kernel_t := fun tr c =>
  match c with
  | Sys_mmap a len _ _ _ _ =>
      if maps_end tr + len <? 2^47 then Success (maps_end tr) else Failure 12
  | _ => Success 0
  end.

Lemma maps_end_ge tr : 0x100000 <= maps_end tr /\ forall b l, (b, l) ∈ live_maps tr -> b + l <= maps_end tr.
Proof.
  unfold maps_end. induction (live_maps tr) as [|[b' l'] m [IH1 IH2]]; cbn; [split; [lia|set_solver]|].
  split; [lia|]. intros b l [[= -> ->]|Hin]%elem_of_cons; [lia|]. specialize (IH2 b l Hin). lia.
Qed.

Lemma bump_kernel_fresh : mmap_fresh bump_kernel.
Proof.
  intros tr a len prot flags fd off v. unfold bump_kernel.
  destruct (Z.ltb_spec (maps_end tr + len) (2^47)); intros [= <-].
  destruct (maps_end_ge tr) as [H1 H2]. split; [lia|]. split; [lia|].
  intros b l Hin. right. by apply H2.
Qed.

(** Unfold one run of a traced computation. *)
Ltac tunfold := unfold sys, mem_copy, st, upd in *; munfold; cbn [t_state t_trace] in *.
