(* ===== verification/X86.v ===== *)
(** The few x86-64 instructions the loader writes into memory, as a specification of what the
    processor does with them: [exec load rip] is the address at which execution continues after the
    control transfer that starts at [rip] (an optional endbr64 is skipped). *)
From S2P Require Import Prelude.

Module X86.

Definition sext32 (z : Z) : Z := s32 z.

(** Little endian load of [n] bytes. *)
Definition load_le (load : Z -> Z) (a : Z) (n : nat) : Z :=
  le_combine ((fun i => load (a + Z.of_nat i)) <$> seq 0 n).

Definition exec_jump (load : Z -> Z) (rip : Z) : option Z :=
  if load rip =? 0xe9 then                                    (* jmp rel32 *)
    Some (w64 (rip + 5 + sext32 (load_le load (rip + 1) 4)))
  else if (load rip =? 0xff) && (load (rip + 1) =? 0x25) then (* jmp [rip + disp32] *)
    Some (load_le load (w64 (rip + 6 + sext32 (load_le load (rip + 2) 4))) 8)
  else None.

Definition is_endbr64 (load : Z -> Z) (rip : Z) : bool :=
  (load rip =? 0xf3) && (load (rip + 1) =? 0x0f) && (load (rip + 2) =? 0x1e) && (load (rip + 3) =? 0xfa).

Definition exec (load : Z -> Z) (rip : Z) : option Z :=
  if is_endbr64 load rip then exec_jump load (rip + 4) else exec_jump load rip.

(** ** Accesses relative to the instruction pointer

    The instructions a GOTPCRELX relocation may be part of, by the address [a] of the opcode byte (a REX prefix
    is in front of it); the displacement is at [a + 2], the next instruction at [a + 6].  The effect is a
    jump, with the return address of a call, or the value a register gets ([reg]: the bits of ModRM). *)
Inductive effect := Jump (target : Z) (return_address : option Z) | LoadReg (reg value : Z).

Definition rip_relative (modrm : Z) : bool := Z.land modrm 0xc7 =? 0x05.
Definition reg_of (modrm : Z) : Z := Z.land modrm 0x38.
Definition effective (load : Z -> Z) (a : Z) : Z := w64 (a + 6 + sext32 (load_le load (a + 2) 4)).

Definition access (load : Z -> Z) (a : Z) : option effect :=
  let b0 := load a in
  let b1 := load (a + 1) in
  if b0 =? 0x8b then                                          (* mov reg, [rip + disp32] *)
    if rip_relative b1 then Some (LoadReg (reg_of b1) (load_le load (effective load a) 8)) else None
  else if b0 =? 0x8d then                                     (* lea reg, [rip + disp32] *)
    if rip_relative b1 then Some (LoadReg (reg_of b1) (effective load a)) else None
  else if (b0 =? 0xff) && (b1 =? 0x15) then                   (* call [rip + disp32] *)
    Some (Jump (load_le load (effective load a) 8) (Some (a + 6)))
  else if (b0 =? 0xff) && (b1 =? 0x25) then                   (* jmp [rip + disp32] *)
    Some (Jump (load_le load (effective load a) 8) None)
  else if (b0 =? 0x90) && (b1 =? 0xe8) then                   (* nop; call rel32 *)
    Some (Jump (effective load a) (Some (a + 6)))
  else if (b0 =? 0x90) && (b1 =? 0xe9) then                   (* nop; jmp rel32 *)
    Some (Jump (effective load a) None)
  else None.

(** ** Encodings *)

(** [load] reads the bytes [bs] at [a]. *)
Definition reads (load : Z -> Z) (a : Z) (bs : list Z) : Prop :=
  forall i b, bs !! i = Some b -> load (a + Z.of_nat i) = b.

Lemma reads_app load a bs1 bs2 :
  reads load a (bs1 ++ bs2) <-> reads load a bs1 /\ reads load (a + Z.of_nat (length bs1)) bs2.
Proof.
  unfold reads. split.
  - intros H. split; intros i b Hi.
    + apply H. by apply lookup_app_l_Some.
    + rewrite <- Z.add_assoc, <- Nat2Z.inj_add. apply H. rewrite lookup_app_r by lia. by replace (_ + i - _)%nat with i by lia.
  - intros [H1 H2] i b [Hi|[Hl Hi]]%lookup_app_Some; [by apply H1|].
    replace (Z.of_nat i) with (Z.of_nat (length bs1) + Z.of_nat (i - length bs1)) by lia.
    rewrite Z.add_assoc. by apply H2.
Qed.

Lemma reads_cons load a b bs : reads load a (b :: bs) <-> load a = b /\ reads load (a + 1) bs.
Proof.
  change (b :: bs) with ([b] ++ bs). rewrite reads_app. cbn. apply and_iff_compat_r. split.
  - intros H. specialize (H 0%nat b eq_refl). by rewrite Z.add_0_r in H.
  - intros H [|i] x Hx; simplify_eq/=. by rewrite Z.add_0_r.
Qed.

Lemma reads_load_le load a bs : reads load a bs -> load_le load a (length bs) = le_combine bs.
Proof.
  intros H. unfold load_le. f_equal. apply list_eq. intros i. rewrite list_lookup_fmap.
  destruct (decide (i < length bs)%nat) as [Hi|Hi].
  - rewrite lookup_seq_lt by done. cbn. destruct (lookup_lt_is_Some_2 bs i Hi) as [b Hb].
    rewrite Hb. by rewrite (H i b Hb).
  - rewrite lookup_seq_ge by lia. cbn. symmetry. apply lookup_ge_None. lia.
Qed.

Definition jmp_rel32 (rel : Z) : list Z := 0xe9 :: le_bytes 4 rel.
Definition jmp_mem (disp : Z) : list Z := [0xff; 0x25] ++ le_bytes 4 disp.
Definition endbr64 : list Z := [0xf3; 0x0f; 0x1e; 0xfa].

Lemma load_le_32 load a v : reads load a (le_bytes 4 v) -> load_le load a 4 = w32 v.
Proof.
  intros H. apply reads_load_le in H. rewrite le_bytes_length, le_combine_bytes in H. exact H.
Qed.
Lemma load_le_64 load a v : reads load a (le_bytes 8 v) -> load_le load a 8 = w64 v.
Proof.
  intros H. apply reads_load_le in H. rewrite le_bytes_length, le_combine_bytes in H. exact H.
Qed.

Lemma s32_w32 v : s32 (w32 v) = s32 v.
Proof. unfold s32, w32. by rewrite Z.mod_mod. Qed.

Lemma exec_jmp_rel32 load rip rel :
  reads load rip (jmp_rel32 rel) -> exec load rip = Some (w64 (rip + 5 + s32 rel)).
Proof.
  unfold jmp_rel32. intros [H1 H2%load_le_32]%reads_cons.
  unfold exec, is_endbr64, exec_jump, sext32. rewrite H1, H2. cbn. by rewrite s32_w32.
Qed.

Lemma exec_jump_mem load rip disp :
  reads load rip (jmp_mem disp) ->
  load rip = 0xff /\ exec_jump load rip = Some (load_le load (w64 (rip + 6 + s32 disp)) 8).
Proof.
  unfold jmp_mem. intros [H1 [H2 H3]%reads_cons]%reads_cons.
  replace (rip + 1 + 1) with (rip + 2) in H3 by lia. apply load_le_32 in H3.
  split; [done|]. unfold exec_jump, sext32. rewrite H1, H2, H3. cbn. by rewrite s32_w32.
Qed.

Lemma exec_jmp_mem load rip disp :
  reads load rip (jmp_mem disp) -> exec load rip = Some (load_le load (w64 (rip + 6 + s32 disp)) 8).
Proof. intros [H1 <-]%exec_jump_mem. unfold exec, is_endbr64. by rewrite H1. Qed.

Lemma exec_endbr_jmp_mem load rip disp :
  reads load rip (endbr64 ++ jmp_mem disp) ->
  exec load rip = Some (load_le load (w64 (rip + 10 + s32 disp)) 8).
Proof.
  intros [He Hj]%reads_app. change (Z.of_nat (length endbr64)) with 4 in Hj.
  apply exec_jump_mem in Hj as [_ Hj]. unfold exec.
  replace (is_endbr64 load rip) with true.
  - rewrite Hj. do 4 f_equal. lia.
  - unfold is_endbr64, endbr64 in *.
    apply reads_cons in He as [H0 He]. apply reads_cons in He as [H1 He].
    apply reads_cons in He as [H2 He]. apply reads_cons in He as [H3 _].
    replace (rip + 1 + 1 + 1) with (rip + 3) in H3 by lia. replace (rip + 1 + 1) with (rip + 2) in H2 by lia.
    by rewrite H0, H1, H2, H3.
Qed.

(** ** Code in memory *)

Lemma reads_wr m a bs : reads (rd (wr m a bs)) a bs.
Proof. intros i b Hi. unfold rd. by rewrite (wr_lookup_in _ _ _ _ _ Hi). Qed.

Lemma reads_wr_out m a bs x cs :
  x + Z.of_nat (length cs) <= a \/ a + Z.of_nat (length bs) <= x ->
  reads (rd m) x cs -> reads (rd (wr m a bs)) x cs.
Proof.
  intros Hd Hr i c Hi. apply lookup_lt_Some in Hi as Hl. rewrite rd_wr_out by lia. by apply Hr.
Qed.

(** The 64-bit word at an address. *)
Definition word (m : memory) (a : Z) : Z := load_le (rd m) a 8.

Lemma word_wr m a v : is_u64 v -> word (wr m a (le_bytes 8 v)) a = v.
Proof.
  intros Hv. unfold word. rewrite (load_le_64 _ _ v) by apply reads_wr. by apply w64_small.
Qed.

Lemma word_wr_out m a bs x :
  x + 8 <= a \/ a + Z.of_nat (length bs) <= x -> word (wr m a bs) x = word m x.
Proof.
  intros Hd. unfold word, load_le. f_equal. apply list_fmap_ext. intros i j [-> ?]%lookup_seq.
  apply rd_wr_out. lia.
Qed.
End X86.
