(* ===== verification/Segment.v ===== *)
(** Memory segments (src/src/memory_segment.hpp, src/src/memory_segment.cpp): the mapping of one
    part of an object into the process, its composing back buffer, the protection changes and the
    disabling of outdated code. *)
From S2P Require Import Prelude Platform.

Module MemorySegment.

Inductive Status := MEMSEG_NOT_MAPPED | MEMSEG_MAPPED | MEMSEG_INACTIVE | MEMSEG_REACTIVATED.

#[export] Instance Status_eq_dec : EqDecision Status.
Proof. solve_decision. Defined.

(** Loader::Config::DetectOutdated *)
Inductive DetectOutdated :=
| DETECT_OUTDATED_DISABLED
| DETECT_OUTDATED_VIA_USERFAULTFD
| DETECT_OUTDATED_VIA_UPROBES
| DETECT_OUTDATED_WITH_DEPS_VIA_UPROBES
| DETECT_OUTDATED_VIA_PTRACE.

#[export] Instance DetectOutdated_eq_dec : EqDecision DetectOutdated.
Proof. solve_decision. Defined.

(** The part of [source.object] (and of its identity and loader) the segment code reads. *)
Record object_ctx := {
  data_fd : Z;                (* object.data.fd *)
  data_addr : Z;              (* object.data.addr *)
  data_hash : Z;              (* object.data.hash *)
  file_name : string;         (* object.file.name *)
  file_previous : bool;       (* object.file_previous != nullptr *)
  use_data_alias : bool;      (* object.use_data_alias() *)
  premapped : bool;           (* object.file.flags.premapped *)
  process_started : bool;     (* object.file.loader.process_started *)
  detect_outdated : DetectOutdated;
  userfaultfd : Z;
}.

(** [source] and [target] of struct MemorySegment, and the back [buffer]. *)
Record segment := Segment {
  src_offset : Z; src_size : Z;
  base : Z; offset : Z; size : Z;
  protection : Z; effective_protection : Z;
  fd : Z; flags : Z; relro : bool; status : Status;
  buffer : Z;
}.

Definition set_effective (p : Z) (s : segment) : segment :=
  Segment (src_offset s) (src_size s) (base s) (offset s) (size s) (protection s) p
          (fd s) (flags s) (relro s) (status s) (buffer s).
Definition set_fd (f : Z) (s : segment) : segment :=
  Segment (src_offset s) (src_size s) (base s) (offset s) (size s) (protection s)
          (effective_protection s) f (flags s) (relro s) (status s) (buffer s).
Definition set_flags (f : Z) (s : segment) : segment :=
  Segment (src_offset s) (src_size s) (base s) (offset s) (size s) (protection s)
          (effective_protection s) (fd s) f (relro s) (status s) (buffer s).
Definition set_status (x : Status) (s : segment) : segment :=
  Segment (src_offset s) (src_size s) (base s) (offset s) (size s) (protection s)
          (effective_protection s) (fd s) (flags s) (relro s) x (buffer s).
Definition set_buffer (b : Z) (s : segment) : segment :=
  Segment (src_offset s) (src_size s) (base s) (offset s) (size s) (protection s)
          (effective_protection s) (fd s) (flags s) (relro s) (status s) b.

(** What the constructors take from an ELF segment and an ELF section. *)
Record elf_segment := {
  seg_offset : Z; seg_size : Z; seg_virt_addr : Z; seg_virt_size : Z; seg_alignment : Z;
  seg_readable : bool; seg_writeable : bool; seg_executable : bool;
  seg_is_relro : bool;        (* type() == PT_GNU_RELRO *)
}.
Record elf_section := {
  sec_offset : Z; sec_size : Z; sec_alignment : Z;
  sec_writeable : bool; sec_executable : bool;
  sec_nobits : bool;          (* type() == SHT_NOBITS *)
}.

Section segment.
Context `{DlhMath}.
Context (hex : Z -> string).          (* DLH stream formatting: << hex << n *)
Context (kernel : kernel_t).
Abbreviation W := (traced segment).

(** ** Addresses *)

Definition address (s : segment) : Z := w64 (base s + offset s).
Definition page_start (s : segment) : Z := address s - (address s) mod PAGE_SIZE.
Definition page_size (s : segment) : Z :=
  let tmp := w64 ((address s - page_start s) + size s + PAGE_SIZE - 1) in
  tmp - tmp mod PAGE_SIZE.
Definition page_end (s : segment) : Z := w64 (page_start s + page_size s).
Definition contains (s : segment) (ptr : Z) : bool :=
  (w64 (base s + offset s) <=? ptr) && (ptr <? w64 (base s + offset s + size s)).
Definition writable (s : segment) : bool := has_flag (protection s) PROT_WRITE.
Definition compose_pointer (s : segment) (ptr : Z) : Z :=
  if contains s ptr then w64 (buffer s + offset s + ptr - address s) else 0.

(** ** Constructors; [None] when their assertion fails *)

Definition initial_status (o : object_ctx) : Status :=
  if premapped o then MEMSEG_MAPPED else MEMSEG_NOT_MAPPED.

Definition of_segment (o : object_ctx) (g : elf_segment) (base offset_delta : Z) : option segment :=
  let prot := Z.lor (Z.lor (if seg_readable g || seg_is_relro g then PROT_READ else PROT_NONE)
                           (if seg_writeable g then PROT_WRITE else 0))
                    (if seg_executable g then PROT_EXEC else 0) in
  let s := Segment (w64 (seg_offset g + offset_delta)) (w64 (seg_size g - offset_delta))
                   base (w64 (seg_virt_addr g + offset_delta)) (w64 (seg_virt_size g - offset_delta))
                   prot PROT_NONE (-1) 0 (seg_is_relro g) (initial_status o) 0 in
  if src_size s <=? size s then Some s else None.

Definition of_section (o : object_ctx) (c : elf_section) (target_offset target_size_delta base : Z)
  : option segment :=
  let prot := Z.lor (Z.lor (Z.lor PROT_READ PROT_WRITE) (if sec_writeable c then PROT_WRITE else 0))
                    (if sec_executable c then PROT_EXEC else 0) in
  let s := Segment (sec_offset c) (if sec_nobits c then 0 else sec_size c)
                   base target_offset (w64 (sec_size c + target_size_delta))
                   prot PROT_NONE (-1) 0 false (initial_status o) 0 in
  if address s mod sec_alignment c =? 0 then Some s else None.

Definition of_bss (target_offset target_size base : Z) : segment :=
  Segment 0 0 base target_offset target_size (Z.lor PROT_READ PROT_WRITE) PROT_NONE (-1) 0 false
          MEMSEG_NOT_MAPPED 0.

(** ** Shared memory *)

Definition shmemfd (o : object_ctx) : M W Z :=
  s ← st;
  let shdata : string := (file_name o +:+ (if (data_hash o =? 0)%Z then EmptyString else "#" +:+ hex (data_hash o))
                 +:+ "@" +:+ hex (offset s))%string in
  r ← sys kernel (Sys_memfd_create shdata (Z.lor MFD_CLOEXEC MFD_ALLOW_SEALING));
  match r with
  | Success v => mret v
  | Failure _ => mret (-1)
  end.

(** ** Mapping *)

Definition map (o : object_ctx) : M W bool :=
  s ← st;
  let wr := has_flag (protection s) PROT_WRITE in
  let copy := (data_fd o <? 0)
           || ((0 <? src_size s) && negb (src_offset s mod PAGE_SIZE =? address s mod PAGE_SIZE))
           || wr
           || relro s in
  let prot := Z.lor (protection s) (if copy || wr || relro s then PROT_WRITE else 0) in
  (* the chosen source: None is "return false" *)
  src ←
    (if wr && use_data_alias o then
       let copy := fd s =? -1 in
       ok ← (if copy then
               assert (negb (file_previous o)) ;;
               f ← shmemfd o;
               upd (set_fd f) ;;
               if f =? -1 then mret false
               else
                 r ← sys kernel (Sys_ftruncate f (page_size s));
                 if success r then sys kernel (Sys_seal f) ;; mret true
                 else mret false
             else mret true);
       s ← st;
       mret (if ok : bool then Some (copy, Z.lor MAP_FIXED_NOREPLACE MAP_SHARED, fd s, 0) else None)
     else if copy || (src_size s =? 0) then
       mret (Some (copy, Z.lor MAP_FIXED_NOREPLACE (Z.lor MAP_ANONYMOUS MAP_PRIVATE), -1, 0))
     else
       let page_offset := address s mod PAGE_SIZE in
       assert ((page_offset <? PAGE_SIZE) && (page_offset <=? src_offset s)) ;;
       mret (Some (copy, Z.lor MAP_FIXED_NOREPLACE MAP_PRIVATE, data_fd o, src_offset s - page_offset)));
  match src with
  | None => mret false
  | Some (copy, flags, fd, off) =>
      r ← sys kernel (Sys_mmap (page_start s) (page_size s) prot flags fd off);
      match r with
      | Failure _ => mret false
      | Success v =>
          if negb (v =? page_start s) then mret false
          else
            upd (set_effective prot) ;;
            (if copy && (0 <? src_size s)
             then mem_copy (address s) (w64 (data_addr o + src_offset s)) (src_size s)
             else mret tt) ;;
            upd (set_status MEMSEG_MAPPED) ;;
            mret true
      end
  end.

Definition flags_privanon : Z := Z.lor MAP_ANONYMOUS MAP_PRIVATE.

(** Address used for the back buffer: page_start & ~0x400000000000 *)
Definition compose_hint (s : segment) : Z :=
  Z.land (page_start s) (Z.lxor (Z.ones 64) 0x400000000000).

Definition compose (o : object_ctx) : M W Z :=
  s ← st;
  early ←
    (if buffer s =? 0 then
       mapped ← (if decide (status s = MEMSEG_MAPPED) then mret true else map o);
       if negb mapped then mret (Some 0)
       else
         s ← st;
         if has_flag (effective_protection s) PROT_WRITE then mret (Some (address s))
         else
           in_place ←
             (if process_started o then mret false
              else r ← sys kernel (Sys_mprotect (page_start s) (page_size s)
                                    (Z.lor (effective_protection s) PROT_WRITE));
                   mret (success r));
           if in_place : bool then
             upd (set_effective (Z.lor (effective_protection s) PROT_WRITE)) ;;
             mret (Some (address s))
           else
             r ← sys kernel (Sys_mmap (compose_hint s) (page_size s)
                               (Z.lor PROT_READ PROT_WRITE) flags_privanon (-1) 0);
             match r with
             | Success v =>
                 mem_copy v (page_start s) (page_size s) ;;
                 upd (set_buffer v) ;; mret None
             | Failure _ => mret None
             end
     else mret None);
  match early with
  | Some v => mret v
  | None => s ← st; mret (w64 (buffer s + offset s mod PAGE_SIZE))
  end.

Definition finalize (force : bool) : M W bool :=
  s ← st;
  if negb force && bool_decide (status s = MEMSEG_INACTIVE) then mret true
  else if negb (buffer s =? 0) then
    r1 ← sys kernel (Sys_mprotect (buffer s) (page_size s) (protection s));
    (if success r1 then upd (set_effective (protection s)) else mret tt) ;;
    r2 ← sys kernel (Sys_mremap (buffer s) (page_size s) (page_size s)
                       (Z.lor MREMAP_MAYMOVE MREMAP_FIXED) (page_start s));
    (if success r2 then upd (set_flags flags_privanon) ;; upd (set_buffer 0) else mret tt) ;;
    mret (success r1 && success r2)
  else if decide (status s = MEMSEG_NOT_MAPPED) then mret false
  else if negb force && (effective_protection s =? protection s) then mret true
  else
    r ← sys kernel (Sys_mprotect (page_start s) (page_size s) (protection s));
    if success r then upd (set_effective (protection s)) ;; mret true else mret false.

Definition disable (o : object_ctx) : M W bool :=
  s ← st;
  if decide (status s = MEMSEG_NOT_MAPPED) then mret false
  else if decide (status s = MEMSEG_INACTIVE) then mret true
  else if decide (detect_outdated o = DETECT_OUTDATED_VIA_USERFAULTFD) then
    hole ←
      (if negb (Z.land (flags s) flags_privanon =? flags_privanon) then
         c ← compose o;
         if c =? 0 then mret None
         else
           s ← st;
           let old := buffer s in
           ok ← finalize false;
           mret (if ok : bool then Some old else None)
       else
         r ← sys kernel (Sys_mmap 0 (page_size s) PROT_NONE
                           (Z.lor (Z.lor MAP_PRIVATE MAP_ANONYMOUS) MAP_NORESERVE) (-1) 0);
         mret (match r with Success v => Some v | Failure _ => None end));
    match hole with
    | None => mret false
    | Some hole =>
        r ← sys kernel (Sys_uffd_register (userfaultfd o) (page_start s) (page_size s));
        if negb (success r) then mret false
        else
          r ← sys kernel (Sys_mremap (page_start s) (page_size s) (page_size s)
                (Z.lor (Z.lor MREMAP_MAYMOVE MREMAP_FIXED) MREMAP_DONTUNMAP) hole);
          match r with
          | Failure _ => mret false
          | Success v =>
              upd (set_buffer v) ;;
              upd (set_status MEMSEG_INACTIVE) ;;
              upd (set_effective (protection s)) ;;
              sys kernel (Sys_mprotect v (page_size s) (Z.lor PROT_READ PROT_WRITE)) ;;
              mret true
          end
    end
  else mret true.

Definition enable : M W bool :=
  s ← st;
  if negb (bool_decide (status s = MEMSEG_INACTIVE)) then mret false
  else if buffer s =? 0 then mret false
  else ok ← finalize true; mret ok.

Definition unmap (o : object_ctx) : M W bool :=
  s ← st;
  if decide (status s = MEMSEG_NOT_MAPPED) then mret false
  else
    (if negb (bool_decide (status s = MEMSEG_MAPPED))
        && bool_decide (detect_outdated o = DETECT_OUTDATED_VIA_USERFAULTFD)
     then sys kernel (Sys_uffd_unregister (userfaultfd o) (page_start s) (page_size s)) ;; mret tt
     else mret tt) ;;
    r ← sys kernel (Sys_munmap (page_start s) (page_size s));
    if success r then
      (if negb (buffer s =? 0)
       then sys kernel (Sys_munmap (buffer s) (page_size s)) ;; upd (set_buffer 0)
       else mret tt) ;;
      upd (set_status MEMSEG_NOT_MAPPED) ;;
      upd (set_effective PROT_NONE) ;;
      mret true
    else mret false.

(** ** Duplicating shared memory (for fork) *)

(** while (true) copy_file_range(...): [Some true] when everything is copied, [Some false] when
    the call failed (the code falls back to memcpy). *)
Fixpoint copy_ranges (fuel : nat) (from to len : Z) : M W bool :=
  match fuel with
  | O => no_fuel
  | S fuel =>
      r ← sys kernel (Sys_copy_file_range from to len);
      match r with
      | Success v =>
          let len := len - v in
          if len <=? 0 then sys kernel (Sys_seal to) ;; mret true
          else copy_ranges fuel from to len
      | Failure _ => mret false
      end
  end.

Definition shmemdup (fuel : nat) (o : object_ctx) : M W Z :=
  s ← st;
  if negb (bool_decide (status s = MEMSEG_MAPPED)) then mret (-1)
  else
    tmpfd ← shmemfd o;
    if tmpfd =? -1 then mret (-1)
    else
      assert (bool_decide (status s = MEMSEG_MAPPED) && negb (fd s =? -1)) ;;
      fast ← copy_ranges fuel (fd s) tmpfd (page_size s);
      if fast : bool then mret tmpfd
      else
        r ← sys kernel (Sys_ftruncate tmpfd (page_size s));
        copied ←
          (if success r then
             sys kernel (Sys_seal tmpfd) ;;
             m ← sys kernel (Sys_mmap 0 (page_size s) PROT_WRITE MAP_SHARED tmpfd 0);
             match m with
             | Success v =>
                 mem_copy v (page_start s) (page_size s) ;;
                 sys kernel (Sys_munmap v (page_size s)) ;;
                 mret true
             | Failure _ => mret false
             end
           else mret false);
        if copied : bool then mret tmpfd
        else sys kernel (Sys_close tmpfd) ;; mret (-1).
End segment.

End MemorySegment.
