(* ===== verification/SegmentProofs.v ===== *)
(** Properties of memory segments: address arithmetic, the effect of every operation on every
    branch, the life cycle invariant and the atomicity of code replacement. *)
From Stdlib Require Import Btauto.
From S2P Require Import Prelude Platform Segment.
Import MemorySegment.

Module SegmentProofs.

(** ** Steps of a segment's life *)

Inductive op := Op_map | Op_compose | Op_finalize (force : bool) | Op_disable | Op_enable | Op_unmap.

Section steps.
Context `{DlhMath} (hex : Z -> string) (kernel : kernel_t) (o : object_ctx).

Definition run_op (x : op) : M (traced segment) unit :=
  match x with
  | Op_map => map hex kernel o ;; mret tt
  | Op_compose => compose hex kernel o ;; mret tt
  | Op_finalize f => finalize kernel f ;; mret tt
  | Op_disable => disable hex kernel o ;; mret tt
  | Op_enable => enable kernel ;; mret tt
  | Op_unmap => unmap kernel o ;; mret tt
  end.

Inductive reachable (w0 : traced segment) : traced segment -> Prop :=
| reach_init : reachable w0 w0
| reach_step w w' x : reachable w0 w -> run_op x w = Ok (tt, w') -> reachable w0 w'.
End steps.

(** The fields no operation changes. *)
Definition same_shape (s s' : segment) : Prop :=
  src_offset s' = src_offset s /\ src_size s' = src_size s /\ base s' = base s
  /\ offset s' = offset s /\ size s' = size s /\ protection s' = protection s /\ relro s' = relro s.

Definition seg_inv (s0 s : segment) : Prop :=
  same_shape s0 s
  /\ (status s = MEMSEG_NOT_MAPPED -> buffer s = 0 /\ effective_protection s = PROT_NONE).

(** A segment whose pages lie inside the 64-bit address space. *)
Definition seg_wf `{DlhMath} (s : segment) : Prop :=
  0 <= base s /\ 0 <= offset s /\ 0 <= size s /\ base s + offset s + size s + PAGE_SIZE <= 2^64.

Section facts.
Context `{DlhMathSpec} (hex : Z -> string) (kernel : kernel_t).

Lemma address_wf s : seg_wf s -> address s = base s + offset s.
Proof.
  intros (?&?&?&?). pose proof page_size_pos. unfold address. apply w64_small.
  unfold is_u64. lia.
Qed.

Lemma page_range_facts s p :
  seg_wf s ->
  page_start s mod PAGE_SIZE = 0 /\ page_size s mod PAGE_SIZE = 0
  /\ page_start s <= base s + offset s < page_start s + PAGE_SIZE
  /\ base s + offset s + size s <= page_start s + page_size s < base s + offset s + size s + PAGE_SIZE
  /\ (contains s p = true <-> base s + offset s <= p < base s + offset s + size s).
Proof.
  intros Hwf. pose proof (address_wf s Hwf) as Ha. destruct Hwf as (?&?&?&?).
  pose proof page_size_pos as HP. assert (PAGE_SIZE <> 0) as HP0 by lia. unfold contains, page_size, page_start.
  fold (address s). rewrite Ha. set (a := base s + offset s) in *.
  pose proof (Z.mod_pos_bound a PAGE_SIZE HP). pose proof (Z.div_mod a PAGE_SIZE HP0).
  pose proof (Z.mod_le a PAGE_SIZE ltac:(lia) HP).
  rewrite (w64_small (_ - 1)) by (unfold is_u64; lia).
  rewrite (w64_small (a + size s)) by (unfold is_u64; lia).
  set (t := a - (a - a mod PAGE_SIZE) + size s + PAGE_SIZE - 1).
  pose proof (Z.mod_pos_bound t PAGE_SIZE HP). pose proof (Z.div_mod t PAGE_SIZE HP0).
  repeat split; try lia.
  - replace (a - a mod PAGE_SIZE) with (a / PAGE_SIZE * PAGE_SIZE) by lia. apply Z.mod_mul. lia.
  - replace (t - t mod PAGE_SIZE) with (t / PAGE_SIZE * PAGE_SIZE) by lia. apply Z.mod_mul. lia.
Qed.

(** a segment's page range is page aligned, covers every byte of the segment and is the
    smallest such range; [contains] accepts exactly the addresses of the segment. *)
Theorem page_range_covers s p :
  seg_wf s ->
  page_start s mod PAGE_SIZE = 0 /\ page_size s mod PAGE_SIZE = 0
  /\ page_start s <= base s + offset s < page_start s + PAGE_SIZE
  /\ base s + offset s + size s <= page_start s + page_size s < base s + offset s + size s + PAGE_SIZE
  /\ (contains s p = true <-> base s + offset s <= p < base s + offset s + size s).
Proof. apply page_range_facts. Qed.

Ltac seg_finish :=
  repeat match goal with x : bool |- _ => destruct x end;
  cbn in *; simplify_eq/=; destruct_and?; unfold same_shape; cbn;
  rewrite ?negb_true_iff, ?negb_false_iff, ?Z.eqb_neq, ?Z.eqb_eq in *;
  repeat split; intros; try congruence; auto; try (left; congruence); try (right; congruence).

(** What [map] does to the segment, whatever the kernel answers. *)
Lemma map_effect o s tr b s' tr' :
  map hex kernel o (Traced s tr) = Ok (b, Traced s' tr') ->
  same_shape s s' /\ buffer s' = buffer s /\ flags s' = flags s
  /\ (if b then status s' = MEMSEG_MAPPED /\ Z.land (effective_protection s') (protection s) = protection s
      else status s' = status s /\ effective_protection s' = effective_protection s).
Proof.
  intros Hm. unfold map, shmemfd, sys, st, upd, mem_copy in Hm. mcases.
  all: cbn in *; simplify_eq; cbn; unfold same_shape; cbn; repeat split; try done.
  all: apply Z.bits_inj'; intros n Hn; rewrite Z.land_spec, Z.lor_spec; btauto.
Qed.

Lemma compose_effect o s tr v s' tr' :
  compose hex kernel o (Traced s tr) = Ok (v, Traced s' tr') ->
  same_shape s s' /\ flags s' = flags s
  /\ (status s' = status s \/ status s' = MEMSEG_MAPPED)
  /\ (status s' = MEMSEG_NOT_MAPPED -> buffer s' = buffer s /\ effective_protection s' = effective_protection s).
Proof.
  intros Hm. unfold compose, sys, st, upd, mem_copy in Hm. mcases.
  all: repeat match goal with
       | x : traced segment |- _ => destruct x
       | Hm : map _ _ _ _ = Ok _ |- _ => apply map_effect in Hm as ((?&?&?&?&?&?&?)&?&?&?)
       | H : _ /\ _ |- _ => destruct H
       end; seg_finish.
Qed.

Lemma finalize_effect f s tr b s' tr' :
  finalize kernel f (Traced s tr) = Ok (b, Traced s' tr') ->
  same_shape s s' /\ status s' = status s /\ fd s' = fd s
  /\ (status s = MEMSEG_NOT_MAPPED -> buffer s = 0 -> s' = s).
Proof.
  intros Hm. unfold finalize, sys, st, upd in Hm. mcases.
  all: seg_finish.
Qed.

Lemma disable_effect o s tr b s' tr' :
  disable hex kernel o (Traced s tr) = Ok (b, Traced s' tr') ->
  same_shape s s' /\ (status s = MEMSEG_NOT_MAPPED -> s' = s)
  /\ (status s <> MEMSEG_NOT_MAPPED -> status s' <> MEMSEG_NOT_MAPPED).
Proof.
  intros Hm. unfold disable, sys, st, upd in Hm. mcases.
  all: repeat match goal with
       | x : traced segment |- _ => destruct x
       | Hm : compose _ _ _ _ = Ok _ |- _ => apply compose_effect in Hm as ((?&?&?&?&?&?&?)&?&?&?)
       | Hm : finalize _ _ _ = Ok _ |- _ => apply finalize_effect in Hm as ((?&?&?&?&?&?&?)&?&?&?)
       end; destruct_or?; seg_finish.
Qed.

Lemma unmap_effect o s tr b s' tr' :
  unmap kernel o (Traced s tr) = Ok (b, Traced s' tr') ->
  same_shape s s'
  /\ (if b then status s' = MEMSEG_NOT_MAPPED /\ buffer s' = 0 /\ effective_protection s' = PROT_NONE
      else s' = s).
Proof.
  intros Hm. unfold unmap, sys, st, upd in Hm. mcases.
  all: seg_finish.
Qed.

Lemma run_op_inv o x s0 s tr s' tr' :
  seg_inv s0 s -> run_op hex kernel o x (Traced s tr) = Ok (tt, Traced s' tr') -> seg_inv s0 s'.
Proof.
  intros [Hsh Hnm] Hr.
  assert (forall s1, same_shape s s1 -> same_shape s0 s1) as Htr
    by (unfold same_shape in *; intros; destruct_and!; repeat split; congruence).
  destruct x; cbn in Hr; msplit.
  - apply map_effect in Hm as (?&Hb&_&Hx). split; [by apply Htr|]. rewrite Hb.
    destruct x; destruct_and!; intros; [congruence|].
    repeat match goal with H : _ = _ |- _ => rewrite H in * end. auto.
  - apply compose_effect in Hm as (?&_&[Hs|Hs]&Hx); (split; [by apply Htr|]); intros Hn;
      destruct (Hx Hn) as [-> ->]; apply Hnm; congruence.
  - apply finalize_effect in Hm as (?&Hs&_&Hx). split; [by apply Htr|]. intros Hn.
    destruct Hnm as [Hb He]; [congruence|]. rewrite Hx by congruence. auto.
  - apply disable_effect in Hm as (?&Hx&Hy). split; [by apply Htr|]. intros Hn.
    destruct (decide (status s = MEMSEG_NOT_MAPPED)) as [E|E]; [|by destruct (Hy E)].
    rewrite (Hx E) in *. auto.
  - unfold enable, st in Hm. mcases; simplify_eq; [by split..|].
    match goal with H : finalize _ _ _ = _ |- _ => apply finalize_effect in H as (?&Hs&_&Hx) end.
    split; [by apply Htr|]. intros Hn. cbn in *.
    destruct Hnm as [Hb He]; [congruence|]. rewrite (Hx ltac:(congruence) Hb). auto.
  - apply unmap_effect in Hm as (?&Hx). split; [by apply Htr|].
    destruct x; destruct_and?; subst; auto.
Qed.

(** C30: over its whole life, whatever the kernel answers and in whatever order the operations are
    called, a segment keeps its place and its requested protection, and a segment that is not
    mapped has neither a back buffer nor an effective protection. *)
Theorem segment_lifecycle o s0 tr0 s tr :
  (status s0 = MEMSEG_NOT_MAPPED -> buffer s0 = 0 /\ effective_protection s0 = PROT_NONE) ->
  reachable hex kernel o (Traced s0 tr0) (Traced s tr) ->
  seg_inv s0 s.
Proof.
  intros Hinit Hr. remember (Traced s0 tr0) as w0. remember (Traced s tr) as w.
  revert s tr Heqw. induction Hr as [|w1 w2 x Hr IH Hx]; intros s tr ->; simplify_eq.
  - split; [by unfold same_shape|done].
  - destruct w1 as [s1 tr1]. eapply run_op_inv; [by eapply IH|done].
Qed.

(** A read only segment whose file and memory offsets agree modulo the page size is mapped
    straight from the file: one private mapping with exactly the requested protection and no
    copy, whose file offset is page aligned and puts every byte of the segment at its address. *)
Theorem map_file_backed o s tr :
  0 <= data_fd o -> 0 < src_size s -> 0 <= src_offset s -> writable s = false -> relro s = false ->
  src_offset s mod PAGE_SIZE = address s mod PAGE_SIZE ->
  let off := src_offset s - address s mod PAGE_SIZE in
  let c := Sys_mmap (page_start s) (page_size s) (protection s)
                    (Z.lor MAP_FIXED_NOREPLACE MAP_PRIVATE) (data_fd o) off in
  let tr' := tr ++ [Ev_sys c (kernel tr c)] in
  map hex kernel o (Traced s tr)
    = Ok (if decide (kernel tr c = Success (page_start s))
          then (true, Traced (set_status MEMSEG_MAPPED (set_effective (protection s) s)) tr')
          else (false, Traced s tr'))
  /\ off mod PAGE_SIZE = 0 /\ 0 <= off
  /\ off + (address s - page_start s) = src_offset s.
Proof.
  intros Hfd Hsz Hoff Hw Hr Hal off c tr'. pose proof page_size_pos as HP.
  unfold writable in Hw. split.
  - unfold map. tunfold. rewrite Hw, Hr, Hal.
    rewrite Z.eqb_refl. replace (data_fd o <? 0) with false by lia.
    replace (0 <? src_size s) with true by lia. replace (src_size s =? 0) with false by lia.
    cbn. munfold. cbn.
    pose proof (Z.mod_pos_bound (address s) PAGE_SIZE HP).
    pose proof (Z.mod_le (src_offset s) PAGE_SIZE Hoff HP).
    replace (address s mod PAGE_SIZE <? PAGE_SIZE) with true by lia.
    replace (address s mod PAGE_SIZE <=? src_offset s) with true by lia. cbn.
    rewrite Z.lor_0_r. fold off. fold c. subst tr'.
    destruct (kernel tr c) as [v|e]; [|by rewrite decide_False by congruence].
    destruct (Z.eqb_spec v (page_start s)) as [->|Hne]; cbn.
    + by rewrite decide_True.
    + by rewrite decide_False by congruence.
  - subst off. rewrite <- Hal. unfold page_start. rewrite <- Hal.
    pose proof (Z.mod_le (src_offset s) PAGE_SIZE Hoff HP).
    rewrite Zminus_mod_idemp_r, Z.sub_diag. rewrite Z.mod_0_l by lia. lia.
Qed.

(** when a new version of an object is mapped (it inherited the shared memory of its
    predecessor), a writable segment is a single shared mapping of that memory: nothing is copied
    over the live data and no new shared memory is created. *)
Theorem map_shared_update o s tr :
  writable s = true -> use_data_alias o = true -> fd s <> -1 ->
  let c := Sys_mmap (page_start s) (page_size s) (Z.lor (protection s) PROT_WRITE)
                    (Z.lor MAP_FIXED_NOREPLACE MAP_SHARED) (fd s) 0 in
  exists s' b, map hex kernel o (Traced s tr) = Ok (b, Traced s' (tr ++ [Ev_sys c (kernel tr c)]))
    /\ (b = true <-> kernel tr c = Success (page_start s)) /\ fd s' = fd s.
Proof.
  intros Hw Ha Hfd c. unfold writable in Hw. unfold map. tunfold.
  rewrite Hw, Ha. replace (fd s =? -1) with false by lia. rewrite !orb_true_r. cbn. munfold. cbn.
  fold c. destruct (kernel tr c) as [v|e]; [|eexists _, _; split; [done|split; [split; congruence|done]]].
  destruct (Z.eqb_spec v (page_start s)) as [->|Hne]; cbn.
  - eexists _, _. split; [done|]. split; done.
  - eexists _, _. split; [done|]. split; [split; congruence|done].
Qed.

Definition overlap (a1 l1 a2 l2 : Z) : bool := (a1 <? a2 + l2) && (a2 <? a1 + l1).

(** Events that change contents, protection or backing of the pages [start, start+len). *)
Definition alters (start len : Z) (e : event) : bool :=
  match e with
  | Ev_sys (Sys_mmap _ l _ _ _ _) (Success v) => overlap v l start len
  | Ev_sys (Sys_munmap a l) _ => overlap a l start len
  | Ev_sys (Sys_mprotect a l _) _ => overlap a l start len
  | Ev_sys (Sys_mremap old ol nl _ new) _ => overlap old ol start len || overlap new nl start len
  | Ev_sys (Sys_uffd_copy _ dst _ l) _ => overlap dst l start len
  | Ev_copy dst _ l => overlap dst l start len
  | _ => false
  end.

(** C4: code of a running process is replaced atomically: from the request for a back buffer
    (compose) until the segment is back in service (finalize), exactly one event touches the
    live pages, the mremap that moves the finished buffer over them; afterwards the segment has
    its requested protection and no back buffer. *)
Theorem replacement_is_atomic o s tr b :
  process_started o = true -> status s = MEMSEG_MAPPED -> buffer s = 0 ->
  has_flag (effective_protection s) PROT_WRITE = false ->
  0 < page_size s ->
  let c1 := Sys_mmap (compose_hint s) (page_size s) (Z.lor PROT_READ PROT_WRITE) flags_privanon (-1) 0 in
  let e2 := Ev_copy b (page_start s) (page_size s) in
  let tr1 := tr ++ [Ev_sys c1 (Success b); e2] in
  let c3 := Sys_mprotect b (page_size s) (protection s) in
  let c4 := Sys_mremap b (page_size s) (page_size s) (Z.lor MREMAP_MAYMOVE MREMAP_FIXED) (page_start s) in
  b <> 0 -> kernel tr c1 = Success b -> overlap b (page_size s) (page_start s) (page_size s) = false ->
  success (kernel tr1 c3) = true ->
  success (kernel (tr1 ++ [Ev_sys c3 (kernel tr1 c3)]) c4) = true ->
  exists s1 s2 evs,
    compose hex kernel o (Traced s tr) = Ok (w64 (b + offset s mod PAGE_SIZE), Traced s1 tr1)
    /\ finalize kernel false (Traced s1 tr1) = Ok (true, Traced s2 (tr ++ evs))
    /\ (exists r, filter (fun e => alters (page_start s) (page_size s) e = true) evs = [Ev_sys c4 r])
    /\ effective_protection s2 = protection s /\ buffer s2 = 0 /\ status s2 = MEMSEG_MAPPED.
Proof.
  intros Hps Hst Hb Heff Hlen c1 e2 tr1 c3 c4 Hb0 Hk1 Hdis Hk3 Hk4.
  exists (set_buffer b s), (set_buffer 0 (set_flags flags_privanon (set_effective (protection s) (set_buffer b s)))).
  exists [Ev_sys c1 (Success b); e2; Ev_sys c3 (kernel tr1 c3);
          Ev_sys c4 (kernel (tr1 ++ [Ev_sys c3 (kernel tr1 c3)]) c4)].
  split; [|split; [|split]].
  - unfold compose. tunfold. rewrite decide_True by done. rewrite Hb, Hps. munfold. cbn.
    rewrite Heff. cbn [t_state t_trace]. fold c1. rewrite Hk1. cbn. subst tr1. by rewrite <- app_assoc.
  - unfold finalize. tunfold. cbn. rewrite bool_decide_false by (rewrite Hst; done).
    replace (b =? 0) with false by lia. cbn.
    change (page_size (set_buffer b s)) with (page_size s).
    change (page_start (set_buffer b s)) with (page_start s).
    fold c3. rewrite Hk3. cbn. fold c4. rewrite Hk4. cbn. subst tr1. by rewrite <- !app_assoc.
  - exists (kernel (tr1 ++ [Ev_sys c3 (kernel tr1 c3)]) c4).
    assert (overlap (page_start s) (page_size s) (page_start s) (page_size s) = true) as Hself
      by (unfold overlap; lia).
    repeat (rewrite filter_cons; cbn; rewrite ?Hdis, ?Hself; cbn). done.
  - done.
Qed.

(** A true result of finalize. *)
Lemma finalize_true f s tr s' tr' :
  finalize kernel f (Traced s tr) = Ok (true, Traced s' tr') ->
  (f = false /\ status s = MEMSEG_INACTIVE /\ s' = s /\ tr' = tr)
  \/ (effective_protection s' = protection s /\ buffer s' = 0 /\ status s' = status s
      /\ (buffer s = 0 -> status s <> MEMSEG_NOT_MAPPED)).
Proof.
  intros Hm. unfold finalize, sys, st, upd in Hm. mcases.
  all: repeat match goal with
       | H : _ && _ = true |- _ => apply andb_true_iff in H as [? ?]
       | H : bool_decide _ = true |- _ => apply bool_decide_eq_true in H
       end; seg_finish; naive_solver congruence.
Qed.

(** A failure to create the back buffer is not reported: compose returns the offset of the
    segment in its page, which the callers take for a valid address unless it is 0. *)
Lemma compose_failure_result o s tr e :
  process_started o = true -> status s = MEMSEG_MAPPED -> buffer s = 0 ->
  has_flag (effective_protection s) PROT_WRITE = false ->
  let c := Sys_mmap (compose_hint s) (page_size s) (Z.lor PROT_READ PROT_WRITE) flags_privanon (-1) 0 in
  kernel tr c = Failure e ->
  compose hex kernel o (Traced s tr)
    = Ok (w64 (offset s mod PAGE_SIZE), Traced s (tr ++ [Ev_sys c (Failure e)])).
Proof.
  intros Hps Hst Hb Heff c Hk.
  unfold compose. tunfold. rewrite decide_True by done. rewrite Hb, Hps. munfold. cbn.
  rewrite Heff. cbn [t_state t_trace]. fold c. rewrite Hk. cbn. rewrite Hb. done.
Qed.

(** A successful enable moves the code back but leaves the segment marked inactive, without
    a buffer: the next enable fails and the next disable does nothing. *)
Lemma enable_stays_inactive o s tr s' tr' :
  enable kernel (Traced s tr) = Ok (true, Traced s' tr') ->
  status s' = MEMSEG_INACTIVE /\ buffer s' = 0
  /\ enable kernel (Traced s' tr') = Ok (false, Traced s' tr')
  /\ disable hex kernel o (Traced s' tr') = Ok (true, Traced s' tr').
Proof.
  intros Hm. unfold enable, st in Hm. mcases; simplify_eq.
  match goal with H : finalize _ _ _ = _ |- _ => apply finalize_true in H as [(?&?)|(?&Hb&Hs&_)] end;
    [done|].
  rewrite negb_false_iff, bool_decide_eq_true in *. cbn in *.
  assert (status s' = MEMSEG_INACTIVE) as Hi by congruence.
  split; [done|]. split; [done|]. split.
  - unfold enable. tunfold. rewrite bool_decide_true by done. cbn. by rewrite Hb.
  - unfold disable. tunfold. rewrite !(decide_False (P := status s' = MEMSEG_NOT_MAPPED)) by congruence.
    rewrite (decide_True (P := status s' = MEMSEG_INACTIVE)) by done. done.
Qed.

(** copy_file_range makes progress (it returns 0 only at the end of the source file). *)
Definition copies_progress : Prop :=
  forall tr from to len v, 0 < len -> kernel tr (Sys_copy_file_range from to len) = Success v -> 0 < v.

Lemma copy_ranges_total fuel from to len s tr :
  copies_progress -> 0 < len <= Z.of_nat fuel ->
  exists b tr', copy_ranges kernel fuel from to len (Traced s tr) = Ok (b, Traced s tr').
Proof.
  intros Hpr. revert len tr; induction fuel as [|fuel IH]; intros len tr Hlen; [lia|].
  cbn [copy_ranges]. tunfold.
  destruct (kernel tr (Sys_copy_file_range from to len)) as [v|] eqn:E; [|eauto].
  apply Hpr in E; [|lia].
  destruct (Z.leb_spec (len - v) 0); [cbn; eauto|]. apply IH. lia.
Qed.

(** Duplicating the shared memory of a mapped segment for fork always terminates, never fails
    an assertion and leaves the segment as it was; the result is -1 or a descriptor that
    memfd_create returned. *)
Theorem shmemdup_terminates fuel o s tr :
  copies_progress -> 0 < page_size s <= Z.of_nat fuel -> fd s <> -1 ->
  exists v tr', shmemdup hex kernel fuel o (Traced s tr) = Ok (v, Traced s tr')
    /\ (v = -1 \/ exists name fl, kernel tr (Sys_memfd_create name fl) = Success v).
Proof.
  intros Hpr Hlen Hfd. unfold shmemdup, shmemfd. tunfold.
  case_bool_decide as Hst; cbn [negb andb t_state t_trace]; [|cbn; eauto].
  match goal with |- context [kernel tr ?c] => destruct (kernel tr c) as [v|e] eqn:Ek end; cbn; [|eauto].
  destruct (Z.eqb_spec v (-1)); [cbn; eauto|].
  replace (fd s =? -1) with false by lia. cbn [negb].
  match goal with |- context [copy_ranges _ _ _ _ _ (Traced s ?t)] =>
    destruct (copy_ranges_total fuel (fd s) v (page_size s) s t Hpr Hlen) as (b & tr1 & ->) end.
  destruct b; cbn;
  repeat (match goal with |- context [kernel ?t ?c] => destruct (kernel t c) end; cbn);
    do 2 eexists; (split; [reflexivity|]); eauto.
Qed.

End facts.

(** ** Witnesses: a kernel that grants every request *)

Definition granting : kernel_t := fun _ c =>
  match c with
  | Sys_mmap a _ _ _ _ _ => Success (if a =? 0 then 0x10000000 else a)
  | Sys_mremap _ _ _ _ new => Success new
  | Sys_memfd_create _ _ => Success 5
  | Sys_copy_file_range _ _ len => Success len
  | _ => Success 0
  end.

Definition example_object : object_ctx := {|
  data_fd := 3; data_addr := 0x20000000; data_hash := 7; file_name := "libfoo.so";
  file_previous := false; use_data_alias := true; premapped := false; process_started := true;
  detect_outdated := DETECT_OUTDATED_VIA_USERFAULTFD; userfaultfd := 9 |}.

Definition example_text : segment :=
  Segment 0x1040 0x2345 0x7f0000000000 0x1040 0x2345 (Z.lor PROT_READ PROT_EXEC) PROT_NONE (-1) 0
          false MEMSEG_NOT_MAPPED 0.
Definition example_live_text : segment :=
  Segment 0x1040 0x2345 0x7f0000000000 0x1040 0x2345 (Z.lor PROT_READ PROT_EXEC)
          (Z.lor PROT_READ PROT_EXEC) (-1) 0 false MEMSEG_MAPPED 0.
Definition example_data : segment :=
  Segment 0x3000 0x100 0x7f0000000000 0x4000 0x800 (Z.lor PROT_READ PROT_WRITE)
          (Z.lor PROT_READ PROT_WRITE) 4 0 false MEMSEG_MAPPED 0.

Lemma page_range_covers_witness :
  @page_start dlh_4k example_text mod 4096 = 0.
Proof.
  apply (@page_range_covers dlh_4k dlh_4k_spec example_text 0).
  unfold seg_wf. cbn. lia.
Defined.

Definition after (x : op) (w : traced segment) : traced segment :=
  match @run_op dlh_4k (fun _ => EmptyString) granting example_object x w with
  | Ok (_, w') => w'
  | _ => w
  end.
Definition example_life : traced segment :=
  after Op_disable (after (Op_finalize false) (after Op_compose (after Op_map (Traced example_text [])))).

Lemma segment_lifecycle_witness :
  status (t_state example_life) = MEMSEG_INACTIVE /\ seg_inv example_text (t_state example_life).
Proof.
  split; [vm_compute; reflexivity|].
  apply (@segment_lifecycle dlh_4k (fun _ => EmptyString) granting example_object example_text []
           (t_state example_life) (t_trace example_life)).
  - intros _. split; reflexivity.
  - eapply (@reach_step dlh_4k _ _ _ _ (after (Op_finalize false) (after Op_compose (after Op_map (Traced example_text [])))) _ Op_disable);
      [|vm_compute; reflexivity].
    eapply (@reach_step dlh_4k _ _ _ _ (after Op_compose (after Op_map (Traced example_text []))) _ (Op_finalize false));
      [|vm_compute; reflexivity].
    eapply (@reach_step dlh_4k _ _ _ _ (after Op_map (Traced example_text [])) _ Op_compose);
      [|vm_compute; reflexivity].
    eapply (@reach_step dlh_4k _ _ _ _ (Traced example_text []) _ Op_map);
      [|vm_compute; reflexivity].
    apply reach_init.
Defined.

Lemma map_file_backed_witness :
  exists w, @map dlh_4k (fun _ => EmptyString) granting example_object (Traced example_text []) = Ok (true, w).
Proof.
  eexists. rewrite (proj1 (@map_file_backed dlh_4k dlh_4k_spec (fun _ => EmptyString) granting
    example_object example_text [] ltac:(cbn; lia) ltac:(cbn; lia) ltac:(cbn; lia) eq_refl eq_refl eq_refl)).
  vm_compute. reflexivity.
Defined.

Lemma map_shared_update_witness :
  exists s' b tr', @map dlh_4k (fun _ => EmptyString) granting example_object (Traced example_data []) = Ok (b, Traced s' tr')
    /\ b = true.
Proof.
  destruct (@map_shared_update dlh_4k (fun _ => EmptyString) granting example_object example_data []
              eq_refl eq_refl ltac:(cbn; lia)) as (s' & b & Hm & Hb & _).
  exists s', b. eexists. split; [exact Hm|]. apply Hb. reflexivity.
Defined.

Lemma replacement_is_atomic_witness :
  exists s1 tr1, @compose dlh_4k (fun _ => EmptyString) granting example_object (Traced example_live_text [])
    = Ok (0x3f0000001040, Traced s1 tr1).
Proof.
  destruct (@replacement_is_atomic dlh_4k (fun _ => EmptyString) granting example_object
    example_live_text [] 0x3f0000001000 eq_refl eq_refl eq_refl eq_refl ltac:(vm_compute; reflexivity)
    ltac:(discriminate) ltac:(vm_compute; reflexivity) ltac:(vm_compute; reflexivity)
    ltac:(vm_compute; reflexivity) ltac:(vm_compute; reflexivity)) as (s1 & s2 & evs & Hc & _).
  do 2 eexists. exact Hc.
Defined.

Lemma shmemdup_terminates_witness :
  exists v tr', @shmemdup dlh_4k (fun _ => EmptyString) granting (Z.to_nat 4096) example_object (Traced example_data [])
    = Ok (v, Traced example_data tr').
Proof.
  destruct (@shmemdup_terminates dlh_4k (fun _ => EmptyString) granting (Z.to_nat 4096) example_object
              example_data []) as (v & tr' & Hv & _).
  - unfold copies_progress, granting. intros. congruence.
  - vm_compute. split; [reflexivity|discriminate].
  - cbn. lia.
  - exists v, tr'. exact Hv.
Defined.

End SegmentProofs.
