(* ===== verification/Symbol.v ===== *)
(** Symbols with versions (symbol.hpp, symbol.cpp).

    A symbol of the ELF library is a record of its entry; [sym_data] is the address of the entry,
    its identity.  C strings that may be null are [option string]; hash functions and string
    comparison are parameters. *)
From S2P Require Import Prelude Platform.

Module Symbol.

(** ELF_Def::hash / gnuhash (elfo), String::compare (DLH) *)
Class StringOps := {
  elf_hash : option string -> Z;
  gnu_hash : option string -> Z;
  str_compare : option string -> option string -> Z;
}.
Class StringOpsSpec `{StringOps} : Prop := {
  str_compare_eq a b : str_compare (Some a) (Some b) = 0 <-> a = b;
}.

Inductive Bind := STB_LOCAL | STB_GLOBAL | STB_WEAK | STB_OTHER.
Inductive Type_ := STT_NOTYPE | STT_OBJECT | STT_FUNC | STT_SECTION | STT_COMMON | STT_TLS | STT_GNU_IFUNC | STT_OTHER.
#[export] Instance Bind_eq_dec : EqDecision Bind.
Proof. solve_decision. Defined.
#[export] Instance Type_eq_dec : EqDecision Type_.
Proof. solve_decision. Defined.

(** VersionedSymbol::Version *)
Record Version := {
  v_name : option string; v_file : option string;
  v_hash : Z; v_filehash : Z; v_valid : bool; v_weak : bool;
}.

(** VersionedSymbol: Elf::Symbol with [version] and the cached hashes. *)
Record VersionedSymbol := {
  sym_object : Z;              (* the object it belongs to *)
  sym_data : Z;                (* address of the symbol table entry *)
  sym_name : string;
  sym_value : Z; sym_size : Z;
  sym_bind : Bind; sym_type : Type_;
  sym_valid : bool;
  version : Version;
  sym_hash_value : option Z; sym_gnu_hash_value : option Z;
}.

(** Elf::Symbol, an entry of a symbol table; [es_data] is the address of the entry *)
Record elf_symbol := ElfSymbol {
  es_data : Z; es_name : string; es_value : Z; es_size : Z; es_bind : Bind; es_type : Type_;
  es_valid : bool; es_undefined : bool; es_default_visibility : bool; es_section_index : Z;
}.
#[export] Instance eta_elf_symbol : Eta elf_symbol := fun s =>
  ElfSymbol (es_data s) (es_name s) (es_value s) (es_size s) (es_bind s) (es_type s) (es_valid s)
    (es_undefined s) (es_default_visibility s) (es_section_index s).

Section symbol.
Context `{StringOps}.

(** a == b || String::compare(a, b) == 0 *)
Definition same_string (a b : option string) : bool :=
  bool_decide (a = b) || (str_compare a b =? 0).

Definition mk_version_filehash (name : option string) (hash : Z) (weak : bool) (file : option string) (filehash : Z) : Version :=
  {| v_name := name; v_file := file; v_hash := hash;
     v_filehash := match file with None => 0 | Some _ => filehash end; v_valid := true; v_weak := weak |}.
Definition mk_version_file (name : option string) (hash : Z) (weak : bool) (file : option string) : Version :=
  mk_version_filehash name hash weak file (match file with None => 0 | Some _ => elf_hash file end).
Definition mk_version_hash (name : option string) (hash : Z) (weak : bool) : Version :=
  mk_version_file name hash weak None.
Definition mk_version (name : option string) (weak : bool) (file : option string) : Version :=
  mk_version_file name (elf_hash name) weak file.
Definition no_version (valid : bool) : Version :=
  {| v_name := None; v_file := None; v_hash := 0; v_filehash := 0; v_valid := valid; v_weak := false |}.

(** Version::operator== *)
Definition version_eqb (a b : Version) : bool :=
  v_valid a && v_valid b
  && (v_hash a =? v_hash b)
  && same_string (v_name a) (v_name b)
  && (bool_decide (v_file a = None) || bool_decide (v_file b = None) || bool_decide (v_file a = v_file b)
      || ((v_filehash a =? v_filehash b) && (str_compare (v_file a) (v_file b) =? 0))).

(** VersionedSymbol::operator== (VersionedSymbol) *)
Definition sym_eqb (a b : VersionedSymbol) : bool :=
  (sym_data a =? sym_data b)
  || ((sym_object a =? sym_object b) && same_string (Some (sym_name a)) (Some (sym_name b))
      && version_eqb (version a) (version b)).

Definition hash_value (s : VersionedSymbol) : Z :=
  match sym_hash_value s with Some h => h | None => elf_hash (Some (sym_name s)) end.
Definition gnu_hash_value (s : VersionedSymbol) : Z :=
  match sym_gnu_hash_value s with Some h => h | None => gnu_hash (Some (sym_name s)) end.

(** SymbolHelper: a name with its hash; equality with other kinds of symbols. *)
Record SymbolHelper := { sh_name : option string; sh_gnu_hash_value : Z }.
Definition symbol_helper (name : option string) : SymbolHelper :=
  {| sh_name := name; sh_gnu_hash_value := gnu_hash name |}.
Definition helper_eqb (a b : SymbolHelper) : bool :=
  (sh_gnu_hash_value a =? sh_gnu_hash_value b) && same_string (sh_name a) (sh_name b).
Definition to_helper (s : VersionedSymbol) : SymbolHelper :=
  {| sh_name := Some (sym_name s); sh_gnu_hash_value := gnu_hash_value s |}.

(** VersionedSymbol::pointer: [ifunc] runs the resolver at an address, [tls_address] is
    Object::tls_address of the symbol's object. *)
Definition pointer (object_base : Z -> Z) (ifunc : Z -> Z) (tls_address : Z -> Z -> Z) (s : VersionedSymbol) : Z :=
  let fptr := w64 (object_base (sym_object s) + sym_value s) in
  match sym_type s with
  | STT_GNU_IFUNC => ifunc fptr
  | STT_TLS => tls_address (sym_object s) (sym_value s)
  | _ => fptr
  end.
End symbol.

Section symbol_lemmas.
Context `{StringOps}.

Lemma same_string_refl a : same_string a a = true.
Proof. unfold same_string. by rewrite bool_decide_true. Qed.

Lemma same_string_some `{!StringOpsSpec} a b : same_string (Some a) (Some b) = true <-> a = b.
Proof.
  unfold same_string. rewrite orb_true_iff, bool_decide_eq_true, Z.eqb_eq, str_compare_eq.
  split; [intros [[= Hab]|Hab]; done|intros ->; by left].
Qed.

Lemma version_eqb_refl v : v_valid v = true -> version_eqb v v = true.
Proof.
  intros Hv. unfold version_eqb. rewrite Hv, Z.eqb_refl, same_string_refl. cbn.
  rewrite (bool_decide_true (v_file v = v_file v)) by done. by rewrite !orb_true_r.
Qed.

Lemma sym_eqb_refl s : sym_eqb s s = true.
Proof. unfold sym_eqb. by rewrite Z.eqb_refl. Qed.
End symbol_lemmas.

(** Concrete string operations for the witnesses. *)
Definition ex_strings : StringOps := {|
  elf_hash s := match s with None => 0 | Some s => Z.of_nat (String.length s) end;
  gnu_hash s := match s with None => 0 | Some s => Z.of_nat (String.length s) + 5381 end;
  str_compare a b := if decide (a = b) then 0 else 1;
|}.
Lemma ex_strings_spec : @StringOpsSpec ex_strings.
Proof. split. intros a b. cbn. destruct (decide _); naive_solver. Defined.

End Symbol.
