(* ===== verification/BeanInterface.v ===== *)
(** The views of the comparison library's symbols and relocations (src/src/bean_interface.hpp), in the form in which
    ObjectDynamic::update_relocate relocates the references of changed code.

    The numbers of the library's enumerations are parameters. *)
From S2P Require Import Prelude Symbol.

Module BeanInterface.
Import Symbol.

Class BeanConstants := {
  BIND_WEAK : Z; BIND_LOCAL : Z; BIND_GLOBAL : Z;
  TYPE_NONE : Z; TYPE_UNKNOWN : Z; TYPE_OBJECT : Z; TYPE_FUNC : Z; TYPE_SECTION : Z; TYPE_FILE : Z; TYPE_COMMON : Z; TYPE_TLS : Z;
  TYPE_INDIRECT_FUNC : Z;
}.
(** Bean::Symbol and Bean::SymbolRelocation, as far as they are read *)
Record bean_symbol := MkBeanSymbol { bean_name : string; bean_address : Z; bean_size : Z; bean_bind : Z; bean_type : Z }.
Record bean_relocation := MkBeanRelocation { rel_offset : Z; rel_type : Z; rel_addend : Z }.

Section view.
Context `{BeanConstants}.

(** ** Symbol *)

Definition name (s : bean_symbol) : string := bean_name s.
Definition value (s : bean_symbol) : Z := bean_address s.
Definition size (s : bean_symbol) : Z := bean_size s.
Definition valid (s : bean_symbol) : bool := negb (value s =? 0) || negb (size s =? 0).
Definition undefined (s : bean_symbol) : bool := false.
(** None if the assertion of the default case fails *)
Definition bind (s : bean_symbol) : option Bind :=
  if bean_bind s =? BIND_WEAK then Some STB_WEAK
  else if bean_bind s =? BIND_LOCAL then Some STB_LOCAL
  else if bean_bind s =? BIND_GLOBAL then Some STB_GLOBAL
  else None.
Definition type (s : bean_symbol) : option Type_ :=
  let t := bean_type s in
  if (t =? TYPE_NONE) || (t =? TYPE_UNKNOWN) then Some STT_NOTYPE
  else if t =? TYPE_OBJECT then Some STT_OBJECT
  else if t =? TYPE_FUNC then Some STT_FUNC
  else if t =? TYPE_SECTION then Some STT_SECTION
  else if t =? TYPE_FILE then Some STT_OTHER           (* STT_FILE *)
  else if t =? TYPE_COMMON then Some STT_COMMON
  else if t =? TYPE_TLS then Some STT_TLS
  else if t =? TYPE_INDIRECT_FUNC then Some STT_GNU_IFUNC
  else None.

(** ** Relocation *)

Definition offset (r : bean_relocation) : Z := rel_offset r.
Definition relocation_type (r : bean_relocation) : Z := rel_type r.
Definition addend (r : bean_relocation) : Z := rel_addend r.
Definition relocation_valid (r : bean_relocation) : bool := true.

(** A reference to a symbol of the compared code is never undefined, and one without an address and a size is not used. *)
Lemma valid_spec s : valid s = true <-> value s <> 0 \/ size s <> 0.
Proof. unfold valid. rewrite orb_true_iff, !negb_true_iff, !Z.eqb_neq. done. Qed.
End view.
End BeanInterface.
