(* ===== verification/Trampoline.v ===== *)
(** Trampolines (trampoline.cpp): code that jumps to the latest version of a function whose address
    was given away, and the table of its targets.

    A block is two pages of code followed by a page of targets.  The memory of the process is part
    of the state; what [exec] of X86.v does with it is the meaning of the generated code. *)
From S2P Require Import Prelude Platform X86 Symbol.
Import Symbol.

Module Trampoline.

Record trampolines := Trampolines {
  blocks : list Z;
  symbols : list VersionedSymbol;
  mem : memory;
}.

Definition trampoline_bytes : nat := 16.

Section trampoline.
Context `{DlhMath} `{StringOps}.
Context (kernel : kernel_t).
Context (address_callback : option (list event -> Z -> Z)).   (* Loader::next_address *)
Context (undefined_trampoline : Z).                            (* address of the function *)
Context (resolve_current : VersionedSymbol -> option VersionedSymbol).
                                    (* sym.object().file.current->resolve_symbol(sym) *)
Context (pointer_of : VersionedSymbol -> Z).                   (* VersionedSymbol::pointer *)

Abbreviation W := (traced trampolines).

Definition entries_per_block : nat := Z.to_nat (PAGE_SIZE / 8).
Definition trampolines_block : Z :=
  align_up (Z.of_nat (entries_per_block * trampoline_bytes)) PAGE_SIZE.

(** Trampoline::index *)
Fixpoint find_index (l : list VersionedSymbol) (sym : VersionedSymbol) (i : nat) : option nat :=
  match l with
  | [] => None
  | s :: l => if sym_eqb s sym then Some i else find_index l sym (S i)
  end.
Definition index (t : trampolines) (sym : VersionedSymbol) : option nat :=
  if decide (sym_type sym = STT_FUNC \/ sym_type sym = STT_GNU_IFUNC) then find_index (symbols t) sym 0 else None.

(** Trampoline::pointer: (trampoline_function, target_address) *)
Definition pointer (t : trampolines) (index : nat) : option (Z * Z) :=
  let block := (index / entries_per_block)%nat in
  if ((index <? length (symbols t)) && (block <? length (blocks t)))%nat then
    base ← blocks t !! block;
    let offset := (index mod entries_per_block)%nat in
    Some (w64 (base + Z.of_nat (offset * trampoline_bytes)),
          w64 (base + trampolines_block + Z.of_nat offset * 8))
  else None.

(** The displacement of the jump in slot [i]. *)
Definition target (i : nat) : Z :=
  w32 (trampolines_block + 8 * Z.of_nat i - (Z.of_nat (trampoline_bytes * i) + 0xa)).

Definition slot_code (i : nat) : list Z :=
  (* endbr64 *) [0xf3; 0x0f; 0x1e; 0xfa]
  ++ (* jmp *target(rip) *) [0xff; 0x25] ++ le_bytes 4 (target i)
  ++ (* [6 byte] nop *) [0x66; 0x0f; 0x1f; 0x44; 0x00; 0x00].

(** for (i = 0; i < entries_per_block; i++) *)
Definition fill_block (v : Z) (m : memory) : memory :=
  foldl (fun m i =>
      wr (wr m (v + trampolines_block + 8 * Z.of_nat i) (le_bytes 8 undefined_trampoline))
         (v + Z.of_nat (trampoline_bytes * i)) (slot_code i))
    m (seq 0 entries_per_block).

Definition set_mem (f : memory -> memory) (t : trampolines) : trampolines :=
  Trampolines (blocks t) (symbols t) (f (mem t)).

(** Trampoline::allocate: the new index *)
Definition allocate (sym : VersionedSymbol) : M W (option nat) :=
  t ← st;
  ok ←
    (if (length (blocks t) <=? (length (symbols t) + 1) / entries_per_block)%nat then
       let mmap_size := trampolines_block + PAGE_SIZE in
       w ← get;
       let mmap_address := match address_callback with Some f => f (t_trace w) mmap_size | None => 0 end in
       r ← sys kernel (Sys_mmap mmap_address mmap_size (Z.lor PROT_READ PROT_WRITE)
                                (Z.lor MAP_ANONYMOUS MAP_PRIVATE) (-1) 0);
       match r with
       | Success v =>
           upd (set_mem (fill_block v)) ;;
           r ← sys kernel (Sys_mprotect v trampolines_block PROT_EXEC);
           if success r then
             upd (fun t => Trampolines (blocks t ++ [v]) (symbols t) (mem t)) ;; mret true
           else sys kernel (Sys_munmap v (trampolines_block + PAGE_SIZE)) ;; mret false
       | Failure _ => mret false
       end
     else mret true);
  if ok : bool then
    t ← st;
    upd (fun t => Trampolines (blocks t) (symbols t ++ [sym]) (mem t)) ;;
    mret (Some (length (symbols t)))
  else mret None.

(** Trampoline::get *)
Definition get (t : trampolines) (sym : VersionedSymbol) : Z :=
  match (idx ← index t sym; pointer t idx) with
  | Some (trampoline, _) => trampoline
  | None => 0
  end.

(** Trampoline::set *)
Definition set (sym : VersionedSymbol) : M W Z :=
  match resolve_current sym with
  | Some resolved =>
      t ← st;
      idx ← match index t sym with Some i => mret (Some i) | None => allocate sym end;
      match idx with
      | Some idx =>
          t ← st;
          match pointer t idx with
          | Some (trampoline, address) =>
              assert (negb (address =? 0)) ;;
              upd (set_mem (fun m => wr m address (le_bytes 8 (pointer_of resolved)))) ;;
              mret trampoline
          | None => assert false ;; mret 0
          end
      | None => mret 0
      end
  | None => mret 0
  end.

(** Trampoline::update *)
Definition update : M W unit :=
  t ← st;
  mfor (seq 0 (length (symbols t))) (fun i =>
    t ← st;
    match symbols t !! i with
    | None => mret tt
    | Some sym =>
        match resolve_current sym with
        | Some resolved =>
            match pointer t i with
            | Some (_, address) =>
                assert (negb (address =? 0)) ;;
                upd (set_mem (fun m => wr m address (le_bytes 8 (pointer_of resolved))))
            | None => assert false
            end
        | None => mret tt
        end
    end).
End trampoline.
End Trampoline.
