(* ===== verification/TrampolineProofs.v ===== *)
(** Trampolines refine the map from given-away function symbols to their latest addresses: executing
    the code of a trampoline (as the processor does, X86.v) ends at that address. *)
From S2P Require Import Prelude Platform X86 Symbol Trampoline.
Import Symbol X86 Trampoline.

Module TrampolineProofs.

#[local] Arguments Z.mul : simpl never.
#[local] Arguments Z.add : simpl never.
#[local] Arguments Nat.ltb : simpl never.
#[local] Arguments Nat.leb : simpl never.

Section facts.
Context `{DlhMathSpec} `{StringOps} (kernel : kernel_t).
Context (address_callback : option (list event -> Z -> Z)) (undefined_trampoline : Z).

Abbreviation W := (traced trampolines).
Abbreviation E := entries_per_block.

(** ** Layout of a block *)

Lemma page_entries : PAGE_SIZE = 8 * Z.of_nat E /\ (0 < E)%nat /\ Z.of_nat E <= 2^18.
Proof.
  unfold E. pose proof page_size_pos. destruct page_size_16 as [k Hk]. pose proof page_size_le.
  replace (PAGE_SIZE / 8) with (2 * k) by (rewrite Hk; replace (k * 16) with (2 * k * 8) by lia; by rewrite Z.div_mul).
  lia.
Qed.

Lemma trampolines_block_eq : trampolines_block = 2 * PAGE_SIZE.
Proof.
  destruct page_entries as (HP & HE & _). unfold trampolines_block, trampoline_bytes.
  rewrite align_up_id; [lia| lia | apply page_size_pos |]. exists 2. lia.
Qed.

Lemma target_eq i : (i < E)%nat -> s32 (target i) = 2 * PAGE_SIZE - 8 * Z.of_nat i - 10.
Proof.
  intros Hi. destruct page_entries as (HP & _ & HE). unfold target, trampoline_bytes.
  rewrite s32_w32, trampolines_block_eq.
  rewrite s32_small by lia. lia.
Qed.

Definition code_of (b : Z) (j : nat) : Z := b + 16 * Z.of_nat j.
Definition entry_of (b : Z) (j : nat) : Z := b + 2 * PAGE_SIZE + 8 * Z.of_nat j.

Definition slot_ok (m : memory) (b : Z) (j : nat) : Prop := reads (rd m) (code_of b j) (slot_code j).

Lemma slot_code_length i : length (slot_code i) = 16%nat.
Proof. unfold slot_code. cbn. reflexivity. Qed.

(** A filled slot jumps to where its entry points. *)
Lemma slot_exec m b j :
  0 < b -> b + 3 * PAGE_SIZE < 2^47 -> (j < E)%nat -> slot_ok m b j ->
  exec (rd m) (code_of b j) = Some (word m (entry_of b j)).
Proof.
  intros Hb Hb2 Hj Hs. destruct page_entries as (HP & _ & HE).
  assert (reads (rd m) (code_of b j) (endbr64 ++ jmp_mem (target j))) as Hr.
  { unfold slot_ok, slot_code in Hs. rewrite !app_assoc in Hs. apply reads_app in Hs as [Hs _]. exact Hs. }
  rewrite (exec_endbr_jmp_mem _ _ _ Hr), target_eq by done. unfold word. do 2 f_equal.
  unfold code_of, entry_of. rewrite w64_small by (unfold is_u64; lia). lia.
Qed.

(** Writing outside the code of a block keeps its slots. *)
Lemma slot_ok_wr m b j a bs :
  slot_ok m b j -> (j < E)%nat ->
  a + Z.of_nat (length bs) <= code_of b j \/ code_of b j + 16 <= a -> slot_ok (wr m a bs) b j.
Proof. intros Hs Hj Hd. apply reads_wr_out; [|done]. rewrite slot_code_length. lia. Qed.

Lemma fill_block_ok v m k :
  (k <= E)%nat ->
  let m' := foldl (fun m i =>
      wr (wr m (v + trampolines_block + 8 * Z.of_nat i) (le_bytes 8 undefined_trampoline))
         (v + Z.of_nat (trampoline_bytes * i)) (slot_code i)) m (seq 0 k) in
  (forall j, (j < k)%nat -> slot_ok m' v j)
  /\ (forall a bs, (a + Z.of_nat (length bs) <= v \/ v + 3 * PAGE_SIZE <= a) ->
        reads (rd m) a bs -> reads (rd m') a bs)
  /\ (forall a, a + 8 <= v \/ v + 3 * PAGE_SIZE <= a -> word m' a = word m a).
Proof.
  destruct page_entries as (HP & _ & _). rewrite trampolines_block_eq. unfold trampoline_bytes.
  induction k as [|k IH]; intros Hk; cbn zeta; [by split; [intros; lia|]|].
  rewrite seq_S, foldl_app. cbn [foldl Nat.add].
  destruct IH as (IH1 & IH2 & IH3); [lia|]. set (mk := foldl _ m _) in *.
  split; [|split].
  - intros j Hj. destruct (decide (j = k)) as [->|Hne].
    + unfold slot_ok, code_of. replace (v + 16 * Z.of_nat k) with (v + Z.of_nat (16 * k)) by lia. apply reads_wr.
    + apply slot_ok_wr; [|lia|rewrite slot_code_length; unfold code_of; lia].
      apply slot_ok_wr; [apply IH1; lia|lia|rewrite le_bytes_length; unfold code_of; lia].
  - intros a bs Ha Hr. apply reads_wr_out; [rewrite slot_code_length; lia|].
    apply reads_wr_out; [rewrite le_bytes_length; lia|]. by apply IH2.
  - intros a Ha. rewrite word_wr_out by (rewrite slot_code_length; lia).
    rewrite word_wr_out by (rewrite le_bytes_length; lia). by apply IH3.
Qed.

(** ** The invariant *)

Definition block_ok (w : W) (b : Z) : Prop :=
  0 < b /\ b + 3 * PAGE_SIZE < 2^47 /\ (b, 3 * PAGE_SIZE) ∈ live_maps (t_trace w)
  /\ forall j, (j < E)%nat -> slot_ok (mem (t_state w)) b j.

Definition tr_inv (w : W) : Prop :=
  (length (symbols (t_state w)) <= E * length (blocks (t_state w)))%nat
  /\ (forall b, b ∈ blocks (t_state w) -> block_ok w b)
  /\ (forall i j b c, i <> j -> blocks (t_state w) !! i = Some b -> blocks (t_state w) !! j = Some c ->
        disjoint_range b (3 * PAGE_SIZE) c (3 * PAGE_SIZE)).

Lemma pointer_inv w i :
  tr_inv w -> (i < length (symbols (t_state w)))%nat ->
  exists b, blocks (t_state w) !! (i / E)%nat = Some b /\ block_ok w b /\ (i mod E < E)%nat
    /\ pointer (t_state w) i = Some (code_of b (i mod E), entry_of b (i mod E)).
Proof.
  intros (Hl & Hb & _) Hi. destruct page_entries as (HP & HE & _).
  assert (i / E < length (blocks (t_state w)))%nat as Hlt by (apply Nat.Div0.div_lt_upper_bound; lia).
  destruct (lookup_lt_is_Some_2 _ _ Hlt) as [b Hbl].
  assert (block_ok w b) as Hok by (apply Hb; by eapply list_elem_of_lookup_2).
  exists b. split; [done|]. split; [done|]. assert (i mod E < E)%nat as Hm by (apply Nat.mod_upper_bound; lia).
  split; [done|]. unfold pointer.
  replace (i <? length (symbols (t_state w)))%nat with true by (symmetry; by apply Nat.ltb_lt).
  replace (i / E <? length (blocks (t_state w)))%nat with true by (symmetry; by apply Nat.ltb_lt).
  cbn [andb]. rewrite Hbl. cbn. destruct Hok as (Hb0 & Hb1 & _). rewrite trampolines_block_eq. unfold trampoline_bytes.
  unfold code_of, entry_of. rewrite !w64_small by (unfold is_u64; lia). f_equal. f_equal; lia.
Qed.

(** [abs] lists the symbols with trampolines and the addresses they shall lead to. *)
Definition refines (w : W) (abs : list (VersionedSymbol * Z)) : Prop :=
  tr_inv w /\ symbols (t_state w) = abs.*1
  /\ forall i s v, abs !! i = Some (s, v) ->
       exists f a, pointer (t_state w) i = Some (f, a) /\ word (mem (t_state w)) a = v.

Lemma refines_exec w abs i s v :
  refines w abs -> abs !! i = Some (s, v) ->
  exists f a, pointer (t_state w) i = Some (f, a) /\ f <> 0 /\ exec (rd (mem (t_state w))) f = Some v.
Proof.
  intros (Hinv & Hsym & Habs) Hi. destruct (Habs i s v Hi) as (f & a & Hp & Hw).
  exists f, a. split; [done|].
  destruct (pointer_inv w i Hinv) as (b & Hb & (Hb0 & Hb1 & _ & Hs) & Hm & Hp').
  { rewrite Hsym, length_fmap. by eapply lookup_lt_Some. }
  rewrite Hp in Hp'. injection Hp' as -> ->. split; [unfold code_of; lia|]. rewrite <- Hw. apply slot_exec; auto.
Qed.

(** Different symbols have different entries. *)
Lemma entries_disjoint w i j f a f' a' :
  tr_inv w -> i <> j -> (i < length (symbols (t_state w)))%nat -> (j < length (symbols (t_state w)))%nat ->
  pointer (t_state w) i = Some (f, a) -> pointer (t_state w) j = Some (f', a') -> a + 8 <= a' \/ a' + 8 <= a.
Proof.
  intros Hinv Hne Hi Hj Hpi Hpj. destruct page_entries as (HP & HE & _).
  destruct (pointer_inv w i Hinv Hi) as (b & Hb & _ & Hmi & Hpi').
  destruct (pointer_inv w j Hinv Hj) as (c & Hc & _ & Hmj & Hpj').
  rewrite Hpi in Hpi'. rewrite Hpj in Hpj'. simplify_eq. unfold entry_of.
  destruct (decide (i / E = j / E)%nat) as [Hd|Hd].
  - rewrite Hd, Hc in Hb. simplify_eq.
    pose proof (Nat.div_mod_eq i E). pose proof (Nat.div_mod_eq j E). rewrite Hd in *.
    assert (i mod E <> j mod E)%nat by lia. lia.
  - destruct Hinv as (_ & _ & Hdis). specialize (Hdis _ _ _ _ Hd Hb Hc). unfold disjoint_range in Hdis. lia.
Qed.

Definition write_entry (w : W) (a v : Z) : W :=
  Traced (set_mem (fun m => wr m a (le_bytes 8 v)) (t_state w)) (t_trace w).

Lemma write_entry_inv w i f a v :
  tr_inv w -> (i < length (symbols (t_state w)))%nat -> pointer (t_state w) i = Some (f, a) ->
  tr_inv (write_entry w a v) /\ a <> 0.
Proof.
  intros Hinv Hi Hp. destruct (pointer_inv w i Hinv Hi) as (b & Hb & Hok & Hm & Hp').
  rewrite Hp in Hp'. simplify_eq. destruct page_entries as (HP & HE & _).
  destruct Hinv as (Hl & Hbs & Hdis). split; [|destruct Hok; unfold entry_of; lia].
  split; [done|]. split; [|done].
  intros c Hc. apply list_elem_of_lookup_1 in Hc as [k Hk]. cbn in Hk.
  destruct (Hbs c) as (Hc0 & Hc1 & Hc2 & Hc3); [by eapply list_elem_of_lookup_2|].
  split_and!; try done. intros j Hj. apply slot_ok_wr; [by apply Hc3|done|]. rewrite le_bytes_length.
  unfold entry_of, code_of. destruct (decide (k = i / E)%nat) as [->|Hne].
  - rewrite Hb in Hk. simplify_eq. lia.
  - specialize (Hdis _ _ _ _ Hne Hk Hb). unfold disjoint_range in Hdis. lia.
Qed.

(** Writing the entry of symbol [i] updates [abs] at [i]. *)
Lemma write_entry_refines w abs i s v0 f a v :
  refines w abs -> abs !! i = Some (s, v0) -> pointer (t_state w) i = Some (f, a) -> is_u64 v ->
  refines (write_entry w a v) (<[i := (s, v)]> abs).
Proof.
  intros (Hinv & Hsym & Habs) Hi Hp Hv.
  assert (forall k x, abs !! k = Some x -> (k < length (symbols (t_state w)))%nat) as Hlen
    by (intros k x Hk; rewrite Hsym, length_fmap; by eapply lookup_lt_Some).
  split; [|split].
  - eapply write_entry_inv; eauto.
  - cbn. rewrite Hsym, list_fmap_insert. cbn. rewrite list_insert_id; [done|]. by rewrite list_lookup_fmap, Hi.
  - intros k s' v' Hk. change (pointer (t_state (write_entry w a v)) k) with (pointer (t_state w) k).
    change (mem (t_state (write_entry w a v))) with (wr (mem (t_state w)) a (le_bytes 8 v)).
    destruct (decide (i = k)) as [<-|Hne].
    + rewrite list_lookup_insert_eq in Hk by (by eapply lookup_lt_Some). simplify_eq.
      exists f, a. split; [done|]. by apply word_wr.
    + rewrite list_lookup_insert_ne in Hk by done. destruct (Habs k s' v' Hk) as (f' & a' & Hp' & Hw).
      exists f', a'. split; [done|]. rewrite word_wr_out; [done|]. rewrite le_bytes_length.
      destruct (entries_disjoint w i k f a f' a' Hinv Hne ltac:(eauto) ltac:(eauto) Hp Hp'); lia.
Qed.

(** ** The operations *)

Definition extend (sym : VersionedSymbol) (w : W) : W :=
  Traced (Trampolines (blocks (t_state w)) (symbols (t_state w) ++ [sym]) (mem (t_state w))) (t_trace w).

(** Room for one more symbol: keeps everything, or fails without losing anything. *)
Lemma allocate_spec w abs sym :
  mmap_fresh kernel -> refines w abs ->
  exists r w', allocate kernel address_callback undefined_trampoline sym w = Ok (r, w')
    /\ match r with
       | Some i => exists w1, w' = extend sym w1 /\ i = length abs /\ refines w1 abs
                   /\ (length abs + 1 <= E * length (blocks (t_state w1)))%nat
       | None => refines w' abs
       end.
Proof.
  intros Hfresh Href. pose proof Href as (Hinv & Hsym & Habs). pose proof Hinv as (Hl & Hbs & Hdis).
  destruct page_entries as (HP & HE & _).
  assert (length (symbols (t_state w)) = length abs) as Hlen by (rewrite Hsym; apply length_fmap).
  unfold allocate. tunfold. rewrite Hlen in *.
  destruct (length (blocks (t_state w)) <=? (length abs + 1) / E)%nat eqn:Hfull.
  2: { apply Nat.leb_gt in Hfull. eexists _, _. split; [reflexivity|]. exists w. cbn. rewrite Hlen.
       split; [by destruct w as [[] ?]|]. split; [done|]. split; [done|].
       pose proof (Nat.div_mod_eq (length abs + 1) E). pose proof (Nat.mod_upper_bound (length abs + 1) E). nia. }
  rewrite trampolines_block_eq. replace (2 * PAGE_SIZE + PAGE_SIZE) with (3 * PAGE_SIZE) by lia.
  cbn [t_state t_trace]. set (c1 := Sys_mmap _ _ _ _ _ _).
  destruct (kernel (t_trace w) c1) as [v|e] eqn:Hk; cbn [t_state t_trace].
  2: { eexists _, _. split; [reflexivity|]. cbn. split; [|done]. split; [cbn; by rewrite Hlen|]. split; [|done].
       intros b Hb. destruct (Hbs b Hb) as (?&?&Hin&?). split_and!; try done. cbn. rewrite live_maps_app. subst c1. done. }
  destruct (Hfresh _ _ _ _ _ _ _ _ Hk) as (Hv0 & Hv1 & Hvd).
  set (w1 := Traced (set_mem (fill_block undefined_trampoline v) (t_state w)) (t_trace w ++ [Ev_sys c1 (Success v)])).
  set (c2 := Sys_mprotect v (2 * PAGE_SIZE) PROT_EXEC).
  destruct (fill_block_ok v (mem (t_state w)) E (le_n _)) as (Hf1 & Hf2 & Hf3).
  assert (forall b, b ∈ blocks (t_state w) -> disjoint_range v (3 * PAGE_SIZE) b (3 * PAGE_SIZE)) as Hvb.
  { intros b Hb. destruct (Hbs b Hb) as (?&?&Hin&?). by apply Hvd. }
  assert (refines w1 abs /\ forall j, (j < E)%nat -> slot_ok (mem (t_state w1)) v j) as [Href1 Hslots].
  { split; [|exact Hf1]. split; [split; [|split]|split; [done|]].
    - cbn. by rewrite Hlen.
    - intros b Hb. specialize (Hvb b Hb). destruct (Hbs b Hb) as (?&?&Hin&Hs). split_and!; try done.
      + cbn [t_trace w1]. rewrite live_maps_app. subst c1. by apply elem_of_cons; right.
      + intros j Hj. apply Hf2; [|by apply Hs]. rewrite slot_code_length. unfold disjoint_range, code_of in *. lia.
    - done.
    - intros i s t Hi. destruct (Habs i s t Hi) as (f & a & Hp & Hw). exists f, a. split; [done|].
      rewrite <- Hw. apply Hf3.
      destruct (pointer_inv w i Hinv) as (b & Hb & Hbo & Hm & Hp').
      { rewrite Hlen. by eapply lookup_lt_Some. }
      rewrite Hp in Hp'. simplify_eq. specialize (Hvb b ltac:(by eapply list_elem_of_lookup_2)).
      unfold disjoint_range, entry_of in *. lia. }
  destruct (kernel (t_trace w1) c2) as [v2|e2] eqn:Hk2; cbn [success].
  - eexists _, _. unfold w1 in Hk2. cbn in Hk2 |- *. rewrite Hk2. cbn. split; [reflexivity|].
    exists (Traced (Trampolines (blocks (t_state w) ++ [v]) (symbols (t_state w)) (mem (t_state w1)))
              ((t_trace w ++ [Ev_sys c1 (Success v)]) ++ [Ev_sys c2 (Success v2)])).
    split; [done|]. split; [done|]. cbn. rewrite length_app. cbn.
    split; [|nia].
    destruct Href1 as ((_ & Hbs1 & _) & _ & Habs1).
    split; [split; [|split]|split; [done|]]; cbn.
    + rewrite Hlen, length_app. nia.
    + intros b [Hb| ->%list_elem_of_singleton]%elem_of_app.
      * destruct (Hbs1 b Hb) as (?&?&?&?). split_and!; try done. cbn. rewrite live_maps_app. subst c2. done.
      * split_and!; [done|done| |done]. cbn. rewrite !live_maps_app. subst c1 c2. apply elem_of_cons. by left.
    + intros i j b c Hij Hi Hj.
      apply lookup_app_Some in Hi as [Hi|[Hi0 Hi]]; apply lookup_app_Some in Hj as [Hj|[Hj0 Hj]].
      * by eapply Hdis.
      * apply list_lookup_singleton_Some in Hj as [_ <-].
        specialize (Hvb b ltac:(by eapply list_elem_of_lookup_2)). unfold disjoint_range in *. lia.
      * apply list_lookup_singleton_Some in Hi as [_ <-]. apply Hvb. by eapply list_elem_of_lookup_2.
      * apply list_lookup_singleton_Some in Hi as [? _]. apply list_lookup_singleton_Some in Hj as [? _]. lia.
    + intros i s t Hi. destruct (Habs1 i s t Hi) as (f & a & Hp & Hw). exists f, a. split; [|done].
      revert Hp. unfold pointer. cbn. rewrite length_app.
      destruct (i <? length (symbols (t_state w)))%nat; [|done].
      destruct (i / E <? length (blocks (t_state w)))%nat eqn:Hlt; [|done]. apply Nat.ltb_lt in Hlt.
      replace (i / E <? length (blocks (t_state w)) + length [v])%nat with true by (symmetry; apply Nat.ltb_lt; lia).
      by rewrite lookup_app_l.
  - eexists _, _. unfold w1 in Hk2. cbn in Hk2 |- *. rewrite Hk2. cbn. split; [reflexivity|].
    destruct Href1 as ((Hl1 & Hbs1 & Hdis1) & Hsym1 & Habs1).
    split; [|done]. split; [done|]. split; [|done].
    intros b Hb. destruct (Hbs1 b Hb) as (?&?&Hin&?). split_and!; try done. cbn.
    rewrite 2!live_maps_app. subst c2. case_match; [|done]. apply list_elem_of_filter. split; [|done]. cbn.
    specialize (Hvb b Hb). unfold disjoint_range in Hvb. lia.
Qed.

(** What set promises: the symbol's target becomes [v]. *)
Definition abs_set (t : trampolines) (abs : list (VersionedSymbol * Z)) (sym : VersionedSymbol) (v : Z) :
  list (VersionedSymbol * Z) :=
  match index t sym with
  | Some i => match abs !! i with Some (s, _) => <[i := (s, v)]> abs | None => abs end
  | None => abs ++ [(sym, v)]
  end.

Lemma find_index_lt l sym i k : find_index l sym i = Some k -> (i <= k < i + length l)%nat.
Proof.
  revert i; induction l as [|s l IH]; intros i; cbn; [done|].
  case_match; [intros [= <-]; lia|]. intros Hk%IH. lia.
Qed.
Lemma index_lt t sym k : index t sym = Some k -> (k < length (symbols t))%nat.
Proof. unfold index. case_decide; [|done]. intros Hk%find_index_lt. lia. Qed.

Lemma extend_refines w abs sym v :
  refines w abs -> (length abs + 1 <= E * length (blocks (t_state w)))%nat -> is_u64 v ->
  exists f a, pointer (t_state (extend sym w)) (length abs) = Some (f, a) /\ a <> 0
    /\ refines (write_entry (extend sym w) a v) (abs ++ [(sym, v)]).
Proof.
  intros Href Hroom Hv. pose proof Href as (Hinv & Hsym & Habs).
  assert (length (symbols (t_state w)) = length abs) as Hlen by (rewrite Hsym; apply length_fmap).
  assert (tr_inv (extend sym w)) as Hinv'.
  { destruct Hinv as (Hl & Hbs & Hdis). split; [|done]. cbn. rewrite length_app, Hlen. done. }
  destruct (pointer_inv (extend sym w) (length abs) Hinv') as (b & Hb & _ & _ & Hp).
  { cbn. rewrite length_app, Hlen. cbn. lia. }
  set (f := code_of _ _) in Hp. set (a := entry_of _ _) in Hp.
  destruct (write_entry_inv (extend sym w) (length abs) f a v Hinv') as [_ Ha0]; [|done|].
  { cbn. rewrite length_app, Hlen. cbn. lia. }
  exists f, a. split; [done|]. split; [done|].
  set (v0 := word (mem (t_state w)) a).
  assert (refines (extend sym w) (abs ++ [(sym, v0)])) as Href'.
  { split; [done|]. split; [cbn; by rewrite Hsym, fmap_app|].
    intros i s t Hi. apply lookup_app_Some in Hi as [Hi|[Hli Hi]].
    - destruct (Habs i s t Hi) as (f' & a' & Hp' & Hw). exists f', a'. split; [|done].
      revert Hp'. unfold pointer. cbn. rewrite length_app.
      destruct (i <? length (symbols (t_state w)))%nat eqn:Hlt; [|done]. apply Nat.ltb_lt in Hlt.
      by replace (i <? length (symbols (t_state w)) + length [sym])%nat with true by (symmetry; apply Nat.ltb_lt; lia).
    - apply list_lookup_singleton_Some in Hi as [Hi [= <- <-]].
      replace i with (length abs) by lia. by exists f, a. }
  replace (abs ++ [(sym, v)]) with (<[length abs := (sym, v)]> (abs ++ [(sym, v0)])).
  - eapply write_entry_refines; [done| |done|done]. by rewrite lookup_app_r, Nat.sub_diag by lia.
  - rewrite insert_app_r_alt by lia. by rewrite Nat.sub_diag.
Qed.

Section ops.
Context (resolve_current : VersionedSymbol -> option VersionedSymbol) (pointer_of : VersionedSymbol -> Z).
Context (Hu64 : forall s, is_u64 (pointer_of s)).

Lemma set_spec w abs sym :
  mmap_fresh kernel -> refines w abs ->
  exists f w', set kernel address_callback undefined_trampoline resolve_current pointer_of sym w = Ok (f, w')
    /\ ((f = 0 /\ refines w' abs)
        \/ exists r abs', resolve_current sym = Some r
             /\ abs' = abs_set (t_state w) abs sym (pointer_of r) /\ refines w' abs'
             /\ f <> 0 /\ exec (rd (mem (t_state w'))) f = Some (pointer_of r)).
Proof.
  intros Hfresh Href. unfold set. tunfold.
  destruct (resolve_current sym) as [r|]; [|eexists _, _; split; [reflexivity|by left]].
  specialize (Hu64 r) as Hv. set (v := pointer_of r) in *. unfold abs_set.
  destruct (index (t_state w) sym) as [i|] eqn:Hi.
  - apply index_lt in Hi. pose proof Href as (Hinv & Hsym & Habs).
    assert (i < length abs)%nat as Hia by (by rewrite Hsym, length_fmap in Hi).
    destruct (lookup_lt_is_Some_2 abs i Hia) as [[s v0] Hs]. rewrite Hs.
    destruct (Habs i s v0 Hs) as (f & a & Hp & _). rewrite Hp.
    destruct (write_entry_inv w i f a v Hinv Hi Hp) as [_ Ha]. apply Z.eqb_neq in Ha as ->. cbn [negb].
    pose proof (write_entry_refines w abs i s v0 f a v Href Hs Hp Hv) as Href'.
    exists f, (write_entry w a v). split; [done|]. right. exists r, (<[i := (s, v)]> abs).
    split; [done|]. split; [done|]. split; [done|].
    destruct (refines_exec _ _ i s v Href') as (f' & a' & Hp' & Hf0 & Hex).
    { by apply list_lookup_insert_eq. }
    change (pointer (t_state (write_entry w a v)) i) with (pointer (t_state w) i) in Hp'.
    rewrite Hp in Hp'. by simplify_eq.
  - destruct (allocate_spec w abs sym Hfresh Href) as ([i|] & w' & Hal & Hr); rewrite Hal.
    + destruct Hr as (w1 & -> & -> & Href1 & Hroom).
      destruct (extend_refines w1 abs sym v Href1 Hroom Hv) as (f & a & Hp & Ha & Href').
      cbn [t_state extend] in Hp |- *. rewrite Hp. apply Z.eqb_neq in Ha as ->. cbn [negb].
      exists f, (write_entry (extend sym w1) a v). split; [done|]. right. exists r, (abs ++ [(sym, v)]).
      split; [done|]. split; [done|]. split; [done|].
      destruct (refines_exec _ _ (length abs) sym v Href') as (f' & a' & Hp' & Hf0 & Hex).
      { by rewrite lookup_app_r, Nat.sub_diag by lia. }
      change (pointer (t_state (write_entry (extend sym w1) a v))) with (pointer (t_state (extend sym w1))) in Hp'.
      cbn [t_state extend] in Hp'. rewrite Hp in Hp'. by simplify_eq.
    + eexists _, _. split; [reflexivity|by left].
Qed.

(** What update promises: every symbol's target becomes its current address. *)
Definition refresh (x : VersionedSymbol * Z) : VersionedSymbol * Z :=
  match resolve_current x.1 with Some r => (x.1, pointer_of r) | None => x end.

Lemma update_spec w abs :
  refines w abs ->
  exists w', update resolve_current pointer_of w = Ok (tt, w') /\ refines w' (refresh <$> abs).
Proof.
  intros Href. unfold update. tunfold.
  set (body := fun i : nat => _).
  assert (length (symbols (t_state w)) = length abs) as -> by (rewrite (proj1 (proj2 Href)); apply length_fmap).
  assert (forall n k w0, (k + n = length abs)%nat ->
            refines w0 (imap (fun i x => if (i <? k)%nat then refresh x else x) abs) ->
            exists w', mfor (seq k n) body w0 = Ok (tt, w')
              /\ refines w' (imap (fun i x => if (i <? k + n)%nat then refresh x else x) abs)) as Hloop.
  { induction n as [|n IH]; intros k w0 Hk Href0; cbn [seq mfor]; [exists w0; by rewrite Nat.add_0_r|].
    set (abs0 := imap _ abs) in Href0. pose proof Href0 as (Hinv & Hsym & Habs).
    assert (k < length abs)%nat as Hka by lia.
    destruct (lookup_lt_is_Some_2 abs k Hka) as [[s v0] Hs].
    assert (abs0 !! k = Some (s, v0)) as Hs0.
    { subst abs0. rewrite list_lookup_imap, Hs. cbn. by rewrite Nat.ltb_irrefl. }
    assert (exists w1, body k w0 = Ok (tt, w1)
              /\ refines w1 (imap (fun i x => if (i <? S k)%nat then refresh x else x) abs)) as (w1 & Hb & Href1).
    { destruct (Habs k s v0 Hs0) as (f & a & Hp & _).
      assert (symbols (t_state w0) !! k = Some s) as Hsk by (by rewrite Hsym, list_lookup_fmap, Hs0).
      assert (imap (fun i x => if (i <? S k)%nat then refresh x else x) abs = <[k := refresh (s, v0)]> abs0) as ->.
      { apply list_eq. intros j. subst abs0. destruct (decide (j = k)) as [->|Hne].
        - rewrite list_lookup_insert_eq by (by rewrite length_imap). rewrite list_lookup_imap, Hs. cbn.
          by replace (k <? S k)%nat with true by (symmetry; apply Nat.ltb_lt; lia).
        - rewrite list_lookup_insert_ne by done. rewrite !list_lookup_imap.
          destruct (abs !! j); [|done]. cbn. do 2 f_equal.
          destruct (Nat.ltb_spec j (S k)), (Nat.ltb_spec j k); done || lia. }
      subst body. cbn beta. munfold. rewrite Hsk. unfold refresh. cbn [fst].
      destruct (resolve_current s) as [r|].
      - rewrite Hp. destruct (write_entry_inv w0 k f a (pointer_of r) Hinv) as [_ Ha]; [|done|].
        { rewrite Hsym, length_fmap. by eapply lookup_lt_Some. }
        apply Z.eqb_neq in Ha as ->. cbn [negb].
        exists (write_entry w0 a (pointer_of r)). split; [done|]. by eapply write_entry_refines.
      - exists w0. split; [done|]. by rewrite list_insert_id. }
    destruct (IH (S k) w1 ltac:(lia) Href1) as (w' & Hw' & Href').
    exists w'. split; [|by replace (k + S n)%nat with (S k + n)%nat by lia].
    munfold. by rewrite Hb. }
  destruct (Hloop (length abs) 0%nat w eq_refl) as (w' & Hrun & Href').
  { replace (imap _ abs) with abs; [done|]. symmetry. apply list_eq. intros j. rewrite list_lookup_imap.
    by destruct (abs !! j). }
  exists w'. split; [done|]. replace (refresh <$> abs) with (imap (fun i x => if (i <? 0 + length abs)%nat then refresh x else x) abs);
    [done|].
  apply list_eq. intros j. rewrite list_lookup_imap, list_lookup_fmap.
  destruct (abs !! j) eqn:Hj; [|done]. cbn. apply lookup_lt_Some in Hj.
  by replace (j <? length abs)%nat with true by (symmetry; by apply Nat.ltb_lt).
Qed.
End ops.

(** ** Runs

    Between the operations objects are loaded and updated: every operation has its own
    resolution of the symbols. *)
Inductive tramp_run : W -> list (VersionedSymbol * Z) -> Prop :=
| run_init : tramp_run (Traced (Trampolines [] [] ∅) []) []
| run_set w abs resolve ptr sym r f w' :
    tramp_run w abs -> (forall s, is_u64 (ptr s)) ->
    set kernel address_callback undefined_trampoline resolve ptr sym w = Ok (f, w') ->
    resolve sym = Some r -> f <> 0 -> tramp_run w' (abs_set (t_state w) abs sym (ptr r))
| run_set_failed w abs resolve ptr sym w' :
    tramp_run w abs -> (forall s, is_u64 (ptr s)) ->
    set kernel address_callback undefined_trampoline resolve ptr sym w = Ok (0, w') ->
    tramp_run w' abs
| run_update w abs resolve ptr w' :
    tramp_run w abs -> (forall s, is_u64 (ptr s)) ->
    update resolve ptr w = Ok (tt, w') -> tramp_run w' (refresh resolve ptr <$> abs).

Lemma refines_init : refines (Traced (Trampolines [] [] ∅) []) [].
Proof.
  split; [|by split]. split; [cbn; lia|]. cbn. split; [set_solver|]. intros; set_solver.
Qed.

Lemma tramp_run_refines w abs : mmap_fresh kernel -> tramp_run w abs -> refines w abs.
Proof.
  intros Hfresh. induction 1 as [|w abs resolve ptr sym r f w' _ IH Hu Hset Hr Hf|w abs resolve ptr sym w' _ IH Hu Hset
    |w abs resolve ptr w' _ IH Hu Hup].
  - apply refines_init.
  - destruct (set_spec resolve ptr Hu w abs sym Hfresh IH) as (f1 & w1 & Hr1 & Hcase).
    rewrite Hset in Hr1. simplify_eq. destruct Hcase as [[? _]|(r' & abs' & Hr' & -> & Href & _)]; [done|].
    by rewrite Hr in Hr'; simplify_eq.
  - destruct (set_spec resolve ptr Hu w abs sym Hfresh IH) as (f1 & w1 & Hr1 & Hcase).
    rewrite Hset in Hr1. simplify_eq. by destruct Hcase as [[_ ?]|(?&?&?&?&?&?&?)].
  - destruct (update_spec resolve ptr Hu w abs IH) as (w1 & Hr1 & Href). by rewrite Hup in Hr1; simplify_eq.
Qed.

(** C5: whatever sequence of set and update operations was executed, no further operation fails an
    assertion, and executing the code of every trampoline ends at the address its symbol resolved
    to most recently: after a set at the address set found, after an update at the current version. *)
Theorem trampolines_refine w abs resolve ptr sym :
  mmap_fresh kernel -> tramp_run w abs -> (forall s, is_u64 (ptr s)) ->
  (forall i s v, abs !! i = Some (s, v) ->
     exists f a, pointer (t_state w) i = Some (f, a) /\ f <> 0 /\ exec (rd (mem (t_state w))) f = Some v)
  /\ symbols (t_state w) = abs.*1
  /\ (exists f w', set kernel address_callback undefined_trampoline resolve ptr sym w = Ok (f, w')
       /\ (f <> 0 -> exists r, resolve sym = Some r /\ exec (rd (mem (t_state w'))) f = Some (ptr r)))
  /\ (exists w', update resolve ptr w = Ok (tt, w')).
Proof.
  intros Hfresh Hrun Hu. apply (tramp_run_refines w abs Hfresh) in Hrun as Href. split_and!.
  - intros i s v. by apply refines_exec.
  - apply Href.
  - destruct (set_spec resolve ptr Hu w abs sym Hfresh Href) as (f & w' & Hset & Hcase).
    exists f, w'. split; [done|]. intros Hf. destruct Hcase as [[? _]|(r & abs' & Hr & _ & _ & _ & Hex)]; [done|eauto].
  - destruct (update_spec resolve ptr Hu w abs Href) as (w' & Hup & _). eauto.
Qed.

End facts.

(** ** Witness: two symbols, then an update that moves the second one. *)

Definition ex_sym (d : Z) (name : string) : VersionedSymbol := {|
  sym_object := 1; sym_data := d; sym_name := name; sym_value := d; sym_size := 16;
  sym_bind := STB_GLOBAL; sym_type := STT_FUNC; sym_valid := true;
  version := no_version true; sym_hash_value := None; sym_gnu_hash_value := None |}.
Definition ex_f := ex_sym 0x1000 "f".
Definition ex_g := ex_sym 0x2000 "g".
Definition ex_resolve (s : VersionedSymbol) : option VersionedSymbol := Some s.
Definition ex_ptr1 (s : VersionedSymbol) : Z := if sym_data s =? 0x1000 then 0x401000 else 0x402000.
Definition ex_ptr2 (s : VersionedSymbol) : Z := if sym_data s =? 0x1000 then 0x401000 else 0x702000.
Definition ex_after {A} (m : M (traced trampolines) A) (w : traced trampolines) : traced trampolines :=
  match m w with Ok (_, w') => w' | _ => w end.
Abbreviation ex_set := (@set dlh_tiny ex_strings bump_kernel None 0x400000 ex_resolve ex_ptr1).
Definition ex_w1 := ex_after (ex_set ex_f) (Traced (Trampolines [] [] ∅) []).
Definition ex_w2 := ex_after (ex_set ex_g) ex_w1.
Definition ex_w3 := ex_after (@update dlh_tiny ex_resolve ex_ptr2) ex_w2.

Lemma trampolines_refine_witness :
  exists f a, @pointer dlh_tiny (t_state ex_w3) 1 = Some (f, a) /\ exec (rd (mem (t_state ex_w3))) f = Some 0x702000.
Proof.
  destruct (@trampolines_refine dlh_tiny dlh_tiny_spec ex_strings bump_kernel None 0x400000 ex_w3
    [(ex_f, 0x401000); (ex_g, 0x702000)] ex_resolve ex_ptr2 ex_f bump_kernel_fresh) as (Hexec & _).
  - apply (@run_update dlh_tiny ex_strings bump_kernel None 0x400000 ex_w2
             [(ex_f, 0x401000); (ex_g, 0x402000)] ex_resolve ex_ptr2 ex_w3).
    + apply (@TrampolineProofs.run_set dlh_tiny ex_strings bump_kernel None 0x400000 ex_w1 [(ex_f, 0x401000)] ex_resolve ex_ptr1 ex_g ex_g 0x100010 ex_w2).
      * apply (@TrampolineProofs.run_set dlh_tiny ex_strings bump_kernel None 0x400000 (Traced (Trampolines [] [] ∅) []) [] ex_resolve ex_ptr1 ex_f ex_f 0x100000 ex_w1).
        -- apply run_init.
        -- intros s. unfold ex_ptr1, is_u64. destruct (_ =? _); lia.
        -- vm_compute. reflexivity.
        -- reflexivity.
        -- discriminate.
      * intros s. unfold ex_ptr1, is_u64. destruct (_ =? _); lia.
      * vm_compute. reflexivity.
      * reflexivity.
      * discriminate.
    + intros s. unfold ex_ptr2, is_u64. destruct (_ =? _); lia.
    + vm_compute. reflexivity.
  - intros s. unfold ex_ptr2, is_u64. destruct (_ =? _); lia.
  - destruct (Hexec 1%nat ex_g 0x702000 eq_refl) as (f & a & Hp & _ & Hx). exists f, a. split; [exact Hp|exact Hx].
Defined.

End TrampolineProofs.
