(* ===== verification/CodeStore.v ===== *)
(** The interface through which code is changed: Object::compose_pointer gives a pointer to where
    the bytes of an address are prepared (the place itself, or a back buffer), MemorySegment::finalize
    puts the segment into service.  Redirections and relocations are written against it; the memory
    segments of Segment.v implement it (ObjectMemory.v). *)
From S2P Require Import Prelude.

(** Operations of the code of a process with state [S].  Objects are named by numbers, the
    segments of an object by their index in its memory map. *)
Class CodeStore (S : Type) := {
  compose_pointer : Z -> Z -> M S (option (Z * nat));  (* object, address: pointer and segment *)
  finalize_segment : Z -> nat -> M S bool;             (* seg->finalize() *)
  load : S -> Z -> Z;                                  (* a byte of memory *)
  store : Z -> Z -> S -> S;                            (* *ptr = byte *)
}.

(** What the operations promise, in terms of the [pending] code: the bytes of every address once all
    segments are finalized. *)
Class CodeStoreSpec (S : Type) `{CodeStore S} := {
  store_ok : S -> Prop;
  in_segment : S -> Z -> nat -> Z -> Prop;   (* the segment contains the address *)
  pending : S -> Z -> Z;
  composed : S -> Z -> nat -> Z -> Z -> Prop; (* composed s o g a p: p stands for a *)
  compose_pointer_spec o a s r s' :
    store_ok s -> compose_pointer o a s = Ok (r, s') ->
    store_ok s' /\ (forall x, pending s' x = pending s x)
    /\ (forall o' g x, in_segment s' o' g x <-> in_segment s o' g x)
    /\ match r with
       | Some (p, g) => composed s' o g a p /\ in_segment s' o g a
       | None => True
       end;
  composed_load s o g a p i :
    store_ok s -> composed s o g a p -> 0 <= i -> in_segment s o g (a + i) ->
    load s (p + i) = pending s (a + i);
  composed_store s o g a p i b :
    store_ok s -> composed s o g a p -> 0 <= i -> in_segment s o g (a + i) ->
    let s' := store (p + i) b s in
    store_ok s' /\ composed s' o g a p
    /\ (forall x, pending s' x = if decide (x = a + i) then b else pending s x)
    /\ (forall o' g' x, in_segment s' o' g' x <-> in_segment s o' g' x);
  finalize_segment_spec o g s r s' :
    store_ok s -> finalize_segment o g s = Ok (r, s') ->
    store_ok s' /\ (forall x, pending s' x = pending s x)
    /\ (forall o' g' x, in_segment s' o' g' x <-> in_segment s o' g' x)
    /\ (r = true -> forall x, in_segment s' o g x -> load s' x = pending s' x);
}.

Section patching.
Context {S : Type} `{CodeStore S}.

(** The loops "ptr[i] = bytes[i]" and "bytes[i] = ptr[i]". *)
Fixpoint store_bytes (p : Z) (bs : list Z) (s : S) : S :=
  match bs with
  | [] => s
  | b :: bs => store_bytes (p + 1) bs (store p b s)
  end.
Definition load_bytes (s : S) (p : Z) (n : nat) : list Z := (fun i => load s (p + Z.of_nat i)) <$> seq 0 n.

Context `{!CodeStoreSpec S}.

Lemma store_bytes_spec_from s o g a p k bs :
  store_ok s -> composed s o g a p -> 0 <= k ->
  (forall i, (i < length bs)%nat -> in_segment s o g (a + k + Z.of_nat i)) ->
  let s' := store_bytes (p + k) bs s in
  store_ok s' /\ composed s' o g a p
  /\ (forall x, pending s' x = if decide (a + k <= x < a + k + Z.of_nat (length bs))
                               then nth (Z.to_nat (x - (a + k))) bs 0 else pending s x)
  /\ (forall o' g' x, in_segment s' o' g' x <-> in_segment s o' g' x).
Proof.
  revert s k; induction bs as [|b bs IH]; intros s k Hok Hc Hk Hin; cbn [store_bytes].
  - split_and!; try done. intros x. rewrite decide_False; [done|]. cbn. lia.
  - destruct (composed_store s o g a p k b Hok Hc Hk) as (Hok1 & Hc1 & Hp1 & Hi1).
    { replace (a + k) with (a + k + Z.of_nat 0) by lia. apply Hin. cbn. lia. }
    destruct (IH (store (p + k) b s) (k + 1) Hok1 Hc1 ltac:(lia)) as (Hok2 & Hc2 & Hp2 & Hi2).
    { intros i Hi. apply Hi1. replace (a + (k + 1) + Z.of_nat i) with (a + k + Z.of_nat (Datatypes.S i)) by lia.
      apply Hin. cbn. lia. }
    rewrite Z.add_assoc in *. split_and!; try done.
    + intros x. rewrite Hp2. cbn [length nth]. destruct (decide (a + (k + 1) <= x < _)) as [Hx|Hx].
      * rewrite decide_True by lia.
        replace (Z.to_nat (x - (a + k))) with (Datatypes.S (Z.to_nat (x - (a + (k + 1))))) by lia. done.
      * rewrite Hp1. destruct (decide (x = a + k)) as [->|Hne].
        -- rewrite decide_True by lia. by rewrite Z.sub_diag.
        -- rewrite decide_False; [done|]. lia.
    + intros o' g' x. by rewrite Hi2, Hi1.
Qed.

Lemma store_bytes_spec s o g a p bs :
  store_ok s -> composed s o g a p ->
  (forall i, (i < length bs)%nat -> in_segment s o g (a + Z.of_nat i)) ->
  let s' := store_bytes p bs s in
  store_ok s' /\ composed s' o g a p
  /\ (forall x, pending s' x = if decide (a <= x < a + Z.of_nat (length bs))
                               then nth (Z.to_nat (x - a)) bs 0 else pending s x)
  /\ (forall o' g' x, in_segment s' o' g' x <-> in_segment s o' g' x).
Proof.
  intros Hok Hc Hin. pose proof (store_bytes_spec_from s o g a p 0 bs Hok Hc ltac:(lia)) as Hs.
  rewrite !Z.add_0_r in Hs. by apply Hs.
Qed.

Lemma load_bytes_spec s o g a p n :
  store_ok s -> composed s o g a p ->
  (forall i, (i < n)%nat -> in_segment s o g (a + Z.of_nat i)) ->
  load_bytes s p n = (fun i => pending s (a + Z.of_nat i)) <$> seq 0 n.
Proof.
  intros Hok Hc Hin. apply list_fmap_ext. intros i j [-> Hj]%lookup_seq.
  apply (composed_load s o g a p); auto; lia.
Qed.
End patching.
