(* ===== verification/ObjectMemory.v ===== *)
(** The memory of loaded objects: Object::compose_pointer (object/base.hpp) over the memory segments
    of Segment.v, with the bytes of the process.

    The segments of all objects form one list; [compose_pointer] looks at those of its object in the
    order of its memory map.  The contents of memory follow from the events the segment operations
    produce ([play]). *)
From S2P Require Import Prelude Platform Segment CodeStore.
Import MemorySegment.

Module ObjectMemory.

Record process := Process {
  segs : list (Z * segment);     (* object and segment *)
  bytes : memory;
  trace : list event;
}.

Section object_memory.
Context `{DlhMath}.
Context (hex : Z -> string) (kernel : kernel_t) (octx : Z -> object_ctx).
Context (file_bytes : Z -> Z -> nat -> list Z).

(** Run an operation of segment [g]. *)
Definition on_segment {A} (g : nat) (m : Z -> M (traced segment) A) : M process A := fun w =>
  match segs w !! g with
  | None => AssertFailed
  | Some (o, s) =>
      match m o (Traced s (trace w)) with
      | Ok (a, Traced s' tr') =>
          Ok (a, Process (<[g := (o, s')]> (segs w))
                         (play file_bytes (bytes w) (drop (length (trace w)) tr')) tr')
      | AssertFailed => AssertFailed
      | OutOfFuel => OutOfFuel
      end
  end.

(** The first segment of the object that contains the address. *)
Fixpoint find_segment (l : list (Z * segment)) (o ptr : Z) (i : nat) : option (nat * segment) :=
  match l with
  | [] => None
  | (o', s) :: l => if (o' =? o) && contains s ptr then Some (i, s) else find_segment l o ptr (S i)
  end.

(** Object::compose_pointer *)
Definition object_compose_pointer (o ptr : Z) : M process (option (Z * nat)) :=
  w ← get;
  match find_segment (segs w) o ptr 0 with
  | None => mret None
  | Some (g, s) =>
      buffer ← on_segment g (fun o => compose hex kernel (octx o));
      if buffer =? 0 then mret None
      else mret (Some (w64 (buffer + ptr - address s), g))
  end.

Definition segment_finalize (o : Z) (g : nat) : M process bool := on_segment g (fun _ => finalize kernel false).

#[export] Instance process_store : CodeStore process := {|
  CodeStore.compose_pointer := object_compose_pointer;
  CodeStore.finalize_segment := segment_finalize;
  CodeStore.load w a := rd (bytes w) a;
  CodeStore.store a b w := Process (segs w) (wr (bytes w) a [b]) (trace w);
|}.
End object_memory.
End ObjectMemory.
