(* ===== verification/ObjectMemoryProofs.v ===== *)
(** Memory segments implement the interface of CodeStore.v: what is composed into the back buffers of
    the segments of all objects is exactly the pending code, and finalizing makes it live. *)
From S2P Require Import Prelude Platform Segment SegmentProofs CodeStore ObjectMemory.
Import MemorySegment SegmentProofs ObjectMemory.

Module ObjectMemoryProofs.

#[local] Arguments Z.mul : simpl never.
#[local] Arguments Z.add : simpl never.

Section facts.
Context `{DlhMathSpec} (hex : Z -> string) (kernel : kernel_t) (octx : Z -> object_ctx).
Context (file_bytes : Z -> Z -> nat -> list Z).
Context (Hfresh : mmap_fresh kernel).

Definition mmap_never_fails : Prop :=
  forall tr a len prot fl fd off, success (kernel tr (Sys_mmap a len prot fl fd off)) = true.

(** A mapped segment of an object at a page aligned base.  If the segment does not start at a page
    boundary, the kernel must not refuse the back buffer: compose does not report that failure. *)
Definition seg_ok (s : segment) : Prop :=
  0 <= base s /\ 0 <= offset s /\ 0 < size s /\ page_start s + page_size s < 2^47
  /\ base s + offset s + size s + PAGE_SIZE <= 2^64
  /\ (PAGE_SIZE | base s) /\ status s = MEMSEG_MAPPED
  /\ (offset s mod PAGE_SIZE = 0 \/ mmap_never_fails).

Definition in_pages (s : segment) (x : Z) : Prop := page_start s <= x < page_start s + page_size s.
Definition loc (s : segment) (x : Z) : Z := if buffer s =? 0 then x else buffer s + (x - page_start s).

Lemma seg_ok_pages s : seg_ok s ->
  0 <= page_start s /\ 0 < page_size s /\ page_start s <= address s /\ address s = base s + offset s
  /\ address s - page_start s = offset s mod PAGE_SIZE
  /\ address s + size s <= page_start s + page_size s
  /\ (forall x, contains s x = true <-> address s <= x < address s + size s).
Proof.
  intros (Hb & Ho & Hs & _ & Hov & [k Hk] & _). pose proof page_size_pos.
  assert (seg_wf s) as Hwf by (repeat split; lia).
  pose proof (page_range_facts s 0 Hwf) as (_ & _ & Hpg1 & Hpg2 & _). rewrite (address_wf s Hwf).
  assert (base s + offset s - page_start s = offset s mod PAGE_SIZE) as Hoff.
  { unfold page_start. rewrite (address_wf s Hwf). rewrite Hk.
    rewrite (Z.add_comm (k * PAGE_SIZE)), Z.mod_add by lia. lia. }
  split_and!; try lia.
  - unfold page_start. rewrite (address_wf s Hwf). pose proof (Z.mod_le (base s + offset s) PAGE_SIZE). lia.
  - intros x. apply (page_range_facts s x Hwf).
Qed.

(** ** The invariant *)

Definition regions_ok (s : segment) (tr : list event) : Prop :=
  (page_start s, page_size s) ∈ live_maps tr
  /\ (buffer s = 0 \/ (0 < buffer s /\ buffer s + page_size s < 2^47 /\ (buffer s, page_size s) ∈ live_maps tr)).

Definition apart (s s' : segment) : Prop :=
  disjoint_range (page_start s) (page_size s) (page_start s') (page_size s')
  /\ (buffer s <> 0 -> disjoint_range (buffer s) (page_size s) (page_start s') (page_size s'))
  /\ (buffer s' <> 0 -> disjoint_range (page_start s) (page_size s) (buffer s') (page_size s'))
  /\ (buffer s <> 0 -> buffer s' <> 0 -> disjoint_range (buffer s) (page_size s) (buffer s') (page_size s')).

Lemma disjoint_sym a l b m : disjoint_range a l b m -> disjoint_range b m a l.
Proof. unfold disjoint_range. lia. Qed.
Lemma apart_sym s s' : apart s s' -> apart s' s.
Proof. intros (H1 & H2 & H3 & H4). split_and!; intros; apply disjoint_sym; auto. Qed.

Definition inv (w : process) : Prop :=
  (forall g o s, segs w !! g = Some (o, s) ->
     seg_ok s /\ regions_ok s (trace w)
     /\ (buffer s <> 0 -> disjoint_range (buffer s) (page_size s) (page_start s) (page_size s)))
  /\ (forall g g' o o' s s', g <> g' -> segs w !! g = Some (o, s) -> segs w !! g' = Some (o', s') -> apart s s').

Definition find_page (l : list (Z * segment)) (x : Z) : option (Z * segment) :=
  find (fun os => (page_start os.2 <=? x) && (x <? page_start os.2 + page_size os.2)) l.
Definition pending_code (w : process) (x : Z) : Z :=
  match find_page (segs w) x with
  | Some (_, s) => rd (bytes w) (loc s x)
  | None => 0
  end.

Lemma find_page_in l x o s :
  find_page l x = Some (o, s) -> in_pages s x /\ exists g, l !! g = Some (o, s).
Proof.
  unfold find_page, in_pages. intros [Hin Hc]%find_some. cbn in Hc. split; [lia|].
  apply list_elem_of_In in Hin. by apply list_elem_of_lookup_1.
Qed.

Lemma pending_at w g o s x :
  inv w -> segs w !! g = Some (o, s) -> in_pages s x -> pending_code w x = rd (bytes w) (loc s x).
Proof.
  intros [Hok Hap] Hg Hx. unfold pending_code.
  destruct (find_page (segs w) x) as [[o' s']|] eqn:Hf.
  - apply find_page_in in Hf as [Hx' [g' Hg']].
    destruct (decide (g = g')) as [->|Hne]; [by simplify_eq|].
    destruct (Hap _ _ _ _ _ _ Hne Hg Hg') as [Hd _]. unfold disjoint_range, in_pages in *. lia.
  - exfalso. unfold find_page in Hf. pose proof (find_none _ _ Hf (o, s)) as Hn.
    rewrite <- list_elem_of_In in Hn. specialize (Hn (list_elem_of_lookup_2 _ _ _ Hg)). cbn in Hn.
    unfold in_pages in Hx. lia.
Qed.

Lemma pending_outside w x : (forall g o s, segs w !! g = Some (o, s) -> ~ in_pages s x) -> pending_code w x = 0.
Proof.
  intros Hout. unfold pending_code. destruct (find_page (segs w) x) as [[o s]|] eqn:Hf; [|done].
  apply find_page_in in Hf as [Hx [g Hg]]. by destruct (Hout g o s Hg).
Qed.

Definition same_place (s s' : segment) : Prop := page_start s' = page_start s /\ page_size s' = page_size s.

(** Replacing segment [g] and the memory. *)
Definition update (g : nat) (o : Z) (s' : segment) (m : memory) (tr : list event) (w : process) : process :=
  Process (<[g := (o, s')]> (segs w)) m tr.

Lemma pending_update w g o s s' m tr x :
  inv w -> inv (update g o s' m tr w) -> segs w !! g = Some (o, s) -> same_place s s' ->
  (in_pages s x -> rd m (loc s' x) = rd (bytes w) (loc s x)) ->
  (forall g2 o2 s2, g2 <> g -> segs w !! g2 = Some (o2, s2) -> in_pages s2 x ->
     rd m (loc s2 x) = rd (bytes w) (loc s2 x)) ->
  pending_code (update g o s' m tr w) x = pending_code w x.
Proof.
  intros Hinv Hinv' Hg [Hps Hpz] Hself Hother.
  assert (segs (update g o s' m tr w) !! g = Some (o, s')) as Hg'.
  { cbn. apply list_lookup_insert_eq. by eapply lookup_lt_Some. }
  destruct (find_page (segs w) x) as [[o2 s2]|] eqn:Hf.
  - apply find_page_in in Hf as [Hx [g2 Hg2]]. destruct (decide (g2 = g)) as [->|Hne].
    + simplify_eq. rewrite (pending_at _ _ _ _ _ Hinv Hg Hx).
      rewrite (pending_at _ _ _ _ x Hinv' Hg') by (unfold in_pages in *; lia). by apply Hself.
    + rewrite (pending_at _ _ _ _ _ Hinv Hg2 Hx).
      assert (segs (update g o s' m tr w) !! g2 = Some (o2, s2)) as Hg2' by (cbn; by rewrite list_lookup_insert_ne).
      rewrite (pending_at _ _ _ _ _ Hinv' Hg2' Hx). by apply (Hother g2 o2).
  - assert (forall g3 o3 s3, segs w !! g3 = Some (o3, s3) -> ~ in_pages s3 x) as Hnone.
    { intros g3 o3 s3 Hg3 Hx. unfold find_page in Hf. pose proof (find_none _ _ Hf (o3, s3)) as Hn.
      rewrite <- list_elem_of_In in Hn. specialize (Hn (list_elem_of_lookup_2 _ _ _ Hg3)). cbn in Hn.
      unfold in_pages in Hx. lia. }
    rewrite (pending_outside w) by done. apply pending_outside.
    intros g3 o3 s3 Hg3. cbn in Hg3. destruct (decide (g3 = g)) as [->|Hne].
    + rewrite list_lookup_insert_eq in Hg3 by (by eapply lookup_lt_Some). simplify_eq.
      specialize (Hnone _ _ _ Hg). unfold in_pages in *. lia.
    + rewrite list_lookup_insert_ne in Hg3 by done. by eapply Hnone.
Qed.

Lemma inv_update w g o s s' m tr :
  inv w -> segs w !! g = Some (o, s) -> same_place s s' -> seg_ok s' -> regions_ok s' tr ->
  (buffer s' <> 0 -> disjoint_range (buffer s') (page_size s') (page_start s') (page_size s')) ->
  (buffer s' <> 0 -> buffer s' = buffer s \/
     forall g2 o2 s2, g2 <> g -> segs w !! g2 = Some (o2, s2) ->
       disjoint_range (buffer s') (page_size s') (page_start s2) (page_size s2)
       /\ (buffer s2 <> 0 -> disjoint_range (buffer s') (page_size s') (buffer s2) (page_size s2))) ->
  (forall g2 o2 s2, g2 <> g -> segs w !! g2 = Some (o2, s2) -> regions_ok s2 tr) ->
  inv (update g o s' m tr w).
Proof.
  intros [Hok Hap] Hg [Hps Hpz] Hok' Hreg Hdis Hbuf Hothers.
  assert (forall g2 o2 s2, g2 <> g -> segs w !! g2 = Some (o2, s2) -> apart s' s2) as Hap'.
  { intros g2 o2 s2 Hne Hg2. destruct (Hap g g2 _ _ _ _ (not_eq_sym Hne) Hg Hg2) as (H1 & H2 & H3 & H4).
    unfold apart. rewrite Hps, Hpz in *. split; [done|]. split; [|split; [done|]].
    - intros Hb. destruct (Hbuf Hb) as [Hbe|Hf]; [rewrite Hbe in *; auto|by apply (Hf g2 o2)].
    - intros Hb Hb2. destruct (Hbuf Hb) as [Hbe|Hf]; [rewrite Hbe in *; auto|by apply (Hf g2 o2)]. }
  split.
  - intros g2 o2 s2 Hg2. cbn in Hg2. destruct (decide (g2 = g)) as [->|Hne].
    + rewrite list_lookup_insert_eq in Hg2 by (by eapply lookup_lt_Some). simplify_eq. by split_and!.
    + rewrite list_lookup_insert_ne in Hg2 by done. destruct (Hok _ _ _ Hg2) as (?&?&?).
      split; [done|]. split; [by eapply Hothers|done].
  - intros g2 g3 o2 o3 s2 s3 Hne Hg2 Hg3. cbn in Hg2, Hg3.
    destruct (decide (g2 = g)) as [->|Hne2].
    + rewrite list_lookup_insert_eq in Hg2 by (by eapply lookup_lt_Some). simplify_eq.
      rewrite list_lookup_insert_ne in Hg3 by done. by eapply Hap'.
    + rewrite list_lookup_insert_ne in Hg2 by done. destruct (decide (g3 = g)) as [->|Hne3].
      * rewrite list_lookup_insert_eq in Hg3 by (by eapply lookup_lt_Some). simplify_eq.
        apply apart_sym. by eapply Hap'.
      * rewrite list_lookup_insert_ne in Hg3 by done. by eapply (Hap g2 g3).
Qed.


(** ** compose and finalize on one segment *)

(** What an operation leaves alone. *)
Definition quiet (es : list event) (tr tr' : list event) : Prop :=
  tr' = tr ++ es /\ (forall m, play file_bytes m es = m) /\ live_maps tr' = live_maps tr.

Lemma quiet_nil tr : quiet [] tr tr.
Proof. split; [by rewrite app_nil_r|done]. Qed.
Lemma quiet_mprotect tr a l p r : quiet [Ev_sys (Sys_mprotect a l p) r] tr (tr ++ [Ev_sys (Sys_mprotect a l p) r]).
Proof. split; [done|]. split; [done|]. by rewrite live_maps_app. Qed.

Definition shape_of (s s' : segment) : Prop :=
  base s' = base s /\ offset s' = offset s /\ size s' = size s /\ status s' = status s.
Lemma shape_same_place s s' : shape_of s s' -> same_place s s' /\ address s' = address s.
Proof.
  intros (Hb & Ho & Hs & _). unfold same_place, page_size, page_start, address. by rewrite Hb, Ho, Hs.
Qed.
Lemma shape_seg_ok s s' : shape_of s s' -> seg_ok s -> seg_ok s'.
Proof.
  intros Hsh. destruct (shape_same_place _ _ Hsh) as [[Hps Hpz] _]. destruct Hsh as (Hb & Ho & Hs & Hst).
  unfold seg_ok. by rewrite Hps, Hpz, Hb, Ho, Hs, Hst.
Qed.

Definition fresh_copy (s : segment) (b : Z) (m : memory) : memory :=
  let n := Z.to_nat (page_size s) in
  let m1 := wr m b (replicate n 0) in wr m1 b (rds m1 (page_start s) n).

Lemma compose_cases o s tr v s' tr' :
  seg_ok s -> compose hex kernel o (Traced s tr) = Ok (v, Traced s' tr') ->
  shape_of s s' /\ exists es,
  (quiet es tr tr' /\ buffer s' = buffer s
     /\ (v = 0 \/ (buffer s = 0 /\ v = address s) \/ (buffer s <> 0 /\ v = w64 (buffer s + offset s mod PAGE_SIZE))))
  \/ (buffer s = 0 /\ tr' = tr ++ es /\ exists b, buffer s' = b /\ v = w64 (b + offset s mod PAGE_SIZE)
       /\ (forall m, play file_bytes m es = fresh_copy s b m)
       /\ live_maps tr' = (b, page_size s) :: live_maps tr
       /\ 0 < b /\ b + page_size s < 2^47
       /\ forall a l, (a, l) ∈ live_maps tr -> disjoint_range b (page_size s) a l).
Proof.
  intros Hok Hm. destruct Hok as (_ & _ & _ & _ & _ & _ & Hst & Hfail).
  unfold compose in Hm. tunfold. rewrite decide_True in Hm by done. cbn in Hm.
  destruct (Z.eqb_spec (buffer s) 0) as [Hb|Hb]; cbn in Hm.
  2: { simplify_eq. split; [done|]. exists []. left. split; [apply quiet_nil|]. auto. }
  destruct (has_flag (effective_protection s) PROT_WRITE); cbn in Hm.
  { simplify_eq. split; [done|]. exists []. left. split; [apply quiet_nil|]. auto. }
  (* the request for a back buffer, after the events es0 *)
  assert (forall es0 tr0, quiet es0 tr tr0 ->
    let c := Sys_mmap (compose_hint s) (page_size s) (Z.lor PROT_READ PROT_WRITE) flags_privanon (-1) 0 in
    (forall b, kernel tr0 c = Success b ->
       exists es, (tr0 ++ [Ev_sys c (Success b)]) ++ [Ev_copy b (page_start s) (page_size s)] = tr ++ es
       /\ (forall m, play file_bytes m es = fresh_copy s b m)
       /\ live_maps ((tr0 ++ [Ev_sys c (Success b)]) ++ [Ev_copy b (page_start s) (page_size s)])
          = (b, page_size s) :: live_maps tr
       /\ 0 < b /\ b + page_size s < 2^47
       /\ forall a l, (a, l) ∈ live_maps tr -> disjoint_range b (page_size s) a l)
    /\ (forall e, kernel tr0 c = Failure e ->
          quiet (es0 ++ [Ev_sys c (Failure e)]) tr (tr0 ++ [Ev_sys c (Failure e)]) /\ offset s mod PAGE_SIZE = 0))
    as Hreq.
  { intros es0 tr0 (-> & Hpl & Hlm) c. split.
    - intros b Hk. destruct (Hfresh _ _ _ _ _ _ _ _ Hk) as (Hb0 & Hb1 & Hbd). rewrite Hlm in Hbd.
      exists (es0 ++ [Ev_sys c (Success b); Ev_copy b (page_start s) (page_size s)]).
      split; [by rewrite <- !app_assoc|]. split.
      { intros m. unfold play in *. rewrite foldl_app, Hpl. done. }
      split; [rewrite !live_maps_app; by subst c; rewrite Hlm|]. done.
    - intros e Hk. split.
      + split; [by rewrite app_assoc|]. split.
        * intros m. unfold play in *. rewrite foldl_app, Hpl. done.
        * rewrite live_maps_app. by subst c.
      + destruct Hfail as [?|Hnf]; [done|]. specialize (Hnf (tr ++ es0)). subst c.
        match type of Hk with kernel _ (Sys_mmap ?a ?l ?p ?f ?d ?q) = _ => specialize (Hnf a l p f d q) end.
        by rewrite Hk in Hnf. }
  assert (forall es0 tr0 v s' tr', quiet es0 tr tr0 ->
    match kernel tr0 (Sys_mmap (compose_hint s) (page_size s) (Z.lor PROT_READ PROT_WRITE) flags_privanon (-1) 0) with
    | Success b => v = w64 (b + offset s mod PAGE_SIZE) /\ s' = set_buffer b s
        /\ tr' = (tr0 ++ [Ev_sys (Sys_mmap (compose_hint s) (page_size s) (Z.lor PROT_READ PROT_WRITE) flags_privanon (-1) 0) (Success b)])
                 ++ [Ev_copy b (page_start s) (page_size s)]
    | Failure e => v = w64 (buffer s + offset s mod PAGE_SIZE) /\ s' = s
        /\ tr' = tr0 ++ [Ev_sys (Sys_mmap (compose_hint s) (page_size s) (Z.lor PROT_READ PROT_WRITE) flags_privanon (-1) 0) (Failure e)]
    end ->
    shape_of s s' /\ exists es,
    (quiet es tr tr' /\ buffer s' = buffer s
     /\ (v = 0 \/ (buffer s = 0 /\ v = address s) \/ (buffer s <> 0 /\ v = w64 (buffer s + offset s mod PAGE_SIZE))))
    \/ (buffer s = 0 /\ tr' = tr ++ es /\ exists b, buffer s' = b /\ v = w64 (b + offset s mod PAGE_SIZE)
       /\ (forall m, play file_bytes m es = fresh_copy s b m)
       /\ live_maps tr' = (b, page_size s) :: live_maps tr
       /\ 0 < b /\ b + page_size s < 2^47
       /\ forall a l, (a, l) ∈ live_maps tr -> disjoint_range b (page_size s) a l)) as Hfin.
  { intros es0 tr0 v1 s1 tr1 Hq Hcase.
    destruct (kernel tr0 _) as [b|e] eqn:Hk; destruct (Hreq es0 tr0 Hq) as [Hsucc Hfl].
    - destruct Hcase as (-> & -> & ->). split; [done|]. destruct (Hsucc b Hk) as (es & Etr & Hrest).
      exists es. right. split; [done|]. split; [done|]. exists b. done.
    - destruct Hcase as (-> & -> & ->). split; [done|]. destruct (Hfl e Hk) as [Hq' Hz].
      eexists. left. split; [exact Hq'|]. split; [done|]. left. by rewrite Hb, Hz. }
  destruct (process_started o); cbn in Hm.
  - apply (Hfin [] tr _ _ _ (quiet_nil tr)).
    destruct (kernel tr (Sys_mmap _ _ _ _ _ _)); cbn in Hm; by injection Hm as <- <- <-.
  - destruct (kernel tr (Sys_mprotect _ _ _)) as [u|e] eqn:Hk; cbn in Hm.
    + simplify_eq. split; [done|]. eexists. left. split; [apply quiet_mprotect|]. auto.
    + apply (Hfin _ _ _ _ _ (quiet_mprotect tr (page_start s) (page_size s) (Z.lor (effective_protection s) PROT_WRITE) (Failure e))).
      destruct (kernel _ (Sys_mmap _ _ _ _ _ _)); cbn in Hm; by injection Hm as <- <- <-.
Qed.

Lemma finalize_cases s tr r s' tr' :
  status s = MEMSEG_MAPPED -> finalize kernel false (Traced s tr) = Ok (r, Traced s' tr') ->
  shape_of s s' /\ exists es,
  (quiet es tr tr' /\ buffer s' = buffer s /\ (r = true -> buffer s = 0))
  \/ (buffer s <> 0 /\ buffer s' = 0 /\ tr' = tr ++ es
      /\ (forall m, play file_bytes m es = wr m (page_start s) (rds m (buffer s) (Z.to_nat (page_size s))))
      /\ live_maps tr' = (page_start s, page_size s) :: filter (fun x => x.1 <> buffer s) (live_maps tr)).
Proof.
  intros Hst Hm. unfold finalize in Hm. tunfold. rewrite bool_decide_false in Hm by (by rewrite Hst). cbn in Hm.
  destruct (Z.eqb_spec (buffer s) 0) as [Hb|Hb]; cbn in Hm.
  - rewrite decide_False in Hm by (by rewrite Hst).
    destruct (_ =? _); cbn in Hm; [simplify_eq; split; [done|]; exists []; left; split; [apply quiet_nil|done]|].
    destruct (kernel tr _) as [u|e] eqn:Hk; cbn in Hm; simplify_eq; (split; [done|]); eexists; left;
      (split; [apply quiet_mprotect|done]).
  - set (c1 := Sys_mprotect (buffer s) (page_size s) (protection s)) in *.
    set (c2 := Sys_mremap (buffer s) (page_size s) (page_size s) (Z.lor MREMAP_MAYMOVE MREMAP_FIXED) (page_start s)).
    assert (exists s1, shape_of s s1 /\ buffer s1 = buffer s /\
       (let '(r2, tr2) := (kernel (tr ++ [Ev_sys c1 (kernel tr c1)]) c2,
                           (tr ++ [Ev_sys c1 (kernel tr c1)]) ++
                           [Ev_sys c2 (kernel (tr ++ [Ev_sys c1 (kernel tr c1)]) c2)]) in
        r = success (kernel tr c1) && success r2 /\ tr' = tr2
        /\ s' = if success r2 then set_buffer 0 (set_flags flags_privanon s1) else s1)) as (s1 & Hsh & Hb1 & Hr & Htr & Hs').
    { destruct (kernel tr c1) as [u|e] eqn:Hk; cbn in Hm.
      - exists (set_effective (protection s) s). split; [done|]. split; [done|].
        change (page_size (set_effective (protection s) s)) with (page_size s) in Hm.
        change (page_start (set_effective (protection s) s)) with (page_start s) in Hm.
        change (buffer (set_effective (protection s) s)) with (buffer s) in Hm. fold c2 in Hm.
        destruct (kernel _ c2) as [u2|e2]; cbn in Hm; by simplify_eq.
      - exists s. split; [done|]. split; [done|]. fold c2 in Hm.
        destruct (kernel _ c2) as [u2|e2]; cbn in Hm; by simplify_eq. }
    set (r1 := kernel tr c1) in *. set (r2 := kernel _ c2) in *.
    destruct r2 as [u2|e2] eqn:Hk2; cbn in Hs', Hr; subst s' tr' r.
    + split; [done|]. exists [Ev_sys c1 r1; Ev_sys c2 (Success u2)]. right.
      split; [done|]. split; [done|]. split; [by rewrite <- app_assoc|]. split; [done|].
      rewrite !live_maps_app. subst c2. cbn -[filter]. done.
    + split; [done|]. exists [Ev_sys c1 r1; Ev_sys c2 (Failure e2)]. left.
      split; [|split; [done|by rewrite andb_false_r]].
      split; [by rewrite <- app_assoc|]. split; [done|]. by rewrite !live_maps_app.
Qed.

(** ** The interface *)

Lemma find_segment_spec l o ptr i g s :
  find_segment l o ptr i = Some (g, s) -> (i <= g)%nat /\ l !! (g - i)%nat = Some (o, s) /\ contains s ptr = true.
Proof.
  revert i; induction l as [|[o' s'] l IH]; intros i; cbn; [done|].
  destruct ((o' =? o) && contains s' ptr) eqn:Hc.
  - intros [= -> ->]. apply andb_true_iff in Hc as [->%Z.eqb_eq Hc]. rewrite Nat.sub_diag. auto.
  - intros (Hle & Hl & Hcn)%IH. split; [lia|]. split; [|done].
    by replace (g - i)%nat with (S (g - S i)) by lia.
Qed.

Definition holds (w : process) (o : Z) (g : nat) (a : Z) : Prop :=
  exists s, segs w !! g = Some (o, s) /\ contains s a = true.
Definition stands_for (w : process) (o : Z) (g : nat) (a p : Z) : Prop :=
  exists s, segs w !! g = Some (o, s) /\ contains s a = true /\ p = loc s a.

Lemma contains_in_pages s a : seg_ok s -> contains s a = true -> in_pages s a.
Proof. intros Hok Hc. destruct (seg_ok_pages s Hok) as (?&?&?&?&?&?&Hcn). apply Hcn in Hc. unfold in_pages. lia. Qed.

Lemma loc_step s a i : loc s (a + i) = loc s a + i.
Proof. unfold loc. case_match; lia. Qed.
Lemma loc_inj s x y : loc s x = loc s y -> x = y.
Proof. unfold loc. case_match; lia. Qed.

(** The bytes of a page lie in the segment's regions. *)
Lemma loc_region s x : in_pages s x ->
  (buffer s = 0 /\ loc s x = x) \/ (buffer s <> 0 /\ buffer s <= loc s x < buffer s + page_size s).
Proof. unfold loc, in_pages. intros Hx. destruct (Z.eqb_spec (buffer s) 0); [left; done|right; lia]. Qed.

Lemma loc_apart s s2 x y : apart s s2 -> in_pages s x -> in_pages s2 y -> loc s x <> loc s2 y.
Proof.
  intros (H1 & H2 & H3 & H4) Hx Hy.
  destruct (loc_region _ _ Hx) as [[Hb ->]|[Hb ?]], (loc_region _ _ Hy) as [[Hb2 ->]|[Hb2 ?]];
    unfold in_pages in *;
    [|specialize (H3 Hb2)|specialize (H2 Hb)|specialize (H4 Hb Hb2)]; unfold disjoint_range in *; lia.
Qed.

Lemma same_place_loc s s' x : same_place s s' -> buffer s' = buffer s -> loc s' x = loc s x.
Proof. intros [Hp _] Hb. unfold loc. by rewrite Hp, Hb. Qed.

Lemma holds_update w g o s s' m tr o' g' x :
  segs w !! g = Some (o, s) -> shape_of s s' -> holds (update g o s' m tr w) o' g' x <-> holds w o' g' x.
Proof.
  intros Hg (Hb & Ho & Hs & _). unfold holds. cbn.
  assert (contains s' x = contains s x) as Hc by (unfold contains; by rewrite Hb, Ho, Hs).
  destruct (decide (g' = g)) as [->|Hne].
  - rewrite list_lookup_insert_eq by (by eapply lookup_lt_Some). rewrite Hg.
    split; intros (? & [= <- <-] & ?); eexists; (split; [done|]); congruence.
  - by rewrite list_lookup_insert_ne.
Qed.

(** An operation that leaves memory and the back buffer alone. *)
Lemma quiet_update w g o s s' es tr' :
  inv w -> segs w !! g = Some (o, s) -> shape_of s s' -> buffer s' = buffer s -> quiet es (trace w) tr' ->
  let w' := update g o s' (bytes w) tr' w in
  inv w' /\ forall x, pending_code w' x = pending_code w x.
Proof.
  intros Hinv Hg Hsh Hb (-> & _ & Hlm) w'. destruct (shape_same_place _ _ Hsh) as [Hsp _].
  pose proof Hinv as [Hok Hap]. destruct (Hok _ _ _ Hg) as (Hso & [Hr1 Hr2] & Hself). pose proof Hsp as [Hps Hpz].
  assert (inv w') as Hinv'.
  { apply (inv_update _ _ _ s); auto; rewrite ?Hb, ?Hps, ?Hpz; auto.
    - by eapply shape_seg_ok.
    - unfold regions_ok. by rewrite Hlm, Hb, Hps, Hpz.
    - intros g2 o2 s2 _ Hg2. unfold regions_ok. rewrite Hlm. apply (Hok _ _ _ Hg2). }
  split; [done|]. intros x. apply (pending_update _ _ _ s); auto.
  intros _. by rewrite (same_place_loc _ _ _ Hsp Hb).
Qed.

Lemma on_segment_Ok {A} g (m : Z -> M (traced segment) A) w a w' :
  on_segment file_bytes g m w = Ok (a, w') ->
  exists o s s' tr', segs w !! g = Some (o, s) /\ m o (Traced s (trace w)) = Ok (a, Traced s' tr')
    /\ w' = update g o s' (play file_bytes (bytes w) (drop (length (trace w)) tr')) tr' w.
Proof.
  unfold on_segment. destruct (segs w !! g) as [[o s]|]; [|done].
  destruct (m o _) as [[b [s' tr']]| |] eqn:Hm; [|done..]. intros [= <- <-]. by exists o, s, s', tr'.
Qed.

Lemma fresh_copy_self s b m x :
  in_pages s x -> disjoint_range b (page_size s) (page_start s) (page_size s) ->
  rd (fresh_copy s b m) (b + (x - page_start s)) = rd m x.
Proof.
  intros Hx Hd. unfold fresh_copy, in_pages, disjoint_range in *.
  rewrite rd_wr_in by (rewrite rds_length; lia). rewrite nth_rds by lia.
  replace (page_start s + _) with x by lia. apply rd_wr_out. rewrite length_replicate. lia.
Qed.
Lemma fresh_copy_other s b m y :
  0 < page_size s -> ~ (b <= y < b + page_size s) -> rd (fresh_copy s b m) y = rd m y.
Proof.
  intros Hz Hy. unfold fresh_copy. rewrite rd_wr_out by (rewrite rds_length; lia).
  apply rd_wr_out. rewrite length_replicate. lia.
Qed.

Lemma compose_pointer_law o a w r w' :
  inv w -> object_compose_pointer hex kernel octx file_bytes o a w = Ok (r, w') ->
  inv w' /\ (forall x, pending_code w' x = pending_code w x)
  /\ (forall o' g x, holds w' o' g x <-> holds w o' g x)
  /\ match r with Some (p, g) => stands_for w' o g a p /\ holds w' o g a | None => True end.
Proof.
  intros Hinv Hm. unfold object_compose_pointer in Hm. msplit.
  destruct (find_segment (segs w) o a 0) as [[g s]|] eqn:Hf; [|by msplit].
  apply find_segment_spec in Hf as (_ & Hg & Hc). rewrite Nat.sub_0_r in Hg.
  apply bind_Ok in Hm as (v & w1 & Hm & Hr).
  apply on_segment_Ok in Hm as (o1 & s1 & s' & tr' & Hg1 & Hcomp & ->). rewrite Hg in Hg1. simplify_eq.
  pose proof Hinv as [Hok Hap]. destruct (Hok _ _ _ Hg) as (Hso & [Hr1 Hr2] & Hself).
  destruct (compose_cases _ _ _ _ _ _ Hso Hcomp) as (Hsh & es & Hcase).
  destruct (shape_same_place _ _ Hsh) as [Hsp Haddr].
  destruct (seg_ok_pages _ Hso) as (Hp0 & Hpz0 & Hpa & Hae & Hoff & Hend & Hcn).
  pose proof Hso as (_ & _ & _ & H47 & _). apply Hcn in Hc as Hca.
  set (w2 := update _ _ _ _ _ w) in *.
  assert (contains s' a = true) as Hc'.
  { destruct Hsh as (Hb & Ho & Hs & _). unfold contains in *. by rewrite Hb, Ho, Hs. }
  assert (segs w2 !! g = Some (o1, s')) as Hg2 by (cbn; apply list_lookup_insert_eq; by eapply lookup_lt_Some).
  assert (inv w2 /\ (forall x, pending_code w2 x = pending_code w x)
          /\ (v = 0 \/ loc s' a = w64 (v + a - address s1))) as (Hinv2 & Hp2 & Hv).
  { destruct Hcase as [(Hq & Hb & Hv)|(Hb & Htr & b & Hb' & Hv & Hpl & Hlm & Hb0 & Hb1 & Hbd)].
    - pose proof Hq as (Htr & Hpl & _).
      assert (w2 = update g o1 s' (bytes w) tr' w) as Ew2 by (subst w2; by rewrite Htr, drop_app_length, Hpl).
      destruct (quiet_update w g o1 s1 s' es tr' Hinv Hg Hsh Hb Hq) as [Hi Hp]. rewrite Ew2. split; [done|]. split; [done|].
      destruct Hv as [Hv|[[Hb0 ->]|[Hb0 ->]]]; [by left|right..]; rewrite (same_place_loc _ _ _ Hsp Hb); unfold loc.
      + rewrite Hb0. cbn. replace (address s1 + a - address s1) with a by lia. rewrite w64_small; [done|unfold is_u64; lia].
      + destruct Hr2 as [?|(? & ? & _)]; [done|]. replace (buffer s1 =? 0) with false by lia.
        rewrite (w64_small (_ + _ mod _)) by (unfold is_u64; lia). rewrite w64_small by (unfold is_u64; lia). lia.
    - assert (w2 = update g o1 s' (fresh_copy s1 b (bytes w)) tr' w) as Ew2 by (subst w2; by rewrite Htr, drop_app_length, Hpl).
      pose proof Hsp as [Hps Hpz].
      assert (inv w2) as Hi2.
      { apply (inv_update _ _ _ s1); auto; rewrite ?Hb', ?Hps, ?Hpz.
        - by eapply shape_seg_ok.
        - unfold regions_ok. rewrite Hb', Hps, Hpz, Hlm. split; [by apply elem_of_cons; right|].
          right. split; [done|]. split; [done|]. apply elem_of_cons. by left.
        - intros _. by apply Hbd.
        - intros _. right. intros g2 o2 s2 Hne Hgo. destruct (Hok _ _ _ Hgo) as (_ & [Hq1 Hq2] & _).
          split; [by apply Hbd|]. intros Hb2. apply Hbd. destruct Hq2 as [?|(_ & _ & ?)]; [done|done].
        - intros g2 o2 s2 Hne Hgo. destruct (Hok _ _ _ Hgo) as (_ & [Hq1 Hq2] & _). unfold regions_ok. rewrite Hlm.
          split; [by apply elem_of_cons; right|]. destruct Hq2 as [?|(?&?&?)]; [by left|right].
          split; [done|]. split; [done|]. by apply elem_of_cons; right. }
      split; [done|]. split; [|right].
      + rewrite Ew2 in Hi2 |- *. intros x. apply (pending_update _ _ _ s1); auto.
        * intros Hx. unfold loc. rewrite Hb', Hb, Hps. replace (b =? 0) with false by lia. cbn.
          apply fresh_copy_self; [done|by apply Hbd].
        * intros g2 o2 s2 Hne Hgo Hx. apply fresh_copy_other; [done|].
          destruct (Hok _ _ _ Hgo) as (_ & [Hq1 Hq2] & _).
          destruct (loc_region _ _ Hx) as [[Hb2 ->]|[Hb2 ?]].
          -- specialize (Hbd _ _ Hq1). unfold in_pages, disjoint_range in *. lia.
          -- destruct Hq2 as [?|(_ & _ & Hin)]; [done|]. specialize (Hbd _ _ Hin). unfold disjoint_range in *. lia.
      + unfold loc. rewrite Hb', Hps. replace (b =? 0) with false by lia. subst v.
        rewrite (w64_small (_ + _ mod _)) by (unfold is_u64; lia). rewrite w64_small by (unfold is_u64; lia). lia. }
  assert (forall o' g' x, holds w2 o' g' x <-> holds w o' g' x) as Hh by (intros; by eapply holds_update).
  destruct (Z.eqb_spec v 0) as [Hv0|Hv0]; msplit; [by split_and!|].
  split; [done|]. split; [done|]. split; [done|]. destruct Hv as [?|Hv]; [done|].
  split; [exists s'; split; [done|]; split; [done|]; congruence|by exists s'].
Qed.

Lemma store_law o g a p w i b :
  inv w -> stands_for w o g a p -> 0 <= i -> holds w o g (a + i) ->
  let w' := Process (segs w) (wr (bytes w) (p + i) [b]) (trace w) in
  inv w' /\ stands_for w' o g a p
  /\ (forall x, pending_code w' x = if decide (x = a + i) then b else pending_code w x)
  /\ (forall o' g' x, holds w' o' g' x <-> holds w o' g' x).
Proof.
  intros Hinv (s & Hg & Hc & ->) Hi (s0 & Hg0 & Hci). rewrite Hg in Hg0. simplify_eq.
  rewrite <- loc_step. set (w' := Process _ _ _). cbn zeta. pose proof Hinv as [Hok Hap]. destruct (Hok _ _ _ Hg) as (Hso & _).
  pose proof (contains_in_pages _ _ Hso Hci) as Hpi.
  split; [done|]. split; [by exists s0|]. split; [|done].
  assert (inv w') as Hinv' by done.
  assert (forall y, y <> loc s0 (a + i) -> rd (bytes w') y = rd (bytes w) y) as Hother.
  { intros y Hy. cbn. unfold rd. by rewrite lookup_insert_ne. }
  intros x. destruct (decide (x = a + i)) as [->|Hne].
  - rewrite (pending_at w' g o s0) by done. cbn. unfold rd.
    by rewrite lookup_insert_eq.
  - destruct (find_page (segs w) x) as [[o2 s2]|] eqn:Hf.
    + apply find_page_in in Hf as [Hx [g2 Hg2]].
      rewrite (pending_at w' g2 o2 s2), (pending_at w g2 o2 s2) by done. apply Hother.
      destruct (decide (g2 = g)) as [->|Hne2].
      * rewrite Hg in Hg2. injection Hg2 as -> ->. intros Heq%loc_inj. lia.
      * apply not_eq_sym. apply loc_apart; [|done|done]. by eapply (Hap g g2).
    + subst w'. unfold pending_code. cbn [segs bytes]. by rewrite Hf.
Qed.

Lemma finalize_law o g w r w' :
  inv w -> segment_finalize kernel file_bytes o g w = Ok (r, w') ->
  inv w' /\ (forall x, pending_code w' x = pending_code w x)
  /\ (forall o' g' x, holds w' o' g' x <-> holds w o' g' x)
  /\ (r = true -> forall x, holds w' o g x -> rd (bytes w') x = pending_code w' x).
Proof.
  intros Hinv Hm. unfold segment_finalize in Hm.
  apply on_segment_Ok in Hm as (o1 & s & s' & tr' & Hg & Hfin & ->).
  pose proof Hinv as [Hok Hap]. destruct (Hok _ _ _ Hg) as (Hso & [Hr1 Hr2] & Hself).
  assert (status s = MEMSEG_MAPPED) as Hst by (by destruct Hso as (?&?&?&?&?&?&?&?)).
  destruct (finalize_cases _ _ _ _ _ Hst Hfin) as (Hsh & es & Hcase).
  destruct (shape_same_place _ _ Hsh) as [Hsp _].
  destruct (seg_ok_pages _ Hso) as (Hp0 & Hpz0 & _).
  set (w2 := update _ _ _ _ _ w).
  assert (segs w2 !! g = Some (o1, s')) as Hg2 by (cbn; apply list_lookup_insert_eq; by eapply lookup_lt_Some).
  assert (inv w2 /\ (forall x, pending_code w2 x = pending_code w x) /\ (r = true -> buffer s' = 0)) as (Hinv2 & Hp2 & Hb2).
  { destruct Hcase as [(Hq & Hb & Hr)|(Hb & Hb' & Htr & Hpl & Hlm)].
    - pose proof Hq as (Htr & Hpl & _).
      assert (w2 = update g o1 s' (bytes w) tr' w) as Ew2 by (subst w2; by rewrite Htr, drop_app_length, Hpl).
      destruct (quiet_update w g o1 s s' es tr' Hinv Hg Hsh Hb Hq) as [Hi Hp]. rewrite Ew2.
      split; [done|]. split; [done|]. intros Hrt. rewrite Hb. by apply Hr.
    - set (m' := wr (bytes w) (page_start s) (rds (bytes w) (buffer s) (Z.to_nat (page_size s)))).
      assert (w2 = update g o1 s' m' tr' w) as Ew2 by (subst w2; by rewrite Htr, drop_app_length, Hpl).
      pose proof Hsp as [Hps Hpz]. specialize (Hself Hb).
      assert (inv w2) as Hi2.
      { apply (inv_update _ _ _ s); auto; rewrite ?Hb', ?Hps, ?Hpz; try done.
        - by eapply shape_seg_ok.
        - unfold regions_ok. rewrite Hb', Hps, Hpz, Hlm. split; [apply elem_of_cons; by left|by left].
        - intros g2 o2 s2 Hne Hgo. destruct (Hok _ _ _ Hgo) as (Hso2 & [Hq1 Hq2] & _).
          destruct (seg_ok_pages _ Hso2) as (_ & Hz2 & _). unfold regions_ok. rewrite Hlm.
          destruct (Hap g g2 _ _ _ _ (not_eq_sym Hne) Hg Hgo) as (_ & Ha2 & _ & Ha4).
          specialize (Ha2 Hb). unfold disjoint_range in *. split.
          + apply elem_of_cons. right. apply list_elem_of_filter. split; [cbn; lia|done].
          + destruct Hq2 as [?|(Hq2 & ? & ?)]; [by left|right]. split; [done|]. split; [done|].
            apply elem_of_cons. right. apply list_elem_of_filter. split; [cbn|done].
            specialize (Ha4 Hb ltac:(lia)). lia. }
      split; [done|]. split; [|done]. rewrite Ew2 in Hi2 |- *. intros x. apply (pending_update _ _ _ s); auto.
      + intros Hx. unfold loc. rewrite Hb'. replace (buffer s =? 0) with false by lia. cbn. unfold in_pages, m' in *.
        rewrite rd_wr_in by (rewrite rds_length; lia). rewrite nth_rds by lia. f_equal. lia.
      + intros g2 o2 s2 Hne Hgo Hx. unfold m'. apply rd_wr_out. rewrite rds_length.
        destruct (Hap g g2 _ _ _ _ (not_eq_sym Hne) Hg Hgo) as (Ha1 & _ & Ha3 & _).
        unfold in_pages, disjoint_range in *.
        destruct (loc_region _ _ Hx) as [[Hl ->]|[Hl ?]]; [lia|]. specialize (Ha3 Hl). lia. }
  split; [done|]. split; [done|]. split; [intros; by eapply holds_update|].
  intros Hrt x (s3 & Hg3 & Hc3). rewrite Hg2 in Hg3. injection Hg3 as _ <-.
  rewrite (pending_at w2 g o1 s'); [|done|done|].
  - unfold loc. by rewrite (Hb2 Hrt).
  - apply contains_in_pages; [|done]. by eapply shape_seg_ok.
Qed.

#[export] Instance process_store_spec :
  @CodeStoreSpec process (process_store hex kernel octx file_bytes).
Proof.
  refine {| store_ok := inv; in_segment := holds; pending := pending_code; composed := stands_for |}.
  - apply compose_pointer_law.
  - intros w o g a p i Hinv (s & Hg & Hc & ->) Hi (s0 & Hg0 & Hci). rewrite Hg in Hg0. simplify_eq.
    cbn. rewrite <- loc_step. symmetry. apply (pending_at w g o s0); [done|done|].
    apply contains_in_pages; [|done]. by apply (proj1 Hinv g o).
  - intros w o g a p i b Hinv Hst Hi Hh. by apply store_law.
  - intros o g w r w'. apply finalize_law.
Defined.
End facts.
End ObjectMemoryProofs.
