(* ===== verification/Redirect.v ===== *)
(** Redirection of functions to newer versions (redirect.cpp): a trap instruction at the start of the
    old function, a signal handler that sends trapped threads to the new one, and the replacement of
    the trap by a jump once every thread has trapped.

    Proved against the interface of CodeStore.v.  The lock is not modelled: every operation is one
    step. *)
From S2P Require Import Prelude CodeStore.

Module Redirect.

Inductive Mode :=
| MODE_DEBUG_TRAP
| MODE_BREAKPOINT_TRAP
| MODE_INVALID_OPCODE
| MODE_INVALID_OPCODE_HACK
| MODE_GENERAL_PROTECTION_FAULT
| MODE_NONE
| MODE_NOT_CONFIGURED.
#[export] Instance Mode_eq_dec : EqDecision Mode.
Proof. solve_decision. Defined.

Definition SIGILL : Z := 4.
Definition SIGTRAP : Z := 5.
Definition SIGSEGV : Z := 11.

Record trap := Trap { instructions : list Z; t_size : nat; t_offset : Z; t_signal : Z }.

(** [traps[mode]]; [None] for MODE_NONE and MODE_NOT_CONFIGURED (outside of the table). *)
Definition traps (m : Mode) : option trap :=
  match m with
  | MODE_DEBUG_TRAP => Some (Trap [0xcc; 0x00] 1 1 SIGTRAP)
  | MODE_BREAKPOINT_TRAP => Some (Trap [0xf1; 0x00] 1 1 SIGTRAP)
  | MODE_INVALID_OPCODE => Some (Trap [0x0f; 0x0b] 2 0 SIGILL)
  | MODE_INVALID_OPCODE_HACK => Some (Trap [0x06; 0x00] 1 0 SIGILL)
  | MODE_GENERAL_PROTECTION_FAULT => Some (Trap [0xf4; 0x00] 1 0 SIGSEGV)
  | MODE_NONE | MODE_NOT_CONFIGURED => None
  end.

(** RedirectionEntry::Type *)
Inductive EntryType := ONLY_DYNAMIC | MAKE_STATIC | MADE_STATIC.
#[export] Instance EntryType_eq_dec : EqDecision EntryType.
Proof. solve_decision. Defined.

Record entry := Entry {
  from_object : Z; to_address : Z; e_type : EntryType;
  previous_opcode : list Z;      (* 16 bytes *)
  tids : list Z;
}.

(** The static variables of redirect.cpp and the code they change. *)
Record redirect (S : Type) := Redirect { mode : Mode; entries : gmap Z entry; code : S }.
Arguments Redirect {S} _ _ _.
Arguments mode {S} _.
Arguments entries {S} _.
Arguments code {S} _.

(** is_numeric; [None] is nullptr *)
Definition is_digit (c : Ascii.ascii) : bool :=
  ((48 <=? Ascii.nat_of_ascii c) && (Ascii.nat_of_ascii c <=? 57))%nat.
Fixpoint all_digits (s : string) : bool :=
  match s with
  | EmptyString => true
  | String c s => if is_digit c then all_digits s else false
  end.
Definition is_numeric (str : option string) : bool :=
  match str with
  | None | Some EmptyString => false
  | Some s => all_digits s
  end.

(** check_relative_jump *)
Definition check_relative_jump (from to : Z) : bool :=
  let from := w64 (from + 5) in
  (if from <? to then to - from else from - to) <? 2 * 2^31.

(** The bytes static_redirect writes. *)
Definition static_code (from to : Z) : list Z :=
  if check_relative_jump from to then
    0xe9 :: le_bytes 4 (w32 (to - from - 5))
  else
    [0xff; 0x25; 0x00; 0x00; 0x00; 0x00] ++ le_bytes 8 to.

Section redirect.
Context {S : Type} `{CodeStore S}.
Context (object_base : Z -> Z).                                 (* object.base *)
Context (parse_tid : string -> option Z).                       (* Parser::string *)
Context (hm_insert : Z -> entry -> gmap Z entry -> gmap Z entry). (* HashMap::insert *)

Abbreviation W := (redirect S).

Definition on_code {A} (m : M S A) : M W A := fun w =>
  match m (code w) with
  | Ok (a, s) => Ok (a, Redirect (mode w) (entries w) s)
  | AssertFailed => AssertFailed
  | OutOfFuel => OutOfFuel
  end.
Definition set_entries (f : gmap Z entry -> gmap Z entry) (w : W) : W := Redirect (mode w) (f (entries w)) (code w).
Definition set_code (f : S -> S) (w : W) : W := Redirect (mode w) (entries w) (f (code w)).

(** all_tasks: [tasks] are the names in /proc/self/task *)
Definition all_tasks (tasks : list string) (helper_tid : Z) (tids : list Z) : bool :=
  forallb (fun name =>
    negb (is_numeric (Some name)
          && match parse_tid name with
             | Some tid => negb (tid =? helper_tid) && negb (bool_decide (tid ∈ tids))
             | None => false
             end)) tasks.

(** static_redirect *)
Definition static_redirect (object from to : Z) : M W bool :=
  r ← on_code (compose_pointer object from);
  match r with
  | None => mret false
  | Some (m, seg) =>
      modify (set_code (store_bytes m (static_code from to))) ;;
      on_code (finalize_segment object seg)
  end.

(** for (i = 0; i < size; i++) if (live[i] != instructions[i]) *)
Definition trap_matches (t : trap) (s : S) (a : Z) : bool :=
  forallb (fun i => load s (a + Z.of_nat i) =? nth i (instructions t) 0) (seq 0 (t_size t)).

(** trap_handler: the new instruction pointer *)
Definition trap_handler (signal rip tid : Z) (tasks : list string) (helper_tid : option Z) : M W Z :=
  w ← get;
  match traps (mode w) with
  | None => assert false ;; mret rip
  | Some t =>
      if negb (signal =? t_signal t) then mret rip
      else if negb (trap_matches t (code w) (rip - t_offset t)) then mret rip
      else
        let trap_address := rip - t_offset t in
        match entries w !! trap_address with
        | None => mret rip
        | Some e =>
            (if decide (e_type e = MAKE_STATIC) then
               if negb (bool_decide (tid ∈ tids e)) then
                 let e' := Entry (from_object e) (to_address e) (e_type e) (previous_opcode e) (tid :: tids e) in
                 modify (set_entries <[trap_address := e']>) ;;
                 installed ←
                   (if all_tasks tasks (default (-1) helper_tid) (tids e')
                    then static_redirect (from_object e) trap_address (to_address e)
                    else mret false);
                 (if installed : bool
                  then modify (set_entries <[trap_address :=
                         Entry (from_object e) (to_address e) MADE_STATIC (previous_opcode e) (tids e')]>)
                  else mret tt)
               else mret tt
             else mret tt) ;;
            mret (to_address e)
        end
  end.

(** setup: the two system calls succeed or fail *)
Definition setup (m : Mode) (sigaltstack sigaction : bool) : M W bool :=
  if decide (m = MODE_NOT_CONFIGURED) then mret false
  else
    w ← get;
    if decide (mode w <> MODE_NOT_CONFIGURED) then mret false
    else
      modify (fun w => Redirect m (entries w) (code w)) ;;
      if decide (m = MODE_NONE) then mret false
      else if negb sigaltstack then mret false
      else mret sigaction.

(** Type and number of bytes to preserve for a request. *)
Definition request_type (t : trap) (address to_address : Z) (from_size : nat) (make_static : bool) : EntryType * nat :=
  if make_static then
    let bytes := if check_relative_jump address to_address then 5%nat else 16%nat in
    (if (from_size <? bytes)%nat then ONLY_DYNAMIC else MAKE_STATIC, bytes)
  else (ONLY_DYNAMIC, t_size t).

(** add(Object &, ...) *)
Definition add (object from_address to : Z) (from_size : nat) (make_static finalize : bool) : M W bool :=
  w ← get;
  match traps (mode w) with
  | None => mret false
  | Some t =>
      let address := w64 (from_address + object_base object) in
      let '(type, bytes_to_preserve) := request_type t address to from_size make_static in
      early ←
        match entries w !! address with
        | None => mret None
        | Some v =>
            if decide (e_type v = MADE_STATIC) then
              if decide (type = MAKE_STATIC) then
                if to_address v =? to then mret (Some true)
                else
                  modify (set_entries <[address := Entry (from_object v) to (e_type v) (previous_opcode v) (tids v)]>) ;;
                  r ← static_redirect object address to;
                  mret (Some r)
              else mret None
            else if (from_object v =? object) && (to_address v =? to) && bool_decide (e_type v = type) then
              mret (Some true)
            else modify (set_entries (delete address)) ;; mret None
        end;
      match early with
      | Some r => mret r
      | None =>
          r ← on_code (compose_pointer object address);
          match r with
          | None => mret false
          | Some (ptr, seg) =>
              w ← get;
              let saved := load_bytes (code w) ptr bytes_to_preserve in
              let e := Entry object to type (saved ++ replicate (16 - bytes_to_preserve) 0) [] in
              modify (set_entries (hm_insert address e)) ;;
              modify (set_code (store_bytes ptr (take (t_size t) (instructions t)))) ;;
              (if finalize then on_code (finalize_segment object seg) ;; mret tt else mret tt) ;;
              mret true
          end
      end
  end.

(** add(uintptr_t, ...): [resolve_object] is Loader::resolve_object *)
Definition add_address (resolve_object : Z -> option Z) (from to : Z) (from_size : nat) (make_static finalize : bool) : M W bool :=
  w ← get;
  if decide (mode w = MODE_NONE) then mret false
  else match resolve_object from with
       | None => mret false
       | Some object => add object from to from_size make_static finalize
       end.

(** add(Symbol, ...): valid, object, pointer and size of the symbol *)
Definition add_symbol (valid : bool) (object pointer : Z) (size : nat) (to : Z) (make_static finalize : bool) : M W bool :=
  if valid then add object pointer to size make_static finalize else mret false.

(** remove(uintptr_t) *)
Definition remove (address : Z) (finalize : bool) : M W bool :=
  w ← get;
  if decide (mode w = MODE_NONE) then mret false
  else
    match entries w !! address with
    | None => mret false
    | Some v =>
        r ← on_code (compose_pointer (from_object v) (w64 (address + object_base (from_object v))));
        (match r with
         | None => mret tt
         | Some (ptr, _) =>
             let bytes := if decide (e_type v = MADE_STATIC)
                          then (if check_relative_jump address (to_address v) then 5%nat else 16%nat) else 1%nat in
             modify (set_code (store_bytes ptr (take bytes (previous_opcode v))))
         end) ;;
        modify (set_entries (delete address)) ;;
        (match r with
         | Some (_, seg) => if finalize then on_code (finalize_segment (from_object v) seg) ;; mret tt else mret tt
         | None => mret tt
         end) ;;
        mret true
    end.

(** is_set: the target address *)
Definition is_set (w : W) (from : Z) : option Z :=
  if decide (mode w = MODE_NONE) then None else to_address <$> entries w !! from.
End redirect.
End Redirect.
