(* ===== verification/RedirectProofs.v ===== *)
(** Redirections: the generated jumps, the trap handler as a refinement of a map from addresses to
    targets, the protocol that makes a redirection static, and what adding and removing do to the
    code. *)
From S2P Require Import Prelude Platform X86 Segment SegmentProofs CodeStore ObjectMemory ObjectMemoryProofs Redirect.
Import X86 Redirect ObjectMemoryProofs SegmentProofs.

Module RedirectProofs.

(** The target lies within a signed 32-bit displacement behind the five byte jump. *)
Definition fits_rel32 (from to : Z) : Prop := - 2^31 <= to - from - 5 < 2^31.

Lemma static_code_length from to : (length (static_code from to) <= 14)%nat.
Proof. unfold static_code. case_match; cbn; rewrite ?le_bytes_length; lia. Qed.

Lemma trap_instruction t m : traps m = Some t ->
  (1 <= t_size t <= 2)%nat /\ length (take (t_size t) (instructions t)) = t_size t
  /\ 0 <= t_offset t <= 1.
Proof. by destruct m; cbn; intros [= <-]; cbn; split_and!; try lia. Qed.

(** The jump generated for [from] leads to [to], unless it is a relative one that does not reach. *)
Lemma static_code_exec rl from to :
  is_u64 from -> is_u64 to -> from + 14 < 2^64 -> reads rl from (static_code from to) ->
  exec rl from = Some to <-> (check_relative_jump from to = false \/ fits_rel32 from to).
Proof.
  intros Hf Ht Hov Hr. unfold is_u64 in *. unfold static_code in Hr.
  destruct (check_relative_jump from to) eqn:Hc.
  - apply exec_jmp_rel32 in Hr. rewrite Hr, s32_w32. unfold fits_rel32.
    split.
    + intros [= Heq]. right. pose proof (s32_range (to - from - 5)) as Hrange.
      destruct (s32_cong (to - from - 5)) as [k Hk]. clear Hr. set (s := s32 _) in *.
      unfold check_relative_jump in Hc. rewrite w64_small in Hc by (unfold is_u64; lia).
      unfold w64 in Heq. pose proof (Z.div_mod (from + 5 + s) (2^64) ltac:(lia)) as Hdm.
      rewrite Heq in Hdm. set (q := (from + 5 + s) / 2^64) in *.
      destruct (from + 5 <? to) eqn:Hlt; assert (q = 0) by lia; subst q; lia.
    + intros [?|Hfit]; [done|]. rewrite s32_small by lia. rewrite w64_small by (unfold is_u64; lia). f_equal. lia.
  - split; [by left|]. intros _.
    change ([0xff; 0x25; 0; 0; 0; 0] ++ le_bytes 8 to) with (jmp_mem 0 ++ le_bytes 8 to) in Hr.
    apply reads_app in Hr as [Hj Hv]. apply exec_jmp_mem in Hj. rewrite Hj.
    change (s32 0) with 0. change (Z.of_nat (length (jmp_mem 0))) with 6 in Hv.
    rewrite Z.add_0_r, w64_small by (unfold is_u64; lia). apply load_le_64 in Hv. rewrite Hv.
    by rewrite w64_small.
Qed.

Section facts.
Context {S : Type} `{CodeStoreSpec S}.
Context (object_base : Z -> Z) (parse_tid : string -> option Z).
Context (hm_insert : Z -> entry -> gmap Z entry -> gmap Z entry).
(** HashMap::insert adds a new key; of a key that is in the map it replaces or keeps the value. *)
Context (hm_insert_law : forall k e m,
  hm_insert k e m = <[k := e]> m \/ (is_Some (m !! k) /\ hm_insert k e m = m)).

Abbreviation W := (redirect S).

Definition lies_in (s : S) (o : Z) (g : nat) (a : Z) (n : nat) : Prop :=
  forall i, (i < n)%nat -> in_segment s o g (a + Z.of_nat i).

(** The first [n] bytes at [a] lie in one segment, if [a] is in a segment at all. *)
Definition whole (s : S) (o a : Z) (n : nat) : Prop := forall g, in_segment s o g a -> lies_in s o g a n.

Lemma on_code_Ok {A} (m : M S A) (w : W) a w' :
  on_code m w = Ok (a, w') <-> exists s, m (code w) = Ok (a, s) /\ w' = Redirect (mode w) (entries w) s.
Proof.
  unfold on_code. split.
  - destruct (m (code w)) as [[b s]| |]; intros [= <- <-]. by exists s.
  - intros (s & -> & ->). done.
Qed.

(** A successful static redirection in terms of the interface. *)
Lemma static_redirect_spec object from to w w' :
  store_ok (code w) -> is_u64 from -> is_u64 to -> from + 14 < 2^64 -> whole (code w) object from 14 ->
  static_redirect object from to w = Ok (true, w') ->
  (exec (load (code w')) from = Some to <-> (check_relative_jump from to = false \/ fits_rel32 from to))
  /\ store_ok (code w') /\ mode w' = mode w /\ entries w' = entries w
  /\ (forall x, pending (code w') x
        = if decide (from <= x < from + Z.of_nat (length (static_code from to)))
          then nth (Z.to_nat (x - from)) (static_code from to) 0 else pending (code w) x).
Proof.
  intros Hok Hf Ht Hov Hwhole Hm. unfold static_redirect in Hm. msplit.
  apply on_code_Ok in Hm0 as (s1 & Hc & ->). destruct x as [[p g]|]; msplit; [|done].
  destruct (compose_pointer_spec _ _ _ _ _ Hok Hc) as (Hok1 & Hp1 & Hi1 & Hcomp & Hin).
  apply on_code_Ok in Hm as (s2 & Hfin & ->). cbn in *.
  pose proof (static_code_length from to) as Hlen.
  assert (forall i, (i < length (static_code from to))%nat -> in_segment s1 object g (from + Z.of_nat i)) as Hall.
  { intros i Hi. apply Hi1, Hwhole; [by apply Hi1|lia]. }
  destruct (store_bytes_spec _ _ _ _ _ _ Hok1 Hcomp Hall) as (Hok2 & Hcomp2 & Hp2 & Hi2).
  destruct (finalize_segment_spec _ _ _ _ _ Hok2 Hfin) as (Hok3 & Hp3 & Hi3 & Hlive).
  assert (forall x, pending s2 x = if decide (from <= x < from + Z.of_nat (length (static_code from to)))
          then nth (Z.to_nat (x - from)) (static_code from to) 0 else pending (code w) x) as Hp.
  { intros x. by rewrite Hp3, Hp2, Hp1. }
  split; [|by split_and!]. apply static_code_exec; [done..|].
  intros i b Hi. apply lookup_lt_Some in Hi as Hl.
  rewrite (Hlive eq_refl) by (apply Hi3, Hi2; by apply Hall).
  rewrite Hp, decide_True by lia. replace (Z.to_nat (from + Z.of_nat i - from)) with i by lia.
  by apply nth_lookup_Some with (d := 0) in Hi.
Qed.

(** ** Threads *)

(** The signal comes from a trap instruction of the configured kind, in the code as it is now. *)
Definition trapped (w : W) (signal rip : Z) : bool :=
  match traps (mode w) with
  | Some t => (signal =? t_signal t) && trap_matches t (code w) (rip - t_offset t)
  | None => false
  end.
Definition trap_addr (w : W) (rip : Z) : Z :=
  match traps (mode w) with Some t => rip - t_offset t | None => rip end.

Lemma static_redirect_entries object from to w r w' :
  static_redirect object from to w = Ok (r, w') -> mode w' = mode w /\ entries w' = entries w.
Proof.
  intros Hm. unfold static_redirect in Hm. msplit. apply on_code_Ok in Hm0 as (s1 & _ & ->).
  destruct x as [[p g]|]; msplit; [|done]. by apply on_code_Ok in Hm as (s2 & _ & ->).
Qed.

(** The entry of [a] after thread [tid] trapped there: it is only changed if it waits for all
    threads, and made static only if all tasks have trapped and the jump could be installed. *)
Definition after_trap (tasks : list string) (helper : Z) (tid : Z) (e e' : entry) : Prop :=
  e' = e
  \/ (e_type e = MAKE_STATIC /\ tid ∉ tids e
      /\ exists ty, e' = Entry (from_object e) (to_address e) ty (previous_opcode e) (tid :: tids e)
          /\ (ty = MAKE_STATIC \/ (ty = MADE_STATIC /\ all_tasks parse_tid tasks helper (tid :: tids e) = true))).

Lemma trap_handler_spec signal rip tid tasks helper w rip' w' :
  traps (mode w) <> None ->
  trap_handler parse_tid signal rip tid tasks helper w = Ok (rip', w') ->
  mode w' = mode w
  /\ (trapped w signal rip = false -> rip' = rip /\ w' = w)
  /\ (trapped w signal rip = true ->
        rip' = match entries w !! trap_addr w rip with Some e => to_address e | None => rip end
        /\ (entries w !! trap_addr w rip = None -> w' = w)
        /\ (forall a, a <> trap_addr w rip -> entries w' !! a = entries w !! a)
        /\ (forall e, entries w !! trap_addr w rip = Some e ->
              exists e', entries w' !! trap_addr w rip = Some e'
                /\ after_trap tasks (default (-1) helper) tid e e')).
Proof.
  intros Ht Hm. unfold trap_handler in Hm. msplit. unfold trapped, trap_addr.
  destruct (traps (mode w)) as [t|]; [clear Ht|done].
  destruct (signal =? t_signal t); cbn [negb] in Hm; msplit; [|done].
  destruct (trap_matches t (code w) (rip - t_offset t)); cbn [negb] in Hm; msplit; [|done]. cbn [andb].
  set (a := rip - t_offset t) in *.
  destruct (entries w !! a) as [e|] eqn:He; [|by msplit].
  apply bind_Ok in Hm as ([] & w2 & Hm & [Hrip Hw2]%Ok_inv). rewrite Hrip. clear Hrip.
  destruct (decide (e_type e = MAKE_STATIC)) as [Hty|].
  2: { msplit. subst w'. split_and!; try done. intros _. split_and!; try done. intros ? [= <-]. exists e. split; [done|]. by left. }
  destruct (bool_decide (tid ∈ tids e)) eqn:Htid; cbn [negb] in *.
  { msplit. subst w'. split_and!; try done. intros _. split_and!; try done. intros ? [= <-]. exists e. split; [done|]. by left. }
  apply bool_decide_eq_false in Htid. msplit.
  set (e1 := Entry _ _ _ _ _) in *. set (w1 := set_entries _ w) in *.
  assert (entries w1 = <[a := e1]> (entries w) /\ mode w1 = mode w) as [Hw1e Hw1m] by done.
  assert (exists s, w' = Redirect (mode w) (entries w') s
            /\ ((entries w' = <[a := e1]> (entries w))
                \/ (all_tasks parse_tid tasks (default (-1) helper) (tids e1) = true
                    /\ entries w' = <[a := Entry (from_object e) (to_address e) MADE_STATIC (previous_opcode e) (tids e1)]>
                                      (<[a := e1]> (entries w))))) as (s & Hw' & Hcase).
  { subst w'. destruct (all_tasks _ _ _ _) eqn:Hall.
    - apply static_redirect_entries in Hm1 as [Hx1 Hx2]. destruct x0; msplit.
      + exists (code s0). split; [by rewrite <- Hw1m, <- Hx1|]. right. split; [done|]. cbn. by rewrite Hx2, Hw1e.
      + exists (code s0). split; [by rewrite <- Hw1m, <- Hx1; destruct s0|]. left. by rewrite Hx2, Hw1e.
    - msplit. exists (code w1). split; [by rewrite <- Hw1m|]. by left. }
  rewrite Hw'. cbn [mode entries].
  split; [done|]. split; [done|]. intros _. split; [done|]. split; [done|].
  split.
  - intros a' Ha'. destruct Hcase as [-> | [_ ->]]; by rewrite !lookup_insert_ne.
  - intros ? [= <-]. destruct Hcase as [-> | [Hall ->]]; rewrite lookup_insert_eq; eexists; (split; [done|]); right;
      (split; [done|]); (split; [done|]); eexists; (split; [done|]); auto.
Qed.

(** C3: a thread that runs into a trap (of the configured kind, present in the code) at an address
    with a redirection continues at its target; any other signal leaves the thread alone; and no
    signal changes which addresses are redirected, or to where. *)
Theorem trap_handler_redirects signal rip tid tasks helper w rip' w' :
  traps (mode w) <> None ->
  trap_handler parse_tid signal rip tid tasks helper w = Ok (rip', w') ->
  rip' = (if trapped w signal rip then default rip ((to_address <$> entries w) !! trap_addr w rip) else rip)
  /\ to_address <$> entries w' = to_address <$> entries w.
Proof.
  intros Ht Hm. destruct (trap_handler_spec _ _ _ _ _ _ _ _ Ht Hm) as (_ & Hf & Htr).
  destruct (trapped w signal rip); [|destruct (Hf eq_refl) as [-> ->]; done].
  destruct (Htr eq_refl) as (Hrip & Hnone & Hother & Hentry). split.
  - rewrite Hrip, lookup_fmap. by destruct (entries w !! trap_addr w rip).
  - apply map_eq. intros a. rewrite !lookup_fmap.
    destruct (decide (a = trap_addr w rip)) as [->|Hne]; [|by rewrite Hother].
    destruct (entries w !! trap_addr w rip) as [e|] eqn:He.
    + destruct (Hentry e eq_refl) as (e' & -> & [->|(_ & _ & ty & -> & _)]); done.
    + by rewrite Hnone, He.
Qed.

(** ** What add and remove do to the entries *)

Lemma request_type_not_made t a to n ms : (request_type t a to n ms).1 <> MADE_STATIC.
Proof. unfold request_type. repeat case_match; done. Qed.

Definition inherits (w : W) (a : Z) (e' : entry) : Prop :=
  (exists e, entries w !! a = Some e /\ tids e' = tids e /\ e_type e' = e_type e)
  \/ (tids e' = [] /\ e_type e' <> MADE_STATIC).

Lemma insert_lookup_cases k e m a x :
  hm_insert k e m !! a = Some x -> (a = k /\ x = e) \/ m !! a = Some x.
Proof.
  destruct (hm_insert_law k e m) as [-> | [_ ->]]; [|by right].
  intros [[-> ->]|[_ ?]]%lookup_insert_Some; auto.
Qed.

Lemma add_entries object from to n ms fin w r w' a e' :
  add object_base hm_insert object from to n ms fin w = Ok (r, w') ->
  entries w' !! a = Some e' -> inherits w a e'.
Proof.
  intros Hm He'. unfold add in Hm. msplit.
  destruct (traps (mode w)) as [t|]; [|msplit; left; eauto].
  pose proof (request_type_not_made t (w64 (from + object_base object)) to n ms) as Hnm.
  destruct (request_type _ _ _ _ _) as [ty bytes]. cbn in Hnm. set (k := w64 _) in *.
  apply bind_Ok in Hm as (early & w1 & Hearly & Hm).
  assert (forall x, entries w1 !! a = Some x -> inherits w a x) as Hw1.
  { destruct (entries w !! k) as [v|] eqn:Hv; [|msplit; left; eauto].
    destruct (decide (e_type v = MADE_STATIC)) as [Hmade|Hmade].
    - destruct (decide (ty = MAKE_STATIC)); [|msplit; left; eauto].
      destruct (to_address v =? to); [msplit; left; eauto|]. msplit.
      match goal with Hx : static_redirect _ _ _ _ = _ |- _ => apply static_redirect_entries in Hx as [_ ->] end.
      intros x; cbn. intros [[<- <-]|[_ ?]]%lookup_insert_Some; left; eauto.
    - destruct (_ && _ && _); msplit; [left; eauto|].
      intros x; cbn. intros [_ ?]%lookup_delete_Some. left; eauto. }
  destruct early as [b|]; msplit; [auto|].
  apply on_code_Ok in Hm0 as (s1 & _ & ->).
  destruct x as [[p g]|]; msplit; [|by apply Hw1].
  assert (forall x, hm_insert k (Entry object to ty (load_bytes s1 p bytes ++ replicate (16 - bytes) 0) []) (entries w1) !! a = Some x ->
            inherits w a x) as Hins.
  { intros x [[-> ->]|?]%insert_lookup_cases; [by right|by apply Hw1]. }
  destruct fin; msplit; [|by apply Hins].
  match goal with Hx : on_code _ _ = _ |- _ => apply on_code_Ok in Hx as (s2 & _ & ->) end. by apply Hins.
Qed.

Lemma remove_entries address fin w r w' :
  remove object_base address fin w = Ok (r, w') ->
  entries w' = entries w \/ entries w' = delete address (entries w).
Proof.
  intros Hm. unfold remove in Hm. msplit.
  destruct (decide (mode w = MODE_NONE)); [msplit; auto|].
  destruct (entries w !! address) as [v|]; msplit; [|auto].
  match goal with Hx : on_code (compose_pointer _ _) _ = _ |- _ => apply on_code_Ok in Hx as (s1 & _ & ->) end.
  right. destruct x as [[p g]|]; destruct fin; msplit;
    try match goal with Hx : on_code (finalize_segment _ _) _ = _ |- _ => apply on_code_Ok in Hx as (s2 & _ & ->) end; done.
Qed.

(** ** The protocol that makes redirections static

    The history records which thread ran into the trap of which address, and the tasks of the
    process seen at that moment. *)
Record history := History { traps_hit : list (Z * Z); task_lists : list (Z * list string * Z) }.

Inductive rstep : W * history -> W * history -> Prop :=
| step_trap w h signal rip tid tasks helper rip' w' :
    traps (mode w) <> None -> trapped w signal rip = true ->
    trap_handler parse_tid signal rip tid tasks helper w = Ok (rip', w') ->
    rstep (w, h) (w', History ((trap_addr w rip, tid) :: traps_hit h)
                              ((trap_addr w rip, tasks, default (-1) helper) :: task_lists h))
| step_add w h object from to n ms fin r w' :
    add object_base hm_insert object from to n ms fin w = Ok (r, w') -> rstep (w, h) (w', h)
| step_remove w h address fin r w' :
    remove object_base address fin w = Ok (r, w') -> rstep (w, h) (w', h)
| step_setup w h m b1 b2 r w' : setup m b1 b2 w = Ok (r, w') -> rstep (w, h) (w', h)
| step_code w h s : rstep (w, h) (Redirect (mode w) (entries w) s, h).

Inductive rsteps : W * history -> W * history -> Prop :=
| rsteps_refl x : rsteps x x
| rsteps_step x y z : rsteps x y -> rstep y z -> rsteps x z.

(** Every thread of the process, except the loader's own helper, that the task list names. *)
Definition tasks_trapped (h : history) (a : Z) (tasks : list string) (helper : Z) : Prop :=
  forall name t, name ∈ tasks -> is_numeric (Some name) = true -> parse_tid name = Some t -> t <> helper ->
    (a, t) ∈ traps_hit h.

Definition protocol_inv (x : W * history) : Prop :=
  forall a e, entries x.1 !! a = Some e ->
    (forall t, t ∈ tids e -> (a, t) ∈ traps_hit x.2)
    /\ (e_type e = MADE_STATIC ->
         exists tasks helper, (a, tasks, helper) ∈ task_lists x.2 /\ tasks_trapped x.2 a tasks helper).

Lemma all_tasks_trapped tasks helper ts h a :
  all_tasks parse_tid tasks helper ts = true -> (forall t, t ∈ ts -> (a, t) ∈ traps_hit h) ->
  tasks_trapped h a tasks helper.
Proof.
  unfold all_tasks. intros Hall Hts name t Hin Hnum Hp Hne. rewrite forallb_forall in Hall.
  specialize (Hall name (proj1 (list_elem_of_In _ _) Hin)). rewrite Hnum, Hp in Hall. cbn in Hall.
  apply negb_true_iff, andb_false_iff in Hall as [Hall|Hall].
  - apply negb_false_iff, Z.eqb_eq in Hall. done.
  - apply negb_false_iff, bool_decide_eq_true in Hall. auto.
Qed.

Lemma rstep_inv x y : protocol_inv x -> rstep x y -> protocol_inv y.
Proof.
  intros Hinv Hs.
  destruct Hs as [w h signal rip tid tasks helper rip' w' Ht Htr Hm|w h object from to n ms fin r w' Hm
    |w h address fin r w' Hm|w h m b1 b2 r w' Hm|w h s].
  - destruct (trap_handler_spec _ _ _ _ _ _ _ _ Ht Hm) as (_ & _ & Hsp).
    destruct (Hsp Htr) as (_ & Hnone & Hother & Hentry).
    set (k := trap_addr w rip) in *. set (h' := History _ _).
    assert (forall a e, entries w !! a = Some e ->
      (forall t, t ∈ tids e -> (a, t) ∈ traps_hit h')
      /\ (e_type e = MADE_STATIC -> exists tasks helper, (a, tasks, helper) ∈ task_lists h'
                                     /\ tasks_trapped h' a tasks helper)) as Hold.
    { intros a e He. destruct (Hinv a e He) as [Hi1 Hi2]. split.
      - intros t Hin. apply elem_of_cons. right. by apply Hi1.
      - intros Hmade. destruct (Hi2 Hmade) as (tasks' & helper' & Hin & Htt). exists tasks', helper'.
        split; [by apply elem_of_cons; right|]. intros name t ????. apply elem_of_cons. right. by eapply Htt. }
    intros a e. cbn. destruct (decide (a = k)) as [->|Hne]; [|rewrite Hother by done; apply Hold].
    destruct (entries w !! k) as [e0|] eqn:He0; [|rewrite (Hnone eq_refl), He0; done].
    destruct (Hentry e0 eq_refl) as (e' & -> & Hafter). intros [= <-].
    destruct (Hold k e0 He0) as [Ho1 Ho2].
    destruct Hafter as [->|(_ & _ & ty & -> & Hty)]; [done|]. cbn.
    assert (forall t, t ∈ tid :: tids e0 -> (k, t) ∈ traps_hit h') as Hts.
    { intros t [->|Hin]%elem_of_cons; [by apply elem_of_cons; left|by apply Ho1]. }
    split; [done|]. intros ->. destruct Hty as [?|[_ Hall]]; [done|].
    exists tasks, (default (-1) helper). split; [by apply elem_of_cons; left|]. by eapply all_tasks_trapped.
  - intros a e He. cbn in He. destruct (add_entries _ _ _ _ _ _ _ _ _ _ _ Hm He) as [(e0 & He0 & Ht & Hty)|[Ht Hty]].
    + destruct (Hinv a e0 He0) as [Hi1 Hi2]. rewrite Ht, Hty. by split.
    + rewrite Ht. split; [by intros t ?%elem_of_nil|done].
  - intros a e He. cbn in He. destruct (remove_entries _ _ _ _ _ Hm) as [Heq|Heq]; rewrite Heq in He.
    + by apply Hinv.
    + apply lookup_delete_Some in He as [_ He]. by apply Hinv.
  - intros a e He. cbn in He. apply Hinv. cbn. unfold setup in Hm. mcases; by subst.
  - by intros a e He; apply Hinv.
Qed.

(** C1: code is only overwritten by a jump when no thread can be in the middle of it: in every
    reachable state, a redirection that was made static had been hit by every task of the process
    (other than the loader's helper thread) that existed when the last of them ran into the trap. *)
Theorem static_only_after_all_trapped s0 w h a e :
  rsteps (Redirect MODE_NOT_CONFIGURED ∅ s0, History [] []) (w, h) ->
  entries w !! a = Some e -> e_type e = MADE_STATIC ->
  exists tasks helper, (a, tasks, helper) ∈ task_lists h /\ tasks_trapped h a tasks helper.
Proof.
  intros Hr He Hty. enough (protocol_inv (w, h)) as Hinv by (by apply (Hinv a e)).
  remember (Redirect MODE_NOT_CONFIGURED ∅ s0, History [] []) as x0 eqn:Hx0. revert Hx0.
  clear He Hty. induction Hr as [x|x y z _ IH Hs]; intros Hx0.
  - subst x. intros a' e' He'. done.
  - eapply rstep_inv; eauto.
Qed.

(** ** The code while redirections come and go *)

(** A request for an address without a static redirection that is not already configured. *)
Definition new_request (w : W) (object a to : Z) (ty : EntryType) : Prop :=
  match entries w !! a with
  | None => True
  | Some v => e_type v <> MADE_STATIC /\ ~ (from_object v = object /\ to_address v = to /\ e_type v = ty)
  end.

Lemma add_new object from to n ms fin w w' t :
  traps (mode w) = Some t -> store_ok (code w) ->
  let a := w64 (from + object_base object) in
  new_request w object a to (request_type t a to n ms).1 -> whole (code w) object a (t_size t) ->
  add object_base hm_insert object from to n ms fin w = Ok (true, w') ->
  mode w' = mode w /\ store_ok (code w')
  /\ (forall o g x, in_segment (code w') o g x <-> in_segment (code w) o g x)
  /\ (exists e, entries w' = <[a := e]> (delete a (entries w)) /\ from_object e = object /\ to_address e = to
        /\ e_type e = (request_type t a to n ms).1 /\ tids e = []
        /\ nth 0 (previous_opcode e) 0 = pending (code w) a
        /\ (1 <= length (previous_opcode e))%nat)
  /\ (forall x, pending (code w') x = if decide (a <= x < a + Z.of_nat (t_size t))
                                     then nth (Z.to_nat (x - a)) (instructions t) 0 else pending (code w) x).
Proof.
  intros Ht Hok a Hnew Hwhole Hm. unfold add in Hm. msplit. rewrite Ht in Hm. fold a in Hm.
  destruct (trap_instruction _ _ Ht) as (Hsz & Htk & _).
  assert (1 <= (request_type t a to n ms).2 <= 16)%nat as Hbytes.
  { unfold request_type. repeat case_match; cbn; lia. }
  destruct (request_type _ _ _ _ _) as [ty bytes]. cbn [fst snd] in *.
  apply bind_Ok in Hm as (early & w1 & Hearly & Hm).
  assert (early = None /\ mode w1 = mode w /\ code w1 = code w /\ entries w1 = delete a (entries w)) as (-> & Hmw & Hcw & Hew).
  { unfold new_request in Hnew. destruct (entries w !! a) as [v|] eqn:Hv.
    - destruct Hnew as [Hmade Hdiff]. rewrite decide_False in Hearly by done.
      destruct (_ && _ && _) eqn:Hcfg; [|by msplit].
      apply andb_true_iff in Hcfg as [[H1 H2]%andb_true_iff H3%bool_decide_eq_true].
      exfalso. apply Hdiff. split_and!; [lia..|done].
    - msplit. by rewrite delete_id. }
  msplit. apply on_code_Ok in Hm0 as (s1 & Hc & ->). rewrite Hcw in Hc.
  destruct x as [[p g]|]; msplit; [|done].
  destruct (compose_pointer_spec _ _ _ _ _ Hok Hc) as (Hok1 & Hp1 & Hi1 & Hcomp & Hin).
  assert (forall i, (i < length (take (t_size t) (instructions t)))%nat -> in_segment s1 object g (a + Z.of_nat i)) as Hall.
  { intros i Hi. apply Hi1, Hwhole; [by apply Hi1|lia]. }
  destruct (store_bytes_spec _ _ _ _ _ _ Hok1 Hcomp Hall) as (Hok2 & Hcomp2 & Hp2 & Hi2).
  match goal with Hx : (if fin then _ else _) _ = Ok (_, ?wf) |- _ => rename wf into w', Hx into Hm end.
  cbn in Hm. set (s2 := store_bytes _ _ s1) in *.
  set (e := Entry _ _ _ _ _) in *.
  assert (hm_insert a e (entries w1) = <[a := e]> (delete a (entries w))) as Hins.
  { rewrite Hew. destruct (hm_insert_law a e (delete a (entries w))) as [-> | [[? Hsome] _]]; [done|].
    by rewrite lookup_delete_eq in Hsome. }
  assert (exists s3, w' = Redirect (mode w) (<[a := e]> (delete a (entries w))) s3 /\ store_ok s3
     /\ (forall x, pending s3 x = pending s2 x)
     /\ (forall o' g' x, in_segment s3 o' g' x <-> in_segment s2 o' g' x)) as (s3 & -> & Hok3 & Hp3 & Hi3).
  { destruct fin; msplit.
    - match goal with Hx : on_code _ _ = _ |- _ => apply on_code_Ok in Hx as (s3 & Hfin & ->) end. cbn in Hfin |- *.
      destruct (finalize_segment_spec _ _ _ _ _ Hok2 Hfin) as (Hok3 & Hp3 & Hi3 & _).
      exists s3. unfold set_code, set_entries. cbn. by rewrite Hins, Hmw.
    - exists s2. unfold set_code, set_entries. cbn. by rewrite Hins, Hmw. }
  cbn [mode code entries]. split; [done|]. split; [done|]. split; [intros; by rewrite Hi3, Hi2, Hi1|]. split.
  - exists e. split_and!; try done; subst e; cbn [previous_opcode].
    + destruct bytes as [|bytes]; [lia|]. cbn [load_bytes seq fmap list_fmap app nth].
      rewrite (composed_load s1 object g a p 0); [by rewrite Z.add_0_r, Hp1|done|done|done|by rewrite Z.add_0_r].
    + rewrite length_app. unfold load_bytes. rewrite length_fmap, length_seq. lia.
  - intros x. rewrite Hp3, Hp2, Hp1, Htk. destruct (decide (a <= x < a + Z.of_nat (t_size t))) as [Hx|Hx]; [|done].
    by rewrite nth_firstn, (proj2 (Nat.ltb_lt _ _)) by lia.
Qed.

(** What remove does to the code: it writes the saved byte back, to the address plus the base of
    the object. *)
Lemma remove_spec address fin w w' v :
  mode w <> MODE_NONE -> store_ok (code w) -> entries w !! address = Some v -> e_type v <> MADE_STATIC ->
  (1 <= length (previous_opcode v))%nat ->
  remove object_base address fin w = Ok (true, w') ->
  let a := w64 (address + object_base (from_object v)) in
  mode w' = mode w /\ store_ok (code w') /\ entries w' = delete address (entries w)
  /\ (exists r s1, compose_pointer (from_object v) a (code w) = Ok (r, s1)
       /\ forall x, pending (code w') x =
           if decide (x = a) then match r with Some _ => nth 0 (previous_opcode v) 0 | None => pending (code w) x end
           else pending (code w) x).
Proof.
  intros Hmode Hok Hv Hty Hlen Hm a. unfold remove in Hm. msplit. rewrite decide_False in Hm by done.
  rewrite Hv in Hm. msplit. fold a in Hm0. rewrite (decide_False _ _ Hty) in *.
  apply on_code_Ok in Hm0 as (s1 & Hc & ->).
  destruct (compose_pointer_spec _ _ _ _ _ Hok Hc) as (Hok1 & Hp1 & Hi1 & Hr).
  destruct x as [[p g]|]; msplit; cbn in *;
    try match goal with Hx : (if fin then _ else _) _ = Ok (_, ?wf) |- _ => rename wf into w', Hx into Hm end.
  2: { split; [done|]. split; [done|]. split; [done|]. exists None, s1. split; [done|]. intros y. rewrite Hp1.
       by destruct (decide (y = a)). }
  destruct Hr as [Hcomp Hin].
  assert (exists s3, w' = Redirect (mode w) (delete address (entries w)) s3 /\ store_ok s3
     /\ (forall x, pending s3 x = if decide (x = a) then nth 0 (previous_opcode v) 0 else pending (code w) x))
    as (s3 & -> & Hok3 & Hp3).
  { destruct (previous_opcode v) as [|b bs] eqn:Hpo; [cbn in Hlen; lia|]. cbn [take store_bytes nth].
    destruct (composed_store s1 (from_object v) g a p 0 b) as (Hok2 & _ & Hp2 & Hi2);
      [done|done|lia|by rewrite Z.add_0_r|].
    rewrite !Z.add_0_r in *. destruct fin; msplit.
    - match goal with Hx : on_code _ _ = _ |- _ => apply on_code_Ok in Hx as (s3 & Hfin & ->) end. cbn in Hfin |- *.
      destruct (finalize_segment_spec _ _ _ _ _ Hok2 Hfin) as (Hok3 & Hp3 & _).
      exists s3. split; [done|]. split; [done|]. intros y. by rewrite Hp3, Hp2, Hp1.
    - eexists. split; [reflexivity|]. split; [done|]. intros y. by rewrite Hp2, Hp1. }
  split; [done|]. split; [done|]. split; [done|]. exists (Some (p, g)), s1. split; [done|]. intros y. by rewrite Hp3.
Qed.

(** removing a (not yet static) redirection deletes its entry but writes the saved opcode to the
    registered address plus the base of the object, while entries are registered under absolute
    addresses: for an object with a base other than 0 every byte at the redirected address itself
    stays as it is, the trap included. *)
Theorem remove_writes_elsewhere address fin w w' v x :
  mode w <> MODE_NONE -> store_ok (code w) -> entries w !! address = Some v -> e_type v <> MADE_STATIC ->
  (1 <= length (previous_opcode v))%nat ->
  remove object_base address fin w = Ok (true, w') ->
  x <> w64 (address + object_base (from_object v)) ->
  entries w' = delete address (entries w) /\ pending (code w') x = pending (code w) x.
Proof.
  intros Hmode Hok Hv Hty Hlen Hm Hx.
  destruct (remove_spec _ _ _ _ _ Hmode Hok Hv Hty Hlen Hm) as (_ & _ & He & r & s1 & _ & Hp).
  split; [done|]. by rewrite Hp, decide_False.
Qed.

(** C39: for an object at base 0 and a one byte trap, adding a redirection of an address that has none and removing it
    again restores the set of redirections, and the code of every address, provided that a place
    to write it is found when it is removed; if there is none (no memory for the back buffer of the segment) the redirection
    is forgotten all the same and its trap stays in the code. *)
Theorem add_remove_roundtrip object a to n ms fin1 fin2 w w1 w2 t :
  traps (mode w) = Some t -> t_size t = 1%nat -> store_ok (code w) ->
  object_base object = 0 -> is_u64 a -> entries w !! a = None -> whole (code w) object a 1 ->
  add object_base hm_insert object a to n ms fin1 w = Ok (true, w1) ->
  remove object_base a fin2 w1 = Ok (true, w2) ->
  entries w2 = entries w
  /\ exists place s1, compose_pointer object a (code w1) = Ok (place, s1)
       /\ forall x, pending (code w2) x =
            if decide (x = a /\ place = None) then nth 0 (instructions t) 0 else pending (code w) x.
Proof.
  intros Ht Hsz Hok Hb Ha Hnone Hwhole Hadd Hrem.
  assert (w64 (a + object_base object) = a) as Ea by (rewrite Hb, Z.add_0_r; by apply w64_small).
  destruct (add_new object a to n ms fin1 w w1 t Ht Hok) as (Hm1 & Hok1 & _ & (e & He & Ho & _ & Hty & _ & Hop & Hlen) & Hp1);
    rewrite ?Ea; [by unfold new_request; rewrite Hnone|by rewrite Hsz|done|].
  rewrite Ea in *.
  pose proof (request_type_not_made t a to n ms) as Hnm.
  destruct (remove_spec a fin2 w1 w2 e) as (_ & _ & He2 & r & s1 & Hc & Hp2); auto.
  - rewrite Hm1. intros Hn. by rewrite Hn in Ht.
  - rewrite He. apply lookup_insert_eq.
  - congruence.
  - rewrite Ho, Ea in *. split.
    + rewrite He2, He. apply map_eq. intros b. destruct (decide (b = a)) as [->|Hb'].
      * by rewrite lookup_delete_eq.
      * by rewrite lookup_delete_ne, lookup_insert_ne, lookup_delete_ne.
    + exists r, s1. split; [exact Hc|]. intros x. rewrite Hp2. destruct (decide (x = a)) as [->|Hne].
      * destruct r; [by rewrite decide_False by naive_solver|]. rewrite decide_True by done.
        rewrite Hp1, decide_True by lia. by rewrite Z.sub_diag.
      * rewrite Hp1, !decide_False by (rewrite ?Hsz; naive_solver lia). done.
Qed.

(** redirecting an already trapped address to another target replaces the saved opcode by the
    trap instruction, so the original code can no longer be restored. *)
Theorem retarget_loses_opcode object from to1 to2 n1 n2 fin1 fin2 w w1 w2 t :
  traps (mode w) = Some t -> store_ok (code w) ->
  let a := w64 (from + object_base object) in
  entries w !! a = None -> whole (code w) object a (t_size t) -> to1 <> to2 ->
  add object_base hm_insert object from to1 n1 false fin1 w = Ok (true, w1) ->
  add object_base hm_insert object from to2 n2 false fin2 w1 = Ok (true, w2) ->
  exists e, entries w2 !! a = Some e /\ to_address e = to2
    /\ nth 0 (previous_opcode e) 0 = nth 0 (instructions t) 0.
Proof.
  intros Ht Hok a Hnone Hwhole Hto Hadd1 Hadd2.
  destruct (trap_instruction _ _ Ht) as (Hsz & _).
  destruct (add_new object from to1 n1 false fin1 w w1 t Ht Hok) as (Hm1 & Hok1 & Hi1 & (e & He & Ho & Hto1 & Hty & _) & Hp1);
    [by unfold new_request; fold a; rewrite Hnone|done|done|]. fold a in He, Hp1.
  destruct (add_new object from to2 n2 false fin2 w1 w2 t) as (_ & _ & _ & (e2 & He2 & _ & Hto2 & _ & _ & Hop & _) & _);
    try done.
  - by rewrite Hm1.
  - unfold new_request. fold a. rewrite He, lookup_insert_eq. split; [by rewrite Hty|]. intros (_ & ? & _). congruence.
  - intros g Hg i Hi. apply Hi1. apply (Hwhole g); [by apply Hi1|done].
  - fold a in He2, Hop. exists e2. split; [rewrite He2; apply lookup_insert_eq|]. split; [done|].
    rewrite Hop, Hp1, decide_True by lia. by rewrite Z.sub_diag.
Qed.
End facts.

(** ** Redirections in the memory of a process

    The same with the memory segments of Segment.v and their back buffers in place of the
    interface. *)
Section process.
Context `{DlhMathSpec} (hex : Z -> string) (kernel : kernel_t) (octx : Z -> MemorySegment.object_ctx).
Context (file_bytes : Z -> Z -> nat -> list Z).

(** C2: a static redirection that reports success makes the processor jump from the old address to
    the new one, exactly if the target is either out of the range the code takes for a relative
    jump (which is twice the range of one) or within the signed 32-bit displacement; no other byte
    of the code of any object changes, and the bytes of the jump are live, not just in a buffer. *)
Theorem static_redirect_jumps object from to (w w' : redirect ObjectMemory.process) :
  mmap_fresh kernel -> inv kernel (code w) -> is_u64 from -> is_u64 to -> from + 14 < 2^64 ->
  (forall g i, holds (code w) object g from -> (i < 14)%nat -> holds (code w) object g (from + Z.of_nat i)) ->
  @static_redirect _ (ObjectMemory.process_store hex kernel octx file_bytes) object from to w = Ok (true, w') ->
  (exec (rd (ObjectMemory.bytes (code w'))) from = Some to
     <-> (check_relative_jump from to = false \/ fits_rel32 from to))
  /\ inv kernel (code w')
  /\ (forall x, ~ from <= x < from + 14 -> pending_code (code w') x = pending_code (code w) x).
Proof.
  intros Hfresh Hinv Hf Ht Hov Hwhole Hm.
  destruct (@static_redirect_spec _ _ (process_store_spec hex kernel octx file_bytes Hfresh) object from to w w')
    as (Hexec & Hinv' & _ & _ & Hp); try done.
  { intros g Hg i Hi. by apply Hwhole. }
  split; [exact Hexec|]. split; [exact Hinv'|]. intros x Hx. pose proof (static_code_length from to).
  etrans; [apply Hp|]. rewrite decide_False; [done|]. lia.
Qed.
End process.

(** ** Witnesses *)

(** One code segment of 40 bytes at 0x1000 (with tiny pages), in a process that runs. *)
Definition ex_text : MemorySegment.segment :=
  MemorySegment.Segment 0 40 0x1000 0 40 5 5 (-1) 0 false MemorySegment.MEMSEG_MAPPED 0.
Definition ex_process : ObjectMemory.process :=
  ObjectMemory.Process [(1, ex_text)] (wr ∅ 0x1000 (replicate 64 0x90))
    [Platform.Ev_sys (Sys_mmap 0x1000 64 5 0x22 (-1) 0) (Success 0x1000)].
Definition ex_octx (o : Z) : MemorySegment.object_ctx := example_object.
Definition ex_files (fd off : Z) (n : nat) : list Z := replicate n 0.
Abbreviation ex_store := (@ObjectMemory.process_store dlh_tiny (fun _ => EmptyString) bump_kernel ex_octx ex_files).
Definition ex_redirect : redirect ObjectMemory.process := Redirect MODE_INVALID_OPCODE_HACK ∅ ex_process.

Lemma ex_process_inv : @inv dlh_tiny bump_kernel ex_process.
Proof.
  split.
  - intros [|g] o s Hg; cbn in Hg; [|done]. injection Hg as <- <-. split; [|split].
    + unfold seg_ok. do 5 (split; [vm_compute; (reflexivity || discriminate)|]).
      split; [exists 128; reflexivity|]. split; [reflexivity|]. left. reflexivity.
    + split; [|by left]. apply list_elem_of_singleton. reflexivity.
    + done.
  - intros [|g] [|g'] o o' s s' Hne Hg Hg'; cbn in *; done.
Qed.

Lemma ex_process_whole g i : holds ex_process 1 g 0x1008 -> (i < 14)%nat -> holds ex_process 1 g (0x1008 + Z.of_nat i).
Proof.
  intros (s & Hg & _) Hi. destruct g as [|g]; cbn in Hg; [|done]. injection Hg as <-.
  exists ex_text. split; [done|].
  do 14 (destruct i as [|i]; [vm_compute; reflexivity|]). lia.
Qed.

Definition after {S A} (m : M (redirect S) A) (w : redirect S) : redirect S :=
  match m w with Ok (_, w') => w' | _ => w end.

Definition ex_jumped : redirect ObjectMemory.process := after (@static_redirect _ ex_store 1 0x1008 0x2000) ex_redirect.

Lemma static_redirect_jumps_witness : exec (rd (ObjectMemory.bytes (code ex_jumped))) 0x1008 = Some 0x2000.
Proof.
  apply (@static_redirect_jumps dlh_tiny dlh_tiny_spec (fun _ => EmptyString) bump_kernel ex_octx ex_files 1 0x1008 0x2000
           ex_redirect ex_jumped bump_kernel_fresh ex_process_inv).
  - unfold is_u64. lia.
  - unfold is_u64. lia.
  - lia.
  - exact ex_process_whole.
  - vm_compute. reflexivity.
  - right. unfold fits_rel32. lia.
Defined.

(** Code that is patched in place, for the witnesses of the theorems about the interface. *)
Definition flat_store : CodeStore memory := {|
  compose_pointer _ a s := Ok (Some (a, 0%nat), s);
  finalize_segment _ _ s := Ok (true, s);
  load s a := rd s a;
  store a b s := <[a := b]> s;
|}.
Definition flat_store_spec : @CodeStoreSpec memory flat_store.
Proof.
  refine {| store_ok := fun _ => True; in_segment := fun _ _ _ _ => True; pending := fun s x => rd s x;
            composed := fun _ _ _ a p => p = a |}.
  - intros o a s r s' _ [= <- <-]. by split_and!.
  - by intros s o g a p i _ -> _ _.
  - intros s o g a p i b _ -> _ _. split; [done|]. split; [done|]. split; [|done]. intros x. cbn. unfold rd.
    destruct (decide (x = a + i)) as [->|Hne]; [by rewrite lookup_insert_eq|by rewrite lookup_insert_ne].
  - intros o g s r s' _ [= <- <-]. by split_and!.
Defined.

Definition ex_code : memory := wr ∅ 0x1000 (replicate 64 0x90).
Definition ex_flat : redirect memory := Redirect MODE_INVALID_OPCODE_HACK ∅ ex_code.
Definition ex_parse (s : string) : option Z := if decide (s = "7") then Some 7 else if decide (s = "8") then Some 8 else None.
Definition ex_insert (k : Z) (e : entry) (m : gmap Z entry) : gmap Z entry := <[k := e]> m.
Definition ex_base (o : Z) : Z := if o =? 1 then 0 else 0x1000.
Abbreviation ex_add := (@add _ flat_store ex_base ex_insert).
Abbreviation ex_remove := (@remove _ flat_store ex_base).
Abbreviation ex_trap := (@trap_handler _ flat_store ex_parse).
Definition ex_added : redirect memory := after (ex_add 1 0x1008 0x2000 20 true true) ex_flat.

Lemma ex_insert_law k e m : ex_insert k e m = <[k := e]> m \/ (is_Some (m !! k) /\ ex_insert k e m = m).
Proof. by left. Qed.

Lemma trap_handler_redirects_witness :
  to_address <$> entries (after (ex_trap SIGILL 0x1008 7 ["7"; "8"] None) ex_added) = to_address <$> entries ex_added.
Proof.
  apply (@trap_handler_redirects _ flat_store ex_parse SIGILL 0x1008 7 ["7"; "8"] None ex_added 0x2000).
  - vm_compute. discriminate.
  - vm_compute. reflexivity.
Defined.

(** Both threads run into the trap, the second one installs the jump. *)
Definition ex_setup : redirect memory := after (setup MODE_INVALID_OPCODE_HACK true true) (Redirect MODE_NOT_CONFIGURED ∅ ex_code).
Definition ex_added' : redirect memory := after (ex_add 1 0x1008 0x2000 20 true true) ex_setup.
Definition ex_trap1 : redirect memory := after (ex_trap SIGILL 0x1008 7 ["7"; "8"] None) ex_added'.
Definition ex_trap2 : redirect memory := after (ex_trap SIGILL 0x1008 8 ["7"; "8"] None) ex_trap1.
Definition ex_history : history :=
  History [(0x1008, 8); (0x1008, 7)] [(0x1008, ["7"; "8"], -1); (0x1008, ["7"; "8"], -1)].

Lemma static_only_after_all_trapped_witness :
  exists tasks helper, (0x1008, tasks, helper) ∈ task_lists ex_history
    /\ tasks_trapped ex_parse ex_history 0x1008 tasks helper.
Proof.
  apply (@static_only_after_all_trapped _ flat_store ex_base ex_parse ex_insert ex_insert_law ex_code ex_trap2 ex_history 0x1008
           (Entry 1 0x2000 MADE_STATIC (replicate 5 0x90 ++ replicate 11 0) [8; 7])).
  - eapply (rsteps_step _ _ _ _ (ex_trap1, History [(0x1008, 7)] [(0x1008, ["7"; "8"], -1)])).
    + eapply (rsteps_step _ _ _ _ (ex_added', History [] [])).
      * eapply (rsteps_step _ _ _ _ (ex_setup, History [] [])).
        -- eapply (rsteps_step _ _ _ _ (Redirect MODE_NOT_CONFIGURED ∅ ex_code, History [] [])); [apply rsteps_refl|].
           eapply (step_setup _ _ _ _ _ MODE_INVALID_OPCODE_HACK true true true). vm_compute. reflexivity.
        -- eapply (step_add _ _ _ _ _ 1 0x1008 0x2000 20 true true true). vm_compute. reflexivity.
      * apply (step_trap _ _ _ ex_added' (History [] []) SIGILL 0x1008 7 ["7"; "8"] None 0x2000 ex_trap1);
          [vm_compute; discriminate|vm_compute; reflexivity..].
    + apply (step_trap _ _ _ ex_trap1 (History [(0x1008, 7)] [(0x1008, ["7"; "8"], -1)]) SIGILL 0x1008 8 ["7"; "8"] None 0x2000 ex_trap2);
        [vm_compute; discriminate|vm_compute; reflexivity..].
  - vm_compute. reflexivity.
  - reflexivity.
Defined.

(** An object at base 0x1000: the trap stays where it is. *)
Definition ex_added2 : redirect memory := after (ex_add 2 0x8 0x2000 20 false true) ex_flat.
Lemma remove_writes_elsewhere_witness : rd (code (after (ex_remove 0x1008 true) ex_added2)) 0x1008 = 0x06.
Proof.
  destruct (@remove_writes_elsewhere _ flat_store flat_store_spec ex_base 0x1008 true ex_added2
    (after (ex_remove 0x1008 true) ex_added2)
    (Entry 2 0x2000 ONLY_DYNAMIC (0x90 :: replicate 15 0) []) 0x1008) as [_ Hp].
  - vm_compute. discriminate.
  - exact I.
  - vm_compute. reflexivity.
  - discriminate.
  - cbn. lia.
  - vm_compute. reflexivity.
  - vm_compute. discriminate.
  - etransitivity; [exact Hp|]. vm_compute. reflexivity.
Defined.

(** In the memory of a process: the segment gets a back buffer for the trap, and another one when it is removed. *)
Definition ex_put : redirect ObjectMemory.process := after (@add _ ex_store ex_base ex_insert 1 0x1008 0x2000 20 true true) ex_redirect.
Definition ex_taken : redirect ObjectMemory.process := after (@remove _ ex_store ex_base 0x1008 true) ex_put.

Lemma add_remove_roundtrip_witness :
  rd (ObjectMemory.bytes (code ex_put)) 0x1008 = 0x06
  /\ entries ex_taken = ∅ /\ @pending_code dlh_tiny (code ex_taken) 0x1008 = 0x90.
Proof.
  destruct (@add_remove_roundtrip _ ex_store
    (@process_store_spec dlh_tiny dlh_tiny_spec (fun _ => EmptyString) bump_kernel ex_octx ex_files bump_kernel_fresh)
    ex_base ex_insert ex_insert_law 1 0x1008 0x2000 20 true true true
    ex_redirect ex_put ex_taken (Trap [0x06; 0x00] 1 0 SIGILL)) as [He (place & s1 & Hc & Hp)].
  - reflexivity.
  - reflexivity.
  - exact ex_process_inv.
  - reflexivity.
  - unfold is_u64. lia.
  - reflexivity.
  - intros g Hg i Hi. apply ex_process_whole; [exact Hg|lia].
  - vm_compute. reflexivity.
  - vm_compute. reflexivity.
  - split; [vm_compute; reflexivity|]. split; [exact He|]. etransitivity; [exact (Hp 0x1008)|].
    rewrite decide_False; [vm_compute; reflexivity|]. intros [_ ->]. vm_compute in Hc. discriminate Hc.
Defined.

Definition ex_first : redirect memory := after (ex_add 1 0x1008 0x2000 20 false true) ex_flat.
Definition ex_second : redirect memory := after (ex_add 1 0x1008 0x3000 20 false true) ex_first.
Lemma retarget_loses_opcode_witness :
  exists e, entries ex_second !! 0x1008 = Some e /\ nth 0 (previous_opcode e) 0 = 0x06.
Proof.
  destruct (@retarget_loses_opcode _ flat_store flat_store_spec ex_base ex_insert ex_insert_law 1 0x1008 0x2000 0x3000 20 20 true true
    ex_flat ex_first ex_second (Trap [0x06; 0x00] 1 0 SIGILL)) as (e & He & _ & Hop).
  - reflexivity.
  - exact I.
  - reflexivity.
  - intros g _ i _. exact I.
  - discriminate.
  - vm_compute. reflexivity.
  - vm_compute. reflexivity.
  - exists e. split; [exact He|exact Hop].
Defined.

End RedirectProofs.
