(* ===== verification/Tls.v ===== *)
(** Thread local storage: the module list and the static TLS layout (struct TLS of tls.hpp/tls.cpp),
    the dynamic thread vector of a thread and the functions glibc calls for it
    (comp/glibc/rtld/dl_tls.cpp).

    The heap of DLH (Memory::alloc, alloc_array, realloc) and the contents of the memory it returns
    are parameters.  The state is one thread together with the loader-wide [tls]; other threads act
    on it only through [tls]. *)
From S2P Require Import Prelude Platform.

Module TLS.

(** struct TLS::Module; [m_object] identifies the ObjectIdentity. *)
Record module := Module {
  m_object : Z; m_size : Z; m_align : Z; m_image : Z; m_image_size : Z; m_offset : Z;
}.

(** struct TLS *)
Record tls := Tls {
  gen : Z; initial_count : nat; initial_align : Z; initial_size : Z; modules : list module;
}.
Definition tls_init : tls := Tls 0 0 1 0 [].
Definition surplus : Z := 0x680.
Definition TLS_UNALLOCATED : Z := 0.

(** One element of Thread::DynamicThreadVector, as pointer. *)
Record slot := Slot { val : Z; to_free : Z }.
Definition unallocated : slot := Slot TLS_UNALLOCATED 0.

(** The array behind Thread::dtv: [dtv[-1].counter], [dtv[0].counter], then [dtv[1]], [dtv[2]], ... *)
Record dtv_array := Dtv {
  dtv_base : Z; dtv_module_size : nat; dtv_generation : Z; slots : list slot
}.

(** struct Thread (DLH), the fields used here. *)
Record thread := Thread { t_addr : Z; map_base : Z; map_size : Z; dtv : option dtv_array }.

(** What happens to the heap, to other memory and to glibc's structures. *)
Inductive event :=
| Ev_alloc (size p : Z)
| Ev_alloc_array (n elt p : Z)
| Ev_realloc (size p : Z)
| Ev_free (p : Z)
| Ev_copy (dst src len : Z)
| Ev_zero (dst len : Z)
| Ev_init_tls (m : module) (modid : nat)
| Ev_set_fs (p : Z).

(** [cells] are the words stored in front of the blocks of dynamic modules. *)
Record world := World { w_tls : tls; w_thread : thread; cells : gmap Z Z; log : list event }.

Definition set_tls (t : tls) (w : world) : world := World t (w_thread w) (cells w) (log w).
Definition set_thread (t : thread) (w : world) : world := World (w_tls w) t (cells w) (log w).
Definition set_dtv (d : option dtv_array) (w : world) : world :=
  let t := w_thread w in
  set_thread (Thread (t_addr t) (map_base t) (map_size t) d) w.
Definition set_gen (g : Z) (t : tls) : tls :=
  Tls g (initial_count t) (initial_align t) (initial_size t) (modules t).

(** Addresses of the dtv are [mid - 1] in [slots]. *)
Definition get_slot (d : dtv_array) (mid : nat) : option slot :=
  match mid with O => Some (Slot (dtv_generation d) 0) | S i => slots d !! i end.
Definition put_slot (mid : nat) (x : slot) (d : dtv_array) : dtv_array :=
  Dtv (dtv_base d) (dtv_module_size d) (dtv_generation d)
      (match mid with O => slots d | S i => <[i := x]> (slots d) end).

Section tls.
Context `{DlhMath}.
Context (math_align : Z -> Z -> Z).              (* Math::align *)
Context (sizeof_Thread : Z).                     (* sizeof(Thread) *)
Context (allocated : Z -> bool).                 (* DynamicThreadVector::allocated *)
Context (heap : list event -> Z -> Z).           (* the allocator: address or 0 *)
Context (fresh_dtv : Z -> nat -> dtv_array).     (* a new array for n modules at p *)
Context (garbage : slot).                        (* what realloc appends *)
Context (object_base : Z -> Z).                  (* module.object.current->base *)

Definition emit (e : event) : M world unit :=
  modify (fun w => World (w_tls w) (w_thread w) (cells w) (log w ++ [e])).
Definition alloc (size : Z) : M world Z :=
  w ← get; let p := heap (log w) size in emit (Ev_alloc size p) ;; mret p.
Definition alloc_array (n elt : Z) : M world Z :=
  w ← get; let p := heap (log w) (n * elt) in emit (Ev_alloc_array n elt p) ;; mret p.
Definition realloc (size : Z) : M world Z :=
  w ← get; let p := heap (log w) size in emit (Ev_realloc size p) ;; mret p.

(** The dtv of the thread; using a null dtv is a crash. *)
Definition get_dtv : M world dtv_array :=
  w ← get; match dtv (w_thread w) with Some d => mret d | None => assert false ;; mret (Dtv 0 0 0 []) end.

(** TLS::add_module: (module id, offset) *)
Definition add_module (object size align image image_size : Z) : M world (nat * Z) :=
  assert (0 <? size) ;;
  w ← get;
  let t := w_tls w in
  let '(t, offset) :=
    if gen t =? 0 then
      let al := if initial_align t <? align then align else initial_align t in
      let sz := w64 (initial_size t + align_up size al) in
      (Tls (gen t) (S (initial_count t)) al sz (modules t), s64 sz)
    else (t, 0) in
  (* Module::Module *)
  assert (image_size <=? size) ;;
  let m := Module object size align image image_size offset in
  let t := Tls (gen t) (initial_count t) (initial_align t) (initial_size t) (modules t ++ [m]) in
  modify (set_tls t) ;;
  let modid := length (modules t) in
  emit (Ev_init_tls m modid) ;;
  mret (modid, offset).

(** TLS::dtv_copy *)
Definition dtv_copy (module_id : nat) (ptr : Z) : M world unit :=
  w ← get;
  d ← get_dtv;
  match modules (w_tls w) !! (module_id - 1)%nat, get_slot d module_id with
  | Some m, Some x =>
      assert (negb (allocated (val x))) ;;
      emit (Ev_copy ptr (w64 (object_base (m_object m) + m_image m)) (m_image_size m)) ;;
      (if m_image_size m <? m_size m
       then emit (Ev_zero (w64 (ptr + m_image_size m)) (m_size m - m_image_size m))
       else mret tt) ;;
      modify (set_dtv (Some (put_slot module_id (Slot ptr (to_free x)) d))) ;;
      assert (to_free x =? 0)
  | _, _ => assert false
  end.

(** for (i = dtv_size + 1; i <= new_size; i++) dtv[i] = unallocated *)
Definition clear_slots (dtv_size new_size : nat) (l : list slot) : list slot :=
  foldl (fun l i => <[i := unallocated]> l) l (seq dtv_size (new_size - dtv_size)).

(** TLS::dtv_allocate *)
Definition dtv_allocate : M world nat :=
  w ← get;
  let new_size := (Z.to_nat (math_max (Z.of_nat (length (modules (w_tls w)) * 2)) 16)) in
  let n := Z.of_nat (new_size + 1 + 1) in
  ptr ← match dtv (w_thread w) with None => alloc_array n 16 | Some _ => realloc (n * 16) end;
  if ptr =? 0 then mret O
  else
    let d := match dtv (w_thread w) with
             | None => fresh_dtv ptr new_size
             | Some d => Dtv ptr (dtv_module_size d) (dtv_generation d) (resize new_size garbage (slots d))
             end in
    modify (set_dtv (Some (Dtv ptr new_size (dtv_generation d)
                               (clear_slots (dtv_module_size d) new_size (slots d))))) ;;
    mret new_size.

(** TLS::dtv_setup *)
Definition dtv_setup : M world unit :=
  modify (fun w => if gen (w_tls w) =? 0 then set_tls (set_gen 1 (w_tls w)) w else w) ;;
  w ← get;
  (match dtv (w_thread w) with
   | None => n ← dtv_allocate; assert (negb (n =? 0)%nat)
   | Some _ => mret tt
   end) ;;
  let start := t_addr (w_thread w) in
  let count := initial_count (w_tls w) in
  assert (initial_size (w_tls w) <=? start) ;;
  d ← get_dtv;
  assert (count <=? dtv_module_size d)%nat ;;
  mfor (seq 1 count) (fun mid =>
    w ← get;
    d ← get_dtv;
    match modules (w_tls w) !! (mid - 1)%nat, get_slot d mid with
    | Some m, Some x =>
        assert (negb (allocated (val x))) ;;
        let addr := w64 (start - m_offset m) in
        assert (addr <? start) ;;
        dtv_copy mid addr
    | _, _ => assert false
    end) ;;
  w ← get;
  d ← get_dtv;
  modify (set_dtv (Some (Dtv (dtv_base d) (dtv_module_size d) (gen (w_tls w)) (slots d)))).

(** for (i = initial_count + 1; i < count; i++) free what the word before dtv[i] points to *)
Definition dtv_free : M world unit :=
  w ← get;
  d ← get_dtv;
  let count := dtv_module_size d in
  assert (initial_count (w_tls w) <=? count)%nat ;;
  mfor (seq (initial_count (w_tls w) + 1) (count - (initial_count (w_tls w) + 1)))
    (fun i => match get_slot d i with
              | Some x => if allocated (val x) then emit (Ev_free (rd (cells w) (val x - 8))) else mret tt
              | None => assert false
              end) ;;
  emit (Ev_free (dtv_base d)) ;;
  modify (set_dtv None).

(** TLS::get_addr *)
Definition get_addr (module_id : nat) (may_alloc : bool) : M world Z :=
  d ← get_dtv;
  if negb may_alloc then
    if (module_id <=? dtv_module_size d)%nat
    then match get_slot d module_id with Some x => mret (val x) | None => assert false ;; mret 0 end
    else mret 0
  else
    w ← get;
    (if negb (dtv_generation d =? gen (w_tls w)) then
       assert (dtv_generation d <? gen (w_tls w)) ;;
       (if (dtv_module_size d <? length (modules (w_tls w)))%nat
        then n ← dtv_allocate; assert (negb (n =? 0)%nat)
        else mret tt) ;;
       d ← get_dtv;
       modify (set_dtv (Some (Dtv (dtv_base d) (dtv_module_size d) (gen (w_tls w)) (slots d))))
     else mret tt) ;;
    d ← get_dtv;
    assert (module_id <=? dtv_module_size d)%nat ;;
    match get_slot d module_id with
    | None => assert false ;; mret 0
    | Some x =>
        if allocated (val x) then mret (val x)
        else
          assert ((initial_count (w_tls w) <? module_id) && (module_id <=? length (modules (w_tls w))))%nat ;;
          match modules (w_tls w) !! (module_id - 1)%nat with
          | None => assert false ;; mret 0
          | Some m =>
              mem ← alloc (w64 (m_size m + m_align m + 8));
              let data := math_align (w64 (mem + 8)) (m_align m) in
              modify (fun w => World (w_tls w) (w_thread w) (<[data - 8 := mem]> (cells w)) (log w)) ;;
              dtv_copy module_id data ;;
              d ← get_dtv;
              mret (match get_slot d module_id with Some x => val x | None => 0 end)
          end
    end.

(** TLS::allocate; [new_thread] is thread == nullptr *)
Definition allocate (new_thread set_fs : bool) : M world Z :=
  (if new_thread then
     modify (fun w => let t := w_tls w in
       if initial_align t <? 64
       then set_tls (Tls (gen t) (initial_count t) 64 (initial_size t) (modules t)) w else w) ;;
     w ← get;
     let t := w_tls w in
     mem ← alloc_array (w64 (initial_size t + sizeof_Thread + surplus + initial_align t)) 1;
     assert (negb (mem =? 0)) ;;
     let addr := align_up (w64 (mem + initial_size t + surplus)) (initial_align t) in
     modify (set_thread (Thread addr mem (w64 (initial_size t + sizeof_Thread + surplus)) None))
   else mret tt) ;;
  dtv_allocate ;;
  w ← get;
  (if set_fs then emit (Ev_set_fs (t_addr (w_thread w))) else mret tt) ;;
  mret (t_addr (w_thread w)).

(** TLS::free *)
Definition free (free_thread_struct : bool) : M world unit :=
  dtv_free ;;
  if free_thread_struct then
    w ← get;
    assert (map_size (w_thread w) =? w64 (initial_size (w_tls w) + sizeof_Thread)) ;;
    emit (Ev_free (map_base (w_thread w)))
  else mret tt.

(** ** The interface to glibc: dl_tls.cpp *)

(** __tls_get_addr; [None] is ti == nullptr *)
Definition tls_get_addr (ti : option (nat * Z)) : M world Z :=
  match ti with
  | None => mret 0
  | Some (ti_module, ti_offset) => a ← get_addr ti_module true; mret (w64 (a + ti_offset))
  end.

Definition dl_get_tls_static_info : M world (Z * Z) :=
  gets (fun w => (w64 (initial_size (w_tls w) + sizeof_Thread), initial_align (w_tls w))).

(** _dl_allocate_tls: [new_thread] is thread == nullptr *)
Definition dl_allocate_tls (new_thread : bool) : M world Z :=
  a ← allocate new_thread false; dtv_setup ;; mret a.

Definition dl_allocate_tls_init (null_thread : bool) : M world unit :=
  if null_thread then mret tt else dtv_setup.

Definition dl_deallocate_tls (free_thread_struct : bool) : M world unit := free free_thread_struct.

End tls.
End TLS.
