(* ===== verification/TlsProofs.v ===== *)
(** Properties of thread local storage: the static layout, the contents of a new thread's dynamic
    thread vector, lazy allocation, and what happens when modules or threads go. *)
From S2P Require Import Prelude Platform Tls.
Import TLS.

Module TlsProofs.

(** The static TLS block of a module in the thread at [start] is
    [start - m_offset m, start - m_offset m + m_size m). *)
Definition static_inv (t : tls) : Prop :=
  (gen t = 0 \/ gen t = 1)
  /\ 0 <= initial_size t < 2^62 /\ 0 < initial_align t
  /\ (initial_count t <= length (modules t))%nat
  /\ (gen t = 0 -> initial_count t = length (modules t))
  /\ (forall i m, (i < initial_count t)%nat -> modules t !! i = Some m ->
        0 < m_size m <= m_offset m /\ m_offset m <= initial_size t)
  /\ (forall i j mi mj, (i < j < initial_count t)%nat ->
        modules t !! i = Some mi -> modules t !! j = Some mj ->
        m_offset mi + m_size mj <= m_offset mj).

(** A module that fits into the address space. *)
Definition request_ok (t : tls) (size align : Z) : Prop :=
  0 < size /\ 0 < align /\ initial_size t + size + align + initial_align t < 2^62.

Section facts.
Context `{DlhMathSpec} (math_align : Z -> Z -> Z) (sizeof_Thread : Z) (allocated : Z -> bool).
Context (heap : list event -> Z -> Z) (fresh_dtv : Z -> nat -> dtv_array) (garbage : slot).
Context (object_base : Z -> Z).

(** Everything that happens to the TLS state; the thread that runs next is arbitrary. *)
Inductive tls_step : world -> world -> Prop :=
| step_add w w' object size align image image_size r :
    request_ok (w_tls w) size align ->
    add_module object size align image image_size w = Ok (r, w') -> tls_step w w'
| step_get_addr w w' mid b r :
    get_addr math_align allocated heap fresh_dtv garbage object_base mid b w = Ok (r, w') -> tls_step w w'
| step_allocate w w' b r :
    dl_allocate_tls sizeof_Thread allocated heap fresh_dtv garbage object_base b w = Ok (r, w') ->
    tls_step w w'
| step_setup w w' r :
    dtv_setup allocated heap fresh_dtv garbage object_base w = Ok (r, w') -> tls_step w w'
| step_free w w' b r :
    dl_deallocate_tls sizeof_Thread allocated b w = Ok (r, w') -> tls_step w w'
| step_switch w t : tls_step w (set_thread t w).

Inductive tls_reachable (t : thread) : world -> Prop :=
| tls_start : tls_reachable t (World tls_init t ∅ [])
| tls_next w w' : tls_reachable t w -> tls_step w w' -> tls_reachable t w'.

(** Conditions on the loader-wide state only. *)
Definition on_tls (I : tls -> Prop) (w : world) : Prop := I (w_tls w).

Lemma keeps_emit I e : keeps (on_tls I) (emit e).
Proof. by apply keeps_modify. Qed.
Lemma keeps_get_dtv I : keeps (on_tls I) get_dtv.
Proof. unfold get_dtv. solve_keeps. Qed.
Local Hint Resolve keeps_emit keeps_get_dtv : luci.

Lemma keeps_dtv_copy I mid p : keeps (on_tls I) (dtv_copy allocated object_base mid p).
Proof. unfold dtv_copy. solve_keeps. Qed.
Lemma keeps_dtv_allocate I : keeps (on_tls I) (dtv_allocate heap fresh_dtv garbage).
Proof. unfold dtv_allocate, alloc_array, realloc. solve_keeps. Qed.
Local Hint Resolve keeps_dtv_copy keeps_dtv_allocate : luci.

Lemma keeps_get_addr I mid b :
  keeps (on_tls I) (get_addr math_align allocated heap fresh_dtv garbage object_base mid b).
Proof. unfold get_addr, alloc. solve_keeps. Qed.

Lemma keeps_dtv_setup I :
  (forall t, I t -> gen t = 0 -> I (set_gen 1 t)) ->
  keeps (on_tls I) (dtv_setup allocated heap fresh_dtv garbage object_base).
Proof.
  intros HI. unfold dtv_setup. solve_keeps.
  case_match; [|done]. apply HI; [done|]. by apply Z.eqb_eq.
Qed.

Lemma keeps_allocate I b fs :
  (forall t, I t -> I (Tls (gen t) (initial_count t) 64 (initial_size t) (modules t))) ->
  keeps (on_tls I) (allocate sizeof_Thread heap fresh_dtv garbage b fs).
Proof.
  intros HI. unfold allocate, alloc_array. solve_keeps.
  case_match; [|done]. by apply HI.
Qed.

Lemma keeps_free I b : keeps (on_tls I) (free sizeof_Thread allocated b).
Proof. unfold free, dtv_free. solve_keeps. Qed.

Lemma static_inv_gen t : static_inv t -> gen t = 0 -> static_inv (set_gen 1 t).
Proof. unfold static_inv. cbn. intros (?&?&?&?&?&?&?). intros. split_and!; first [done|lia|auto]. Qed.
Lemma static_inv_align t :
  static_inv t -> static_inv (Tls (gen t) (initial_count t) 64 (initial_size t) (modules t)).
Proof. unfold static_inv. cbn. intros (?&?&?&?&?&?&?). split_and!; first [done|lia]. Qed.

Lemma s64_small z : 0 <= z < 2^63 -> s64 z = z.
Proof. intros. unfold s64. rewrite w64_small by (unfold is_u64; lia). by replace (z <? 2^63) with true by lia. Qed.

Lemma static_inv_add object size align image image_size w r w' :
  static_inv (w_tls w) -> request_ok (w_tls w) size align ->
  add_module object size align image image_size w = Ok (r, w') -> static_inv (w_tls w').
Proof.
  intros (Hg & Hsz & Hal & Hc & Hg0 & Hin & Hdis) (Hs & Ha & Hov) Hm.
  unfold add_module, emit in Hm. msplit.
  set (a := if initial_align (w_tls w) <? align then align else initial_align (w_tls w)) in *.
  assert (0 < a /\ a < align + initial_align (w_tls w)) as [Hp0 Hp1] by (subst a; destruct (Z.ltb_spec (initial_align (w_tls w)) align); lia).
  pose proof (align_up_ge size a ltac:(lia) Hp0). pose proof (align_up_lt size a ltac:(lia) Hp0).
  destruct (Z.eqb_spec (gen (w_tls w)) 0) as [E|E]; msplit; cbn in *; msplit; unfold static_inv; cbn.
  - specialize (Hg0 E). rewrite (w64_small (_ + _)) by (unfold is_u64; lia). rewrite s64_small by lia.
    rewrite length_app. cbn. split_and!; try lia.
    + intros i m Hi Hm. apply lookup_app_Some in Hm as [Hm|[Hl Hm]].
      * apply lookup_lt_Some in Hm as ?. destruct (Hin i m ltac:(lia) Hm). lia.
      * apply list_lookup_singleton_Some in Hm as [_ <-]. cbn. lia.
    + intros i j mi mj Hij Hi Hj.
      apply lookup_app_Some in Hi as [Hi|[? Hi]]; [|apply list_lookup_singleton_Some in Hi as [? _]; lia].
      apply lookup_lt_Some in Hi as ?.
      apply lookup_app_Some in Hj as [Hj|[Hl Hj]].
      * apply lookup_lt_Some in Hj as ?. eapply Hdis; eauto; lia.
      * apply list_lookup_singleton_Some in Hj as [_ <-]. cbn.
        destruct (Hin i mi ltac:(lia) Hi). lia.
  - rewrite length_app. cbn. split_and!; try lia.
    + intros i m Hi Hm. rewrite lookup_app_l in Hm by lia. by destruct (Hin i m).
    + intros i j mi mj Hij Hi Hj. rewrite lookup_app_l in Hi, Hj by lia. by eapply Hdis.
Qed.

Lemma reachable_static_inv t w : tls_reachable t w -> static_inv (w_tls w).
Proof.
  induction 1 as [|w w' _ IH Hs].
  - unfold static_inv. cbn. repeat split; try lia; intros; lia.
  - destruct Hs as [? ? ? ? ? ? ? ? Hr Hm|? ? ? ? ? Hm|? ? ? ? Hm|? ? ? Hm|? ? ? ? Hm|]; [|..|done].
    + by eapply static_inv_add.
    + by eapply (keeps_get_addr static_inv).
    + unfold dl_allocate_tls in Hm. msplit.
      eapply (keeps_dtv_setup static_inv); [apply static_inv_gen| |eassumption].
      eapply (keeps_allocate static_inv); [apply static_inv_align| |eassumption]. done.
    + eapply (keeps_dtv_setup static_inv); [apply static_inv_gen| |eassumption]. done.
    + by eapply (keeps_free static_inv).
Qed.

(** C37: in every reachable state the static TLS blocks of a thread are pairwise disjoint and lie
    within [initial_size] bytes below the thread pointer, whatever modules were added, whichever
    threads were created, set up or freed, and in whatever order. *)
Theorem static_tls_layout t w i j mi mj start :
  tls_reachable t w ->
  (i < j < initial_count (w_tls w))%nat ->
  modules (w_tls w) !! i = Some mi -> modules (w_tls w) !! j = Some mj ->
  let first m := start - m_offset m in
  let last m := start - m_offset m + m_size m in
  last mj <= first mi
  /\ start - initial_size (w_tls w) <= first mj
  /\ last mi <= start.
Proof.
  intros (_ & _ & _ & _ & _ & Hin & Hdis)%reachable_static_inv Hij Hi Hj first last.
  specialize (Hdis i j mi mj Hij Hi Hj).
  pose proof (Hin i mi ltac:(lia) Hi). pose proof (Hin j mj ltac:(lia) Hj).
  subst first last. cbn. lia.
Qed.

(** a module added to the static TLS is aligned in every thread (whose thread pointer is a
    multiple of the alignment) exactly if the size of the static TLS before it was a multiple of
    its alignment: the code rounds the module's size up, not the offset at which it ends, so a
    module with a larger alignment than its predecessors can end up misaligned. *)
Theorem static_tls_alignment object size align image image_size w modid offset w' start :
  gen (w_tls w) = 0 -> 0 <= initial_size (w_tls w) -> 0 < initial_align (w_tls w) ->
  request_ok (w_tls w) size align ->
  (align | Z.max align (initial_align (w_tls w))) -> (align | start) ->
  add_module object size align image image_size w = Ok ((modid, offset), w') ->
  (align | start - offset) <-> (align | initial_size (w_tls w)).
Proof.
  intros Hg Hi0 Hal0 (Hs & Ha & Hov) Hdiv Hst Hm.
  unfold add_module, emit in Hm. msplit.
  set (a := if initial_align (w_tls w) <? align then align else initial_align (w_tls w)) in *.
  assert (a = Z.max align (initial_align (w_tls w))) as Ea
    by (subst a; destruct (Z.ltb_spec (initial_align (w_tls w)) align); lia).
  pose proof (align_up_ge size a ltac:(lia) ltac:(lia)).
  pose proof (align_up_lt size a ltac:(lia) ltac:(lia)).
  pose proof (align_up_div size a ltac:(lia) ltac:(lia)) as Hd.
  assert (align | align_up size a) as Hd' by (etrans; [|exact Hd]; by rewrite Ea).
  assert (a < align + initial_align (w_tls w)) by lia.
  clear Hd Ea. clearbody a. rewrite Hg in Hm. cbn in Hm. msplit. simplify_eq.
  rewrite (w64_small (_ + _)) by (unfold is_u64; lia). rewrite s64_small by lia.
  split; intros Hx.
  - replace (initial_size (w_tls w))
      with (start - (start - (initial_size (w_tls w) + align_up size a)) - align_up size a) by lia.
    apply Z.divide_sub_r; [by apply Z.divide_sub_r|done].
  - apply Z.divide_sub_r; [done|]. by apply Z.divide_add_r.
Qed.

(** ** Setting up a thread *)

(** The events of dtv_copy: the initialisation image, then zeroes. *)
Definition init_events (addr : Z) (m : module) : list event :=
  Ev_copy addr (w64 (object_base (m_object m) + m_image m)) (m_image_size m) ::
  (if m_image_size m <? m_size m
   then [Ev_zero (w64 (addr + m_image_size m)) (m_size m - m_image_size m)] else []).

Lemma dtv_copy_spec mid addr w d m x :
  dtv (w_thread w) = Some d -> modules (w_tls w) !! (mid - 1)%nat = Some m ->
  get_slot d mid = Some x -> allocated (val x) = false -> to_free x = 0 ->
  dtv_copy allocated object_base mid addr w
  = Ok (tt, World (w_tls w)
              (Thread (t_addr (w_thread w)) (map_base (w_thread w)) (map_size (w_thread w))
                      (Some (put_slot mid (Slot addr 0) d)))
              (cells w) (log w ++ init_events addr m)).
Proof.
  intros Hd Hm Hx Ha Hf. unfold dtv_copy, get_dtv, emit, init_events. munfold. cbn.
  rewrite Hd, Hm, Hx, Ha. cbn. destruct (m_image_size m <? m_size m); cbn; rewrite Hf; cbn;
    by rewrite <- ?app_assoc.
Qed.

(** Every static module mapped at its place, everything else not yet allocated. *)
Definition dtv_ready (w : world) (k : nat) (d : dtv_array) : Prop :=
  length (slots d) = dtv_module_size d
  /\ (forall mid m, (1 <= mid <= k)%nat -> modules (w_tls w) !! (mid - 1)%nat = Some m ->
        get_slot d mid = Some (Slot (t_addr (w_thread w) - m_offset m) 0))
  /\ (forall mid, (k < mid <= dtv_module_size d)%nat -> get_slot d mid = Some unallocated).

Lemma clear_slots_none n : clear_slots 0 n (replicate n unallocated) = replicate n unallocated.
Proof.
  unfold clear_slots. rewrite Nat.sub_0_r.
  assert (forall js (l : list slot), Forall (eq unallocated) l -> length l = n ->
            foldl (fun l i => <[i := unallocated]> l) l js = replicate n unallocated) as Hg.
  { induction js as [|i js IH]; intros l Hl Hn; cbn.
    - symmetry. by apply replicate_as_Forall.
    - apply IH; [|by rewrite length_insert]. by apply Forall_insert. }
  apply Hg; [by apply Forall_replicate|by apply length_replicate].
Qed.

Definition heap_zeroes : Prop :=
  (forall l n, heap l n <> 0) /\ (forall p n, fresh_dtv p n = Dtv p 0 0 (replicate n unallocated)).

Lemma dtv_allocate_fresh w :
  heap_zeroes -> dtv (w_thread w) = None ->
  let n := Z.to_nat (Z.max (Z.of_nat (length (modules (w_tls w)) * 2)) 16) in
  exists e d, dtv_allocate heap fresh_dtv garbage w
    = Ok (n, World (w_tls w)
               (Thread (t_addr (w_thread w)) (map_base (w_thread w)) (map_size (w_thread w)) (Some d))
               (cells w) (log w ++ [e]))
    /\ d = Dtv (dtv_base d) n 0 (replicate n unallocated).
Proof.
  intros [Hh Hf] Hd n. unfold dtv_allocate, alloc_array, emit. munfold. cbn. rewrite Hd.
  rewrite math_max_spec. fold n.
  replace (heap (log w) _ =? 0) with false by (symmetry; apply Z.eqb_neq, Hh).
  rewrite Hf. cbn [dtv_module_size slots dtv_generation]. rewrite clear_slots_none.
  eexists _, _. split; [reflexivity|]. done.
Qed.

Lemma put_ready w k d m :
  dtv_ready w k d -> modules (w_tls w) !! k = Some m -> (k < dtv_module_size d)%nat ->
  dtv_ready w (S k) (put_slot (S k) (Slot (t_addr (w_thread w) - m_offset m) 0) d).
Proof.
  intros (Hl & Hin & Hout) Hm Hk. split; [|split]; cbn.
  - by rewrite length_insert.
  - intros mid m' Hmid Hm'. destruct mid as [|mid]; [lia|]. cbn in *.
    rewrite Nat.sub_0_r in Hm'. destruct (decide (mid = k)) as [->|Hne].
    + rewrite list_lookup_insert_eq by lia. congruence.
    + rewrite list_lookup_insert_ne by done.
      apply (Hin (S mid)); [lia|]. cbn. by rewrite Nat.sub_0_r.
  - intros mid Hmid. destruct mid as [|mid]; [lia|]. cbn in *.
    rewrite list_lookup_insert_ne by lia. apply (Hout (S mid)). lia.
Qed.

(** The loop of dtv_setup. *)
Definition setup_body (start : Z) (mid : nat) : M world unit :=
  w ← get;
  d ← get_dtv;
  match modules (w_tls w) !! (mid - 1)%nat, get_slot d mid with
  | Some m, Some x =>
      assert (negb (allocated (val x))) ;;
      let addr := w64 (start - m_offset m) in
      assert (addr <? start) ;;
      dtv_copy allocated object_base mid addr
  | _, _ => assert false
  end.

Definition with_dtv (d : dtv_array) (evs : list event) (w : world) : world :=
  World (w_tls w) (Thread (t_addr (w_thread w)) (map_base (w_thread w)) (map_size (w_thread w)) (Some d))
        (cells w) (log w ++ evs).

Definition static_events (start : Z) (l : list module) : list event :=
  mjoin ((fun m => init_events (start - m_offset m) m) <$> l).

Lemma setup_body_spec w k d m :
  static_inv (w_tls w) -> allocated (val unallocated) = false ->
  initial_size (w_tls w) <= t_addr (w_thread w) < 2^63 ->
  dtv (w_thread w) = Some d -> dtv_ready w k d -> (k < dtv_module_size d)%nat ->
  (k < initial_count (w_tls w))%nat -> modules (w_tls w) !! k = Some m ->
  let a := t_addr (w_thread w) - m_offset m in
  setup_body (t_addr (w_thread w)) (S k) w
  = Ok (tt, with_dtv (put_slot (S k) (Slot a 0) d) (init_events a m) w).
Proof.
  intros (_ & Hsz & _ & _ & _ & Hin & _) Hua Hst Hd (Hl & _ & Hout) Hk Hc Hm a.
  destruct (Hin k m Hc Hm) as [Hs1 Hs2].
  assert (get_slot d (S k) = Some unallocated) as Hx by (apply Hout; lia).
  unfold setup_body, get_dtv. munfold. cbn -[get_slot dtv_copy Nat.ltb]. rewrite Hd, Nat.sub_0_r, Hm, Hx. rewrite Hua.
  cbn -[get_slot dtv_copy Nat.ltb]. rewrite (w64_small (_ - _)) by (unfold is_u64; lia).
  fold a. replace (a <? t_addr (w_thread w)) with true by (subst a; lia).
  rewrite (dtv_copy_spec (S k) a w d m unallocated) by (rewrite ?Nat.sub_0_r; cbn; auto; now rewrite Nat.sub_0_r).
  done.
Qed.

Lemma setup_loop n k w d :
  static_inv (w_tls w) -> allocated (val unallocated) = false ->
  initial_size (w_tls w) <= t_addr (w_thread w) < 2^63 ->
  dtv (w_thread w) = Some d -> dtv_ready w k d ->
  (k + n <= dtv_module_size d)%nat -> (k + n <= initial_count (w_tls w))%nat ->
  exists d', mfor (seq (S k) n) (setup_body (t_addr (w_thread w))) w
      = Ok (tt, with_dtv d' (static_events (t_addr (w_thread w)) (take n (drop k (modules (w_tls w))))) w)
    /\ dtv_ready w (k + n) d' /\ dtv_module_size d' = dtv_module_size d.
Proof.
  intros Hi Hua Hst. revert k w d Hi Hst. induction n as [|n IH]; intros k w d Hi Hst Hd Hr Hn Hc; cbn [seq mfor].
  - exists d. rewrite Nat.add_0_r. split; [|done]. unfold with_dtv, static_events. cbn. rewrite app_nil_r.
    munfold. destruct w as [? [] ? ?]; cbn in *. by subst.
  - destruct (modules (w_tls w) !! k) as [m|] eqn:Hm.
    2: { apply lookup_ge_None in Hm. destruct Hi as (_&_&_&?&_). lia. }
    munfold. rewrite (setup_body_spec w k d m) by (auto; lia).
    set (a := t_addr (w_thread w) - m_offset m).
    set (w1 := with_dtv _ _ w). cbn.
    destruct (IH (S k) w1 (put_slot (S k) (Slot a 0) d)) as (d' & Hrun & Hr' & Hs'); try done; cbn; try lia.
    { apply (put_ready w k d m); auto. lia. }
    exists d'. replace (k + S n)%nat with (S k + n)%nat by lia. split; [|done].
    change (t_addr (w_thread w)) with (t_addr (w_thread w1)). munfold. cbn in Hrun |- *. rewrite Hrun.
    unfold with_dtv. cbn. do 3 f_equal. rewrite <- app_assoc. f_equal.
    by rewrite (drop_S _ m k Hm).
Qed.

(** Setting up a new thread always succeeds (given memory) and initialises its dynamic thread
    vector: entry [mid] of every initial module is the address of its block below the thread
    pointer, which receives the module's image followed by zeroes (and nothing else is written);
    all other entries are unallocated, there is room for every module, and the vector carries the
    current generation. *)
Theorem dtv_setup_correct w :
  static_inv (w_tls w) -> heap_zeroes -> allocated (val unallocated) = false ->
  initial_size (w_tls w) <= t_addr (w_thread w) < 2^63 -> dtv (w_thread w) = None ->
  exists d e w',
    dtv_setup allocated heap fresh_dtv garbage object_base w = Ok (tt, w')
    /\ dtv (w_thread w') = Some d /\ dtv_ready w' (initial_count (w_tls w)) d
    /\ (length (modules (w_tls w)) <= dtv_module_size d)%nat /\ dtv_generation d = 1 /\ gen (w_tls w') = 1
    /\ log w' = log w ++ e :: static_events (t_addr (w_thread w))
                                (take (initial_count (w_tls w)) (modules (w_tls w))).
Proof.
  intros Hi Hh Hua Hst Hd. set (w1 := if gen (w_tls w) =? 0 then set_tls (set_gen 1 (w_tls w)) w else w).
  assert (static_inv (w_tls w1)) as Hi1.
  { subst w1. destruct (Z.eqb_spec (gen (w_tls w)) 0); [by apply static_inv_gen|done]. }
  assert (gen (w_tls w1) = 1 /\ modules (w_tls w1) = modules (w_tls w)
          /\ initial_count (w_tls w1) = initial_count (w_tls w) /\ w_thread w1 = w_thread w
          /\ log w1 = log w /\ initial_size (w_tls w1) = initial_size (w_tls w))
    as (Hg1 & Hm1 & Hc1 & Ht1 & Hl1 & Hs1).
  { subst w1. destruct Hi as [Hg _]. destruct (Z.eqb_spec (gen (w_tls w)) 0); cbn; split_and!; lia || done. }
  destruct (dtv_allocate_fresh w1 Hh ltac:(by rewrite Ht1)) as (e & d0 & Hal & Ed0).
  rewrite Hm1, Ht1, Hl1 in *. set (n := Z.to_nat _) in *.
  set (w2 := World _ _ _ _) in Hal.
  destruct Hi1 as (?&?&?&Hcl&?).
  destruct (setup_loop (initial_count (w_tls w)) 0 w2 d0) as (d & Hrun & Hr & Hsz); try done; subst w2; cbn; try lia.
  { rewrite Ed0. cbn. split; [by apply length_replicate|]. split; [intros; lia|].
    intros mid Hmid. destruct mid as [|mid]; [lia|]. cbn in *. apply lookup_replicate_2. lia. }
  { rewrite Ed0. cbn. rewrite Hm1, Hc1 in Hcl. subst n. lia. }
  rewrite Hm1, Hc1 in *. cbn in Hrun, Hr.
  exists (Dtv (dtv_base d) (dtv_module_size d) 1 (slots d)), e. eexists. split.
  - unfold dtv_setup. munfold. fold w1. rewrite Ht1, Hd, Hal. cbn.
    replace (n =? 0)%nat with false by (symmetry; apply Nat.eqb_neq; subst n; lia). cbn.
    rewrite Hs1, Hc1. replace (initial_size (w_tls w) <=? t_addr (w_thread w)) with true by lia.
    unfold get_dtv. munfold. cbn. replace (_ <=? dtv_module_size d0)%nat with true.
    2: { symmetry. apply Nat.leb_le. rewrite Ed0. cbn. subst n. lia. }
    fold (setup_body (t_addr (w_thread w))). unfold setup_body in Hrun |- *. unfold get_dtv in Hrun. munfold. cbn in Hrun |- *.
    rewrite Hrun. cbn. rewrite Hg1. reflexivity.
  - cbn. split; [done|]. split; [|split_and!].
    + destruct Hr as (Hra & Hrb & Hrc). split; [done|].
      split; intros [|mid]; intros; try lia; [by apply (Hrb (S mid))|by apply (Hrc (S mid))].
    + rewrite Hsz, Ed0. cbn. lia.
    + done.
    + done.
    + rewrite drop_0, Hm1. by rewrite <- app_assoc.
Qed.

(** ** Access *)

(** Math::align rounds up (to a power of two); an address inside the user space is a valid entry. *)
Definition align_law : Prop :=
  forall v a, 0 <= v -> 0 < a -> v <= math_align v a < v + a /\ (a | math_align v a).
Definition valid_addresses : Prop := forall p, 0 < p < 2^63 -> allocated p = true.

Lemma get_addr_allocated mid w d x :
  dtv (w_thread w) = Some d -> dtv_generation d = gen (w_tls w) -> (mid <= dtv_module_size d)%nat ->
  get_slot d mid = Some x -> allocated (val x) = true ->
  get_addr math_align allocated heap fresh_dtv garbage object_base mid true w = Ok (val x, w).
Proof.
  intros Hd Hg Hm Hx Ha. unfold get_addr, get_dtv. munfold. rewrite Hd. cbn. rewrite Hg, Z.eqb_refl. cbn.
  rewrite Hd. replace (mid <=? dtv_module_size d)%nat with true by (symmetry; apply Nat.leb_le; lia).
  rewrite Hx, Ha. done.
Qed.

(** The first access *)
Lemma get_addr_first mid w d m mem :
  dtv (w_thread w) = Some d -> dtv_generation d = gen (w_tls w) ->
  (initial_count (w_tls w) < mid <= length (modules (w_tls w)))%nat ->
  (mid <= dtv_module_size d)%nat -> get_slot d mid = Some unallocated ->
  modules (w_tls w) !! (mid - 1)%nat = Some m ->
  allocated (val unallocated) = false -> valid_addresses -> align_law ->
  let request := m_size m + m_align m + 8 in
  0 < m_align m -> 0 < m_size m -> 0 < mem -> mem + request < 2^63 ->
  heap (log w) request = mem ->
  exists data w',
    get_addr math_align allocated heap fresh_dtv garbage object_base mid true w = Ok (data, w')
    /\ (m_align m | data) /\ mem <= data - 8 /\ data + m_size m <= mem + request
    /\ rd (cells w') (data - 8) = mem
    /\ log w' = log w ++ Ev_alloc request mem :: init_events data m
    /\ get_addr math_align allocated heap fresh_dtv garbage object_base mid true w' = Ok (data, w').
Proof.
  intros Hd Hg Hmid Hms Hx Hm Hua Hva Hal request Ha Hs Hm0 Hov Hheap.
  destruct (Hal (mem + 8) (m_align m) ltac:(lia) Ha) as [Hr Hdiv].
  set (data := math_align (mem + 8) (m_align m)) in *.
  set (w1 := World (w_tls w) (w_thread w) (<[data - 8 := mem]> (cells w)) (log w ++ [Ev_alloc request mem])).
  set (d' := put_slot mid (Slot data 0) d).
  assert (get_slot d' mid = Some (Slot data 0)) as Hx'.
  { subst d'. destruct mid as [|k]; [lia|]. cbn in *. apply list_lookup_insert_eq. by eapply lookup_lt_Some. }
  exists data, (with_dtv d' (init_events data m) w1).
  assert (0 <= request < 2^64) as Hrq by lia.
  split; [|split; [done|split; [lia|split; [lia|split; [|split]]]]].
  - unfold get_addr, get_dtv, alloc, emit. munfold. rewrite Hd. cbn -[get_slot dtv_copy Nat.ltb].
    rewrite Hg, Z.eqb_refl. cbn -[get_slot dtv_copy Nat.ltb]. rewrite Hd.
    replace (mid <=? dtv_module_size d)%nat with true by (symmetry; apply Nat.leb_le; lia).
    rewrite Hx, Hua.
    replace (initial_count (w_tls w) <? mid)%nat with true by (symmetry; apply Nat.ltb_lt; lia).
    replace (mid <=? length (modules (w_tls w)))%nat with true by (symmetry; apply Nat.leb_le; lia).
    cbn -[get_slot dtv_copy Nat.ltb]. rewrite Hm. rewrite (w64_small (m_size m + m_align m + 8)) by (unfold is_u64; lia).
    fold request. rewrite Hheap. rewrite (w64_small (mem + 8)) by (unfold is_u64; lia). fold data. fold w1.
    rewrite (dtv_copy_spec mid data w1 d m unallocated) by done. fold d'. cbn -[get_slot]. by rewrite Hx'.
  - cbn. unfold rd. by rewrite lookup_insert_eq.
  - cbn. by rewrite <- app_assoc.
  - apply (get_addr_allocated mid _ d' (Slot data 0)); [done|by destruct mid|by destruct mid|done|].
    apply Hva. cbn. lia.
Qed.

(** Accesses and new modules in a running process. *)
Inductive run_step : world -> world -> Prop :=
| run_add w w' object size align image image_size r :
    add_module object size align image image_size w = Ok (r, w') -> run_step w w'
| run_get_addr w w' mid b r :
    get_addr math_align allocated heap fresh_dtv garbage object_base mid b w = Ok (r, w') -> run_step w w'.

Inductive run_steps : world -> world -> Prop :=
| run_done w : run_steps w w
| run_more w w' w'' : run_steps w w' -> run_step w' w'' -> run_steps w w''.

(** The thread has a vector of [n] modules at the loader's generation. *)
Definition at_generation (n : nat) (w : world) : Prop :=
  gen (w_tls w) <> 0 /\ exists d, dtv (w_thread w) = Some d /\ dtv_generation d = gen (w_tls w)
                                /\ dtv_module_size d = n.

Lemma dtv_copy_generation n mid p : keeps (at_generation n) (dtv_copy allocated object_base mid p).
Proof.
  intros w [] w' (Hg & d & Hd & Hgen & Hn) Hm. unfold dtv_copy, get_dtv, emit in Hm. munfold.
  rewrite Hd in Hm. repeat (case_match; simplify_eq/=); cbn;
    (split; [done|]); eexists; (split; [done|]); by destruct mid.
Qed.

Lemma run_step_generation n w w' : at_generation n w -> run_step w w' -> at_generation n w'.
Proof.
  intros (Hg & d & Hd & Hgen & Hn) Hs. destruct Hs as [w w' ? ? ? ? ? ? Hm|w w' mid b r Hm].
  - unfold add_module, emit in Hm. apply Z.eqb_neq in Hg as Hg'. rewrite ?Hg' in Hm. msplit. rewrite Hg' in Hm. msplit.
    split; [done|]. by exists d.
  - unfold get_addr, get_dtv, alloc, emit in Hm. munfold. rewrite Hd in Hm.
    destruct b; cbn -[get_slot dtv_copy Nat.ltb] in Hm.
    2: { repeat (case_match; simplify_eq/=); (split; [done|]); by exists d. }
    rewrite Hgen, Z.eqb_refl in Hm. cbn -[get_slot dtv_copy Nat.ltb] in Hm. rewrite Hd in Hm.
    destruct (mid <=? dtv_module_size d)%nat; [|done].
    destruct (get_slot d mid) as [x|]; [|done].
    destruct (allocated (val x)); [simplify_eq; split; [done|by exists d]|].
    destruct (_ && _); [|done]. destruct (modules _ !! _) as [m|]; [|done].
    match type of Hm with context [dtv_copy _ _ _ _ ?w1] =>
      destruct (dtv_copy _ _ _ _ w1) as [[[] w2]| |] eqn:Hc; [|done..];
      assert (at_generation n w1) as Hw1 by (split; [done|by exists d]);
      apply (dtv_copy_generation n _ _ _ _ _ Hw1) in Hc as (? & d' & Hd' & ?) end.
    rewrite Hd' in Hm. simplify_eq. split; [done|]. by exists d'.
Qed.

(** once a thread is set up, its dynamic thread vector never grows: the generation counter is
    not advanced by later modules, so whatever modules are added and accessed, an access to a
    module beyond the capacity chosen at set up fails its assertion. *)
Theorem dtv_capacity_fixed n w w' mid :
  at_generation n w -> run_steps w w' -> (n < mid)%nat ->
  get_addr math_align allocated heap fresh_dtv garbage object_base mid true w' = AssertFailed.
Proof.
  intros Hw Hr Hmid. assert (at_generation n w') as (Hg & d & Hd & Hgen & Hn).
  { induction Hr as [|w1 w2 w3 _ IH Hs]; [done|]. eapply run_step_generation; [by apply IH|done]. }
  unfold get_addr, get_dtv. munfold. rewrite Hd. cbn. rewrite Hgen, Z.eqb_refl. cbn. rewrite Hd.
  by replace (mid <=? dtv_module_size d)%nat with false by (symmetry; apply Nat.leb_gt; lia).
Qed.

Lemma run_steps_generation n w w' : at_generation n w -> run_steps w w' -> at_generation n w'.
Proof. intros Hw Hr. induction Hr as [|w1 w2 w3 _ IH Hs]; [done|]. eapply run_step_generation; [by apply IH|done]. Qed.

(** C38: thread local storage is allocated on first access.  Once a thread is set up (its vector has [n] entries and the current
    generation), whatever modules are added and accessed: an access to a module that has its block returns its address and changes
    nothing; the first access to a later module within the capacity of the vector allocates the block, if memory is available: it is
    aligned as the module asks, lies inside the allocated memory with room for the word in front of it
    (which remembers what to free), and receives the image followed by zeroes; the address is
    entered into the vector, and every later access returns the same address and changes nothing; and an access beyond the
    capacity fails an assertion. *)
Theorem get_addr_lazy n w0 w mid :
  at_generation n w0 -> run_steps w0 w ->
  allocated (val unallocated) = false -> valid_addresses -> align_law ->
  let access := get_addr math_align allocated heap fresh_dtv garbage object_base mid true in
  exists d, dtv (w_thread w) = Some d
    /\ ((n < mid)%nat -> access w = AssertFailed)
    /\ ((mid <= n)%nat -> forall x, get_slot d mid = Some x -> allocated (val x) = true -> access w = Ok (val x, w))
    /\ ((initial_count (w_tls w) < mid <= n)%nat -> get_slot d mid = Some unallocated ->
        forall m mem, modules (w_tls w) !! (mid - 1)%nat = Some m ->
          let request := m_size m + m_align m + 8 in
          0 < m_align m -> 0 < m_size m -> 0 < mem -> mem + request < 2^63 -> heap (log w) request = mem ->
          exists data w',
            access w = Ok (data, w')
            /\ (m_align m | data) /\ mem <= data - 8 /\ data + m_size m <= mem + request
            /\ rd (cells w') (data - 8) = mem
            /\ log w' = log w ++ Ev_alloc request mem :: init_events data m
            /\ access w' = Ok (data, w')).
Proof.
  intros Hw0 Hr Hua Hva Hal access. pose proof (run_steps_generation _ _ _ Hw0 Hr) as (Hg & d & Hd & Hgen & <-). exists d.
  split; [done|]. split_and!.
  - intros Hmid. unfold access, get_addr, get_dtv. munfold. rewrite Hd. cbn. rewrite Hgen, Z.eqb_refl. cbn. rewrite Hd.
    by replace (mid <=? dtv_module_size d)%nat with false by (symmetry; apply Nat.leb_gt; lia).
  - intros Hmid x Hx Ha. by apply (get_addr_allocated mid w d).
  - intros [Hi Hn] Hx m mem Hm request Ha Hs Hm0 Hov Hheap. apply (get_addr_first mid w d m mem); try done.
    apply lookup_lt_Some in Hm. lia.
Qed.

(** ** Freeing *)

Definition freed (w : world) (d : dtv_array) (mids : list nat) : list event :=
  omap (fun mid => x ← get_slot d mid;
                   if allocated (val x) then Some (Ev_free (rd (cells w) (val x - 8))) else None) mids.

(** freeing the vector of a thread frees the block of every accessed dynamic module except
    that of the last entry (the loop stops before [count], the vector's entries are 1 .. count),
    then the vector itself. *)
Theorem dtv_free_frees w d :
  dtv (w_thread w) = Some d -> length (slots d) = dtv_module_size d ->
  (initial_count (w_tls w) < dtv_module_size d)%nat ->
  let first := S (initial_count (w_tls w)) in
  dtv_free allocated w
  = Ok (tt, World (w_tls w)
              (Thread (t_addr (w_thread w)) (map_base (w_thread w)) (map_size (w_thread w)) None)
              (cells w)
              (log w ++ freed w d (seq first (dtv_module_size d - first)) ++ [Ev_free (dtv_base d)])).
Proof.
  intros Hd Hl Hc first.
  assert (forall mids w1, cells w1 = cells w -> Forall (fun i => i <= dtv_module_size d)%nat mids ->
    mfor mids (fun i => match get_slot d i with
                        | Some x => if allocated (val x) then emit (Ev_free (rd (cells w) (val x - 8))) else mret tt
                        | None => assert false end) w1
    = Ok (tt, World (w_tls w1) (w_thread w1) (cells w1) (log w1 ++ freed w d mids))) as Hloop.
  { induction mids as [|i mids IH]; intros w1 Hcw Hf; cbn [mfor].
    - munfold. unfold freed. cbn. rewrite app_nil_r. by destruct w1.
    - apply Forall_cons in Hf as [Hi Hf]. unfold freed. cbn [omap list_omap]. fold (freed w d mids).
      destruct (get_slot d i) as [x|] eqn:Hx.
      2: { destruct i; [done|]. cbn in Hx. apply lookup_ge_None in Hx. lia. }
      munfold. destruct (allocated (val x)) eqn:Ha; cbn; rewrite ?Ha; rewrite IH by done; [|done].
      cbn. by rewrite <- app_assoc. }
  unfold dtv_free, get_dtv. munfold. cbn. rewrite Hd.
  replace (initial_count (w_tls w) <=? dtv_module_size d)%nat with true by (symmetry; apply Nat.leb_le; lia).
  rewrite Nat.add_1_r. fold first. cbn. unfold mret, M_ret in Hloop. munfold. rewrite Hloop; [|done|].
  - cbn. unfold set_dtv, set_thread. cbn. by rewrite <- app_assoc.
  - apply Forall_forall. intros i Hi%elem_of_seq. lia.
Qed.

Lemma map_size_kept z I :
  keeps (fun w => map_size (w_thread w) = z /\ I (w_tls w)) (dtv_allocate heap fresh_dtv garbage).
Proof. unfold dtv_allocate, alloc_array, realloc, emit. solve_keeps. Qed.

Lemma allocate_map_size fs w a w' :
  allocate sizeof_Thread heap fresh_dtv garbage true fs w = Ok (a, w') ->
  map_size (w_thread w') = w64 (initial_size (w_tls w) + sizeof_Thread + surplus)
  /\ initial_size (w_tls w') = initial_size (w_tls w).
Proof.
  intros Hm. unfold allocate, alloc_array, emit in Hm. msplit.
  match goal with Hx : dtv_allocate _ _ _ _ = Ok _ |- _ =>
    apply (map_size_kept (w64 (initial_size (w_tls w) + sizeof_Thread + surplus))
             (fun t => initial_size t = initial_size (w_tls w))) in Hx; [|repeat case_match; by cbn] end.
  destruct fs; msplit; by cbn.
Qed.

Lemma dtv_free_kept z t : keeps (fun w => map_size (w_thread w) = z /\ w_tls w = t) (dtv_free allocated).
Proof. unfold dtv_free, get_dtv, emit. solve_keeps. Qed.

(** a thread structure that allocate created can never be freed through free: the recorded
    size includes the surplus, the assertion in free compares with the size without it. *)
Theorem free_after_allocate_asserts fs w a w' b w'' :
  0 <= sizeof_Thread < 2^62 -> static_inv (w_tls w) ->
  allocate sizeof_Thread heap fresh_dtv garbage true fs w = Ok (a, w') ->
  free sizeof_Thread allocated true w' <> Ok (b, w'').
Proof.
  intros Hsz (_ & Hi & _) [Hms Hin]%allocate_map_size Hf. unfold free in Hf. msplit.
  match goal with Hx : dtv_free _ _ = Ok _ |- _ =>
    apply (dtv_free_kept (map_size (w_thread w')) (w_tls w')) in Hx as [Hk1 Hk2]; [|done] end.
  rewrite Hk1, Hk2, Hms, Hin in *. unfold surplus in *.
  rewrite !w64_small in * by (unfold is_u64; lia). lia.
Qed.

End facts.
(** ** Witnesses *)

Definition ex_align (v a : Z) : Z := (v + a - 1) / a * a.
Definition ex_allocated (p : Z) : bool := negb (p =? 0).
Definition ex_heap (l : list event) (n : Z) : Z := 0x10000000 + Z.of_nat (length l) * 0x100000.
Definition ex_fresh (p : Z) (n : nat) : dtv_array := Dtv p 0 0 (replicate n unallocated).
Definition ex_sizeof : Z := 2304.
Definition ex_thread : thread := Thread 0x7f0000001000 0x7f0000000000 0 None.
Definition after {A} (m : M world A) (w : world) : world :=
  match m w with Ok (_, w') => w' | _ => w end.
Definition ex_start : world := World tls_init ex_thread ∅ [].
Definition ex_one : world := after (@add_module dlh_4k 1 8 8 0x3000 4) ex_start.
Definition ex_two : world := after (@add_module dlh_4k 2 64 64 0x5000 64) ex_one.
Definition ex_setup : world :=
  after (@dtv_setup dlh_4k ex_allocated ex_heap ex_fresh unallocated (fun _ => 0x400000)) ex_two.
Definition ex_dynamic : world := after (@add_module dlh_4k 3 100 16 0x7000 50) ex_setup.
Definition ex_dtv (w : world) : dtv_array := default (Dtv 0 0 0 []) (dtv (w_thread w)).

Lemma ex_heap_zeroes : heap_zeroes ex_heap ex_fresh.
Proof. split; [unfold ex_heap; intros; lia|done]. Qed.

Abbreviation ex_reachable :=
  (@tls_reachable dlh_4k ex_align ex_sizeof ex_allocated ex_heap ex_fresh unallocated (fun _ => 0x400000) ex_thread).

Lemma ex_two_reachable : ex_reachable ex_two.
Proof.
  eapply (@tls_next dlh_4k); [eapply (@tls_next dlh_4k); [apply tls_start|]|].
  - eapply (@step_add dlh_4k _ _ _ _ _ _ _ _ ex_one 1 8 8 0x3000 4); [|vm_compute; reflexivity].
    repeat split; vm_compute; reflexivity.
  - eapply (@step_add dlh_4k _ _ _ _ _ _ _ _ ex_two 2 64 64 0x5000 64); [|vm_compute; reflexivity].
    repeat split; vm_compute; reflexivity.
Defined.

Lemma ex_two_static : static_inv (w_tls ex_two).
Proof. exact (@reachable_static_inv dlh_4k dlh_4k_spec _ _ _ _ _ _ _ _ _ ex_two_reachable). Qed.

Lemma static_tls_layout_witness :
  0x7f0000001000 - initial_size (w_tls ex_two) <= 0x7f0000001000 - 72.
Proof.
  destruct (@static_tls_layout dlh_4k dlh_4k_spec ex_align ex_sizeof ex_allocated ex_heap ex_fresh unallocated
    (fun _ => 0x400000) ex_thread ex_two 0 1 (Module 1 8 8 0x3000 4 8) (Module 2 64 64 0x5000 64 72) 0x7f0000001000
    ex_two_reachable ltac:(vm_compute; split; repeat constructor) eq_refl eq_refl) as (_ & Hx & _).
  exact Hx.
Defined.

Lemma static_tls_alignment_witness : ~ (64 | 0x7f0000001000 - 72).
Proof.
  intros Hdiv.
  apply (@static_tls_alignment dlh_4k dlh_4k_spec 2 64 64 0x5000 64 ex_one 2 72 ex_two 0x7f0000001000) in Hdiv.
  - change (initial_size (w_tls ex_one)) with 8 in Hdiv. apply Z.mod_divide in Hdiv; [|discriminate].
    discriminate Hdiv.
  - reflexivity.
  - vm_compute. discriminate.
  - reflexivity.
  - repeat split; vm_compute; reflexivity.
  - vm_compute. exists 1. reflexivity.
  - exists 0x1fc00000040. reflexivity.
  - vm_compute. reflexivity.
Defined.

Lemma dtv_setup_correct_witness :
  exists d, dtv (w_thread ex_setup) = Some d /\ get_slot d 2 = Some (Slot (0x7f0000001000 - 72) 0).
Proof.
  destruct (@dtv_setup_correct dlh_4k dlh_4k_spec ex_allocated ex_heap ex_fresh unallocated (fun _ => 0x400000)
    ex_two ex_two_static ex_heap_zeroes eq_refl ltac:(vm_compute; split; [discriminate|reflexivity]) eq_refl)
    as (d & e & w' & Hrun & Hd & (_ & Hr & _) & _).
  exists d. unfold ex_setup, after. rewrite Hrun. split; [exact Hd|].
  rewrite (Hr 2%nat (Module 2 64 64 0x5000 64 72)); [| |].
  - unfold dtv_setup in Hrun. vm_compute in Hrun. injection Hrun as <-. reflexivity.
  - vm_compute. split; repeat constructor.
  - vm_compute in Hrun. injection Hrun as <-. reflexivity.
Defined.

Lemma get_addr_lazy_witness :
  (exists w', @get_addr dlh_4k ex_align ex_allocated ex_heap ex_fresh unallocated (fun _ => 0x400000) 3 true ex_dynamic
    = Ok (0x10700010, w'))
  /\ @get_addr dlh_4k ex_align ex_allocated ex_heap ex_fresh unallocated (fun _ => 0x400000) 1 true ex_dynamic
    = Ok (0x7f0000001000 - 8, ex_dynamic).
Proof.
  assert (at_generation 16 ex_setup) as Hg by (split; [discriminate|]; exists (ex_dtv ex_setup); repeat split; vm_compute; reflexivity).
  assert (@run_steps dlh_4k ex_align ex_allocated ex_heap ex_fresh unallocated (fun _ => 0x400000) ex_setup ex_dynamic) as Hs.
  { eapply run_more; [apply run_done|].
    apply (@run_add dlh_4k _ _ _ _ _ _ ex_setup ex_dynamic 3 100 16 0x7000 50 (3%nat, 0)). vm_compute. reflexivity. }
  assert (valid_addresses ex_allocated) as Hv.
  { intros p Hp. unfold ex_allocated. apply negb_true_iff, Z.eqb_neq. lia. }
  assert (align_law ex_align) as Hl.
  { intros v a Hv' Ha. destruct dlh_4k_spec as [_ _ _ Hge Hlt Hdiv _ _ _]. cbn in Hge, Hlt, Hdiv. unfold ex_align. auto. }
  pose proof (fun mid => @get_addr_lazy dlh_4k ex_align ex_allocated ex_heap ex_fresh unallocated (fun _ => 0x400000)
      16 ex_setup ex_dynamic mid Hg Hs eq_refl Hv Hl) as Hlazy.
  split.
  - destruct (Hlazy 3%nat) as (d & Hd & _ & _ & Hf). assert (d = ex_dtv ex_dynamic) as -> by (unfold ex_dtv; by rewrite Hd).
    destruct (Hf ltac:(split; vm_compute; repeat constructor) ltac:(vm_compute; reflexivity) (Module 3 100 16 0x7000 50 0) 0x10700000)
      as (data & w' & Hrun & _); [vm_compute; reflexivity..|].
    exists w'. rewrite Hrun. vm_compute in Hrun. injection Hrun as <- _. reflexivity.
  - destruct (Hlazy 1%nat) as (d & Hd & _ & Ha & _). assert (d = ex_dtv ex_dynamic) as -> by (unfold ex_dtv; by rewrite Hd).
    exact (Ha ltac:(repeat constructor) (Slot (0x7f0000001000 - 8) 0) ltac:(vm_compute; reflexivity) eq_refl).
Defined.

Lemma dtv_capacity_fixed_witness :
  @get_addr dlh_4k ex_align ex_allocated ex_heap ex_fresh unallocated (fun _ => 0x400000) 17 true ex_dynamic = AssertFailed.
Proof.
  apply (@dtv_capacity_fixed dlh_4k ex_align ex_allocated ex_heap ex_fresh unallocated (fun _ => 0x400000)
           16 ex_setup ex_dynamic 17).
  - split; [discriminate|]. exists (ex_dtv ex_setup). repeat split; vm_compute; reflexivity.
  - eapply run_more; [apply run_done|].
    apply (@run_add dlh_4k _ _ _ _ _ _ ex_setup ex_dynamic 3 100 16 0x7000 50 (3%nat, 0)). vm_compute. reflexivity.
  - vm_compute. repeat constructor.
Defined.

Lemma dtv_free_frees_witness :
  exists w', dtv_free ex_allocated ex_dynamic = Ok (tt, w').
Proof.
  eexists. apply (dtv_free_frees ex_allocated ex_dynamic (ex_dtv ex_dynamic));
    vm_compute; repeat constructor.
Defined.

Lemma free_after_allocate_asserts_witness :
  free ex_sizeof ex_allocated true
    (after (@allocate dlh_4k ex_sizeof ex_heap ex_fresh unallocated true false) ex_two) <> Ok (tt, ex_two).
Proof.
  apply (@free_after_allocate_asserts dlh_4k ex_sizeof ex_allocated ex_heap ex_fresh unallocated false ex_two
           (t_addr (w_thread (after (@allocate dlh_4k ex_sizeof ex_heap ex_fresh unallocated true false) ex_two)))).
  - split; vm_compute; [discriminate|reflexivity].
  - exact ex_two_static.
  - vm_compute. reflexivity.
Defined.

End TlsProofs.
