(* ===== verification/Process.v ===== *)
(** The process start (src/src/process.hpp, src/src/process.cpp): the initial stack of a program that
    Luci starts from the command line, and the registers at its entry point.

    C strings are lists of their bytes without the terminator, words are 64 bit.  An entry of the
    auxiliary vector is a pair of words, as in the Linux ABI. *)
From S2P Require Import Prelude Platform.

Module Process.

Definition AT_NULL : Z := 0.
Definition AT_PHDR : Z := 3.
Definition AT_PHNUM : Z := 5.

(** class Process, with the memory of the process *)
Record process := Process {
  argc : Z; argv : Z; envp : Z;
  env : list (list Z);            (* Vector<const char *> env *)
  aux : gmap Z Z;                 (* HashMap<Auxiliary::type, long> aux *)
  stack_pointer : Z; stack_size : Z;
  mem : memory;
}.
#[export] Instance eta_process : Eta process := fun p =>
  Process (argc p) (argv p) (envp p) (env p) (aux p) (stack_pointer p) (stack_size p) (mem p).

Section process.
Context (kernel : kernel_t).
(** DLH's HashMap: [insert(key, value)], and the order a loop visits the entries in *)
Context (hash_insert : Z -> Z -> gmap Z Z -> gmap Z Z) (hash_entries : gmap Z Z -> list (Z * Z)).

(** Process::allocate_stack *)
Definition allocate_stack (size : Z) : M (traced unit) Z :=
  r ← sys kernel (Sys_mmap 0 size (Z.lor PROT_WRITE PROT_READ)
                           (Z.lor (Z.lor MAP_PRIVATE MAP_STACK) MAP_ANONYMOUS) (-1) 0);
  match r with
  | Success v => mret (w64 (v + size - 8))
  | Failure _ => mret 0
  end.

(** Process::Process: [environ] are the strings of the environment, [auxv] the entries behind it (up to
    AT_NULL), [rlim_cur] the answer of getrlimit; [None] when the process exits (no stack). *)
Definition construct (environ : list (list Z)) (auxv : list (Z * Z)) (rlim_cur sp size : Z) (m : memory)
  : M (traced unit) (option process) :=
  let size := if size =? 0 then rlim_cur else size in
  sp ← (if sp =? 0 then allocate_stack size else mret sp);
  if sp =? 0 then mret None
  else mret (Some (Process 0 0 0
    (filter (fun e => e <> []) environ)
    (foldl (fun a kv => hash_insert kv.1 kv.2 a) ∅ auxv)
    sp size m)).

(** The constructor for a given environment and auxiliary vector *)
Definition construct_from (sp size : Z) (environ : list (list Z)) (auxv : gmap Z Z) (m : memory) : process :=
  Process 0 0 0 environ auxv sp size m.

(** A store below the stack pointer, which moves down to it. *)
Definition push (bs : list Z) (w : Z * memory) : Z * memory :=
  let sp := w64 (w.1 - Z.of_nat (length bs)) in (sp, wr w.2 sp bs).
Definition pushes (l : list (list Z)) (w : Z * memory) : Z * memory := foldl (fun w bs => push bs w) w l.

(** stack_pointer -= String::len(s) + 1; v.push_back(String::copy(stack_pointer, s)) *)
Fixpoint push_strings (l : list (list Z)) (w : Z * memory) : list Z * (Z * memory) :=
  match l with
  | [] => ([], w)
  | s :: l =>
      let w := push (s ++ [0]) w in
      let r := push_strings l w in (w.1 :: r.1, r.2)
  end.

(** --aux_addr, with its two words *)
Definition aux_entry (kv : Z * Z) : list Z := le_bytes 8 kv.1 ++ le_bytes 8 kv.2.

(** Process::init; [None] when its assertion fails *)
Definition init (arg : list (list Z)) (p : process) : option process :=
  if negb (stack_pointer p mod 8 =? 0) then None
  else
    let w := (w64 (stack_pointer p - 8), wr (mem p) (stack_pointer p) (le_bytes 8 0)) in
    let '(env_str, w) := push_strings (rev (env p)) w in
    let '(arg_str, w) := push_strings (rev arg) w in
    let w := (w.1 - w.1 mod 16, w.2) in
    let w := push (aux_entry (AT_NULL, 0)) w in
    let w := pushes (aux_entry <$> hash_entries (aux p)) w in
    let w := push (le_bytes 8 0) w in
    let w := pushes (le_bytes 8 <$> env_str) w in
    let env_ptr := w.1 in
    let w := push (le_bytes 8 0) w in
    let w := pushes (le_bytes 8 <$> arg_str) w in
    let arg_ptr := w.1 in
    let argc := s32 (Z.of_nat (length arg)) in
    let sp := w64 (arg_ptr - 8) in
    Some (Process argc arg_ptr env_ptr (env p) (aux p) sp (stack_size p)
                  (wr w.2 sp (le_bytes 8 (w64 argc)))).

(** The registers, and those Process::start sets before its final jump (neither RCX nor RDX). *)
Inductive reg := RAX | RBX | RCX | RDX | RBP | RSI | RDI | R8 | R9 | R10 | R11 | R12 | R13 | R14 | R15 | RSP | RIP | RFLAGS.
Definition start (entry stack_pointer : Z) : list (reg * Z) :=
  [ (RFLAGS, 0); (RSP, stack_pointer); (R12, entry); (R13, stack_pointer); (RAX, 0x1c); (RBX, 0); (RBP, 0);
    (RSI, 0); (RDI, 0); (R8, 0); (R9, 0); (R10, 0); (R11, 0); (R14, 0); (R15, 0); (RIP, entry) ].
End process.

(** What the started program finds: [n] words from an address on, and the strings pointers lead to. *)
Definition words (m : memory) (a : Z) (n : nat) : list Z :=
  (fun i => le_combine (rds m (a + 8 * Z.of_nat i) 8)) <$> seq 0 n.
Definition c_string (m : memory) (s : list Z) (a : Z) : Prop :=
  rds m a (length s + 1) = s ++ [0].

(** Bytes the strings need. *)
Definition strings_size (l : list (list Z)) : Z := foldr (fun s n => Z.of_nat (length s) + 1 + n) 0 l.

End Process.
