(* ===== verification/ProcessProofs.v ===== *)
(** Theorems about the initial stack of a program (Process.v). *)
From S2P Require Import Prelude Platform Process.

Module ProcessProofs.
Import Process.

(** * Storing downwards *)

Section pushes.

Definition total_length (l : list (list Z)) : Z := Z.of_nat (length (concat l)).

Lemma pushes_spec l w :
  total_length l <= w.1 < 2^64 ->
  (pushes l w).1 = w.1 - total_length l
  /\ rds (pushes l w).2 (w.1 - total_length l) (length (concat l)) = concat (rev l)
  /\ (forall x, w.1 <= x -> rd (pushes l w).2 x = rd w.2 x).
Proof.
  unfold total_length. revert w; induction l as [|b l IH]; intros [sp m] Hw; cbn [pushes foldl fst snd concat] in *.
  - cbn. split_and!; [lia|done|done].
  - rewrite length_app in *. cbn [length] in Hw.
    assert (w64 (sp - Z.of_nat (length b)) = sp - Z.of_nat (length b)) as Hsp.
    { apply w64_small. unfold is_u64. lia. }
    destruct (IH (push b (sp, m))) as (IH1 & IH2 & IH3).
    { cbn. rewrite Hsp. lia. }
    cbn [push fst snd] in IH1, IH2, IH3. rewrite Hsp in *. unfold pushes in IH1, IH2, IH3.
    split_and!.
    + rewrite IH1. lia.
    + rewrite (Nat.add_comm (length b)), rds_app.
      replace (sp - Z.of_nat (length (concat l) + length b))
        with (sp - Z.of_nat (length b) - Z.of_nat (length (concat l))) by lia.
      rewrite IH2. cbn [rev]. rewrite concat_app. cbn. rewrite app_nil_r. f_equal.
      replace (sp - Z.of_nat (length b) - Z.of_nat (length (concat l)) + Z.of_nat (length (concat l)))
        with (sp - Z.of_nat (length b)) by lia.
      rewrite (rds_ext _ (wr m (sp - Z.of_nat (length b)) b)); [apply rds_wr|].
      intros x Hx. apply IH3. lia.
    + intros x Hx. rewrite IH3 by lia. apply rd_wr_out. lia.
Qed.

Lemma push_pushes b w : push b w = pushes [b] w.
Proof. done. Qed.
Lemma pushes_app l1 l2 w : pushes l2 (pushes l1 w) = pushes (l1 ++ l2) w.
Proof. unfold pushes. by rewrite foldl_app. Qed.

(** Every pushed string stays where its pointer leads. *)
Lemma strings_size_app l1 l2 : strings_size (l1 ++ l2) = strings_size l1 + strings_size l2.
Proof. induction l1 as [|s l IH]; cbn [app strings_size foldr] in *; [done|]. unfold strings_size in *. rewrite IH. lia. Qed.
Lemma strings_size_rev l : strings_size (rev l) = strings_size l.
Proof. induction l as [|s l IH]; [done|]. cbn [rev]. rewrite strings_size_app, IH. unfold strings_size. cbn. lia. Qed.
Lemma strings_size_nonneg l : 0 <= strings_size l.
Proof. induction l as [|s l IH]; unfold strings_size in *; cbn; lia. Qed.

Lemma push_strings_spec l w :
  strings_size l <= w.1 < 2^64 ->
  let r := push_strings l w in
  r.2.1 = w.1 - strings_size l
  /\ Forall2 (fun s a => r.2.1 <= a /\ a + Z.of_nat (length s) < w.1 /\ c_string r.2.2 s a) l r.1
  /\ (forall x, w.1 <= x -> rd r.2.2 x = rd w.2 x).
Proof.
  revert w; induction l as [|s l IH]; intros [sp m] Hw; cbn [push_strings fst snd] in *.
  - unfold strings_size. cbn. split_and!; [lia|constructor|done].
  - pose proof (strings_size_nonneg l) as Hnn. unfold strings_size in Hw, Hnn; cbn [foldr] in Hw.
    fold (strings_size l) in Hw, Hnn.
    assert (w64 (sp - Z.of_nat (length (s ++ [0]))) = sp - Z.of_nat (length s) - 1) as Hsp.
    { rewrite length_app. cbn. rewrite w64_small; [lia|]. unfold is_u64. lia. }
    destruct (IH (push (s ++ [0]) (sp, m))) as (IH1 & IH2 & IH3).
    { cbn [push fst]. rewrite Hsp. lia. }
    set (r := push_strings l (push (s ++ [0]) (sp, m))) in *.
    cbn [push fst snd] in IH1, IH2, IH3. rewrite Hsp in IH1, IH2, IH3.
    split_and!.
    + rewrite IH1. unfold strings_size. cbn [foldr]. lia.
    + constructor.
      * cbn [push fst snd]. rewrite Hsp. split; [rewrite IH1; lia|]. split; [lia|].
        unfold c_string. rewrite (rds_ext _ (wr m (sp - Z.of_nat (length s) - 1) (s ++ [0]))).
        -- replace (length s + 1)%nat with (length (s ++ [0])) by (rewrite length_app; done). apply rds_wr.
        -- intros x Hx. apply IH3. lia.
      * eapply Forall2_impl; [exact IH2|]. cbn. intros s' a (? & ? & ?). split_and!; [done|lia|done].
    + intros x Hx. rewrite IH3 by lia. apply rd_wr_out. rewrite length_app. cbn. lia.
Qed.

Lemma c_string_ext m1 m2 s a lo :
  (forall x, lo <= x -> rd m2 x = rd m1 x) -> lo <= a -> c_string m1 s a -> c_string m2 s a.
Proof. unfold c_string. intros Hext Ha <-. apply rds_ext. intros x Hx. apply Hext. lia. Qed.

(** Reading back words *)
Lemma words_cons m a n : words m a (S n) = le_combine (rds m a 8) :: words m (a + 8) n.
Proof.
  unfold words. rewrite <- cons_seq. cbn [fmap list_fmap]. rewrite <- fmap_S_seq, <- list_fmap_compose.
  f_equal; [by rewrite Z.mul_0_r, Z.add_0_r|]. apply list_fmap_ext. intros i x _. unfold compose. do 2 f_equal. lia.
Qed.

Lemma words_of_bytes m a l :
  rds m a (length (concat (le_bytes 8 <$> l))) = concat (le_bytes 8 <$> l) ->
  words m a (length l) = w64 <$> l.
Proof.
  revert a; induction l as [|v l IH]; intros a; [done|].
  cbn [fmap list_fmap concat]. rewrite length_app, le_bytes_length, rds_app. intros Heq.
  assert (length (rds m a 8) = length (le_bytes 8 v)) as Hl by (by rewrite rds_length).
  destruct (app_inj_1 _ _ _ _ Hl Heq) as [Heq1 Heq2].
  cbn [length]. rewrite words_cons, Heq1, le_combine_bytes. f_equal. by apply IH.
Qed.
End pushes.

(** * The initial stack *)

Section init.
Context (hash_entries : gmap Z Z -> list (Z * Z)).

Definition aux_words (l : list (Z * Z)) : list Z := concat ((fun kv => [kv.1; kv.2]) <$> l).

(** The words from the stack pointer on, and the space everything needs. *)
Definition stack_words (argc : Z) (args envs : list Z) (auxv : list (Z * Z)) : list Z :=
  w64 argc :: args ++ 0 :: envs ++ 0 :: aux_words (rev auxv) ++ [0; 0].
Definition stack_needed (arg : list (list Z)) (p : process) : Z :=
  8 + strings_size (env p) + strings_size arg + 16
  + 8 * (1 + Z.of_nat (length arg) + 1 + Z.of_nat (length (env p)) + 1
         + 2 * Z.of_nat (length (hash_entries (aux p))) + 2).

(** The blocks [init] stores below the padding, in this order. *)
Definition blocks (argc : Z) (arg_str env_str : list Z) (auxv : list (Z * Z)) : list (list Z) :=
  [aux_entry (AT_NULL, 0)] ++ (aux_entry <$> auxv) ++ [le_bytes 8 0] ++ (le_bytes 8 <$> env_str)
  ++ [le_bytes 8 0] ++ (le_bytes 8 <$> arg_str) ++ [le_bytes 8 (w64 argc)].
Definition env_blocks (env_str : list Z) (auxv : list (Z * Z)) : list (list Z) :=
  [aux_entry (AT_NULL, 0)] ++ (aux_entry <$> auxv) ++ [le_bytes 8 0] ++ (le_bytes 8 <$> env_str).

Lemma rev_fmap {A B} (f : A -> B) (l : list A) : rev (f <$> l) = f <$> rev l.
Proof. induction l as [|x l IH]; [done|]. cbn [fmap list_fmap rev]. by rewrite IH, fmap_app. Qed.

Lemma concat_rev_entries l :
  concat (rev (aux_entry <$> l)) = concat (le_bytes 8 <$> aux_words (rev l)).
Proof.
  induction l as [|[k v] l IH]; [done|]. cbn [fmap list_fmap rev]. rewrite concat_app, IH.
  unfold aux_words. rewrite fmap_app, !concat_app, fmap_app, concat_app. cbn [fmap list_fmap concat fst snd aux_entry].
  rewrite !app_nil_r. by unfold aux_entry.
Qed.

Lemma blocks_words argc arg_str env_str auxv :
  concat (rev (blocks argc arg_str env_str auxv))
  = concat (le_bytes 8 <$> stack_words argc (rev arg_str) (rev env_str) auxv).
Proof.
  unfold blocks, stack_words. rewrite !rev_app_distr. rewrite !concat_app.
  cbn [rev app concat fmap list_fmap]. rewrite concat_rev_entries.
  repeat (rewrite !fmap_app, !concat_app || cbn [fmap list_fmap concat] || rewrite app_nil_r
          || rewrite <- app_assoc).
  rewrite !rev_fmap. done.
Qed.

Lemma Forall2_rev {A B} (P : A -> B -> Prop) l k : Forall2 P l k -> Forall2 P (rev l) (rev k).
Proof. induction 1; [done|]. cbn. apply Forall2_app; auto. Qed.
Lemma length_concat_rev {A} (l : list (list A)) : length (concat (rev l)) = length (concat l).
Proof. induction l as [|x l IH]; [done|]. cbn. rewrite concat_app, !length_app, IH. cbn. rewrite app_nil_r. lia. Qed.
Lemma words_length l : length (concat (le_bytes 8 <$> l)) = (8 * length l)%nat.
Proof. induction l as [|v l IH]; [done|]. cbn [fmap list_fmap concat]. rewrite length_app, IH, le_bytes_length. cbn. lia. Qed.
Lemma entries_length l : length (concat (aux_entry <$> l)) = (16 * length l)%nat.
Proof. induction l as [|v l IH]; [done|]. cbn [fmap list_fmap concat]. rewrite length_app, IH. cbn. lia. Qed.

Lemma blocks_length argc arg_str env_str auxv :
  total_length (blocks argc arg_str env_str auxv)
  = 8 * Z.of_nat (length (stack_words argc (rev arg_str) (rev env_str) auxv)).
Proof.
  unfold total_length. rewrite <- length_concat_rev, blocks_words, words_length. lia.
Qed.

Lemma env_blocks_length env_str auxv :
  total_length (env_blocks env_str auxv)
  = 8 * (1 + Z.of_nat (length env_str) + 2 * Z.of_nat (length auxv) + 2).
Proof.
  unfold total_length, env_blocks. rewrite !concat_app, !length_app, words_length, entries_length.
  cbn [concat length app]. rewrite !app_nil_r, le_bytes_length. unfold aux_entry. rewrite length_app, !le_bytes_length. lia.
Qed.

Lemma arg_blocks_length arg_str env_str auxv :
  total_length (env_blocks env_str auxv ++ [le_bytes 8 0] ++ (le_bytes 8 <$> arg_str))
  = 8 * (1 + Z.of_nat (length arg_str) + 1 + Z.of_nat (length env_str) + 2 * Z.of_nat (length auxv) + 2).
Proof.
  pose proof (env_blocks_length env_str auxv) as He. unfold total_length in *.
  rewrite !concat_app, !length_app, words_length. cbn [concat length app]. rewrite !app_nil_r, le_bytes_length. lia.
Qed.

Lemma aux_words_length l : length (aux_words l) = (2 * length l)%nat.
Proof. unfold aux_words. induction l as [|v l IH]; [done|]. cbn [fmap list_fmap concat]. rewrite length_app, IH. cbn. lia. Qed.
Lemma stack_words_length argc args envs auxv :
  length (stack_words argc args envs auxv) = (1 + length args + 1 + length envs + 1 + 2 * length auxv + 2)%nat.
Proof. unfold stack_words. cbn [length]. rewrite length_app. cbn [length]. rewrite length_app. cbn [length].
  rewrite length_app, aux_words_length, length_rev. cbn. lia. Qed.

(** [init] is the strings, the padding and one run of stores. *)
Lemma init_eq arg p p' :
  init hash_entries arg p = Some p' ->
  stack_needed arg p <= stack_pointer p < 2^64 ->
  let e := push_strings (rev (env p)) (stack_pointer p - 8, wr (mem p) (stack_pointer p) (le_bytes 8 0)) in
  let a := push_strings (rev arg) e.2 in
  let w := (a.2.1 - a.2.1 mod 16, a.2.2) in
  let B := blocks (s32 (Z.of_nat (length arg))) a.1 e.1 (hash_entries (aux p)) in
  (stack_pointer p', mem p') = pushes B w
  /\ argv p' = (pushes (env_blocks e.1 (hash_entries (aux p)) ++ [le_bytes 8 0] ++ (le_bytes 8 <$> a.1)) w).1
  /\ envp p' = (pushes (env_blocks e.1 (hash_entries (aux p))) w).1
  /\ argc p' = s32 (Z.of_nat (length arg))
  /\ stack_pointer p mod 8 = 0.
Proof.
  intros Hi Hn. unfold init in Hi. case_match eqn:Hm; [done|].
  apply negb_false_iff, Z.eqb_eq in Hm.
  rewrite w64_small in Hi.
  2: { unfold is_u64, stack_needed in *. pose proof (strings_size_nonneg (env p)). pose proof (strings_size_nonneg arg). lia. }
  destruct (push_strings (rev (env p)) _) as [env_str w1] eqn:He.
  destruct (push_strings (rev arg) w1) as [arg_str w2] eqn:Ha. apply (inj Some) in Hi; subst p'. cbn [stack_pointer mem argc argv envp fst snd].
  rewrite Ha. cbn [fst snd].
  split_and!; [|by unfold env_blocks; rewrite <- !pushes_app, <- !push_pushes..|done|done].
  unfold blocks. rewrite <- !pushes_app. rewrite <- !push_pushes. unfold push at 1. cbn [fst snd].
  rewrite !le_bytes_length. done.
Qed.

(** The strings are in place above [w.1], everything else is stored below it. *)
Lemma init_run arg p p' :
  init hash_entries arg p = Some p' ->
  stack_needed arg p < stack_pointer p < 2^64 ->
  Z.of_nat (length arg) < 2^31 ->
  exists (a e : list Z) (w : Z * memory),
    let E := hash_entries (aux p) in
    let placed := fun s x => w.1 <= x < stack_pointer p /\ c_string w.2 s x in
    w.1 mod 16 = 0
    /\ stack_pointer p - 24 - strings_size (env p) - strings_size arg <= w.1 < 2^64
    /\ Forall2 placed (rev arg) a /\ Forall2 placed (rev (env p)) e
    /\ (stack_pointer p', mem p') = pushes (blocks (Z.of_nat (length arg)) a e E) w
    /\ argv p' = (pushes (env_blocks e E ++ [le_bytes 8 0] ++ (le_bytes 8 <$> a)) w).1
    /\ envp p' = (pushes (env_blocks e E) w).1
    /\ argc p' = Z.of_nat (length arg).
Proof.
  intros Hi Hn Hl. destruct (init_eq arg p p' Hi) as (Hp & Hargv & Henvp & Hargc & Hm8); [lia|].
  pose proof (strings_size_nonneg (env p)). pose proof (strings_size_nonneg arg).
  unfold stack_needed in Hn.
  set (w0 := (stack_pointer p - 8, wr (mem p) (stack_pointer p) (le_bytes 8 0))) in *.
  destruct (push_strings_spec (rev (env p)) w0) as (He1 & He2 & He3).
  { rewrite strings_size_rev. cbn. lia. }
  set (e := push_strings (rev (env p)) w0) in *. cbn in He1. rewrite strings_size_rev in He1.
  destruct (push_strings_spec (rev arg) e.2) as (Ha1 & Ha2 & Ha3).
  { rewrite strings_size_rev. lia. }
  set (a := push_strings (rev arg) e.2) in *. rewrite strings_size_rev, He1 in Ha1.
  rewrite s32_small in Hp, Hargc by lia.
  pose proof (Z.mod_pos_bound a.2.1 16 ltac:(lia)) as Hpad.
  exists a.1, e.1, (a.2.1 - a.2.1 mod 16, a.2.2). cbn [fst snd]. split_and!; try done; try lia.
  - rewrite Zminus_mod_idemp_r, Z.sub_diag. done.
  - eapply Forall2_impl; [exact Ha2|]. cbn. intros s x (? & ? & ?). split; [lia|done].
  - eapply Forall2_impl; [exact He2|]. cbn. intros s x (? & ? & Hs). cbn in *. split; [lia|].
    eapply (c_string_ext e.2.2 _ _ _ e.2.1); [|lia|exact Hs]. exact Ha3.
Qed.

(** C40: What a started program finds on its stack: the argument count, the pointers to the arguments in their
    order and a null pointer, the pointers to the environment strings and a null pointer, the
    auxiliary vector ended by AT_NULL; every pointer leads to a copy of its string above these
    words, argv and envp point to the vectors, and no more stack is used than needed. *)
Theorem initial_stack_layout arg p p' :
  init hash_entries arg p = Some p' ->
  stack_needed arg p < stack_pointer p < 2^64 ->
  Z.of_nat (length arg) < 2^31 ->
  exists args envs,
    let W := stack_words (Z.of_nat (length arg)) args envs (hash_entries (aux p)) in
    let top := stack_pointer p' + 8 * Z.of_nat (length W) in
    let placed := fun s a => top <= a < stack_pointer p /\ c_string (mem p') s a in
    words (mem p') (stack_pointer p') (length W) = w64 <$> W
    /\ Forall2 placed arg args /\ Forall2 placed (env p) envs
    /\ argc p' = Z.of_nat (length arg)
    /\ argv p' = stack_pointer p' + 8
    /\ envp p' = argv p' + 8 * (Z.of_nat (length arg) + 1)
    /\ top mod 16 = 0
    /\ 0 < stack_pointer p - stack_needed arg p <= stack_pointer p'.
Proof.
  intros Hi Hn Hl. destruct (init_run arg p p') as (a & e & w & Hw & Hlo & Ha & He & Hp & Hargv & Henvp & Hargc); [done..|].
  pose proof (Forall2_length _ _ _ Ha) as Hal. pose proof (Forall2_length _ _ _ He) as Hel. rewrite length_rev in Hal, Hel.
  unfold stack_needed in Hn.
  destruct (pushes_spec (blocks (Z.of_nat (length arg)) a e (hash_entries (aux p))) w) as (Hb1 & Hb2 & Hb3).
  { rewrite blocks_length, stack_words_length, !length_rev, <- Hel, <- Hal. lia. }
  rewrite <- Hp in Hb1, Hb2, Hb3. cbn [fst snd] in Hb1, Hb2, Hb3. rewrite <- Hb1 in Hb2. rewrite blocks_length in Hb1.
  exists (rev a), (rev e). cbn zeta.
  replace (stack_pointer p' + _) with w.1 by lia.
  rewrite stack_words_length, !length_rev, <- Hel, <- Hal in Hb1.
  assert (forall s x, w.1 <= x < stack_pointer p /\ c_string w.2 s x ->
                      w.1 <= x < stack_pointer p /\ c_string (mem p') s x) as Hpl.
  { intros s x [Hx Hs]. split; [done|]. eapply (c_string_ext w.2 _ _ _ w.1); [exact Hb3|lia|done]. }
  split_and!.
  - apply words_of_bytes. rewrite <- blocks_words, length_concat_rev. exact Hb2.
  - apply Forall2_rev in Ha. rewrite rev_involutive in Ha. by eapply Forall2_impl.
  - apply Forall2_rev in He. rewrite rev_involutive in He. by eapply Forall2_impl.
  - done.
  - rewrite Hargv. edestruct pushes_spec as (-> & _ & _); rewrite arg_blocks_length, <- Hel, <- Hal; lia.
  - rewrite Henvp, Hargv. edestruct pushes_spec as (-> & _ & _); [rewrite env_blocks_length, <- Hel; lia|].
    edestruct pushes_spec as (-> & _ & _); rewrite arg_blocks_length, ?env_blocks_length, <- Hel, <- Hal; lia.
  - done.
  - unfold stack_needed. lia.
  - unfold stack_needed. lia.
Qed.

(** The stack pointer a program is started with is a multiple of 16, as the System V ABI demands at the
    entry point, exactly when the number of arguments and environment strings together is odd: only
    the end of the vectors is aligned. *)
Theorem initial_stack_alignment arg p p' :
  init hash_entries arg p = Some p' ->
  stack_needed arg p < stack_pointer p < 2^64 ->
  Z.of_nat (length arg) < 2^31 ->
  stack_pointer p' mod 16 = 0 <-> Nat.Odd (length arg + length (env p)).
Proof.
  intros Hi Hn Hl. destruct (init_run arg p p') as (a & e & w & Hw & Hlo & Ha & He & Hp & _); [done..|].
  pose proof (Forall2_length _ _ _ Ha) as Hal. pose proof (Forall2_length _ _ _ He) as Hel. rewrite length_rev in Hal, Hel.
  unfold stack_needed in Hn. apply (f_equal fst) in Hp. cbn [fst] in Hp.
  pose proof (blocks_length (Z.of_nat (length arg)) a e (hash_entries (aux p))) as HL.
  rewrite stack_words_length, !length_rev, <- Hel, <- Hal in HL.
  destruct (pushes_spec (blocks (Z.of_nat (length arg)) a e (hash_entries (aux p))) w) as (Hb & _ & _); [lia|].
  rewrite Hp, Hb, HL. destruct w as [top m]. cbn [fst] in *.
  rewrite Z.mod_divide in * by done. destruct Hw as [k ->]. split.
  - intros [j Hj]. exists (Z.to_nat (k - j - Z.of_nat (length (hash_entries (aux p))) - 3)). lia.
  - intros [j Hj]. exists (k - Z.of_nat (length (hash_entries (aux p))) - Z.of_nat j - 3). lia.
Qed.
End init.

(** * Witnesses *)

(** "ls" "-l", one environment string, two auxiliary entries, on a small stack. *)
Definition ex_process : process :=
  Process 0 0 0 [[65; 61; 49]] (list_to_map [(AT_PHDR, 0x400040); (AT_PHNUM, 9)]) 0x10000 0x1000 ∅.
Definition ex_args : list (list Z) := [[108; 115]; [45; 108]].
Definition ex_started : process := default ex_process (init map_to_list ex_args ex_process).

Lemma initial_stack_layout_witness :
  exists args envs, Forall2 (c_string (mem ex_started)) ex_args args /\
    words (mem ex_started) (stack_pointer ex_started) 12
    = w64 <$> stack_words 2 args envs (map_to_list (aux ex_process)).
Proof.
  destruct (initial_stack_layout map_to_list ex_args ex_process ex_started) as (args & envs & Hw & Ha & He & _).
  - vm_compute. reflexivity.
  - vm_compute. split; reflexivity.
  - reflexivity.
  - exists args, envs. split; [eapply Forall2_impl; [exact Ha|]; cbn; by intros ? ? [_ ?]|].
    assert (length args = 2%nat) as La by (symmetry; apply (Forall2_length _ _ _ Ha)).
    assert (length envs = 1%nat) as Le by (symmetry; apply (Forall2_length _ _ _ He)).
    rewrite stack_words_length, La, Le in Hw.
    assert (length (map_to_list (aux ex_process)) = 2%nat) as Ll by (vm_compute; reflexivity).
    rewrite Ll in Hw. exact Hw.
Defined.

Lemma initial_stack_alignment_witness :
  stack_pointer ex_started mod 16 = 0 <-> Nat.Odd (length ex_args + length (env ex_process)).
Proof.
  apply (initial_stack_alignment map_to_list ex_args ex_process ex_started).
  - vm_compute. reflexivity.
  - vm_compute. split; reflexivity.
  - reflexivity.
Defined.

End ProcessProofs.
