(* ===== verification/World.v ===== *)
(** The state of the loader (src/src/loader.hpp, src/src/object/identity.hpp, src/src/object/base.hpp):
    configuration, flags, objects (versions of a file), identities (a file with its versions) and the
    loader itself, all in one [world], with the history of what happened.

    Pointers to identities and objects are numbers; the chain [current], [current->file_previous],
    ... of an identity is the list of its versions.  Records are updated with [r <| field := v |>]. *)
From S2P Require Import Prelude Platform Segment Symbol Tls.

Module World.
Export Symbol (Version, VersionedSymbol, Bind(..), Type_(..), elf_symbol(..), es_data, es_name, es_value, es_size, es_bind, es_type, es_valid,
  es_undefined, es_default_visibility, es_section_index).
Export MemorySegment (DetectOutdated(..), segment).
#[export] Existing Instances Symbol.eta_elf_symbol Symbol.Bind_eq_dec Symbol.Type_eq_dec MemorySegment.Status_eq_dec
  MemorySegment.DetectOutdated_eq_dec.

(** * Configuration: struct Loader::Config *)

(** An enumeration; it may hold every number the configuration casts to it. *)
Definition UpdateMode : Set := Z.
Definition UPDATE_MODE_GOT : UpdateMode := 0.
Definition UPDATE_MODE_CODEREL : UpdateMode := 1.
Definition UPDATE_MODE_CODEREL_LOCALINT : UpdateMode := 2.

Record Config := MkConfig {
  position_independent : bool; dynamic_update : bool; dynamic_dlupdate : bool; dependency_check : bool;
  enable_vdso : bool; force_update : bool; cfg_skip_identical : bool; dynamic_weak : bool;
  stop_on_update : bool; use_mtime : bool; check_relocation_content : bool;
  update_outdated_relocations : bool;
  update_mode : UpdateMode; detect_outdated : DetectOutdated; detect_outdated_delay : Z;
  trap_mode : Z; relax_comparison : Z;
  early_statusinfo : bool; find_debug_symbols : bool;
  show_args : bool; show_env : bool; show_auxv : bool; debugger : bool;
  debug_symbols_root : option string;
}.
#[export] Instance eta_Config : Eta Config := fun c =>
  MkConfig (position_independent c) (dynamic_update c) (dynamic_dlupdate c) (dependency_check c)
    (enable_vdso c) (force_update c) (cfg_skip_identical c) (dynamic_weak c) (stop_on_update c)
    (use_mtime c) (check_relocation_content c) (update_outdated_relocations c) (update_mode c)
    (detect_outdated c) (detect_outdated_delay c) (trap_mode c) (relax_comparison c)
    (early_statusinfo c) (find_debug_symbols c) (show_args c) (show_env c) (show_auxv c) (debugger c)
    (debug_symbols_root c).

(** The default member initializers; [pic] for the Debian and Ubuntu builds. *)
Definition default_config (pic : bool) (breakpoint_trap : Z) : Config :=
  MkConfig pic false false false true false false false false false false false
    UPDATE_MODE_GOT DETECT_OUTDATED_DISABLED 1 breakpoint_trap 0
    false false false false false true None.

(** * Objects *)

(** Elf::ehdr_type, and what is read of an ELF file by the code here *)
Inductive ehdr_type := ET_NONE | ET_REL | ET_EXEC | ET_DYN | ET_OTHER (n : Z).
#[export] Instance ehdr_type_eq_dec : EqDecision ehdr_type.
Proof. solve_decision. Defined.

Record elf_header := MkHeader {
  h_valid : bool; ident_abi : Z; machine : Z; h_type : ehdr_type; h_entry : Z;
  e_phoff : Z; e_phnum : Z;
}.

(** struct Object::Data *)
Record Data := MkData {
  modification_time : Z * Z; d_size : Z; d_fd : Z; d_addr : Z; d_hash : Z;
}.
#[export] Instance eta_Data : Eta Data := fun d =>
  MkData (modification_time d) (d_size d) (d_fd d) (d_addr d) (d_hash d).
Definition no_data : Data := MkData (0, 0) 0 (-1) 0 0.

Inductive Status := STATUS_MAPPED | STATUS_PREPARING | STATUS_PREPARED.
#[export] Instance Status_eq_dec : EqDecision Status.
Proof. solve_decision. Defined.

(** The class of an object: ObjectDynamic (position independent or not), ObjectExecutable, ObjectRelocatable *)
Inductive kind := KDynamic (position_independent : bool) | KExecutable | KRelocatable.

(** What loading finds out about an object: Object::global_offset_table, eh_frame, rpath, runpath, the symbols
    its relocations were resolved to, and ObjectDynamic::soname. *)
Record DynState := MkDyn {
  global_offset_table : Z; eh_frame : Z;
  rpath : list string; runpath : list string;
  soname : option string;
  relocations : list (relocation * VersionedSymbol);
}.
#[export] Instance eta_DynState : Eta DynState := fun d =>
  MkDyn (global_offset_table d) (eh_frame d) (rpath d) (runpath d) (soname d) (relocations d).
Definition no_dyn : DynState := MkDyn 0 0 [] [] None [].

(** The state of ObjectRelocatable.  The tables of the file are changed in place: [sections] are its sections
    with their present symbols and relocations; sections are referred to by their index.  [symbols] is
    the set of symbols, each with the object whose table it is in. *)
Record rel_section := RelSection {
  rs_type : Z; rs_name : string; rs_info : Z;
  rs_allocate : bool; rs_tls : bool;
  rs_section : MemorySegment.elf_section;
  rs_symbols : list elf_symbol; rs_relocations : list relocation;
}.
#[export] Instance eta_rel_section : Eta rel_section := fun s =>
  RelSection (rs_type s) (rs_name s) (rs_info s) (rs_allocate s) (rs_tls s) (rs_section s) (rs_symbols s)
    (rs_relocations s).
Record RelState := MkRel {
  sections : list rel_section;
  rel_offset : Z; preprepared : bool;
  relocation_tables : list nat; init_sections : list nat; eh_section : option nat;
  offset_sections : list Z;
  symbols : list (Z * elf_symbol);
}.
#[export] Instance eta_RelState : Eta RelState := fun r =>
  MkRel (sections r) (rel_offset r) (preprepared r) (relocation_tables r) (init_sections r) (eh_section r)
    (offset_sections r) (symbols r).
Definition no_rel : RelState := MkRel [] 0 false [] [] None [] [].

(** struct Object *)
Record Object := MkObject {
  o_file : Z;                     (* ObjectIdentity & file *)
  o_kind : kind;
  o_data : Data;
  o_base : Z;
  o_status : Status;
  o_dependencies : list Z;        (* Vector<ObjectIdentity *> dependencies *)
  o_memory_map : list segment;
  o_build_id : option string;
  o_debug_symbols : option (Z * Z);  (* the external debug symbols: address and debug_size *)
  o_binary_hash : option Z;          (* the flags the Bean was created with *)
  o_debug_hash : option string;
  o_dyn : DynState;
  o_rel : RelState;
}.
#[export] Instance eta_Object : Eta Object := fun o =>
  MkObject (o_file o) (o_kind o) (o_data o) (o_base o) (o_status o) (o_dependencies o) (o_memory_map o)
    (o_build_id o) (o_debug_symbols o) (o_binary_hash o) (o_debug_hash o)
    (o_dyn o) (o_rel o).

(** * Identities *)

(** union ObjectIdentity::Flags *)
Record Flags := MkFlags {
  bind_now : bool; bind_not : bool; bind_global : bool; bind_deep : bool; persistent : bool;
  updatable : bool; update_outdated : bool; immutable_source : bool; ignore_mtime : bool;
  skip_identical : bool; initialized : bool; premapped : bool; executed_binary : bool;
}.
#[export] Instance eta_Flags : Eta Flags := fun f =>
  MkFlags (bind_now f) (bind_not f) (bind_global f) (bind_deep f) (persistent f) (updatable f)
    (update_outdated f) (immutable_source f) (ignore_mtime f) (skip_identical f) (initialized f)
    (premapped f) (executed_binary f).
Definition no_flags : Flags :=
  MkFlags false false false false false false false false false false false false false.

(** The update hooks of the user *)
Record Hook := MkHook {
  serialize : option Z; deserialize : option Z; hook_object : option Z;
  payload_data : Z; update_point : bool;
}.
#[export] Instance eta_Hook : Eta Hook := fun h =>
  MkHook (serialize h) (deserialize h) (hook_object h) (payload_data h) (update_point h).
Definition no_hook : Hook := MkHook None None None 0 false.

(** enum ObjectIdentity::Info *)
Inductive Info :=
| INFO_CONTINUE_LOAD | INFO_ERROR_OPEN | INFO_ERROR_STAT | INFO_ERROR_MAP | INFO_ERROR_CREATE
| INFO_ERROR_ELF | INFO_ERROR_INOTIFY | INFO_IDENTICAL_TIME | INFO_IDENTICAL_HASH
| INFO_UPDATE_DISABLED | INFO_UPDATE_INCOMPATIBLE | INFO_UPDATE_MODIFIED
| INFO_FAILED_PRELOADING | INFO_FAILED_MAPPING | INFO_FAILED_REUSE
| INFO_SUCCESS_LOAD | INFO_SUCCESS_UPDATE.
#[export] Instance Info_eq_dec : EqDecision Info.
Proof. solve_decision. Defined.

(** GLIBC's link_map type of an object *)
Inductive link_type := lt_executable | lt_library | lt_loaded.

(** Namespaces are numbers, NAMESPACE_BASE is 0, NAMESPACE_NEW is -1. *)
Definition NAMESPACE_BASE : Z := 0.
Definition NAMESPACE_NEW : Z := -1.

(** struct ObjectIdentity *)
Record ObjectIdentity := MkIdentity {
  ns : Z;
  name : string; path : string;
  flags : Flags;
  wd : Z;
  versions : list Z;              (* current, current->file_previous, ... *)
  hook : Hook;
  i_base : Z; i_dynamic : Z;      (* the fields of the link_map *)
  l_type : option link_type; l_visible : bool;  (* l_relocated, l_init_called, l_global *)
  libnames : list string;         (* libname, in the order of the list *)
  tls_module_id : Z; tls_offset : Z;
  libinfo : gmap Z Z;             (* pointers to entries of the dynamic table, by tag *)
  datarel_content : gmap (Z * Z) Z;  (* values of relocations by memory file and offset *)
}.
#[export] Instance eta_Identity : Eta ObjectIdentity := fun i =>
  MkIdentity (ns i) (name i) (path i) (flags i) (wd i) (versions i) (hook i) (i_base i) (i_dynamic i)
    (l_type i) (l_visible i) (libnames i) (tls_module_id i) (tls_offset i) (libinfo i) (datarel_content i).

(** The version in use. *)
Definition current (i : ObjectIdentity) : option Z := head (versions i).

(** The versions before a version: [o->file_previous], [o->file_previous->file_previous], ... *)
Fixpoint older (o : Z) (vs : list Z) : list Z :=
  match vs with
  | [] => []
  | v :: vs => if decide (v = o) then vs else older o vs
  end.

(** * The loader and the world *)

Record Loader := MkLoader {
  config : Config;
  library_path_runtime : list string; library_path_config : list string;
  library_path_default : list string;
  lookup : list Z;                (* ObjectIdentityList lookup *)
  dependencies : option Z;        (* iterator into lookup; None is end() *)
  self : option Z; target : option Z;
  main_thread : bool; handler_thread : bool;
  pid : Z;
  statusinfofd : Z; filemodification_inotifyfd : Z; userfaultfd : Z;
  argc : Z; argv : Z; envp : Z;
  process_started : bool; update_pending : bool;
  default_flags : Flags;
  next_namespace : Z; next_library_address : Z;
  library_exclude : list string;
  loader_tls : TLS.tls;
}.
#[export] Instance eta_Loader : Eta Loader := fun l =>
  MkLoader (config l) (library_path_runtime l) (library_path_config l) (library_path_default l)
    (lookup l) (dependencies l) (self l) (target l) (main_thread l) (handler_thread l) (pid l)
    (statusinfofd l) (filemodification_inotifyfd l) (userfaultfd l) (argc l) (argv l) (envp l)
    (process_started l) (update_pending l) (default_flags l) (next_namespace l) (next_library_address l)
    (library_exclude l) (loader_tls l).

(** The rendezvous structure of the debugger (src/src/comp/gdb.hpp) and the flat list of all versions:
    for every entry the version, its base and its name. *)
Inductive gdb_state := RT_CONSISTENT | RT_ADD | RT_DELETE.
#[export] Instance gdb_state_eq_dec : EqDecision gdb_state.
Proof. solve_decision. Defined.
Record link_entry := LinkEntry { l_versions : Z; l_addr : Z; l_name : string }.
Record rdebug := RDebug {
  r_version : Z; r_brk : bool; r_state : gdb_state; r_ldbase : Z;
  r_map : option (list link_entry);    (* the flat list, or the list of identities *)
  flat_link_map : list link_entry;
}.
#[export] Instance eta_rdebug : Eta rdebug := fun r =>
  RDebug (r_version r) (r_brk r) (r_state r) (r_ldbase r) (r_map r) (flat_link_map r).

Record world := World {
  loader : Loader;
  r_debug : rdebug;
  identities : gmap Z ObjectIdentity;
  objects : gmap Z Object;
  next_id : Z;                    (* numbers not in use *)
  trace : list event;
}.
#[export] Instance eta_world : Eta world := fun w =>
  World (loader w) (r_debug w) (identities w) (objects w) (next_id w) (trace w).

(** ** Access *)

(** A pointer that leads nowhere is never followed by code that has been checked: following one stops the
    run like a failed assertion. *)
Definition get_identity (i : Z) : M world ObjectIdentity := fun w =>
  match identities w !! i with Some x => Ok (x, w) | None => AssertFailed end.
Definition get_object (o : Z) : M world Object := fun w =>
  match objects w !! o with Some x => Ok (x, w) | None => AssertFailed end.
Definition get_loader : M world Loader := gets loader.
Definition get_config : M world Config := gets (fun w => config (loader w)).
Definition set_identity (i : Z) (f : ObjectIdentity -> ObjectIdentity) : M world unit :=
  modify (fun w => w <| identities ::= alter f i |>).
Definition set_object (o : Z) (f : Object -> Object) : M world unit :=
  modify (fun w => w <| objects ::= alter f o |>).
Definition set_loader (f : Loader -> Loader) : M world unit :=
  modify (fun w => w <| loader ::= f |>).
Definition emit (e : event) : M world unit := modify (fun w => w <| trace ::= fun t => t ++ [e] |>).
Definition fresh : M world Z := fun w => Ok (next_id w, w <| next_id ::= Z.succ |>).

(** What a segment reads of its object; only dynamic objects use memory aliasing for data, if they are
    updatable (object/dynamic.hpp). *)
Definition use_data_alias (i : ObjectIdentity) (ob : Object) : bool :=
  match o_kind ob with KDynamic _ => updatable (flags i) | _ => false end.
Definition object_ctx (l : Loader) (i : ObjectIdentity) (o : Z) (ob : Object) : MemorySegment.object_ctx :=
  MemorySegment.Build_object_ctx (d_fd (o_data ob)) (d_addr (o_data ob)) (d_hash (o_data ob)) (name i)
    (match older o (versions i) with [] => false | _ => true end)
    (use_data_alias i ob) (premapped (flags i)) (process_started l) (detect_outdated (config l)) (userfaultfd l).

(** System calls *)
Section syscalls.
Context (kernel : kernel_t).

Definition syscall_ (c : syscall) : M world sysret := fun w =>
  let r := kernel (trace w) c in Ok (r, w <| trace ::= fun t => t ++ [Ev_sys c r] |>).

(** An operation of a memory segment of an object. *)
Definition on_segment {A} (o : Z) (k : nat) (f : MemorySegment.object_ctx -> M (traced segment) A) : M world A := fun w =>
  match objects w !! o with
  | None => AssertFailed
  | Some ob =>
      match identities w !! o_file ob, o_memory_map ob !! k with
      | Some i, Some s =>
          match f (object_ctx (loader w) i o ob) (Traced s (trace w)) with
          | Ok (a, t) =>
              Ok (a, w <| objects ::= <[o := ob <| o_memory_map ::= <[k := t_state t]> |>]> |> <| trace := t_trace t |>)
          | AssertFailed => AssertFailed
          | OutOfFuel => OutOfFuel
          end
      | _, _ => AssertFailed
      end
  end.

(** for (auto & seg : memory_map) ... *)
Definition segment_indices (o : Z) : M world (list nat) :=
  ob ← get_object o; mret (seq 0 (length (o_memory_map ob))).
End syscalls.

(** ** Automation *)

Lemma get_identity_Ok i w x w' : get_identity i w = Ok (x, w') -> identities w !! i = Some x /\ w' = w.
Proof. unfold get_identity. destruct (identities w !! i); [by intros [<- <-]%Ok_inj|done]. Qed.
Lemma get_object_Ok o w x w' : get_object o w = Ok (x, w') -> objects w !! o = Some x /\ w' = w.
Proof. unfold get_object. destruct (objects w !! o); [by intros [<- <-]%Ok_inj|done]. Qed.

(** Split a run as [msplit] does, through the access functions of the world. *)
Ltac wsplit :=
  unfold get_loader, get_config, set_identity, set_object, set_loader, emit in *; msplit;
  repeat (match goal with
  | H : get_identity _ _ = Ok _ |- _ =>
      let E := fresh "Hid" in let E' := fresh "Hret" in apply get_identity_Ok in H as [E E']; subst_eq E'
  | H : get_object _ _ = Ok _ |- _ =>
      let E := fresh "Hob" in let E' := fresh "Hret" in apply get_object_Ok in H as [E E']; subst_eq E'
  | H : syscall_ _ _ _ = Ok _ |- _ => unfold syscall_ in H
  end; msplit).

(** Follow both branches of the condition or match a run is at. *)
Ltac branch H :=
  lazymatch type of H with
  | (if ?b then _ else _) _ = _ => destruct b eqn:?
  | (match ?x with _ => _ end) _ = _ => destruct x eqn:?
  end; wsplit.

End World.
