(* ===== verification/Object.v ===== *)
(** The base class of objects (src/src/object/base.hpp, src/src/object/base.cpp): what all kinds of objects
    do with their memory segments, outdated versions, symbols and their destruction.

    The virtual functions the kinds of objects implement are the interface [ObjectOps]; the functions
    of DLH, Elfo and Bean the code calls are [Env]. *)
From Stdlib Require Import Ascii.
From S2P Require Import Prelude Platform Segment Symbol World.

Module Object.
Import World.

(** The overridden virtual functions of an object, by its number. *)
Class ObjectOps := {
  v_construct : Z -> M world unit;       (* the rest of the constructor of the derived class *)
  v_preload : Z -> M world bool;
  v_fix : Z -> M world bool;
  v_preprepare : Z -> M world unit;
  v_prepare : Z -> M world bool;
  v_update : Z -> M world bool;
  v_patchable : Z -> M world bool;
  v_initialize : Z -> bool -> M world bool;
  v_resolve_symbol : world -> Z -> string -> Z -> Z -> Version -> option VersionedSymbol;
  v_resolve_address : world -> Z -> Z -> option VersionedSymbol;
  v_dynamic_address : world -> Z -> Z;   (* Object::dynamic_address, reads the program headers *)
}.

(** File formats, and the members of an archive *)
Inductive Format := FORMAT_ELF | FORMAT_AR | FORMAT_OTHER.
#[export] Instance Format_eq_dec : EqDecision Format.
Proof. solve_decision. Defined.
Record ar_entry := ArEntry { is_regular : bool; entry_name : string; entry_data : Z; entry_size : Z }.

(** Functions of the libraries: DLH's files, paths and sockets, Elfo's parser, Bean's comparison.  What
    depends on the outside sees the history. *)
Class Env := {
  hex : Z -> string; dec : Z -> string;
  str_find_last : string -> string;                     (* StrPtr::find_last('/'): the file name *)
  str_split_last : string -> option (string * string);  (* cut at String::find_last(path, '/') *)
  file_exists : list event -> string -> bool;
  file_format : list event -> string -> Format;          (* File::contents::format(path) *)
  mem_format : list event -> Z -> Format;               (* File::contents::format(address, 6) *)
  archive : list event -> string -> option (list ar_entry); (* AR archive(path), if it is valid *)
  auxiliary : Z -> option Z;                            (* Auxiliary::vector *)
  parse_number : string -> option Z;                    (* Parser::string *)
  file_absolute : list event -> string -> option string;
  file_absolute_fd : list event -> Z -> option string;
  stat_is_link : list event -> string -> bool;
  stat_of : list event -> Z -> (Z * Z) * Z;            (* fstat: st_mtim and st_size *)
  header_at : list event -> Z -> elf_header;            (* the ELF header at an address *)
  elf_size : list event -> Z -> Z;                      (* Elf(addr).size(true) *)
  elf_valid : list event -> Z -> Z -> bool;             (* Elf(addr).valid(size) *)
  elf_dynamic_segment : list event -> Z -> bool;        (* a PT_DYNAMIC segment exists *)
  build_id_count : Z;                                   (* size of the buffer of a build id *)
  elf_build_id : list event -> Z -> option string;
  data_hash : list event -> string -> Z -> Z -> Z;      (* XXHash64 of memory, seeded with a name *)
  new_object : list event -> kind -> bool;              (* operator new succeeds *)
  debug_symbols_file : list event -> string -> option string -> option string -> option string;
  contents_get : list event -> string -> option (Z * Z);
  FLAG_RESOLVE_INTERNAL_RELOCATIONS : Z; FLAG_RECONSTRUCT_RELOCATIONS : Z; FLAG_HASH_ATTRIBUTES_FOR_ID : Z;
  bean_diff : list event -> Z -> Z -> bool -> Z -> list (bool * option string * Z);
  hook_result : list event -> Z -> Z;                   (* what a user's serialize function returns *)
  socket_connected : list event -> bool;
  socket_query : list event -> string -> Z * Z * string; (* bytes sent, bytes received, buffer *)
}.

Section object.
Context `{DlhMath}.
Context (kernel : kernel_t) `{ObjectOps} `{Env}.
Abbreviation sys := (syscall_ kernel).
Abbreviation history := (gets trace).

(** Calls of the virtual functions appear in the history. *)
Definition preload (o : Z) : M world bool := emit (Ev_virtual V_preload o) ;; v_preload o.
Definition fix_ (o : Z) : M world bool := emit (Ev_virtual V_fix o) ;; v_fix o.
Definition preprepare (o : Z) : M world unit := emit (Ev_virtual V_preprepare o) ;; v_preprepare o.
Definition prepare (o : Z) : M world bool := emit (Ev_virtual V_prepare o) ;; v_prepare o.
Definition update (o : Z) : M world bool := emit (Ev_virtual V_update o) ;; v_update o.
Definition patchable (o : Z) : M world bool := emit (Ev_virtual V_patchable o) ;; v_patchable o.
Definition initialize (o : Z) (preinit : bool) : M world bool :=
  emit (Ev_virtual (if preinit then V_preinitialize else V_initialize) o) ;; v_initialize o preinit.

(** Object::map *)
Definition map (o : Z) : M world bool :=
  emit (Ev_virtual V_map o) ;;
  ks ← segment_indices o;
  mall ks (fun k => on_segment o k (MemorySegment.map hex kernel)).

(** Object::finalize *)
Definition finalize (o : Z) : M world bool :=
  emit (Ev_virtual V_finalize o) ;;
  ks ← segment_indices o;
  mall ks (fun k => on_segment o k (fun _ => MemorySegment.finalize kernel false)).

(** Object::compose_pointer: where the address is in the back buffer of its segment *)
Definition compose_pointer (o ptr : Z) : M world (option Z) :=
  ob ← get_object o;
  match list_find (fun s => MemorySegment.contains s ptr = true) (o_memory_map ob) with
  | None => mret None
  | Some (k, s) =>
      buffer ← on_segment o k (MemorySegment.compose hex kernel);
      mret (if buffer =? 0 then None else Some (w64 (buffer + ptr - MemorySegment.address s)))
  end.

(** Object::is_latest_version *)
Definition is_latest_version (o : Z) : M world bool :=
  ob ← get_object o; i ← get_identity (o_file ob);
  mret (bool_decide (current i = Some o)).

(** Object::version *)
Definition version (o : Z) : M world nat :=
  ob ← get_object o; i ← get_identity (o_file ob);
  mret (length (older o (versions i))).

(** Object::memory_range *)
Definition memory_range (ob : Object) : option (Z * Z) :=
  match o_memory_map ob, last (o_memory_map ob) with
  | s :: _, Some e => Some (MemorySegment.page_start s, MemorySegment.page_end e)
  | _, _ => None
  end.

(** Object::has_symbol: the result so far is returned with whether the search ends *)
Definition has_symbol (w : world) (o : Z) (name : string) (hash gnu_hash : Z) (v : Version)
  (result : option VersionedSymbol) : option (bool * option VersionedSymbol) :=
  match v_resolve_symbol w o name hash gnu_hash v with
  | None => Some (false, result)
  | Some tmp =>
      if negb (Symbol.sym_valid tmp) then None
      else if bool_decide (Symbol.sym_bind tmp = Symbol.STB_LOCAL) then None
      else
        let strong := negb (bool_decide (Symbol.sym_bind tmp = Symbol.STB_WEAK)) || negb (dynamic_weak (config (loader w))) in
        if strong || negb (bool_decide (is_Some result)) then Some (strong, Some tmp)
        else Some (false, result)
  end.

(** Object::tls_address, on TLS::get_addr of the calling thread ([tls_offset] of the identity) *)
Definition tls_address (get_addr : Z) (tls_offset value : Z) : Z := w64 (get_addr + tls_offset + value).

(** Object::dynamic_resolve: not for the base class *)
Definition dynamic_resolve (index : Z) : M world Z := assert false ;; mret 0.

(** Object::query_debug_hash *)
Definition acceptable (recv : Z) (tmp : string) : bool :=
  (0 <? recv) && negb (bool_decide (String.get 0 tmp = Some "-"%char)) && bool_decide (is_Some (String.get 1 tmp)).
Definition query_debug_hash (o : Z) : M world (option string) :=
  ob ← get_object o;
  match o_debug_hash ob with
  | Some h => mret (Some h)
  | None =>
      tr ← history;
      if negb (socket_connected tr) then mret None
      else
        let ask (query : option string) (len : Z) : option string :=
          match query with
          | None => None
          | Some q =>
              let '(sent, recv, tmp) := socket_query tr q in
              if negb (sent =? len) then None
              else if acceptable recv tmp then Some (String.substring 0 (Z.to_nat recv) tmp) else None
          end in
        i ← get_identity (o_file ob);
        let by_id := ask (o_build_id ob) build_id_count in
        let by_path := if bool_decide (path i = EmptyString) then None
                       else ask (Some (path i)) (Z.of_nat (String.length (path i)) + 1) in
        let r := match by_id with Some h => Some h | None => by_path end in
        (if bool_decide (is_Some r) then set_object o (fun ob => ob <| o_debug_hash := r |>) else mret tt) ;;
        mret r
  end.

(** The name of a uprobe: every character that is not a letter or digit becomes an underscore. *)
Definition is_alnum (c : Ascii.ascii) : bool :=
  let n := Z.of_nat (Ascii.nat_of_ascii c) in
  ((97 <=? n) && (n <=? 122)) || ((65 <=? n) && (n <=? 90)) || ((48 <=? n) && (n <=? 57)).
Fixpoint sanitize (s : string) : string :=
  match s with
  | EmptyString => EmptyString
  | String c s => String (if is_alnum c then c else "_"%char) (sanitize s)
  end.
Definition uprobe_line (name path : string) (ver address : Z) (symbol : string) : string :=
  let n := sanitize (String.substring 0 64 (name +:+ "_v" +:+ dec ver +:+ "_" +:+ symbol)) in
  ("p:" +:+ n +:+ " " +:+ path +:+ ":0x" +:+ hex address)%string.

Definition executable (ob : Object) (k : nat) : bool :=
  match o_memory_map ob !! k with
  | Some s => has_flag (MemorySegment.protection s) PROT_EXEC
  | None => false
  end.

(** Object::disable.  The answers of the file writes to the tracing system are not looked at. *)
Definition disable (o : Z) : M world bool :=
  emit (Ev_virtual V_disable o) ;;
  c ← get_config;
  match detect_outdated c with
  | DETECT_OUTDATED_DISABLED => mret false
  | DETECT_OUTDATED_VIA_USERFAULTFD =>
      ob ← get_object o;
      ks ← segment_indices o;
      mall (filter (fun k => executable ob k = true) ks)
           (fun k => on_segment o k (MemorySegment.disable hex kernel))
  | DETECT_OUTDATED_VIA_UPROBES | DETECT_OUTDATED_WITH_DEPS_VIA_UPROBES =>
      ob ← get_object o;
      i ← get_identity (o_file ob);
      match current i with
      | None => assert false ;; mret false
      | Some cur =>
          cob ← get_object cur;
          if bool_decide (o_binary_hash cob = None) then mret false
          else if bool_decide (o_binary_hash ob = None) then mret false
          else if d_fd (o_data ob) <? 0 then mret false
          else
            assert (bool_decide (head (older cur (versions i)) = Some o)) ;;
            tr ← history;
            match file_absolute_fd tr (d_fd (o_data ob)) with
            | None => mret false
            | Some path =>
                r ← sys (Sys_open "/sys/kernel/debug/tracing/uprobe_events" 0x101401);
                match r with
                | Failure _ => mret false
                | Success fd =>
                    tr ← history;
                    let deps := bool_decide (detect_outdated c = DETECT_OUTDATED_WITH_DEPS_VIA_UPROBES) in
                    ver ← version o;
                    let lines := omap (fun d =>
                      match d with
                      | (true, Some n, a) => Some (uprobe_line (name i) path (Z.of_nat ver) a n)
                      | _ => None
                      end) (bean_diff tr o cur deps (relax_comparison c)) in
                    mfor lines (fun l => sys (Sys_write fd l) ;; mret tt) ;;
                    sys (Sys_close fd) ;;
                    mret true
                end
            end
      end
  | DETECT_OUTDATED_VIA_PTRACE => mret false
  end.

(** Object::~Object, given Loader::reset_address *)
Definition destroy (reset_address : Z -> M world unit) (o : Z) : M world unit :=
  ob ← get_object o;
  (match o_debug_symbols ob with
   | Some (a, len) => sys (Sys_munmap a len) ;; mret tt
   | None => mret tt
   end) ;;
  set_identity (o_file ob) (fun i => i <| versions ::= filter (fun v => v <> o) |>) ;;
  ks ← segment_indices o;
  mfor ks (fun k => on_segment o k (MemorySegment.unmap kernel) ;; mret tt) ;;
  reset_address (o_base ob) ;;
  sys (Sys_munmap (d_addr (o_data ob)) (d_size (o_data ob))) ;;
  (if 0 <? d_fd (o_data ob) then sys (Sys_close (d_fd (o_data ob))) ;; mret tt else mret tt) ;;
  modify (fun w => w <| objects ::= delete o |>).
End object.

End Object.
