(* ===== verification/Identity.v ===== *)
(** Object identities (src/src/object/identity.hpp, src/src/object/identity.cpp): a file with all its loaded
    versions -- opening, creating and destroying versions, watching the file, and the preparation,
    update, finalization and initialization of the object graph.

    The functions that follow dependencies take [fuel]: the number of nested calls. *)
From S2P Require Import Prelude Platform Symbol World Object.

Module Identity.
Import World Object.

Definition ELFOSABI_NONE : Z := 0.
Definition ELFOSABI_LINUX : Z := 3.
Definition EM_X86_64 : Z := 62.
Definition ELF_HEADER_SIZE : Z := 64.
Definition IN_MODIFY : Z := 0x2.
Definition IN_ATTRIB : Z := 0x4.
Definition IN_DELETE_SELF : Z := 0x400.
Definition IN_MOVE_SELF : Z := 0x800.
Definition IN_DONT_FOLLOW : Z := 0x2000000.
Definition PATH_MAX : nat := 4096.

(** supported *)
Definition supported (h : elf_header) : bool :=
  h_valid h
  && ((ident_abi h =? ELFOSABI_NONE) || (ident_abi h =? ELFOSABI_LINUX))
  && (machine h =? EM_X86_64).

Section identity.
Context `{DlhMath}.
Context (kernel : kernel_t) `{ObjectOps} `{Env}.
Abbreviation sys := (syscall_ kernel).
Abbreviation history := (gets trace).

(** ** Construction and destruction *)

(** The flags an identity gets *)
Definition initial_flags (c : Config) (f : Flags) : option Flags :=
  if negb (dynamic_update c) then Some (f <| updatable := false |> <| immutable_source := true |>)
  else if updatable f then
    if initialized f || premapped f then None
    else Some (f <| update_outdated := update_outdated f || update_outdated_relocations c |>
                 <| skip_identical := cfg_skip_identical c |>)
  else Some f.

(** The path: the directory is made absolute if the bare file name exists, the buffer holds PATH_MAX bytes *)
Definition initial_path (tr : list event) (p : string) : string :=
  let '(dir, file) := match str_split_last p with Some (d, f) => (d, f) | None => ("."%string, p) end in
  match file_absolute tr dir with
  | Some d =>
      if file_exists tr file
      then (if bool_decide (d = EmptyString) then String.substring 0 (PATH_MAX - 1) file
            else d +:+ "/" +:+ String.substring 0 (PATH_MAX - 1 - String.length d - 1) file)%string
      else String.substring 0 (PATH_MAX - 1) p
  | None => String.substring 0 (PATH_MAX - 1) p
  end.

(** ObjectIdentity::ObjectIdentity: gives the number of the new identity *)
Definition construct (f : Flags) (p : option string) (n : Z) (altname : option string) : M world Z :=
  assert (negb (n =? NAMESPACE_NEW)) ;;
  c ← get_config;
  i ← fresh;
  match initial_flags c f with
  | None => assert false ;; mret i
  | Some f =>
      tr ← history;
      match p with
      | None =>
          let name := default EmptyString altname in
          modify (fun w => w <| identities ::= <[i := MkIdentity n name EmptyString f (-1) [] no_hook 0 0 None false [EmptyString] 0 0 ∅ ∅]> |>) ;;
          mret i
      | Some p =>
          let path := initial_path tr p in
          let name := default (str_find_last path) altname in
          modify (fun w => w <| identities ::= <[i := MkIdentity n name path f (-1) [] no_hook 0 0 None false [path; name] 0 0 ∅ ∅]> |>) ;;
          (if updatable f then
             r ← sys (Sys_lstat path);
             match r with
             | Failure _ => mret tt
             | Success _ => if stat_is_link tr path
                            then set_identity i (fun x => x <| flags ::= fun f => f <| immutable_source := true |> |>)
                            else mret tt
             end
           else mret tt) ;;
          mret i
      end
  end.

(** ObjectIdentity::~ObjectIdentity *)
Definition destroy (reset_address : Z -> M world unit) (i : Z) : M world unit :=
  id ← get_identity i;
  c ← get_config;
  l ← get_loader;
  (if dynamic_update c then sys (Sys_inotify_rm_watch (filemodification_inotifyfd l) (wd id)) ;; mret tt else mret tt) ;;
  mfor (versions id) (Object.destroy kernel reset_address) ;;
  modify (fun w => w <| identities ::= delete i |>).

(** ** Watching and reporting *)

(** ObjectIdentity::watch *)
Definition watch (i : Z) (force close_existing : bool) : M world bool :=
  id ← get_identity i;
  l ← get_loader;
  (if updatable (flags id) && ((wd id =? -1) || force) then
     (if negb (wd id =? -1) && close_existing
      then sys (Sys_inotify_rm_watch (filemodification_inotifyfd l) (wd id)) ;; mret tt else mret tt) ;;
     let mask := Z.lor (Z.lor (Z.lor IN_MODIFY IN_DELETE_SELF) (Z.lor IN_MOVE_SELF IN_DONT_FOLLOW))
                       (if executed_binary (flags id) then IN_ATTRIB else 0) in
     r ← sys (Sys_inotify_add_watch (filemodification_inotifyfd l) (path id) mask);
     set_identity i (fun x => x <| wd := match r with Success v => v | Failure _ => -1 end |>)
   else mret tt) ;;
  id ← get_identity i;
  mret (negb (wd id =? -1)).

Definition info_text (m : Info) : string :=
  match m with
  | INFO_ERROR_OPEN => "ERROR (opening file failed)"
  | INFO_ERROR_STAT => "ERROR (retrieving file status failed)"
  | INFO_ERROR_MAP => "ERROR (mapping whole file into memory failed)"
  | INFO_ERROR_CREATE => "ERROR (not able to create object)"
  | INFO_ERROR_ELF => "ERROR (unsupported format)"
  | INFO_ERROR_INOTIFY => "ERROR (not able to watch for file modifications)"
  | INFO_IDENTICAL_TIME => "IGNORED (new version has same modification time)"
  | INFO_IDENTICAL_HASH => "IGNORED (new version has same hash)"
  | INFO_UPDATE_DISABLED => "FAILED (dynamic updates are disabled)"
  | INFO_UPDATE_INCOMPATIBLE => "FAILED (new version is incompatible)"
  | INFO_UPDATE_MODIFIED => "FAILED (relocated data was altered)"
  | INFO_FAILED_PRELOADING => "FAILED (preload was unsuccessful)"
  | INFO_FAILED_MAPPING => "FAILED (mapping of segments was unsuccessful)"
  | INFO_FAILED_REUSE => "FAILED (reusing outdated code)"
  | INFO_CONTINUE_LOAD => "ERROR (open was successful, but not continued load)"
  | INFO_SUCCESS_LOAD => "SUCCESS (loaded initial version)"
  | INFO_SUCCESS_UPDATE => "SUCCESS (updated to new version)"
  end.

(** ObjectIdentity::status: one line on the status descriptor (process id and time are left out) *)
Definition status (i : Z) (m : Info) : M world unit :=
  l ← get_loader;
  if (0 <=? statusinfofd l) && (early_statusinfo (config l) || bool_decide (is_Some (target l))) then
    id ← get_identity i;
    sys (Sys_write (statusinfofd l) (info_text m +:+ " for " +:+ name id +:+ " [" +:+ path id +:+ "]")%string) ;;
    mret tt
  else mret tt.

(** ** Update hooks *)

(** The address a symbol stands for (VersionedSymbol::pointer of a function) *)
Definition symbol_pointer (w : world) (s : VersionedSymbol) : Z :=
  match objects w !! Symbol.sym_object s with
  | Some ob => w64 (o_base ob + Symbol.sym_value s)
  | None => Symbol.sym_value s
  end.
Context `{Symbol.StringOps}.
(** Object::resolve_symbol(name) *)
Definition resolve_name (w : world) (o : Z) (n : string) : option VersionedSymbol :=
  v_resolve_symbol w o n (Symbol.elf_hash (Some n)) (Symbol.gnu_hash (Some n)) (Symbol.mk_version None false None).

(** ObjectIdentity::hook_refresh *)
Definition hook_refresh (i : Z) : M world unit :=
  id ← get_identity i;
  if updatable (flags id) then
    set_identity i (fun x => x <| hook ::= fun h => h <| hook_object := current x |> |>) ;;
    match current id with
    | None => mret tt
    | Some o =>
        w ← get;
        let pick (n : string) (old : option Z) := match resolve_name w o n with Some s => Some (symbol_pointer w s) | None => old end in
        set_identity i (fun x => x <| hook ::= fun h =>
          h <| serialize := pick "__luci_serialize" (serialize h) |>
            <| deserialize := pick "__luci_deserialize" (deserialize h) |>
            <| update_point := bool_decide (is_Some (resolve_name w o "__luci_update")) |> |>)
    end
  else mret tt.

(** ** Opening a file *)

(** Reads the file at [path] into memory, as a private copy unless the source is immutable; [inl] is an error. *)
Definition version_text (n : string) (v : Z) : string := (n +:+ " (v" +:+ dec v +:+ ")")%string.

(** The memory file that shows the debugger the copy; its descriptor or -1 *)
Definition debug_memfd (i : Z) (size : Z) : M world Z :=
  id ← get_identity i;
  let v := match versions id with [] => 0 | _ :: l => Z.of_nat (length l) + 1 end in
  m ← sys (Sys_memfd_create (version_text (name id) v) MFD_CLOEXEC);
  match m with
  | Failure _ => sys (Sys_close (-1)) ;; mret (-1)
  | Success m =>
      t ← sys (Sys_ftruncate m size);
      match t with
      | Success _ => mret m
      | Failure _ => sys (Sys_close m) ;; mret (-1)
      end
  end.

Definition open_file (i : Z) : M world (Info + Data) :=
  id ← get_identity i;
  c ← get_config;
  assert (negb (bool_decide (path id = EmptyString))) ;;
  assert (negb (premapped (flags id))) ;;
  r ← sys (Sys_open (path id) 0);
  match r with
  | Failure _ => mret (inl INFO_ERROR_OPEN)
  | Success fd =>
      r ← sys (Sys_fstat fd);
      match r with
      | Failure _ => sys (Sys_close fd) ;; mret (inl INFO_ERROR_STAT)
      | Success _ =>
          tr ← history;
          let '(mtime, size) := stat_of tr fd in
          w ← get;
          let same o := match objects w !! o with
                        | Some ob => bool_decide (modification_time (o_data ob) = mtime) && (d_size (o_data ob) =? size)
                        | None => false end in
          if use_mtime c && negb (ignore_mtime (flags id)) && skip_identical (flags id) && existsb same (versions id)
          then sys (Sys_close fd) ;; mret (inl INFO_IDENTICAL_TIME)
          else
            m ← sys (Sys_mmap 0 size PROT_READ (Z.lor MAP_PRIVATE MAP_POPULATE) fd 0);
            match m with
            | Failure _ => sys (Sys_close fd) ;; mret (inl INFO_ERROR_MAP)
            | Success m =>
                if immutable_source (flags id) then mret (inr (MkData mtime size fd m 0))
                else
                  new_fd ← (if debugger c then debug_memfd i size else mret (-1));
                  a ← sys (Sys_mmap 0 size (Z.lor PROT_READ PROT_WRITE)
                             (if new_fd =? -1 then Z.lor MAP_PRIVATE MAP_ANONYMOUS else MAP_SHARED) new_fd 0);
                  match a with
                  | Failure _ => sys (Sys_close fd) ;; mret (inl INFO_ERROR_MAP)
                  | Success a =>
                      emit (Ev_copy a m size) ;;
                      sys (Sys_munmap m size) ;; sys (Sys_close fd) ;;
                      mret (inr (MkData mtime size new_fd a 0))
                  end
            end
      end
  end.

(** ObjectIdentity::open *)
Definition open (i : Z) (addr : Z) (type : ehdr_type) : M world (Info * Data * ehdr_type) :=
  id ← get_identity i;
  if negb (updatable (flags id)) && bool_decide (is_Some (current id)) then mret (INFO_UPDATE_DISABLED, no_data, type)
  else
    r ← (if addr =? 0 then open_file i
         else tr ← history; mret (inr (no_data <| d_addr := addr |> <| d_size := elf_size tr addr |>)));
    match r with
    | inl info => mret (info, no_data, type)
    | inr data =>
        tr ← history;
        let header := header_at tr (d_addr data) in
        if (d_size data <? ELF_HEADER_SIZE) || negb (supported header) then
          (if premapped (flags id) then mret tt else sys (Sys_munmap (d_addr data) (d_size data)) ;; mret tt) ;;
          sys (Sys_close (d_fd data)) ;;
          mret (INFO_ERROR_ELF, data, type)
        else
          let type := if decide (type = ET_NONE) then h_type header else type in
          let rel := bool_decide (type = ET_REL) in
          (if negb (d_addr data =? 0) && negb (premapped (flags id))
              && ((immutable_source (flags id) && rel) || (negb (immutable_source (flags id)) && negb rel))
           then sys (Sys_mprotect (d_addr data) (d_size data) (Z.lor PROT_READ (if rel then PROT_WRITE else 0))) ;; mret tt
           else mret tt) ;;
          mret (INFO_CONTINUE_LOAD, data, type)
    end.

(** ** Creating a version *)

(** The external debug symbols of an object, if they are looked for and found *)
Definition load_debug_symbols (i o : Z) : M world unit :=
  c ← get_config;
  if find_debug_symbols c then
    id ← get_identity i;
    ob ← get_object o;
    tr ← history;
    match debug_symbols_file tr (path id) (debug_symbols_root c) (o_build_id ob) with
    | None => mret tt
    | Some p =>
        match contents_get tr p with
        | None => mret tt
        | Some (a, size) =>
            if elf_valid tr a size then set_object o (fun x => x <| o_debug_symbols := Some (a, size) |>)
            else sys (Sys_munmap a size) ;; mret tt
        end
    end
  else mret tt.

Definition bean_flags (c : Config) : Z :=
  Z.lor FLAG_RESOLVE_INTERNAL_RELOCATIONS
    (if UPDATE_MODE_CODEREL <=? update_mode c then Z.lor FLAG_RECONSTRUCT_RELOCATIONS FLAG_HASH_ATTRIBUTES_FOR_ID else 0).

(** Is a new version allowed to replace the current one? *)
Definition compatible (i o : Z) : M world bool :=
  load_debug_symbols i o ;;
  c ← get_config;
  set_object o (fun x => x <| o_binary_hash := Some (bean_flags c) |>) ;;
  id ← get_identity i;
  match current id with
  | None => mret true
  | Some cur =>
      cob ← get_object cur;
      assert (bool_decide (is_Some (o_binary_hash cob))) ;;
      p ← patchable o;
      if negb p then mret false
      else if force_update c then mret true
      else
        h ← query_debug_hash o;
        match h with
        | None => mret true
        | Some h =>
            h' ← query_debug_hash cur;
            match h' with
            | None => mret true
            | Some h' => mret (bool_decide (h = h'))
            end
        end
  end.

(** [current = o->file_previous; delete o] *)
Definition discard (reset_address : Z -> M world unit) (i o : Z) : M world unit :=
  set_identity i (fun x => x <| versions ::= filter (fun v => v <> o) |>) ;;
  Object.destroy kernel reset_address o.

(** The class of a new object; [None]: unsupported type *)
Definition object_kind (tr : list event) (type : ehdr_type) (addr : Z) : option kind :=
  match type with
  | ET_EXEC => Some (if elf_dynamic_segment tr addr then KDynamic false else KExecutable)
  | ET_DYN => Some (KDynamic true)
  | ET_REL => Some KRelocatable
  | _ => None
  end.
Definition link_type_of (type : ehdr_type) : option link_type :=
  match type with
  | ET_EXEC => Some lt_executable | ET_DYN => Some lt_library | ET_REL => Some lt_loaded | _ => None
  end.

(** The operator new and the constructor: the object is not yet a version of the identity *)
Definition new (i : Z) (k : kind) (data : Data) : M world Z :=
  id ← get_identity i;
  assert (negb (d_addr data =? 0)) ;;
  tr ← history;
  o ← fresh;
  modify (fun w => w <| objects ::= <[o := MkObject i k data 0 STATUS_MAPPED [] []
    (if updatable (flags id) then elf_build_id tr (d_addr data) else None) None None None no_dyn no_rel]> |>) ;;
  v_construct o ;;
  mret o.

(** What is left to do when the version is in use *)
Definition install (i o : Z) (type : ehdr_type) (first : bool) : M world unit :=
  fix_ o ;;
  id ← get_identity i;
  (if initialized (flags id) then
     (if negb first then
        set_identity i (fun x => x <| flags ::= fun f => f <| bind_now := true |> |>) ;;
        preprepare o ;; prepare o ;; mret tt
      else
        ob ← get_object o;
        assert (bool_decide (type = ET_EXEC) || (o_base ob =? d_addr (o_data ob)))) ;;
     set_object o (fun x => x <| o_status := STATUS_PREPARED |>)
   else mret tt) ;;
  ob ← get_object o;
  w ← get;
  set_identity i (fun x => x <| i_base := o_base ob |> <| i_dynamic := v_dynamic_address w o |>) ;;
  (if first then set_identity i (fun x => x <| l_type := link_type_of type |> <| l_visible := true |>)
   else mret tt).

(** ObjectIdentity::create *)
Definition create (reset_address : Z -> M world unit) (i : Z) (data : Data) (type : ehdr_type)
  : M world (option Z * Info) :=
  id ← get_identity i;
  tr ← history;
  let hashing := updatable (flags id) && skip_identical (flags id) in
  let data := if hashing then data <| d_hash := data_hash tr (name id) (d_addr data) (d_size data) |> else data in
  w ← get;
  let same o := match objects w !! o with
                | Some ob => (d_hash (o_data ob) =? d_hash data) && (d_size (o_data ob) =? d_size data)
                | None => false end in
  if hashing && existsb same (versions id) then mret (None, INFO_IDENTICAL_HASH)
  else
    match object_kind tr type (d_addr data) with
    | None => mret (None, INFO_ERROR_ELF)
    | Some k =>
        if negb (new_object tr k) then mret (None, INFO_ERROR_CREATE)
        else
          o ← new i k data;
          id ← get_identity i;
          let first := bool_decide (versions id = []) in
          tr ← history;
          assert (elf_valid tr (d_addr data) (d_size data)) ;;
          ok ← (if updatable (flags id) && negb (bool_decide (type = ET_REL)) then compatible i o else mret true);
          if negb ok then Object.destroy kernel reset_address o ;; mret (None, INFO_UPDATE_INCOMPATIBLE)
          else
            set_identity i (fun x => x <| versions ::= cons o |>) ;;
            p ← preload o;
            if negb p then discard reset_address i o ;; mret (None, INFO_FAILED_PRELOADING)
            else
              id ← get_identity i;
              m ← (if premapped (flags id) then mret true else Object.map kernel o);
              if negb m then discard reset_address i o ;; mret (None, INFO_FAILED_MAPPING)
              else
                install i o type first ;;
                mret (Some o, if first then INFO_SUCCESS_LOAD else INFO_SUCCESS_UPDATE)
    end.

(** ObjectIdentity::load *)
Definition load (reset_address : Z -> M world unit) (i : Z) (addr : Z) (type : ehdr_type) : M world (option Z) :=
  '(info, data, type) ← open i addr type;
  '(object, info) ←
    (if decide (info = INFO_CONTINUE_LOAD) then
       '(object, info) ← create reset_address i data type;
       id ← get_identity i;
       if bool_decide (object = None) && negb (d_fd data =? -1) then
         (if premapped (flags id) then mret tt else sys (Sys_munmap (d_addr data) (d_size data)) ;; mret tt) ;;
         sys (Sys_close (d_fd data)) ;;
         mret (object, info)
       else
         b ← watch i (executed_binary (flags id)) (executed_binary (flags id));
         mret (object, if b : bool then info else INFO_ERROR_INOTIFY)
     else mret (None, info));
  status i info ;;
  id ← get_identity i;
  (if bool_decide (hook_object (hook id) = None) then hook_refresh i else mret tt) ;;
  mret object.

(** ** The object graph *)

(** ObjectIdentity::preprepare *)
Definition id_preprepare (i : Z) : M world unit :=
  id ← get_identity i;
  match current id with
  | Some o => preprepare o
  | None => assert false
  end.

(** [for (dep : deps) if (!f(dep)) return false;] *)
Fixpoint all_until {S A} (f : A -> M S bool) (l : list A) : M S bool :=
  match l with
  | [] => mret true
  | x :: l => b ← f x; if b : bool then all_until f l else mret false
  end.

(** ObjectIdentity::prepare *)
Fixpoint id_prepare (fuel : nat) (i : Z) : M world bool :=
  match fuel with
  | O => no_fuel
  | S fuel =>
      id ← get_identity i;
      match current id with
      | None => assert false ;; mret false
      | Some o =>
          ob ← get_object o;
          match o_status ob with
          | STATUS_MAPPED =>
              set_object o (fun x => x <| o_status := STATUS_PREPARING |>) ;;
              ok ← all_until (id_prepare fuel) (o_dependencies ob);
              if negb ok then mret false
              else
                p ← prepare o;
                if p : bool then set_object o (fun x => x <| o_status := STATUS_PREPARED |>) ;; mret true
                else mret false
          | STATUS_PREPARING | STATUS_PREPARED => mret true
          end
      end
  end.

(** ObjectIdentity::update *)
Fixpoint update_versions (vs : list Z) (outdated : bool) : M world bool :=
  match vs with
  | [] => mret true
  | o :: vs =>
      b ← update o;
      if outdated then r ← update_versions vs outdated; mret (b && r) else mret b
  end.
Definition call_serialize (f arg : Z) : M world Z := emit (Ev_call f arg) ;; tr ← history; mret (hook_result tr f).
Definition id_update (i : Z) : M world bool :=
  set_identity i (fun x => x <| hook ::= fun h => h <| payload_data := 0 |> |>) ;;
  id ← get_identity i;
  (match serialize (hook id) with
   | Some f =>
       p ← call_serialize f (if bool_decide (current id = hook_object (hook id)) then 0 else 1);
       set_identity i (fun x => x <| hook ::= fun h => h <| payload_data := p |> |>)
   | None => mret tt
   end) ;;
  success ← update_versions (versions id) (update_outdated (flags id));
  hook_refresh i ;;
  id ← get_identity i;
  (match deserialize (hook id) with
   | Some f => emit (Ev_call f (payload_data (hook id)))
   | None => mret tt
   end) ;;
  mret success.

(** ObjectIdentity::finalize *)
Definition id_finalize (i : Z) : M world bool :=
  id ← get_identity i;
  mall (versions id) (Object.finalize kernel).

(** ObjectIdentity::initialize *)
Fixpoint id_initialize (fuel : nat) (i : Z) : M world bool :=
  match fuel with
  | O => no_fuel
  | S fuel =>
      id ← get_identity i;
      match current id with
      | None => assert false ;; mret false
      | Some o =>
          if initialized (flags id) then mret true
          else
            set_identity i (fun x => x <| flags ::= fun f => f <| initialized := true |> |>) ;;
            ob ← get_object o;
            ok ← all_until (id_initialize fuel) (o_dependencies ob);
            if negb ok then mret false else initialize o false
      end
  end.
End identity.
End Identity.
