(* ===== verification/Gdb.v ===== *)
(** The debugger interface (src/src/comp/gdb.hpp, src/src/comp/gdb.cpp): the rendezvous structure and the
    flat list of all versions of all objects. *)
From S2P Require Import Prelude Platform Segment World Object.

Module GDB.
Import World.

Definition _dl_debug_state : Z := 0.
Definition DT_DEBUG : Z := 21.

Section gdb.
Context `{DlhMath} (kernel : kernel_t) `{Object.ObjectOps} `{Object.Env}.
(** The tags of the dynamic section at an address in memory, up to DT_NULL; the address of r_debug *)
Context (dynamic_tags : list event -> Z -> list Z) (r_debug_address : Z).
Abbreviation dec := Object.dec.

(** notify; the breakpoint function only exists for the debugger to stop in it *)
Definition state_number (s : gdb_state) : Z :=
  match s with RT_CONSISTENT => 0 | RT_ADD => 1 | RT_DELETE => 2 end.
Definition notify (s : gdb_state) : M world unit :=
  modify (fun w => w <| r_debug ::= fun r => r <| r_state := s |> |>) ;;
  w ← get;
  if r_brk (r_debug w) then emit (Ev_call _dl_debug_state (state_number s)) else mret tt.

(** The versions the list has to show, in order *)
Definition entry (w : world) (i : ObjectIdentity) (c : Z) : link_entry :=
  match objects w !! c with
  | Some ob => LinkEntry c (o_base ob)
      (if (d_fd (o_data ob) <? 0)%Z then path i
       else "/proc/" +:+ dec (pid (loader w)) +:+ "/fd/" +:+ dec (d_fd (o_data ob)))%string
  | None => LinkEntry c 0 EmptyString
  end.
Definition all_entries (w : world) : list link_entry :=
  concat ((fun i => match identities w !! i with
                    | Some id => entry w id <$> versions id
                    | None => []
                    end) <$> lookup (loader w)).

(** The loop of refresh: an iterator over the list, in front of which missing versions are inserted *)
Fixpoint merge (want have : list link_entry) : list link_entry :=
  match want with
  | [] => have
  | e :: want =>
      match have with
      | h :: have' => if bool_decide (l_versions h = l_versions e) then h :: merge want have'
                      else e :: merge want have
      | [] => e :: merge want []
      end
  end.

(** refresh *)
Definition refresh : M world unit :=
  w ← get;
  if r_brk (r_debug w) && debugger (config (loader w)) then
    let l := merge (all_entries w) (flat_link_map (r_debug w)) in
    modify (fun w => w <| r_debug ::= fun r => r <| flat_link_map := l |> <| r_map := Some l |> |>)
  else mret tt.

(** set_dynamic_debug: enter the structure into the dynamic section of the current version.  An entry is a tag and a
    value; the code does not check whether the address could be composed before it writes behind the pointer. *)
Definition set_dynamic_debug (i : Z) : M world bool :=
  object ← get_identity i;
  if i_dynamic object =? 0 then mret false
  else
    tr ← gets trace;
    match list_find (fun tag => tag = DT_DEBUG) (dynamic_tags tr (i_dynamic object)) with
    | None => mret false
    | Some (n, _) =>
        match current object with
        | None => assert false ;; mret false
        | Some c =>
            p ← Object.compose_pointer kernel c (w64 (i_dynamic object + 16 * Z.of_nat n));
            match p with
            | None => assert false ;; mret false
            | Some p => emit (Ev_store (w64 (p + 8)) r_debug_address) ;; Object.finalize kernel c ;; mret true
            end
        end
    end.

(** init *)
Definition init : M world unit :=
  l ← get_loader;
  ldbase ← (match self l with
            | None => assert false ;; mret 0
            | Some s =>
                i ← get_identity s;
                match current i with
                | None => assert false ;; mret 0
                | Some c => ob ← get_object c; mret (d_addr (o_data ob))
                end
            end);
  modify (fun w => w <| r_debug ::= fun r => RDebug 1 true RT_CONSISTENT ldbase (r_map r) (flat_link_map r) |>) ;;
  (if debugger (config l) then refresh
   else modify (fun w => w <| r_debug ::= fun r => r <| r_map :=
          if bool_decide (lookup (loader w) = []) then None else Some [] |> |>)) ;;
  w ← get;
  assert (bool_decide (is_Some (r_map (r_debug w)))) ;;
  (match self l with Some s => set_dynamic_debug s ;; mret tt | None => mret tt end) ;;
  (match lookup l with t :: _ => set_dynamic_debug t ;; mret tt | [] => mret tt end) ;;
  notify RT_CONSISTENT.
End gdb.
End GDB.
