(* ===== verification/Loader.v ===== *)
(** The loader (src/src/loader.hpp, src/src/loader.cpp): finding and opening libraries, relocating and
    updating everything that is loaded, symbol lookup, addresses for new objects and the start of a
    program.

    Parts that have a state of their own (thread local storage, trampolines, the redirection handler) and the
    functions for GLIBC (see Assembly.v) are the interface [Boot]. *)
From Stdlib Require Import Ascii.
From S2P Require Import Prelude Platform Segment Symbol World Object Identity Gdb Process.

Module Loader.
Import World Object Identity.

#[export] Existing Instance Process.eta_process.

Definition BASEADDRESS : Z := 0x6ffff0000000.
Definition LIBADDRESS : Z := 0x600000000000.
Definition PDCADDRESS : Z := 0x400000.
Definition AT_SYSINFO_EHDR : Z := 33.
Definition AT_RANDOM : Z := 25.

(** enum ResolveSymbolMode *)
Inductive ResolveSymbolMode :=
| RESOLVE_DEFAULT | RESOLVE_AFTER_OBJECT | RESOLVE_EXCEPT_OBJECT | RESOLVE_OBJECT_FIRST | RESOLVE_NO_DEPENDENCIES.
#[export] Instance ResolveSymbolMode_eq_dec : EqDecision ResolveSymbolMode.
Proof. solve_decision. Defined.

Class Boot := {
  tls_allocate : M world bool;              (* tls.allocate(nullptr, true) *)
  tls_dtv_setup : M world unit;
  setup_guards : Z -> M world unit;
  init_globals : M world unit;              (* GLIBC::RTLD::init_globals *)
  init_globals_tls : M world unit;
  glibc_init : M world unit;                (* GLIBC::init *)
  glibc_starting : M world unit;
  start_entry : M world Z;                  (* GLIBC::start_entry *)
  trampoline_update : M world unit;         (* symbol_trampoline.update() *)
  redirect_setup : Z -> M world unit;       (* Redirect::setup(trap_mode) *)
  dynamic_tags : list event -> Z -> list Z;   (* the entries of a dynamic section in memory, see Gdb.v *)
  r_debug_address : Z;
}.

Section loader.
Context `{DlhMath}.
Context (kernel : kernel_t) `{ObjectOps} `{Env} `{Symbol.StringOps} `{Boot}.
Abbreviation sys := (syscall_ kernel).
Abbreviation history := (gets trace).

(** ** Addresses *)

(** The objects of a list of identities, newest version first *)
Definition all_versions (w : world) (ids : list Z) : list Z :=
  concat ((fun i => match identities w !! i with Some id => versions id | None => [] end) <$> ids).

(** Loader::next_address *)
Definition next_free (w : world) : Z :=
  foldl (fun next o =>
    match objects w !! o with
    | Some ob =>
        match memory_range ob with
        | Some (_, e) => if (next <? e) && ((BASEADDRESS <? LIBADDRESS) || (e <? BASEADDRESS)) then e else next
        | None => next
        end
    | None => next
    end) (next_library_address (loader w)) (all_versions w (lookup (loader w))).
Definition next_address (size : Z) : M world Z :=
  w ← get;
  let next := next_free w in
  let next := if next =? 0 then (if position_independent (config (loader w)) then LIBADDRESS else PDCADDRESS) else next in
  let next := align_up next PAGE_SIZE in
  set_loader (fun l => l <| next_library_address := align_up (w64 (next + size)) PAGE_SIZE |>) ;;
  mret next.

(** Loader::reset_address *)
Definition reset_address (addr : Z) : M world unit :=
  set_loader (fun l => l <| next_library_address ::= fun n => math_min n (align_up addr PAGE_SIZE) |>).

Definition is_loaded (w : world) (i : Z) : bool := bool_decide (i ∈ lookup (loader w)).

(** ** Finding and opening files *)

(** lookup.emplace(position, ...): in front of an element, [None] is end().  Only valid iterators are used. *)
Fixpoint insert_before (pos x : Z) (l : list Z) : list Z :=
  match l with
  | [] => [x]
  | y :: l => if decide (y = pos) then x :: y :: l else y :: insert_before pos x l
  end.
Definition emplace (pos : option Z) (x : Z) : M world unit :=
  l ← get_loader;
  match pos with
  | None => set_loader (fun l => l <| lookup ::= fun k => k ++ [x] |>)
  | Some p => assert (bool_decide (p ∈ lookup l)) ;; set_loader (fun l => l <| lookup ::= insert_before p x |>)
  end.

(** lookup.pop_back() destroys the last identity *)
Definition pop_back : M world unit :=
  l ← get_loader;
  match last (lookup l) with
  | None => mret tt
  | Some x =>
      set_loader (fun l => l <| lookup ::= @removelast Z |>) ;;
      Identity.destroy kernel reset_address x
  end.

(** Loader::open; every nested archive takes one unit of fuel *)
Fixpoint open (fuel : nat) (filepath : string) (f : Flags) (priority : bool) (n : Z) (addr : Z)
  (type : ehdr_type) (altname : option string) : M world (option Z) :=
  match fuel with
  | O => no_fuel
  | S fuel =>
      tr ← history;
      if negb (addr =? 0) || file_exists tr filepath then
        n ← (if n =? NAMESPACE_NEW then
               l ← get_loader;
               set_loader (fun l => l <| next_namespace ::= Z.succ |>) ;;
               mret (next_namespace l)
             else mret n);
        let format := if negb (bool_decide (type = ET_NONE)) then FORMAT_ELF
                      else if negb (addr =? 0) then mem_format tr addr else file_format tr filepath in
        match format with
        | FORMAT_AR =>
            match archive tr filepath with
            | None => mret None
            | Some entries =>
                (fix members (l : list ar_entry) (obj : option Z) : M world (option Z) :=
                   match l with
                   | [] => mret obj
                   | e :: l =>
                       if is_regular e then
                         m ← sys (Sys_mmap 0 (entry_size e) (Z.lor PROT_READ PROT_WRITE) (Z.lor MAP_PRIVATE MAP_ANONYMOUS) (-1) 0);
                         a ← (match m with
                              | Success v => emit (Ev_copy v (entry_data e) (entry_size e)) ;; mret v
                              | Failure _ => mret (entry_data e)
                              end);
                         o ← open fuel filepath f priority n a ET_NONE (Some (entry_name e));
                         members l o
                       else members l obj
                   end) entries None
            end
        | FORMAT_ELF =>
            GDB.notify RT_ADD ;;
            l ← get_loader;
            i ← construct kernel f (Some filepath) n altname;
            emplace (if priority then dependencies l else None) i ;;
            (if negb priority && bool_decide (dependencies l = None)
             then set_loader (fun l => l <| dependencies := Some i |>) else mret tt) ;;
            o ← load kernel reset_address i addr type;
            GDB.refresh ;;
            GDB.notify RT_CONSISTENT ;;
            match o with
            | Some _ => mret (Some i)
            | None => pop_back ;; mret None
            end
        | FORMAT_OTHER => mret None
        end
      else mret None
  end.

(** Loader::open in a directory *)
Definition open_in (fuel : nat) (filename directory : string) (f : Flags) (priority : bool) (n : Z)
  (altname : option string) : M world (option Z) :=
  open fuel (directory +:+ "/" +:+ filename)%string f priority n 0 ET_NONE altname.

(** Loader::library *)
Definition find_loaded (w : world) (n : Z) (name : string) : option Z :=
  find (fun i => match identities w !! i with
                 | Some id => (ns id =? n) && bool_decide (World.name id = name)
                 | None => false
                 end) (lookup (loader w)).
Fixpoint search (fuel : nat) (filename : string) (dirs : list string) (f : Flags) (priority : bool) (n : Z)
  : M world (option Z) :=
  match dirs with
  | [] => mret None
  | d :: dirs =>
      o ← open_in fuel filename d f priority n None;
      match o with
      | Some i => mret (Some i)
      | None => search fuel filename dirs f priority n
      end
  end.
Definition search_path (l : Loader) (rpath runpath : list string) : list string :=
  rpath ++ library_path_runtime l ++ runpath ++ library_path_config l ++ library_path_default l.
Definition library (fuel : nat) (filename : string) (f : Flags) (priority : bool) (rpath runpath : list string)
  (n : Z) (do_load : bool) : M world (option Z) :=
  let name := str_find_last filename in
  w ← get;
  match (if n =? NAMESPACE_NEW then None else find_loaded w n name) with
  | Some i => mret (Some i)
  | None =>
      if do_load then
        if bool_decide (filename = name) then search fuel filename (search_path (loader w) rpath runpath) f priority n
        else open fuel filename f priority n 0 ET_NONE None
      else mret None
  end.

(** ** Preparing and updating *)

(** Enough fuel for the dependencies of everything *)
Definition all_fuel : M world nat := gets (fun w => S (size (objects w))).

(** Loader::relocate *)
Definition relocate (update : bool) : M world bool :=
  l ← get_loader;
  mfor (rev (lookup l)) id_preprepare ;;
  p ← (l ← get_loader; fuel ← all_fuel; all_until (id_prepare fuel) (rev (lookup l)));
  if negb p then mret false
  else
    u ← (if update then
           l ← get_loader;
           u ← all_until id_update (rev (lookup l));
           if u : bool then trampoline_update ;; mret true else mret false
         else mret true);
    if negb u then mret false
    else l ← get_loader; all_until (id_finalize kernel) (rev (lookup l)).

(** Loader::update *)
Definition loader_update : M world unit :=
  GDB.notify RT_ADD ;;
  r ← relocate true;
  assert r ;;
  set_loader (fun l => l <| update_pending := false |>) ;;
  GDB.refresh ;;
  GDB.notify RT_CONSISTENT.

(** __luci_update *)
Definition luci_update : M world Z :=
  l ← get_loader;
  if update_pending l then loader_update ;; mret 1 else mret 0.

(** Loader::dlopen *)
Definition dlopen (fuel : nat) (file : option string) (f : Flags) (n : Z) (do_load : bool) : M world (option Z) :=
  l ← get_loader;
  o ← (match file with
       | None => mret (target l)
       | Some p => library fuel p f false [] [] n do_load
       end);
  o ← (match o with
       | None => mret None
       | Some i =>
           set_identity i (fun x => x <| flags ::= fun g =>
             g <| bind_now := bind_now f |> <| bind_global := bind_global f |> <| bind_deep := bind_deep f |>
               <| persistent := persistent f |> <| updatable := dynamic_dlupdate (config l) |> |>) ;;
           if do_load then
             fuel ← all_fuel;
             p ← id_prepare fuel i;
             mret (if p : bool then Some i else None)
           else mret (Some i)
       end);
  match o with
  | Some i =>
      if do_load then
        fuel ← all_fuel;
        p ← id_initialize fuel i;
        mret (if p : bool then Some i else None)
      else mret (Some i)
  | None => mret None
  end.

(** ** Symbols *)

(** Loader::resolve_symbol; [None] when an assertion fails.  A step of the search is has_symbol with the best
    result so far; the first component tells that the search is over. *)
Abbreviation found := (option (bool * option VersionedSymbol)).

Definition try (w : world) (name : string) (hash gnu_hash : Z) (v : Version) (o : option Z) (r : found) : found :=
  match r with
  | Some (false, best) =>
      match o with
      | Some o => has_symbol w o name hash gnu_hash v best
      | None => None
      end
  | _ => r
  end.
Definition global_in (w : world) (n i : Z) : bool :=
  match identities w !! i with
  | Some id => (ns id =? n) && bind_global (flags id)
  | None => false
  end.
Definition current_of (w : world) (i : Z) : option Z :=
  match identities w !! i with Some id => current id | None => None end.

Fixpoint search_global (w : world) (name : string) (hash gnu_hash : Z) (v : Version) (n : Z) (obj : option Z)
  (mode : ResolveSymbolMode) (after : bool) (ids : list Z) (r : found) : found :=
  match ids with
  | [] => r
  | i :: ids =>
      if global_in w n i && bool_decide (is_Some (current_of w i)) then
        if after then
          search_global w name hash gnu_hash v n obj mode (negb (bool_decide (obj = Some i))) ids r
        else if negb (bool_decide (mode = RESOLVE_EXCEPT_OBJECT)) || negb (bool_decide (obj = Some i)) then
          search_global w name hash gnu_hash v n obj mode after ids (try w name hash gnu_hash v (current_of w i) r)
        else search_global w name hash gnu_hash v n obj mode after ids r
      else search_global w name hash gnu_hash v n obj mode after ids r
  end.
Fixpoint search_dependencies (w : world) (name : string) (hash gnu_hash : Z) (v : Version) (n : Z) (obj : Z)
  (mode : ResolveSymbolMode) (deps : list Z) (r : found) : found :=
  match deps with
  | [] => r
  | i :: deps =>
      if negb (bool_decide (mode = RESOLVE_AFTER_OBJECT)) && global_in w n i then
        search_dependencies w name hash gnu_hash v n obj mode deps r
      else if negb (bool_decide (mode = RESOLVE_EXCEPT_OBJECT)) || negb (bool_decide (obj = i)) then
        search_dependencies w name hash gnu_hash v n obj mode deps (try w name hash gnu_hash v (current_of w i) r)
      else search_dependencies w name hash gnu_hash v n obj mode deps r
  end.
Definition resolve_symbol (w : world) (name : string) (hash gnu_hash : Z) (v : Version) (n : Z) (obj : option Z)
  (mode : ResolveSymbolMode) : option (option VersionedSymbol) :=
  let step := try w name hash gnu_hash v in
  if bool_decide (obj = None) && negb (bool_decide (mode = RESOLVE_DEFAULT)) then None
  else
    let own := match obj with Some i => current_of w i | None => None end in
    let r : found := Some (false, None) in
    let r := if bool_decide (mode = RESOLVE_OBJECT_FIRST) then step own r else r in
    let r := search_global w name hash gnu_hash v n obj mode (bool_decide (mode = RESOLVE_AFTER_OBJECT)) (lookup (loader w)) r in
    let r :=
      match obj with
      | None => r
      | Some i =>
          let r := if bool_decide (mode = RESOLVE_NO_DEPENDENCIES) then r
                   else match r, own with
                        | Some (false, _), None => None
                        | _, Some o => search_dependencies w name hash gnu_hash v n i mode
                                         (match objects w !! o with Some ob => o_dependencies ob | None => [] end) r
                        | _, None => r
                        end in
          if bool_decide (mode = RESOLVE_OBJECT_FIRST) then r else step own r
      end in
    match r with Some (_, best) => Some best | None => None end.

(** Loader::resolve_symbol by name, without a version *)
Definition resolve (w : world) (name : string) (version : option string) (n : Z) (obj : option Z)
  (mode : ResolveSymbolMode) : option (option VersionedSymbol) :=
  resolve_symbol w name (Symbol.elf_hash (Some name)) (Symbol.gnu_hash (Some name))
    (Symbol.mk_version version false None) n obj mode.

(** Loader::resolve_object: the version whose memory contains an address *)
Definition spans (ob : Object) (addr : Z) : bool :=
  existsb (fun s => (MemorySegment.address s <=? addr)
                    && (addr <=? w64 (MemorySegment.address s + MemorySegment.size s))) (o_memory_map ob).
Definition in_ns (w : world) (n i : Z) : bool :=
  match identities w !! i with Some id => ns id =? n | None => false end.
Definition resolve_object (w : world) (addr n : Z) : option Z :=
  find (fun o => match objects w !! o with Some ob => spans ob addr | None => false end)
    (all_versions w (filter (fun i => in_ns w n i = true) (lookup (loader w)))).
Definition resolve_address (w : world) (addr n : Z) : option VersionedSymbol :=
  match resolve_object w addr n with Some o => v_resolve_address w o addr | None => None end.
(** ** Starting a program *)

(** Loader::prepare: [vdso] are the functions DLH uses instead of system calls from now on *)
Definition vdso_functions : list string :=
  ["__vdso_clock_gettime"; "__vdso_clock_getres"; "__vdso_getcpu"; "__vdso_time"].
Definition vdso_bindings (w : world) : option (list (string * Z)) :=
  foldr (fun n acc =>
    match resolve w n None NAMESPACE_BASE None RESOLVE_DEFAULT, acc with
    | Some (Some s), Some l => Some ((n, symbol_pointer w s) :: l)
    | Some None, Some l => Some l
    | _, _ => None
    end) (Some []) vdso_functions.
Definition prepare (start : Z) : M world bool :=
  w ← get;
  assert (bool_decide (is_Some (vdso_bindings w))) ;;
  init_globals ;;
  t ← tls_allocate;
  set_loader (fun l => l <| main_thread := t |>) ;;
  r ← relocate false;
  if negb r then mret false
  else
    (match auxiliary AT_RANDOM with Some a => setup_guards a | None => mret tt end) ;;
    tls_dtv_setup ;;
    init_globals_tls ;;
    glibc_init ;;
    GDB.init kernel dynamic_tags r_debug_address ;;
    Object.initialize start true ;;
    l ← get_loader;
    fuel ← all_fuel;
    ok ← all_until (id_initialize fuel) (rev (lookup l));
    if negb ok then mret false
    else
      Object.finalize kernel start ;;
      glibc_starting ;;
      mret true.

(** Loader::get_entry_point *)
Fixpoint relative_entry (s : string) (base entry : Z) : Z :=
  match s with
  | EmptyString => entry
  | String c s =>
      let entry := if bool_decide (c = "+"%char) then w64 (entry + base) else entry in
      if bool_decide (c = " "%char) then relative_entry s base entry else entry
  end.
Definition get_entry_point (start : Z) (custom : option string) : M world Z :=
  ob ← get_object start;
  w ← get;
  tr ← history;
  entry ←
    (match custom with
     | None => mret 0
     | Some c =>
         match resolve w c None NAMESPACE_BASE (self (loader w)) RESOLVE_EXCEPT_OBJECT with
         | None => assert false ;; mret 0
         | Some (Some s) => mret (symbol_pointer w s)
         | Some None => mret (match parse_number c with
                              | Some a => relative_entry c (o_base ob) a
                              | None => 0
                              end)
         end
     end);
  if entry =? 0 then
    let h := header_at tr (d_addr (o_data ob)) in
    if bool_decide (h_type h = ET_REL) then start_entry
    else mret (w64 (o_base ob + h_entry h))
  else mret entry.

(** The reordering of the environment in run: empty entries go to the end. *)
Section reorder.
Context {A : Type} (is_empty : A -> bool).
Definition empty_at (l : list A) (k : nat) : bool := match l !! k with Some x => is_empty x | None => false end.
Definition swap (l : list A) (i j : nat) : list A :=
  match l !! i, l !! j with
  | Some x, Some y => <[i := y]> (<[j := x]> l)
  | _, _ => l
  end.
(** The inner loop: the last entry in front of [envc] that is not empty, at least [curr] *)
Fixpoint skip_empty (l : list A) (envc curr : nat) : nat :=
  match envc with
  | O => O
  | S envc => if empty_at l envc && (curr <? envc)%nat then skip_empty l envc curr else envc
  end.
Fixpoint reorder_from (fuel : nat) (l : list A) (curr envc : nat) : list A :=
  match fuel with
  | O => l
  | S fuel =>
      if (curr <? envc)%nat then
        if empty_at l curr then
          let envc := skip_empty l envc curr in
          reorder_from fuel (swap l envc curr) (S curr) envc
        else reorder_from fuel l (S curr) envc
      else l
  end.
Definition reorder (l : list A) : list A := reorder_from (length l) l 0 (length l).
End reorder.

(** Both versions of Loader::run from "Binary has to be first in list" on; the result tells the registers the
    program is started with. *)
Definition run_from (file start sp : Z) (entry_point : option string) : M world (option (list (Process.reg * Z))) :=
  set_loader (fun l => l <| lookup ::= fun k => file :: filter (fun i => i <> file) k |>) ;;
  p ← prepare start;
  if negb p then
    set_identity file (fun x => x <| flags ::= fun f => f <| initialized := false |> |>) ;; mret None
  else
    entry ← get_entry_point start entry_point;
    set_loader (fun l => l <| process_started := true |>) ;;
    mret (Some (Process.start entry sp)).

(** The checks at the beginning of run: the object to start, if it has memory *)
Definition run_start (file : Z) : M world (option Z) :=
  set_loader (fun l => l <| target := Some file |>) ;;
  id ← get_identity file;
  match versions id with
  | [start] =>
      ob ← get_object start;
      mret (if bool_decide (o_memory_map ob = []) then None else Some start)
  | _ => assert false ;; mret None
  end.
Definition mark_initialized (file : Z) : M world unit :=
  set_identity file (fun x => x <| flags ::= fun f => f <| initialized := true |> |>).

(** What a process is made of (process.hpp): the strings of the environment, the auxiliary vector, the limit of the
    stack, and the memory *)
Record surroundings := Surroundings {
  environ : list (list Z); auxv : list (Z * Z); rlim_cur : Z; initial_memory : memory;
}.
(** An operation of a component of its own, with the history of the world *)
Definition with_history {A} (m : M (traced unit) A) : M world A := fun w =>
  match m (Traced tt (trace w)) with
  | Ok (a, t) => Ok (a, w <| trace := t_trace t |>)
  | AssertFailed => AssertFailed
  | OutOfFuel => OutOfFuel
  end.

(** Loader::run(file, args, ...); the process ends when there is no stack *)
Definition run_args (hash_insert : Z -> Z -> gmap Z Z -> gmap Z Z) (hash_entries : gmap Z Z -> list (Z * Z)) (env : surroundings)
  (file : Z) (args : list (list Z)) (sp size : Z) (entry_point : option string) : M world (option (list (Process.reg * Z))) :=
  s ← run_start file;
  match s with
  | None => mret None
  | Some start =>
      ob ← get_object start;
      tr ← history;
      let h := header_at tr (d_addr (o_data ob)) in
      (if bool_decide (h_type h = ET_REL) then mret tt else mark_initialized file) ;;
      p ← with_history (Process.construct kernel hash_insert (environ env) (auxv env) (rlim_cur env) sp size (initial_memory env));
      match p with
      | None => mret None
      | Some p =>
          let p := p <| Process.aux ::= fun a =>
            <[Process.AT_PHNUM := e_phnum h]> (<[Process.AT_PHDR := w64 (o_base ob + e_phoff h)]> a) |> in
          match Process.init hash_entries args p with
          | None => assert false ;; mret None
          | Some p =>
              set_loader (fun l => l <| argc := Process.argc p |> <| argv := Process.argv p |> <| envp := Process.envp p |>) ;;
              run_from file start (Process.stack_pointer p) entry_point
          end
      end
  end.

(** Loader::run(file, stack_pointer, ...): the stack Luci itself was started with; the environment is reordered
    in place, [store_env] puts it back *)
Definition run_stack (read_argc : Z -> Z) (read_env : Z -> list (Z * bool)) (store_env : Z -> list (Z * bool) -> M world unit)
  (file sp : Z) (entry_point : option string) : M world (option (list (Process.reg * Z))) :=
  s ← run_start file;
  match s with
  | None => mret None
  | Some start =>
      mark_initialized file ;;
      let argc := s32 (read_argc sp) in
      let argv := w64 (sp + 8) in
      let envp := w64 (argv + 8 * (argc + 1)) in
      set_loader (fun l => l <| World.argc := argc |> <| World.argv := argv |> <| World.envp := envp |>) ;;
      store_env envp (reorder snd (read_env envp)) ;;
      run_from file start sp entry_point
  end.

(** ** The life of the loader *)

(** Loader::start_handler_threads *)
Definition close_if_open (fd : Z) : M world unit := if fd =? -1 then mret tt else sys (Sys_close fd) ;; mret tt.
Definition start_userfault : M world bool :=
  u ← sys Sys_userfaultfd;
  match u with
  | Failure _ => mret false
  | Success fd =>
      set_loader (fun l => l <| userfaultfd := fd |>) ;;
      a ← sys (Sys_uffd_api fd);
      mret (success a)
  end.
Definition start_inotify : M world bool :=
  n ← sys Sys_inotify_init;
  match n with
  | Failure _ => mret false
  | Success fd =>
      set_loader (fun l => l <| filemodification_inotifyfd := fd |>) ;;
      l ← get_loader;
      mfor (lookup l) (fun i => watch kernel i true false ;; mret tt) ;;
      t ← sys Sys_thread_create;
      set_loader (fun l => l <| handler_thread := success t |>) ;;
      mret (success t)
  end.
Definition start_handler_threads : M world bool :=
  l ← get_loader;
  close_if_open (filemodification_inotifyfd l) ;;
  set_loader (fun l => l <| filemodification_inotifyfd := -1 |>) ;;
  close_if_open (userfaultfd l) ;;
  set_loader (fun l => l <| userfaultfd := -1 |>) ;;
  if dynamic_update (config l) then
    u ← (if bool_decide (detect_outdated (config l) = DETECT_OUTDATED_VIA_USERFAULTFD) then start_userfault else mret true);
    n ← start_inotify;
    mret (u && n)
  else mret true.

(** Loader::Loader, from the loader's state with its default member initializers *)
Definition static_flags : Flags :=
  no_flags <| bind_global := true |> <| persistent := true |> <| immutable_source := true |>
           <| initialized := true |> <| premapped := true |>.
Definition loader_init (fuel : nat) (luci_self : Z) (sopath : string) : M world unit :=
  set_loader (fun l => l <| default_flags ::= fun f =>
    let f := f <| bind_global := true |> in
    if dynamic_update (config l) then f <| updatable := true |> else f <| immutable_source := true |> |>) ;;
  start_handler_threads ;;
  l ← get_loader;
  (if enable_vdso (config l) then
     match auxiliary AT_SYSINFO_EHDR with
     | Some v => open fuel "linux-vdso.so.1" static_flags true NAMESPACE_BASE v ET_NONE None ;; mret tt
     | None => mret tt
     end
   else mret tt) ;;
  assert (negb (luci_self =? 0)) ;;
  s ← open fuel sopath static_flags true NAMESPACE_BASE luci_self ET_NONE None;
  set_loader (fun l => l <| self := s |>) ;;
  match s with
  | None => assert false
  | Some i =>
      id ← get_identity i;
      (match current id with
       | Some o => set_object o (fun ob => ob <| o_base := 0 |>)
       | None => assert false
       end) ;;
      if dynamic_update (config l) then redirect_setup (trap_mode (config l)) else mret tt
  end.

(** Loader::~Loader *)
Definition loader_destroy : M world unit :=
  l ← get_loader;
  (if 0 <=? statusinfofd l then sys (Sys_close (statusinfofd l)) ;; mret tt else mret tt) ;;
  (if dynamic_update (config l) && (0 <=? filemodification_inotifyfd l)
   then sys (Sys_close (filemodification_inotifyfd l)) ;; mret tt else mret tt) ;;
  (if bool_decide (detect_outdated (config l) = DETECT_OUTDATED_VIA_USERFAULTFD) && (0 <=? userfaultfd l)
   then sys (Sys_close (userfaultfd l)) ;; mret tt else mret tt) ;;
  mfor (lookup l) (Identity.destroy kernel reset_address) ;;
  set_loader (fun l => l <| lookup := [] |>).
End loader.
End Loader.
