(* ===== verification/Helper.v ===== *)
(** The helper thread (src/src/loader_helper.cpp): it notices modified files, loads the new versions after a
    delay, protects the outdated versions after another delay and handles the page faults of
    protected code that is used again.

    A work list is a TreeSet of pairs of a time and an identity or object: a list without duplicates in
    ascending order. *)
From S2P Require Import Prelude Platform Segment Symbol World Object Identity Gdb Loader.

Module Helper.
Import World Object Identity Loader.

Definition SECOND_NS : Z := 1000000000.
Definition IN_Q_OVERFLOW : Z := 0x4000.
Definition IN_IGNORED : Z := 0x8000.
Definition IN_ISDIR : Z := 0x40000000.
Definition SIGSTOP : Z := 19.
Definition SIGCONT : Z := 18.
Definition SIGTERM : Z := 15.
Definition SIGKILL : Z := 9.
Definition EAGAIN : Z := 11.

(** ** Work lists *)

Abbreviation worklist := (list (Z * Z)).
Definition pair_ltb (a b : Z * Z) : bool := (a.1 <? b.1) || ((a.1 =? b.1) && (a.2 <? b.2)).
Fixpoint tree_insert (x : Z * Z) (l : worklist) : worklist :=
  match l with
  | [] => [x]
  | y :: l' => if pair_ltb x y then x :: l else if bool_decide (x = y) then l else y :: tree_insert x l'
  end.
Definition tree_erase (x : Z * Z) (l : worklist) : worklist := filter (fun y => y <> x) l.

(** An inotify event as far as it is looked at, and a message of the userfault descriptor *)
Record inotify_event := InotifyEvent { ev_wd : Z; ev_mask : Z }.
Inductive uffd_event := UFFD_EVENT_PAGEFAULT (address : Z) | UFFD_EVENT_OTHER.

(** What the descriptors deliver *)
Class HelperEnv := {
  inotify_read : list event -> list inotify_event;
  uffd_read : list event -> uffd_event;
  poll_readable : list event -> Z -> bool;       (* revents & POLLIN of a descriptor *)
  clock : list event -> Z;                       (* CLOCK_MONOTONIC_COARSE in nanoseconds *)
}.

Section helper.
Context `{DlhMath}.
Context (kernel : kernel_t) `{ObjectOps} `{Env} `{Symbol.StringOps} `{Boot} `{HelperEnv}.
Abbreviation sys := (syscall_ kernel).
Abbreviation history := (gets trace).

(** ** Noticing modifications *)

(** The body of the loop over all identities *)
Definition notice (now : Z) (check_all : bool) (e : inotify_event) (i : Z) (wl : worklist) : M world worklist :=
  id ← get_identity i;
  let due := w64 (now + SECOND_NS) in
  if check_all then mret (tree_insert (due, i) wl)
  else if ev_wd e =? wd id then
    if has_flag (ev_mask e) IN_IGNORED then watch kernel i true true ;; mret wl
    else
      match find (fun x => bool_decide (x.2 = i)) wl with
      | Some x => if x.1 =? due then mret wl else mret (tree_insert (due, i) (tree_erase x wl))
      | None => mret (tree_insert (due, i) wl)
      end
  else mret wl.
Fixpoint notice_all (now : Z) (check_all : bool) (e : inotify_event) (ids : list Z) (wl : worklist) : M world worklist :=
  match ids with
  | [] => mret wl
  | i :: ids => wl ← notice now check_all e i wl; notice_all now check_all e ids wl
  end.
Fixpoint notice_events (now : Z) (es : list inotify_event) (wl : worklist) : M world worklist :=
  match es with
  | [] => mret wl
  | e :: es =>
      assert (negb (has_flag (ev_mask e) IN_ISDIR)) ;;
      let check_all := has_flag (ev_mask e) IN_Q_OVERFLOW in
      wl ← (if ev_wd e =? -1 then mret wl
            else l ← get_loader; notice_all now check_all e (lookup l) wl);
      notice_events now es wl
  end.

(** Loader::filemodification_detect; a failed read delivers no events *)
Definition filemodification_detect (now : Z) (wl : worklist) : M world worklist :=
  l ← get_loader;
  tr ← history;
  r ← sys (Sys_read (filemodification_inotifyfd l) 4096);
  match r with
  | Success len => if len <=? 0 then mret wl else notice_events now (inotify_read tr) wl
  | Failure _ => mret wl
  end.

(** ** Loading new versions *)

(** Loader::filemodification_load_helper; every nested archive takes one unit of fuel *)
Fixpoint load_helper (fuel : nat) (i addr : Z) : M world bool :=
  match fuel with
  | O => no_fuel
  | S fuel =>
      id ← get_identity i;
      tr ← history;
      match (if negb (addr =? 0) then mem_format tr addr else file_format tr (path id)) with
      | FORMAT_AR =>
          match archive tr (path id) with
          | None => mret false
          | Some entries =>
              match find (fun e => is_regular e && bool_decide (entry_name e = name id)) entries with
              | None => mret false
              | Some e =>
                  m ← sys (Sys_mmap 0 (entry_size e) (Z.lor PROT_READ PROT_WRITE) (Z.lor MAP_PRIVATE MAP_ANONYMOUS) (-1) 0);
                  a ← (match m with
                       | Success v => emit (Ev_copy v (entry_data e) (entry_size e)) ;; mret v
                       | Failure _ => mret (entry_data e)
                       end);
                  load_helper fuel i a
              end
          end
      | FORMAT_ELF =>
          o ← load kernel reset_address i addr ET_NONE;
          mret (bool_decide (is_Some o))
      | FORMAT_OTHER => mret false
      end
  end.

(** The loop over the entries that are due; gives the rest of both work lists and whether anything was loaded *)
Fixpoint load_due (fuel : nat) (now : Z) (wl protect : worklist) (updated : bool) : M world (worklist * worklist * bool) :=
  match wl with
  | [] => mret ([], protect, updated)
  | x :: rest =>
      if x.1 <=? now then
        b ← load_helper fuel x.2 0;
        c ← get_config;
        protect ←
          (if (b : bool) && negb (bool_decide (detect_outdated c = DETECT_OUTDATED_DISABLED)) then
             id ← get_identity x.2;
             match versions id with
             | _ :: prev :: _ => mret (tree_insert (w64 (now + detect_outdated_delay c * SECOND_NS), prev) protect)
             | _ => assert false ;; mret protect
             end
           else mret protect);
        load_due fuel now rest protect (updated || b)
      else mret (wl, protect, updated)
  end.

(** Loader::filemodification_load *)
Definition has_update_point (w : world) : bool :=
  existsb (fun i => match identities w !! i with Some id => update_point (hook id) | None => false end) (lookup (loader w)).
Definition filemodification_load (fuel : nat) (now : Z) (wl protect : worklist) : M world (worklist * worklist) :=
  '(wl, protect, updated) ← load_due fuel now wl protect false;
  (if updated : bool then
     w ← get;
     if has_update_point w then set_loader (fun l => l <| update_pending := true |>)
     else
       l ← get_loader;
       (if stop_on_update (config l) then sys (Sys_kill (pid l) SIGSTOP) ;; mret tt else mret tt) ;;
       loader_update kernel ;;
       (if stop_on_update (config l) then sys (Sys_kill (pid l) SIGCONT) ;; mret tt else mret tt)
   else mret tt) ;;
  mret (wl, protect).

(** ** Protecting outdated versions *)

(** Loader::filemodification_protect *)
Fixpoint filemodification_protect (now : Z) (wl : worklist) : M world worklist :=
  match wl with
  | [] => mret []
  | x :: rest =>
      if x.1 <=? now then disable kernel x.2 ;; filemodification_protect now rest
      else mret wl
  end.

(** ** Page faults in protected code *)

(** The segment whose pages contain an address: object and index *)
Fixpoint find_page (l : list segment) (a : Z) (k : nat) : option (nat * segment) :=
  match l with
  | [] => None
  | s :: l => if (MemorySegment.page_start s <=? a) && (a <? MemorySegment.page_end s) then Some (k, s) else find_page l a (S k)
  end.
Fixpoint find_fault (w : world) (os : list Z) (a : Z) : option (Z * nat * segment) :=
  match os with
  | [] => None
  | o :: os =>
      match objects w !! o with
      | Some ob => match find_page (o_memory_map ob) a 0 with
                   | Some (k, s) => Some (o, k, s)
                   | None => find_fault w os a
                   end
      | None => find_fault w os a
      end
  end.

(** [while (cpy.src != 0)]: repeated as long as the copy is interrupted *)
Fixpoint copy_back (fuel : nat) (dst src len : Z) (reactivate : M world unit) : M world unit :=
  match fuel with
  | O => no_fuel
  | S fuel =>
      if src =? 0 then mret tt
      else
        l ← get_loader;
        r ← sys (Sys_uffd_copy (userfaultfd l) dst src len);
        match r with
        | Success _ => reactivate
        | Failure e => if e =? EAGAIN then copy_back fuel dst src len reactivate else mret tt
        end
  end.

(** Loader::userfault_handle; [uninit] is the contents of the variable [cpy] (src, dst, len) before it is set *)
Definition userfault_handle (fuel : nat) (uninit : Z * Z * Z) : M world unit :=
  l ← get_loader;
  tr ← history;
  r ← sys (Sys_read (userfaultfd l) 32);
  let handle :=
    match uffd_read tr with
    | UFFD_EVENT_OTHER => mret tt
    | UFFD_EVENT_PAGEFAULT a =>
        w ← get;
        match find_fault w (all_versions w (lookup (loader w))) a with
        | None =>
            let '(src, dst, len) := uninit in
            copy_back fuel dst src len (assert false)
        | Some (o, k, s) =>
            ob ← get_object o;
            status kernel (o_file ob) INFO_FAILED_REUSE ;;
            let src := if MemorySegment.buffer s =? 0
                       then w64 (d_addr (o_data ob) + MemorySegment.src_offset s
                                 - (MemorySegment.address s - MemorySegment.page_start s))
                       else MemorySegment.buffer s in
            copy_back fuel (MemorySegment.page_start s) src (MemorySegment.page_size s)
              (on_segment o k (fun _ => upd (MemorySegment.set_status MemorySegment.MEMSEG_REACTIVATED)))
        end
    end in
  match r with
  | Failure e => if e =? EAGAIN then handle else mret tt
  | Success len => if len =? 0 then mret tt else handle
  end.

(** ** The loop *)

(** One round of Loader::helper_loop; [None] when poll fails and the loop ends *)
Definition helper_step (fuel : nat) (uninit : Z * Z * Z) (wls : worklist * worklist) : M world (option (worklist * worklist)) :=
  l ← get_loader;
  let fds := filemodification_inotifyfd l :: (if userfaultfd l =? -1 then [] else [userfaultfd l]) in
  p ← sys (Sys_poll fds 1000);
  match p with
  | Failure _ => mret None
  | Success n =>
      tr ← history;
      let now := clock tr in
      load ← (if (0 <? n) && poll_readable tr (filemodification_inotifyfd l)
              then filemodification_detect now wls.1 else mret wls.1);
      (if (0 <? n) && negb (userfaultfd l =? -1) && poll_readable tr (userfaultfd l)
       then userfault_handle fuel uninit else mret tt) ;;
      '(load, protect) ← (if bool_decide (load = []) then mret (load, wls.2) else filemodification_load fuel now load wls.2);
      protect ← (if bool_decide (protect = []) then mret protect else filemodification_protect now protect);
      mret (Some (load, protect))
  end.
Fixpoint helper_loop (rounds fuel : nat) (uninit : Z * Z * Z) (wls : worklist * worklist) : M world unit :=
  match rounds with
  | O => no_fuel
  | S rounds =>
      r ← helper_step fuel uninit wls;
      match r with
      | None => mret tt
      | Some wls => helper_loop rounds fuel uninit wls
      end
  end.

(** helper_signal: the exit code *)
Definition helper_signal (signum : Z) : M world Z :=
  if signum =? SIGTERM then mret 0
  else sys (Sys_kill 0 SIGKILL) ;; mret (128 + signum).
End helper.
End Helper.
