(* ===== verification/Executable.v ===== *)
(** Executables without a dynamic section (src/src/object/executable.hpp, src/src/object/executable.cpp): the memory
    segments an object gets from its program headers, the thread local storage it registers and the
    memory files a new version takes over.

    The program headers are read through [ElfEnv], the interface of the ELF library for what the
    classes of objects read (the tables of dynamic objects are in Dynamic.v). *)
From S2P Require Import Prelude Platform Segment Symbol Tls World Object.

Module Executable.
Import World Object.

Definition PT_LOAD : Z := 1.
Definition PT_TLS : Z := 7.
Definition PT_GNU_EH_FRAME : Z := 0x6474e550.
Definition PT_GNU_RELRO : Z := 0x6474e552.

Abbreviation elf_segment := MemorySegment.elf_segment.

(** The program headers of an object, type first *)
Class ElfSegments := { elf_segments : Z -> list (Z * elf_segment) }.

Section executable.
Context `{DlhMath} `{ElfSegments}.

(** [o->file_previous]; a new object is not yet in the chain when it is compared with the current version. *)
Definition previous (i : ObjectIdentity) (o : Z) : option Z :=
  if decide (o ∈ versions i) then head (older o (versions i)) else current i.

(** An operation of the list of TLS modules (Tls.v), which does not depend on the thread *)
Definition on_tls {A} (m : M TLS.world A) : M world A := fun w =>
  match m (TLS.World (loader_tls (loader w)) (TLS.Thread 0 0 0 None) ∅ []) with
  | Ok (a, t) => Ok (a, w <| loader ::= fun l => l <| loader_tls := TLS.w_tls t |> |>)
  | AssertFailed => AssertFailed
  | OutOfFuel => OutOfFuel
  end.

(** The relocation read-only segment: the last one whose size in memory is its size in the file *)
Definition relro_of (segs : list (Z * elf_segment)) : option elf_segment :=
  foldl (fun r '(t, g) =>
    if (t =? PT_GNU_RELRO) && (MemorySegment.seg_virt_size g =? MemorySegment.seg_size g) then Some g else r) None segs.

(** memory_map.emplace_back( *this, segment, base, offset_delta) *)
Definition emplace_segment (o : Z) (g : elf_segment) (offset_delta : Z) : M world unit :=
  ob ← get_object o;
  id ← get_identity (o_file ob);
  l ← get_loader;
  match MemorySegment.of_segment (object_ctx l id o ob) g (o_base ob) offset_delta with
  | Some s => set_object o (fun x => x <| o_memory_map ::= fun m => m ++ [s] |>)
  | None => assert false
  end.

(** case PT_LOAD *)
Definition load_segment (o : Z) (relro : option elf_segment) (g : elf_segment) : M world unit :=
  if 0 <? MemorySegment.seg_virt_size g then
    match relro with
    | Some r =>
        if (MemorySegment.seg_offset g =? MemorySegment.seg_offset r)
           && (MemorySegment.seg_virt_addr g =? MemorySegment.seg_virt_addr r)
           && (MemorySegment.seg_alignment g =? 0x1000)
        then
          emplace_segment o r 0 ;;
          (if 0 <? w64 (MemorySegment.seg_virt_size g - MemorySegment.seg_virt_size r) then
             assert (w64 (MemorySegment.seg_virt_addr r + MemorySegment.seg_virt_size r) mod PAGE_SIZE =? 0) ;;
             emplace_segment o g (MemorySegment.seg_virt_size r)
           else mret tt)
        else emplace_segment o g 0
    | None => emplace_segment o g 0
    end
  else mret tt.

(** case PT_TLS *)
Definition tls_segment (o : Z) (g : elf_segment) : M world unit :=
  ob ← get_object o;
  id ← get_identity (o_file ob);
  if (0 <? MemorySegment.seg_virt_size g) && (tls_module_id id =? 0) then
    '(modid, off) ← on_tls (TLS.add_module (o_file ob) (MemorySegment.seg_virt_size g) (MemorySegment.seg_alignment g)
                              (MemorySegment.seg_virt_addr g) (MemorySegment.seg_size g));
    set_identity (o_file ob) (fun i => i <| tls_module_id := Z.of_nat modid |> <| tls_offset := off |>)
  else mret tt.

Definition preload_segment (o : Z) (relro : option elf_segment) (s : Z * elf_segment) : M world unit :=
  if s.1 =? PT_LOAD then load_segment o relro s.2
  else if s.1 =? PT_TLS then tls_segment o s.2
  else if s.1 =? PT_GNU_EH_FRAME then
    set_object o (fun x => x <| o_dyn ::= fun d => d <| eh_frame := w64 (o_base x + MemorySegment.seg_virt_addr s.2) |> |>)
  else mret tt.

(** Shared data on updates: the memory files of the previous version *)
Fixpoint take_over (prev cur : list segment) : list segment :=
  match prev, cur with
  | p :: prev, c :: cur =>
      (if MemorySegment.fd p =? -1 then c else MemorySegment.set_fd (MemorySegment.fd p) c) :: take_over prev cur
  | _, _ => cur
  end.

(** ObjectExecutable::preload_segments *)
Definition preload_segments (o : Z) (setup_relro : bool) : M world bool :=
  let segs := elf_segments o in
  let relro := if setup_relro then relro_of segs else None in
  mfor segs (preload_segment o relro) ;;
  ob ← get_object o;
  id ← get_identity (o_file ob);
  match previous id o with
  | None => mret (negb (bool_decide (o_memory_map ob = [])))
  | Some p =>
      pob ← get_object p;
      if negb (length (o_memory_map ob) =? length (o_memory_map pob))%nat then mret false
      else
        set_object o (fun x => x <| o_memory_map := take_over (o_memory_map pob) (o_memory_map x) |>) ;;
        mret (negb (bool_decide (o_memory_map ob = [])))
  end.
End executable.
End Executable.
