(* ===== verification/Dynamic.v ===== *)
(** Dynamic objects (src/src/object/dynamic.hpp, src/src/object/dynamic.cpp): construction, the libraries they
    need, symbol versions and lookup, relocation, and what an update changes in outdated versions.

    The tables of the ELF file are read through [ElfTables], the relocation types are known to
    [RelocatorOps] (both elfo), [DynEnv] are functions of DLH and Bean.  The values of these
    interfaces are indexed by the object. *)
From Stdlib Require Import Ascii.
From S2P Require Import Prelude Platform Segment Symbol Tls World Object Identity Gdb Loader Executable.

Module Dynamic.
Import World Object.

Definition DT_NEEDED : Z := 1.
Definition DT_PLTGOT : Z := 3.
Definition DT_SONAME : Z := 14.
Definition DT_RPATH : Z := 15.
Definition DT_RUNPATH : Z := 29.
Definition DT_FLAGS : Z := 30.
Definition DT_FLAGS_1 : Z := 0x6ffffffb.
Definition DF_BIND_NOW : Z := 8.
Definition DF_1_NOW : Z := 1.
Definition DF_1_GLOBAL : Z := 2.
Definition VER_NDX_LOCAL : Z := 0.
Definition VER_NDX_GLOBAL : Z := 1.
Definition STN_UNDEF : Z := 0.
Definition AT_PLATFORM : Z := 15.
Definition libinfo_count : Z := 80.

(** ** The tables of an object *)

(** Elf::Dyn: tag, value, the value as string and the address of the entry *)
Record dyn_entry := DynEntry { d_tag : Z; d_value : Z; d_string : string; d_ptr : Z }.

(** Elf::VersionDefinition (with the name of its first auxiliary entry) and Elf::VersionNeeded *)
Record version_def := VersionDef { vd_base : bool; vd_hash : Z; vd_index : Z; vd_weak : bool; vd_name : string }.
Record version_aux := VersionAux { va_name : string; va_hash : Z; va_index : Z; va_weak : bool }.
Record version_need := VersionNeed { vn_file : string; vn_aux : list version_aux }.

Class ElfTables := {
  dynamic_table : Z -> list dyn_entry;
  get_soname : Z -> option string;
  virt_offset : Z -> Z;
  dynamic_relocations : Z -> list relocation;
  dynamic_relocations_plt : Z -> list relocation;
  relative_relocations : Z -> list Z;                     (* their offsets *)
  version_needed : Z -> list version_need;
  version_definition : Z -> list version_def;
  dynamic_symbols : Z -> list elf_symbol;
  symbol_index : Z -> string -> Z -> Z -> Z -> Z;         (* SymbolTable::index(name, hash, gnu_hash, version) *)
  symbol_version : Z -> Z -> Z;                           (* SymbolTable::version(index) *)
  elf_identification : Z -> Z * Z * Z;                    (* header: identification, machine, version *)
}.

(** Relocator(reloc, got): the place and value of a relocation, and what memory holds there *)
Class RelocatorOps := {
  r_address : relocation -> Z -> Z -> Z;                  (* address(base) *)
  r_is_copy : relocation -> bool;
  r_value_internal : relocation -> Z -> Z -> Z -> Z -> Z -> Z;
  r_value_external : relocation -> Z -> Z -> VersionedSymbol -> Z -> Z -> Z -> Z -> Z;
  r_valid_value : relocation -> Z -> bool;
  r_fixed : relocation -> Z -> Z;                         (* the result of fix_value for a value *)
  r_read : list event -> relocation -> Z -> Z -> Z;       (* read_value(base) *)
  read_word : list event -> Z -> Z;                       (* the word at an address *)
}.

(** DLH's strings, the rest of glibc's compatibility, Bean and the redirections (Redirect.v) *)
Class DynEnv := {
  split_colon : string -> list string;                    (* String::split_inplace(..., ':') *)
  replace_inplace : string -> nat -> string -> string -> string; (* buffer, its size, from, to *)
  string_at : Z -> string;
  relocations_insert : relocation -> VersionedSymbol -> list (relocation * VersionedSymbol) -> list (relocation * VersionedSymbol);
  dlresolve : Z;                                          (* the address of _dlresolve *)
  glibc_init_object : Z -> M world bool;                  (* GLIBC::init(object) *)
  glibc_patch : Z -> M world bool;                        (* GLIBC::patch(object) *)
  run_init : Z -> bool -> M world unit;                   (* DynamicTable::preinit / init *)
  redirect_add : Z -> Z -> Z -> Z -> bool -> M world bool; (* Redirect::add(object, address, to, size, make_static) *)
  bean_patchable : list event -> Z -> Z -> bool -> Z -> bool; (* Bean::patchable of the differences *)
  (* BeanUpdate::process: flags, from, to, redirect(from, to, size), relocate(rel, symbol) *)
  bean_update : Z -> Z -> Z -> (Z -> Z -> Z -> M world bool) -> (relocation -> VersionedSymbol -> M world bool) -> M world unit;
  FLAG_USE_SYMBOL_NAMES : Z; FLAG_ONLY_EXECUTABLE : Z; FLAG_ONLY_BRANCH_RELS : Z; FLAG_IGNORE_LOCAL_RELS : Z;
}.

Section dynamic.
Context `{DlhMath}.
Context (kernel : kernel_t) `{ObjectOps} `{Env} `{Symbol.StringOps} `{Executable.ElfSegments} `{ElfTables} `{RelocatorOps} `{DynEnv}.
Abbreviation history := (gets trace).
Abbreviation loader_resolve := Loader.resolve_symbol.

Definition set_dyn (o : Z) (f : DynState -> DynState) : M world unit := set_object o (fun x => x <| o_dyn ::= f |>).

(** ** Construction *)

(** The size of the object in memory: the end of the last PT_LOAD segment *)
Definition max_size (segs : list (Z * Executable.elf_segment)) : Z :=
  foldl (fun m '(t, g) =>
    let e := w64 (MemorySegment.seg_virt_addr g + MemorySegment.seg_virt_size g) in
    if (t =? Executable.PT_LOAD) && (m <? e) then e else m) 0 segs.

(** ObjectDynamic::ObjectDynamic *)
Definition construct (o : Z) (position_independent : bool) : M world unit :=
  ob ← get_object o;
  id ← get_identity (o_file ob);
  (match find (fun d => d_tag d =? DT_PLTGOT) (dynamic_table o) with
   | Some d => set_dyn o (fun x => x <| global_offset_table := d_value d |>)
   | None => mret tt
   end) ;;
  (match get_soname o with
   | Some s =>
       if negb (bool_decide (s = EmptyString)) && negb (bool_decide (s = name id))
       then set_identity (o_file ob) (fun i => i <| name := s |>) else mret tt
   | None => mret tt
   end) ;;
  if position_independent then
    base ← (if premapped (flags id) then mret (w64 (d_addr (o_data ob) - virt_offset o))
            else Loader.next_address (max_size (Executable.elf_segments o)));
    set_object o (fun x => x <| o_base := base |>)
  else mret tt.

(** ** Libraries *)

Fixpoint has_char (c : ascii) (s : string) : bool :=
  match s with
  | EmptyString => false
  | String d s => if bool_decide (d = c) then true else has_char c s
  end.
Definition PATH_MAX : nat := Identity.PATH_MAX.

(** The tokens of a path and what replaces them; a name that is longer than the path would wrap around *)
Definition origin (id : ObjectIdentity) : option string :=
  if (String.length (name id) + 1 <=? String.length (path id))%nat
  then Some (String.substring 0 (String.length (path id) - String.length (name id) - 1) (path id))
  else None.
Definition platform : string :=
  match auxiliary AT_PLATFORM with Some p => string_at p | None => "x86_64"%string end.
Definition expand (str origin : string) : string :=
  let r s a b := replace_inplace s PATH_MAX a b in
  let p := r (r str "$ORIGIN" origin) "${ORIGIN}" origin in
  let p := r (r p "$LIB" "lib64") "${LIB}" "lib64" in
  r (r p "$PLATFORM" platform) "${PLATFORM}" platform.

(** ObjectDynamic::addpath: the entries to add to the vector *)
Definition addpath (id : ObjectIdentity) (str : string) : option (list string) :=
  mapM (fun s =>
    if has_char "$"%char str
    then match origin id with Some org => Some (expand str org) | None => None end
    else Some s) (split_colon str).
Definition add_paths (o : Z) (str : string) (f : list string -> DynState -> DynState) : M world unit :=
  ob ← get_object o;
  id ← get_identity (o_file ob);
  match addpath id str with
  | Some l => set_dyn o (f l)
  | None => assert false
  end.

(** One entry of the dynamic table; gives the library it needs *)
Definition preload_entry (o : Z) (d : dyn_entry) : M world (list string) :=
  ob ← get_object o;
  let set_flag f := set_identity (o_file ob) (fun i => i <| flags ::= f |>) in
  if d_tag d =? DT_NEEDED then mret [d_string d]
  else if d_tag d =? DT_SONAME then set_dyn o (fun x => x <| soname := Some (d_string d) |>) ;; mret []
  else if d_tag d =? DT_RPATH then add_paths o (d_string d) (fun l x => x <| rpath ::= fun r => r ++ l |>) ;; mret []
  else if d_tag d =? DT_RUNPATH then add_paths o (d_string d) (fun l x => x <| runpath ::= fun r => r ++ l |>) ;; mret []
  else if d_tag d =? DT_FLAGS then
    (if has_flag (d_value d) DF_BIND_NOW then set_flag (fun f => f <| bind_now := true |>) else mret tt) ;; mret []
  else if d_tag d =? DT_FLAGS_1 then
    (if has_flag (d_value d) DF_1_NOW then set_flag (fun f => f <| bind_now := true |>) else mret tt) ;;
    (if has_flag (d_value d) DF_1_GLOBAL then set_flag (fun f => f <| bind_global := true |>) else mret tt) ;;
    mret []
  else mret [].
Fixpoint preload_entries (o : Z) (ds : list dyn_entry) : M world (list string) :=
  match ds with
  | [] => mret []
  | d :: ds => l ← preload_entry o d; r ← preload_entries o ds; mret (l ++ r)
  end.

(** The flags a library gets from the object that needs it *)
Definition inherit_flags (c : Config) (f : Flags) : Flags :=
  f <| immutable_source := false |> <| ignore_mtime := false |> <| initialized := false |>
    <| premapped := false |> <| updatable := dynamic_update c |>.

(** The loop over the needed libraries *)
Fixpoint load_libraries (fuel : nat) (o : Z) (f : Flags) (libs : list string) (success : bool) : M world bool :=
  match libs with
  | [] => mret success
  | lib :: libs =>
      l ← get_loader;
      if bool_decide (lib ∈ library_exclude l) then load_libraries fuel o f libs success
      else
        ob ← get_object o;
        id ← get_identity (o_file ob);
        r ← Loader.library kernel fuel lib f false (rpath (o_dyn ob)) (runpath (o_dyn ob)) (ns id) true;
        match r with
        | None => load_libraries fuel o f libs false
        | Some i =>
            set_object o (fun x => x <| o_dependencies ::= fun d => d ++ [i] |>) ;;
            load_libraries fuel o f libs success
        end
  end.

(** ObjectDynamic::preload_libraries *)
Definition preload_libraries (fuel : nat) (o : Z) : M world bool :=
  libs ← preload_entries o (dynamic_table o);
  ob ← get_object o;
  id ← get_identity (o_file ob);
  c ← get_config;
  load_libraries fuel o (inherit_flags c (flags id)) libs true.

(** ObjectDynamic::compatibility_setup *)
Definition compatibility_setup (o : Z) : M world bool :=
  ob ← get_object o;
  id ← get_identity (o_file ob);
  (if bool_decide (Executable.previous id o = None) then
     set_identity (o_file ob) (fun i => i <| libinfo ::= fun m =>
       foldl (fun m d => if (0 <=? d_tag d) && (d_tag d <? libinfo_count) then <[d_tag d := d_ptr d]> m else m) m (dynamic_table o) |>)
   else mret tt) ;;
  glibc_init_object o.

(** ObjectDynamic::preload *)
Definition preload (fuel : nat) (o : Z) : M world bool :=
  s ← Executable.preload_segments o true;
  if negb s then mret false
  else
    l ← preload_libraries fuel o;
    if negb l then mret false else compatibility_setup o.

(** ObjectDynamic::fix *)
Definition fix_ (o : Z) : M world bool :=
  ob ← get_object o;
  if bool_decide (soname (o_dyn ob) = Some "libc.so.6"%string) then glibc_patch o else mret true.

(** ** Symbols *)

(** strcmp(a, b) == 0 *)
Definition strcmp_eq (a b : string) : bool := Symbol.str_compare (Some a) (Some b) =? 0.

(** ObjectDynamic::version_index *)
Definition version_index (o : Z) (v : Version) : Z :=
  if negb (Symbol.v_valid v) then VER_NDX_GLOBAL
  else
    match Symbol.v_name v with
    | None => VER_NDX_GLOBAL
    | Some n =>
        let skip :=
          match Symbol.v_file v with
          | None => false
          | Some file =>
              match find vd_base (version_definition o) with
              | Some b => negb (Symbol.v_filehash v =? vd_hash b) || negb (strcmp_eq (vd_name b) file)
              | None => false
              end
          end in
        let same d := (vd_hash d =? Symbol.v_hash v) && negb (vd_base d) && Symbol.same_string (Some (vd_name d)) (Some n) in
        match (if skip then None else find same (version_definition o)) with
        | Some d => vd_index d
        | None =>
            let from_file f := match Symbol.v_file v with None => true | Some file => strcmp_eq (vn_file f) file end in
            let same_aux a := (va_hash a =? Symbol.v_hash v) && Symbol.same_string (Some (va_name a)) (Some n) in
            match find same_aux (concat (vn_aux <$> filter (fun f => from_file f = true) (version_needed o))) with
            | Some a => va_index a
            | None => VER_NDX_GLOBAL
            end
        end
    end.

(** ObjectDynamic::get_version *)
Definition needed_entries (o : Z) : list (string * version_aux) :=
  concat ((fun f => pair (vn_file f) <$> vn_aux f) <$> version_needed o).
Definition get_version (o : Z) (index : Z) : Version :=
  if index =? VER_NDX_GLOBAL then Symbol.no_version true
  else
    match find (fun x => va_index x.2 =? index) (needed_entries o) with
    | Some (file, a) => Symbol.mk_version_file (Some (va_name a)) (va_hash a) (va_weak a) (Some file)
    | None =>
        let base := last (filter (fun d => vd_base d = true) (version_definition o)) in
        match find (fun d => (vd_index d =? index) && negb (vd_base d)) (version_definition o) with
        | Some d => Symbol.mk_version_filehash (Some (vd_name d)) (vd_hash d) (vd_weak d) (vd_name <$> base)
                      (match base with Some b => vd_hash b | None => 0 end)
        | None => Symbol.no_version false
        end
    end.

(** VersionedSymbol{sym, version, ...} *)
Definition versioned (o : Z) (s : elf_symbol) (v : Version) (hash gnu_hash : option Z) : VersionedSymbol :=
  Symbol.Build_VersionedSymbol o (es_data s) (es_name s) (es_value s) (es_size s) (es_bind s) (es_type s) (es_valid s)
    v hash gnu_hash.

(** ObjectDynamic::resolve_symbol(name, ...); [at] out of range gives an invalid symbol *)
Definition symbol_at (o index : Z) : option elf_symbol :=
  if index <? 0 then None else dynamic_symbols o !! Z.to_nat index.
Definition resolve_symbol (o : Z) (n : string) (hash gnu_hash : Z) (v : Version) : option VersionedSymbol :=
  let found := symbol_index o n hash gnu_hash (version_index o v) in
  if found =? STN_UNDEF then None
  else
    match symbol_at o found with
    | None => None
    | Some s =>
        if negb (es_undefined s) && negb (bool_decide (es_bind s = Symbol.STB_LOCAL)) && es_default_visibility s
        then Some (versioned o s (get_version o (symbol_version o found)) (Some hash) (Some gnu_hash))
        else None
    end.

(** ObjectDynamic::resolve_symbol(addr) *)
Fixpoint symbol_over (offset : Z) (l : list elf_symbol) (k : Z) : option (Z * elf_symbol) :=
  match l with
  | [] => None
  | s :: l =>
      if negb (es_section_index s =? STN_UNDEF) && (es_value s <=? offset) && (offset <=? w64 (es_value s + es_size s))
      then Some (k, s) else symbol_over offset l (k + 1)
  end.
Definition resolve_address (w : world) (o addr : Z) : option VersionedSymbol :=
  match objects w !! o with
  | Some ob =>
      if o_base ob <? addr then
        match symbol_over (addr - o_base ob) (dynamic_symbols o) 0 with
        | Some (k, s) => Some (versioned o s (get_version o (symbol_version o k)) None None)
        | None => None
        end
      else None
  | None => None
  end.
(** ** Relocation *)

(** The segment an address is in, with its index *)
Fixpoint segment_of (l : list segment) (a : Z) (k : nat) : option (nat * segment) :=
  match l with
  | [] => None
  | s :: l => if MemorySegment.contains s a then Some (k, s) else segment_of l a (S k)
  end.
Definition reloc_address (ob : Object) (r : relocation) : Z :=
  r_address r (global_offset_table (o_dyn ob)) (o_base ob).

(** The base with which a relocation is written: so that it goes to the back buffer of the segment *)
Definition write_base (o : Z) (seg : option (nat * segment)) (base : Z) : M world Z :=
  match seg with
  | None => mret base
  | Some (k, s) =>
      c ← on_segment o k (MemorySegment.compose hex kernel);
      mret (w64 (base + w64 (c - MemorySegment.address s)))
  end.

(** Where the value of a relocation of the latest version is remembered *)
Definition datarel_key (o : Z) (ob : Object) (seg : option (nat * segment)) (addr : Z) : M world (option (Z * Z)) :=
  c ← get_config;
  latest ← is_latest_version o;
  match seg with
  | Some (_, s) =>
      if check_relocation_content c && latest then
        assert (MemorySegment.address s <=? addr) ;;
        mret (Some (MemorySegment.fd s, addr - MemorySegment.address s))
      else mret None
  | None => mret None
  end.

(** fix_value_internal / fix_value_external, and the memory of the value *)
Definition fix_value (o : Z) (r : relocation) (seg : option (nat * segment)) (key : option (Z * Z)) (value : Z) : M world unit :=
  ob ← get_object o;
  b ← write_base o seg (o_base ob);
  emit (Ev_fix r b value) ;;
  assert (r_fixed r value =? value) ;;
  match key with
  | Some (fd, off) =>
      if fd =? -1 then mret tt
      else set_identity (o_file ob) (fun i => i <| datarel_content ::= <[(fd, off) := value]> |>)
  | None => mret tt
  end.
Definition needs_fix (tr : list event) (ob : Object) (r : relocation) (fix_ : bool) (value : Z) : bool :=
  r_is_copy r || (fix_ && negb (r_read tr r (global_offset_table (o_dyn ob)) (o_base ob) =? value)).

Definition resolve_mode (id : ObjectIdentity) (r : relocation) : Loader.ResolveSymbolMode :=
  if r_is_copy r then Loader.RESOLVE_EXCEPT_OBJECT
  else if bind_deep (flags id) then Loader.RESOLVE_OBJECT_FIRST else Loader.RESOLVE_DEFAULT.

(** The symbol a relocation is to: of this object (name and version), looked up in all objects *)
Definition relocate_symbol (o : Z) (ob : Object) (id : ObjectIdentity) (r : relocation) : M world (elf_symbol * option VersionedSymbol) :=
  match symbol_at o (r_symbol r) with
  | None => assert false ;; mret (ElfSymbol 0 EmptyString 0 0 Symbol.STB_OTHER Symbol.STT_OTHER false true false 0, None)
  | Some s =>
      assert (es_valid s) ;;
      let need := versioned o s (get_version o (symbol_version o (r_symbol r))) None None in
      w ← get;
      match loader_resolve w (es_name s) (Symbol.hash_value need) (Symbol.gnu_hash_value need) (Symbol.version need)
              (ns id) (Some (o_file ob)) (resolve_mode id r) with
      | Some found => mret (s, found)
      | None => assert false ;; mret (s, None)
      end
  end.

(** What relocate does unless the target was modified *)
Definition relocate_value (o : Z) (ob : Object) (id : ObjectIdentity) (r : relocation) (fix_ : bool)
  (seg : option (nat * segment)) (key : option (Z * Z)) : M world (Z * bool) :=
  let got := global_offset_table (o_dyn ob) in
  if r_symbol r =? 0 then
    let value := r_value_internal r got (o_base ob) 0 (tls_module_id id) (tls_offset id) in
    tr ← history;
    (if needs_fix tr ob r fix_ value then fix_value o r seg key value else mret tt) ;;
    mret (value, false)
  else
    '(need, found) ← relocate_symbol o ob id r;
    match found with
    | None => mret (0, negb (bool_decide (es_bind need = Symbol.STB_WEAK)))
    | Some sym =>
        set_dyn o (fun d => d <| relocations ::= relocations_insert r sym |>) ;;
        sob ← get_object (Symbol.sym_object sym);
        sid ← get_identity (o_file sob);
        let value := r_value_external r got (o_base ob) sym (o_base sob) 0 (tls_module_id sid) (tls_offset sid) in
        tr ← history;
        (if needs_fix tr ob r fix_ value then fix_value o r seg key value else mret tt) ;;
        mret (value, false)
    end.

(** ObjectDynamic::relocate: the value, and whether [fatal] was set *)
Definition relocate (o : Z) (r : relocation) (fix_ : bool) : M world (Z * bool) :=
  ob ← get_object o;
  id ← get_identity (o_file ob);
  let got := global_offset_table (o_dyn ob) in
  let addr := reloc_address ob r in
  let seg := segment_of (o_memory_map ob) addr 0 in
  key ← datarel_key o ob seg addr;
  tr ← history;
  match (match key with Some k => datarel_content id !! k | None => None end) with
  | Some cached => if read_word tr addr =? cached then relocate_value o ob id r fix_ seg key else mret (cached, false)
  | None => relocate_value o ob id r fix_ seg key
  end.

(** ObjectDynamic::dynamic_resolve *)
Definition dynamic_resolve (o : Z) (index : nat) : M world Z :=
  ob ← get_object o;
  id ← get_identity (o_file ob);
  match dynamic_relocations_plt o !! index with
  | Some r => '(v, _) ← relocate o r (negb (bind_not (flags id))); mret v
  | None => assert false ;; mret 0
  end.

(** ** Preparation *)

(** [for (reloc : relocs) if (relocate(reloc, true, error) == nullptr && error) break;] *)
Fixpoint relocate_all (o : Z) (rs : list relocation) (error : bool) : M world bool :=
  match rs with
  | [] => mret error
  | r :: rs =>
      '(v, fatal) ← relocate o r true;
      let error := error || fatal in
      if (v =? 0) && error then mret error else relocate_all o rs error
  end.

(** ObjectDynamic::prepare *)
Definition prepare (o : Z) : M world bool :=
  error ← relocate_all o (dynamic_relocations o) false;
  ob ← get_object o;
  mfor (relative_relocations o) (fun off => emit (Ev_add (w64 (o_base ob + off)) (o_base ob))) ;;
  error ←
    (if negb error && negb (global_offset_table (o_dyn ob) =? 0) then
       let got := w64 (o_base ob + global_offset_table (o_dyn ob)) in
       emit (Ev_store (w64 (got + 8)) o) ;;
       emit (Ev_store (w64 (got + 16)) dlresolve) ;;
       id ← get_identity (o_file ob);
       if bind_now (flags id) then relocate_all o (dynamic_relocations_plt o) error
       else
         mfor (dynamic_relocations_plt o) (fun r => emit (Ev_add (r_address r 0 (o_base ob)) (o_base ob))) ;;
         mret error
     else mret error);
  mret (negb error).

(** ** Updates *)

(** ObjectDynamic::in_data *)
Definition in_data (ob : Object) (r : relocation) : bool :=
  match segment_of (o_memory_map ob) (reloc_address ob r) 0 with
  | Some (_, s) => MemorySegment.writable s
  | None => false
  end.

(** update_redirect, update_relocate *)
Definition update_redirect (from_object from to size : Z) : M world bool :=
  fob ← get_object from_object;
  redirect_add from_object (w64 (from - o_base fob)) to size (0 <? size).
Definition update_relocate (from_object to_object : Z) (r : relocation) (sym : VersionedSymbol) : M world bool :=
  fob ← get_object from_object;
  tob ← get_object to_object;
  tid ← get_identity (o_file tob);
  let seg := segment_of (o_memory_map fob) (reloc_address fob r) 0 in
  let value := r_value_external r (global_offset_table (o_dyn fob)) (o_base fob) sym (o_base tob)
                 (w64 (o_base tob + Symbol.sym_value sym)) (tls_module_id tid) (tls_offset tid) in
  if r_valid_value r value then
    b ← write_base from_object seg (o_base fob);
    emit (Ev_fix r b value) ;;
    mret (negb (r_fixed r value =? 0))
  else mret false.

(** The loop over the relocations to other objects: those to a version that is outdated are done again *)
Fixpoint update_relocations (o : Z) (rs : list (relocation * VersionedSymbol)) : M world unit :=
  match rs with
  | [] => mret tt
  | (r, sym) :: rs =>
      target ← is_latest_version (Symbol.sym_object sym);
      own ← is_latest_version o;
      ob ← get_object o;
      id ← get_identity (o_file ob);
      (if negb target && (own || negb (in_data ob r)) then relocate o r (negb (bind_not (flags id))) ;; mret tt
       else mret tt) ;;
      update_relocations o rs
  end.

Definition update_flags (c : Config) : Z :=
  Z.lor (Z.lor (Z.lor FLAG_USE_SYMBOL_NAMES FLAG_ONLY_EXECUTABLE) FLAG_ONLY_BRANCH_RELS)
        (if update_mode c =? UPDATE_MODE_CODEREL then FLAG_IGNORE_LOCAL_RELS else 0).

(** ObjectDynamic::update *)
Definition update (o : Z) : M world bool :=
  ob ← get_object o;
  update_relocations o (relocations (o_dyn ob)) ;;
  c ← get_config;
  latest ← is_latest_version o;
  (if (UPDATE_MODE_CODEREL <=? update_mode c) && latest then
     id ← get_identity (o_file ob);
     mfor (older o (versions id)) (fun prev =>
       ob ← get_object o;
       pob ← get_object prev;
       assert (bool_decide (is_Some (o_binary_hash ob)) && bool_decide (is_Some (o_binary_hash pob))) ;;
       bean_update (update_flags c) prev o (update_redirect prev) (update_relocate prev o))
   else mret tt) ;;
  mret true.

(** Does an object still have the symbols others refer to in a version?  (Object::resolve_symbol(name)) *)
Definition resolve_by_name (o : Z) (n : string) : option VersionedSymbol :=
  resolve_symbol o n (Symbol.elf_hash (Some n)) (Symbol.gnu_hash (Some n)) (Symbol.mk_version None false None).
Definition provides_references (w : world) (o p : Z) : bool :=
  forallb (fun q =>
    match objects w !! q with
    | Some qob => forallb (fun x => negb (Symbol.sym_object x.2 =? p)
                                    || bool_decide (is_Some (resolve_by_name o (Symbol.sym_name x.2))))
                    (relocations (o_dyn qob))
    | None => true
    end) (Loader.all_versions w (lookup (loader w))).

(** ObjectDynamic::patchable *)
Definition patchable (o : Z) : M world bool :=
  ob ← get_object o;
  id ← get_identity (o_file ob);
  match Executable.previous id o with
  | None => mret false
  | Some p =>
      if negb (bool_decide (elf_identification p = elf_identification o)) then mret false
      else
        pob ← get_object p;
        assert (bool_decide (is_Some (o_binary_hash pob)) && bool_decide (is_Some (o_binary_hash ob))) ;;
        assert (bool_decide (current id = Some p)) ;;
        c ← get_config;
        tr ← history;
        if negb (bean_patchable tr o p (dependency_check c) (relax_comparison c)) && negb (force_update c) then mret false
        else w ← get; mret (provides_references w o p)
  end.

(** ObjectDynamic::initialize *)
Definition initialize (o : Z) (preinit : bool) : M world bool := run_init o preinit ;; mret true.
End dynamic.
End Dynamic.
