(* ===== verification/Relocatable.v ===== *)
(** Relocatable objects (src/src/object/relocatable.hpp, src/src/object/relocatable.cpp): object files that are
    loaded without linking.  Sections get addresses, symbols and relocations are changed in place,
    tentative definitions are allocated, relocations are performed (indirect functions last), and an
    update reuses the data of the previous version.

    Values of a symbol are relative to the base of the object. *)
From Stdlib Require Import Ascii.
From S2P Require Import Prelude Platform Segment Symbol Tls World Object Identity Gdb Loader Executable Dynamic.

Module Relocatable.
Import World Object Dynamic.

Definition SHT_PROGBITS : Z := 1.
Definition SHT_SYMTAB : Z := 2.
Definition SHT_RELA : Z := 4.
Definition SHT_NOBITS : Z := 8.
Definition SHT_REL : Z := 9.
Definition SHT_INIT_ARRAY : Z := 14.
Definition SHT_FINI_ARRAY : Z := 15.
Definition SHT_PREINIT_ARRAY : Z := 16.
Definition SHT_X86_64_UNWIND : Z := 0x70000001.
Definition SHN_COMMON : Z := 0xfff2.
Definition R_X86_64_PC32 : Z := 2.
Definition R_X86_64_PLT32 : Z := 4.
Definition R_X86_64_GOTPCRELX : Z := 41.
Definition R_X86_64_REX_GOTPCRELX : Z := 42.
Definition sizeof_ErrorHandlingFrameHeader : Z := 20.

(** The sections of the file, and what else the code calls *)
Class RelEnv := {
  elf_sections : Z -> list rel_section;
  elf_type : Z -> Z;                                    (* header: type *)
  read_byte : list event -> Z -> Z;
  ifunc_result : list event -> Z -> Z;                  (* what an indirect function returns *)
  r_value : relocation -> Z -> VersionedSymbol -> Z -> Z -> Z -> Z -> Z; (* Relocator::value *)
  symbols_insert : Z * elf_symbol -> list (Z * elf_symbol) -> list (Z * elf_symbol); (* HashSet::insert *)
  trampoline_set : VersionedSymbol -> M world Z;        (* symbol_trampoline.set(symbol) (Trampoline.v) *)
}.

Section relocatable.
Context `{DlhMath}.
Context (kernel : kernel_t) `{ObjectOps} `{Env} `{Symbol.StringOps} `{ElfTables} `{RelocatorOps} `{DynEnv} `{RelEnv}.
Abbreviation history := (gets trace).

Definition set_rel (o : Z) (f : RelState -> RelState) : M world unit := set_object o (fun x => x <| o_rel ::= f |>).
Definition get_rel (o : Z) : M world RelState := ob ← get_object o; mret (o_rel ob).

(** ** Construction *)

(** ObjectRelocatable::ObjectRelocatable; the new object is not yet in the chain of its identity *)
Definition construct (o : Z) : M world unit :=
  ob ← get_object o;
  id ← get_identity (o_file ob);
  set_rel o (fun r => r <| sections := elf_sections o |>) ;;
  (if updatable (flags id)
   then set_identity (o_file ob) (fun i => i <| flags ::= fun f => f <| update_outdated := true |> |>)
   else mret tt) ;;
  address ← Loader.next_address 0;
  match current id with
  | None => set_object o (fun x => x <| o_base := address |> <| o_rel ::= fun r => r <| rel_offset := 0 |> |>)
  | Some cur =>
      cob ← get_object cur;
      assert (o_base cob <? address) ;;
      set_object o (fun x => x <| o_base := o_base cob |> <| o_rel ::= fun r => r <| rel_offset := address - o_base cob |> |>)
  end.

(** ** Symbols *)

Definition same_name (a b : string) : bool := Symbol.same_string (Some a) (Some b).

(** symbols.find(name) *)
Definition find_symbol (r : RelState) (n : string) : option (Z * elf_symbol) :=
  find (fun x => same_name (es_name x.2) n) (symbols r).

(** ObjectRelocatable::resolve_internal_symbol; objects of other kinds have none *)
Definition resolve_internal_symbol (w : world) (o : Z) (n : string) : option (Z * elf_symbol) :=
  match objects w !! o with
  | Some ob =>
      match o_kind ob with
      | KRelocatable =>
          match find_symbol (o_rel ob) n with
          | Some s => if negb (es_undefined s.2) then Some s else None
          | None => None
          end
      | _ => None
      end
  | None => None
  end.

(** VersionedSymbol{sym} *)
Definition unversioned (s : Z * elf_symbol) : VersionedSymbol :=
  versioned s.1 s.2 (Symbol.mk_version None false None) None None.

(** ObjectRelocatable::resolve_symbol(name, ...), ObjectRelocatable::resolve_symbol(addr) *)
Definition resolve_symbol (w : world) (o : Z) (n : string) : option VersionedSymbol :=
  match objects w !! o with
  | Some ob =>
      match find_symbol (o_rel ob) n with
      | Some s =>
          if negb (es_undefined s.2) && negb (bool_decide (es_bind s.2 = Symbol.STB_LOCAL)) && es_default_visibility s.2
          then Some (unversioned s) else None
      | None => None
      end
  | None => None
  end.
Definition resolve_address (w : world) (o addr : Z) : option VersionedSymbol :=
  match objects w !! o with
  | Some ob =>
      if o_base ob <? addr then
        let offset := addr - o_base ob in
        unversioned <$> find (fun s => negb (es_undefined s.2) && (es_value s.2 <=? offset)
                                       && (offset <=? w64 (es_value s.2 + es_size s.2))) (symbols (o_rel ob))
      else None
  | None => None
  end.

(** The symbol table of the file, the symbol of a relocation *)
Definition symbol_table (r : RelState) : list elf_symbol :=
  match find (fun s => rs_type s =? SHT_SYMTAB) (sections r) with Some s => rs_symbols s | None => [] end.
Definition reloc_symbol (rel : RelState) (r : relocation) : option elf_symbol :=
  if r_symbol r <? 0 then None else symbol_table rel !! Z.to_nat (r_symbol r).

(** ** Addresses for sections *)

Definition adjustable (t : Type_) : bool :=
  match t with
  | STT_NOTYPE | STT_OBJECT | STT_FUNC | STT_SECTION | STT_GNU_IFUNC | STT_TLS => true
  | STT_COMMON | STT_OTHER => false
  end.

(** A symbol of the section: it takes the place of its predecessor, or moves by the offset.  [prev] looks a name
    up in the previous version; the result tells what is inserted in the set and whether the entry changed. *)
Definition adjust_symbol (o : Z) (prev : string -> option (Z * elf_symbol)) (offset : Z) (s : elf_symbol)
  : elf_symbol * option (Z * elf_symbol) * bool :=
  match prev (es_name s) with
  | Some p =>
      if bool_decide (es_type p.2 = es_type s) && (es_size p.2 =? es_size s)
      then (s <| es_value := es_value p.2 |>, Some p, false)
      else if adjustable (es_type s) then let s := s <| es_value ::= fun v => w64 (v + offset) |> in (s, Some (o, s), true)
      else (s, None, false)
  | None =>
      if adjustable (es_type s) then let s := s <| es_value ::= fun v => w64 (v + offset) |> in (s, Some (o, s), true)
      else (s, None, false)
  end.
Fixpoint adjust_symbols (o : Z) (prev : string -> option (Z * elf_symbol)) (offset : Z) (index : Z)
  (l : list elf_symbol) : list elf_symbol * list (Z * elf_symbol) * bool :=
  match l with
  | [] => ([], [], false)
  | s :: l =>
      let '(l, ins, ch) := adjust_symbols o prev offset index l in
      if es_section_index s =? index then
        let '(s, i, c) := adjust_symbol o prev offset s in
        (s :: l, match i with Some x => x :: ins | None => ins end, c || ch)
      else (s :: l, ins, ch)
  end.

(** static_cast<int16_t> *)
Definition s16 (x : Z) : Z := let y := x mod 0x10000 in if y <? 0x8000 then y else y - 0x10000.

(** One of the sections that may refer to the section *)
Definition adjust_linked (o : Z) (prev : string -> option (Z * elf_symbol)) (offset : Z) (index : nat)
  (linked : rel_section) : rel_section * list (Z * elf_symbol) * bool :=
  if MemorySegment.sec_size (rs_section linked) =? 0 then (linked, [], false)
  else if rs_type linked =? SHT_SYMTAB then
    let '(l, ins, ch) := adjust_symbols o prev offset (Z.of_nat index) (rs_symbols linked) in
    (linked <| rs_symbols := l |>, ins, ch)
  else if ((rs_type linked =? SHT_REL) || (rs_type linked =? SHT_RELA)) && (s16 (rs_info linked) =? Z.of_nat index) then
    (linked <| rs_relocations ::= fmap (fun r => Reloc (w64 (r_offset r + offset)) (r_symbol r) (r_type r) (r_addend r)) |>,
     [], negb (bool_decide (rs_relocations linked = [])))
  else (linked, [], false).
Fixpoint adjust_all (o : Z) (prev : string -> option (Z * elf_symbol)) (offset : Z) (index : nat) (l : list rel_section)
  : list rel_section * list (Z * elf_symbol) * bool :=
  match l with
  | [] => ([], [], false)
  | s :: l =>
      let '(s, i, c) := adjust_linked o prev offset index s in
      let '(l, ins, ch) := adjust_all o prev offset index l in
      (s :: l, i ++ ins, c || ch)
  end.

(** ObjectRelocatable::adjust_offsets; [previous] is [file_previous] *)
Definition adjust_offsets (o : Z) (previous : option Z) (offset : Z) (index : nat) : M world bool :=
  r ← get_rel o;
  w ← get;
  let writeable := match sections r !! index with Some s => MemorySegment.sec_writeable (rs_section s) | None => false end in
  let prev n := match previous with
                | Some p => if writeable then resolve_internal_symbol w p n else None
                | None => None
                end in
  let '(l, ins, ch) := adjust_all o prev offset index (sections r) in
  set_rel o (fun r => r <| sections := l |> <| symbols ::= fun s => foldl (fun s x => symbols_insert x s) s ins |>) ;;
  mret ch.

(** ** Preloading *)

(** The external symbols an update misses *)
Definition missing_symbol (w : world) (id : ObjectIdentity) (i : Z) (s : elf_symbol) : option bool :=
  if es_undefined s && bool_decide (es_bind s = Symbol.STB_GLOBAL) then
    match Loader.resolve w (es_name s) None (ns id) (Some i) Loader.RESOLVE_DEFAULT with
    | Some (Some _) => Some false
    | Some None => Some (negb (strcmp_eq (es_name s) "_GLOBAL_OFFSET_TABLE_"))
    | None => None
    end
  else Some false.
Definition complete (o : Z) : M world bool :=
  ob ← get_object o;
  id ← get_identity (o_file ob);
  w ← get;
  match mapM (missing_symbol w id (o_file ob)) (symbol_table (o_rel ob)) with
  | Some l => mret (negb (existsb Datatypes.id l))
  | None => assert false ;; mret false
  end.

(** memory_map.emplace_back( *this, section, offset, additional, base) and the offset behind it *)
Definition emplace_section (o : Z) (s : rel_section) (additional : Z) : M world unit :=
  ob ← get_object o;
  id ← get_identity (o_file ob);
  l ← get_loader;
  match MemorySegment.of_section (object_ctx l id o ob) (rs_section s) (rel_offset (o_rel ob)) additional (o_base ob) with
  | Some m =>
      set_object o (fun x => x <| o_memory_map ::= fun k => k ++ [m] |>
        <| o_rel ::= fun r => r <| rel_offset ::= fun v => w64 (v + MemorySegment.page_size m) |> |>)
  | None => assert false
  end.

(** Is a section of program data?  (the first cases of the switch) *)
Definition is_data (s : rel_section) : bool :=
  bool_decide (rs_type s ∈ [SHT_NOBITS; SHT_PROGBITS; SHT_X86_64_UNWIND; SHT_INIT_ARRAY; SHT_FINI_ARRAY; SHT_PREINIT_ARRAY]).
Definition is_init (previous : option Z) (s : rel_section) : bool :=
  bool_decide (previous = None) && (rs_type s =? SHT_PROGBITS)
  && (String.prefix ".init" (rs_name s) || String.prefix ".fini" (rs_name s)).
Definition is_eh_frame (s : rel_section) : bool := (rs_type s =? SHT_PROGBITS) && strcmp_eq (rs_name s) ".eh_frame".
Definition additional_size (previous : option Z) (s : rel_section) : Z :=
  (if is_init previous s then 1 else 0) + (if is_eh_frame s then 16 + sizeof_ErrorHandlingFrameHeader * 8 else 0).

(** One section; [tls] are the indices of the initialized and the zeroed thread local data *)
Definition preload_section (o : Z) (previous : option Z) (k : nat) (tls : option nat * option nat)
  : M world (option nat * option nat) :=
  r ← get_rel o;
  set_rel o (fun r => r <| offset_sections ::= fun l => l ++ [rel_offset r] |>) ;;
  match sections r !! k with
  | None => mret tls
  | Some s =>
      if MemorySegment.sec_size (rs_section s) =? 0 then mret tls
      else if rs_tls s && rs_allocate s then
        if rs_type s =? SHT_NOBITS then mret (tls.1, Some k)
        else emplace_section o s 0 ;; mret (Some k, tls.2)
      else if is_data s then
        if rs_allocate s then
          (if is_init previous s then set_rel o (fun r => r <| init_sections ::= fun l => l ++ [k] |>) else mret tt) ;;
          (if is_eh_frame s then set_rel o (fun r => r <| eh_section := Some k |>) else mret tt) ;;
          changed ← adjust_offsets o previous (rel_offset r) k;
          (if bool_decide (previous = None) || changed || negb (MemorySegment.sec_writeable (rs_section s))
           then emplace_section o s (additional_size previous s) else mret tt) ;;
          mret tls
        else mret tls
      else if (rs_type s =? SHT_REL) || (rs_type s =? SHT_RELA) then
        (if negb (rs_info s =? 0) && match sections r !! Z.to_nat (rs_info s) with Some t => rs_allocate t | None => false end
         then set_rel o (fun r => r <| relocation_tables ::= fun l => l ++ [k] |>) else mret tt) ;;
        mret tls
      else mret tls
  end.
Fixpoint preload_sections (o : Z) (previous : option Z) (ks : list nat) (tls : option nat * option nat)
  : M world (option nat * option nat) :=
  match ks with
  | [] => mret tls
  | k :: ks => tls ← preload_section o previous k tls; preload_sections o previous ks tls
  end.

(** Setup TLS *)
Definition setup_tls (o : Z) (previous : option Z) (tdata tbss : option nat) : M world unit :=
  ob ← get_object o;
  id ← get_identity (o_file ob);
  let r := o_rel ob in
  let sec k := match sections r !! k with Some s => Some (rs_section s) | None => None end in
  if (bool_decide (is_Some tdata) || bool_decide (is_Some tbss)) && (tls_module_id id =? 0) then
    let '(size, align, image) :=
      match tdata, tdata ≫= sec with
      | Some k, Some s => (MemorySegment.sec_size s, MemorySegment.sec_alignment s, default 0 (offset_sections r !! k))
      | _, _ => (0, 0, 0)
      end in
    '(tls_size, align) ←
      (match tbss, tbss ≫= sec with
       | Some k, Some s =>
           (if negb (size =? 0) then adjust_offsets o previous size k ;; mret tt else mret tt) ;;
           mret (w64 (size + MemorySegment.sec_size s), math_max align (MemorySegment.sec_alignment s))
       | _, _ => mret (size, align)
       end);
    '(modid, off) ← Executable.on_tls (TLS.add_module (o_file ob) tls_size align image size);
    set_identity (o_file ob) (fun i => i <| tls_module_id := Z.of_nat modid |> <| tls_offset := off |>)
  else mret tt.

(** ObjectRelocatable::preload *)
Definition preload (o : Z) : M world bool :=
  ob ← get_object o;
  id ← get_identity (o_file ob);
  c ← get_config;
  let previous := Executable.previous id o in
  ok ← (if bool_decide (is_Some previous) && negb (force_update c) then complete o else mret true);
  if negb ok then mret false
  else
    '(tdata, tbss) ← preload_sections o previous (seq 0 (length (sections (o_rel ob)))) (None, None);
    setup_tls o previous tdata tbss ;;
    ob ← get_object o;
    mret (negb (bool_decide (o_memory_map ob = []))).

(** ** Tentative definitions *)

(** The definition of a common symbol in the current versions, with the base of its identity *)
Fixpoint defined_elsewhere (w : world) (s : elf_symbol) (ids : list Z) : option (option (Z * (Z * elf_symbol))) :=
  match ids with
  | [] => Some None
  | i :: ids =>
      match identities w !! i with
      | Some id =>
          match current id with
          | Some cur =>
              match resolve_internal_symbol w cur (es_name s) with
              | Some x => if bool_decide (es_type x.2 = es_type s) && (es_size x.2 =? es_size s)
                          then Some (Some (i_base id, x)) else defined_elsewhere w s ids
              | None => defined_elsewhere w s ids
              end
          | None => None
          end
      | None => None
      end
  end.

(** One common symbol: its new value, the sizes so far and the address of the common data (0: none yet) *)
Definition prepare_common (o : Z) (s : elf_symbol) (global_bss common_base : Z) : M world (elf_symbol * Z * Z) :=
  ob ← get_object o;
  w ← get;
  let insert x := set_rel o (fun r => r <| symbols ::= symbols_insert x |>) in
  match defined_elsewhere w s (lookup (loader w)) with
  | None => assert false ;; mret (s, global_bss, common_base)
  | Some (Some (b, x)) =>
      insert x ;;
      mret (s <| es_value := w64 (b + es_value x.2 - o_base ob) |>, global_bss, common_base)
  | Some None =>
      let start := align_up global_bss (es_value s) in
      common_base ← (if common_base =? 0 then a ← Loader.next_address 0; assert (o_base ob <? a) ;; mret a
                     else mret common_base);
      let s' := s <| es_value := w64 (common_base - o_base ob + start) |> in
      insert (o, s') ;;
      mret (s', w64 (start + es_size s), common_base)
  end.
Fixpoint prepare_commons (o : Z) (l : list elf_symbol) (global_bss common_base : Z) : M world (list elf_symbol * Z * Z) :=
  match l with
  | [] => mret ([], global_bss, common_base)
  | s :: l =>
      '(s, global_bss, common_base) ←
        (if negb (es_size s =? 0) && (es_section_index s =? SHN_COMMON) then prepare_common o s global_bss common_base
         else mret (s, global_bss, common_base));
      '(l, global_bss, common_base) ← prepare_commons o l global_bss common_base;
      mret (s :: l, global_bss, common_base)
  end.
(** The changed symbols go back to the first symbol table. *)
Fixpoint set_symbol_table (l : list elf_symbol) (ss : list rel_section) : list rel_section :=
  match ss with
  | [] => []
  | s :: ss => if rs_type s =? SHT_SYMTAB then (s <| rs_symbols := l |>) :: ss else s :: set_symbol_table l ss
  end.

(** ObjectRelocatable::preprepare *)
Definition preprepare (o : Z) : M world unit :=
  ob ← get_object o;
  if preprepared (o_rel ob) then mret tt
  else
    '(l, global_bss, common_base) ← prepare_commons o (symbol_table (o_rel ob)) 0 0;
    set_rel o (fun r => r <| sections ::= set_symbol_table l |>) ;;
    (if 0 <? global_bss then
       ob ← get_object o;
       let k := length (o_memory_map ob) in
       set_object o (fun x => x <| o_memory_map ::= fun m =>
         m ++ [MemorySegment.of_bss (w64 (common_base - o_base ob)) global_bss (o_base ob)] |>) ;;
       on_segment o k (MemorySegment.map hex kernel) ;;
       mret tt
     else mret tt) ;;
    set_rel o (fun r => r <| preprepared := true |>).

(** ** Relocation *)

(** GOTPCRELX: an access through the global offset table becomes a direct one.  The bytes in front of the
    place of the relocation, and the new ones; [None] for other instructions. *)
Definition relax (b0 b1 : Z) : option (list Z) :=
  if b0 =? 0x8b then Some [0x8d]
  else if (b0 =? 0xff) && (b1 =? 0x15) then Some [0x90; 0xe8]
  else if (b0 =? 0xff) && (b1 =? 0x25) then Some [0x90; 0xe9]
  else None.
Fixpoint store_all (a : Z) (bs : list Z) : M world unit :=
  match bs with
  | [] => mret tt
  | b :: bs => emit (Ev_store a b) ;; store_all (w64 (a + 1)) bs
  end.
Definition relax_instruction (base : Z) (r : relocation) : M world unit :=
  if (r_type r =? R_X86_64_REX_GOTPCRELX) || (r_type r =? R_X86_64_GOTPCRELX) then
    let a := w64 (base + r_offset r - 2) in
    tr ← history;
    match relax (read_byte tr a) (read_byte tr (a + 1)) with
    | Some bs => assert (r_addend r =? -4) ;; store_all a bs
    | None => mret tt
    end
  else mret tt.

(** ifunc *)
Definition call_ifunc (p : Z) : M world Z :=
  assert (negb (p =? 0)) ;;
  emit (Ev_call p 0) ;;
  tr ← history;
  mret (ifunc_result tr p).

(** return relocator.fix_value_...(base, value) *)
Definition fix_reloc (r : relocation) (base value : Z) : M world Z :=
  emit (Ev_fix r base value) ;; mret (r_fixed r value).
Definition insert_relocation (o : Z) (r : relocation) (s : VersionedSymbol) : M world unit :=
  set_dyn o (fun d => d <| relocations ::= relocations_insert r s |>).

Definition is_func (t : Type_) : bool := match t with STT_FUNC | STT_GNU_IFUNC => true | _ => false end.

(** The value of a relocation to an external symbol: by way of a trampoline if the function is too far away *)
Definition external_value (base : Z) (r : relocation) (sym : VersionedSymbol) (symbase modid off : Z) : M world Z :=
  let value := r_value_external r 0 base sym symbase (w64 (symbase + Symbol.sym_value sym)) modid off in
  if negb (r_valid_value r value) && is_func (Symbol.sym_type sym)
     && ((r_type r =? R_X86_64_PLT32) || (r_type r =? R_X86_64_PC32)) then
    t ← trampoline_set sym;
    mret (if r_type r =? R_X86_64_PLT32 then r_value r base sym symbase t modid off
          else r_value r base sym (w64 (t - Symbol.sym_value sym)) 0 modid off)
  else mret value.

(** A symbol of this object *)
Definition relocate_local (o : Z) (ob : Object) (id : ObjectIdentity) (r : relocation) (s : elf_symbol) (plt_entry : Z)
  : M world Z :=
  latest ← is_latest_version o;
  w ← get;
  let newer := match current id with
               | Some cur => if negb latest && is_func (es_type s) then
                               match resolve_internal_symbol w cur (es_name s) with
                               | Some x => if bool_decide (es_type x.2 = es_type s) then Some (cur, x) else None
                               | None => None
                               end
                             else None
               | None => None
               end in
  match newer with
  | Some (cur, x) =>
      insert_relocation o r (unversioned x) ;;
      cob ← get_object cur;
      fix_reloc r (o_base ob)
        (r_value_external r 0 (o_base ob) (unversioned x) (o_base cob) (w64 (o_base cob + es_value x.2))
           (tls_module_id id) (tls_offset id))
  | None =>
      insert_relocation o r (unversioned (o, s)) ;;
      fix_reloc r (o_base ob) (r_value_internal r 0 (o_base ob) plt_entry (tls_module_id id) (tls_offset id))
  end.

(** ObjectRelocatable::relocate: the result and whether the relocation was postponed, if that is allowed *)
Definition relocate (o : Z) (r : relocation) (may_postpone : bool) : M world (Z * bool) :=
  ob ← get_object o;
  id ← get_identity (o_file ob);
  relax_instruction (o_base ob) r ;;
  if r_symbol r =? 0 then
    v ← fix_reloc r (o_base ob) (r_value_internal r 0 (o_base ob) 0 (tls_module_id id) (tls_offset id));
    mret (v, false)
  else
    match reloc_symbol (o_rel ob) r with
    | None => assert false ;; mret (0, false)
    | Some s =>
        let plt_entry := w64 (o_base ob + es_value s) in
        if negb (es_undefined s) then
          if bool_decide (es_type s = STT_GNU_IFUNC) then
            if may_postpone then mret (0, true)
            else
              p ← call_ifunc plt_entry;
              v ← relocate_local o ob id r s p;
              mret (v, false)
          else v ← relocate_local o ob id r s plt_entry; mret (v, false)
        else
          w ← get;
          match Loader.resolve w (es_name s) None (ns id) (Some (o_file ob)) (resolve_mode id r) with
          | None => assert false ;; mret (0, false)
          | Some None => mret (0, false)
          | Some (Some sym) =>
              insert_relocation o r sym ;;
              if may_postpone && bool_decide (Symbol.sym_type sym = STT_GNU_IFUNC) then mret (0, true)
              else
                sob ← get_object (Symbol.sym_object sym);
                value ← external_value (o_base ob) r sym (o_base sob) (tls_module_id id) (tls_offset id);
                v ← fix_reloc r (o_base ob) value;
                mret (v, false)
          end
    end.

(** ** Preparation *)

(** The first pass: what is postponed, and whether everything else worked *)
Fixpoint relocate_first (o : Z) (rs : list relocation) : M world (list relocation * bool) :=
  match rs with
  | [] => mret ([], true)
  | r :: rs =>
      '(v, postponed) ← relocate o r true;
      '(l, ok) ← relocate_first o rs;
      mret (if postponed : bool then r :: l else l, (postponed || negb (v =? 0)) && ok)
  end.
Fixpoint relocate_postponed (o : Z) (rs : list relocation) : M world bool :=
  match rs with
  | [] => mret true
  | r :: rs =>
      '(v, _) ← relocate o r false;
      ok ← relocate_postponed o rs;
      mret (negb (v =? 0) && ok)
  end.
Definition all_relocations (r : RelState) : list relocation :=
  concat ((fun k => match sections r !! k with Some s => rs_relocations s | None => [] end) <$> relocation_tables r).

(** The header of the exception frame section, behind its contents *)
Definition write_eh_header (o : Z) (k : nat) : M world unit :=
  ob ← get_object o;
  let r := o_rel ob in
  let start := w64 (o_base ob + default 0 (offset_sections r !! k)) in
  let size := match sections r !! k with Some s => MemorySegment.sec_size (rs_section s) | None => 0 end in
  let a := Z.land (w64 (start + size + 16)) (Z.lxor (Z.ones 64) 0xf) in
  store_all a ([1; 0x04; 0xff; 0xff] ++ le_bytes 8 start ++ le_bytes 8 0) ;;
  set_dyn o (fun d => d <| eh_frame := a |>).

(** ObjectRelocatable::prepare *)
Definition prepare (o : Z) : M world bool :=
  r ← get_rel o;
  '(postponed, ok) ← relocate_first o (all_relocations r);
  ok' ← relocate_postponed o postponed;
  (match eh_section r with Some k => write_eh_header o k | None => mret tt end) ;;
  ob ← get_object o;
  mfor (init_sections r) (fun k =>
    match sections r !! k with
    | Some s =>
        assert ((0 <? MemorySegment.sec_size (rs_section s)) && (rs_type s =? SHT_PROGBITS)) ;;
        emit (Ev_store (w64 (o_base ob + default 0 (offset_sections r !! k) + MemorySegment.sec_size (rs_section s))) 0xc3)
    | None => assert false
    end) ;;
  mret (ok && ok').

(** ** Updates *)

(** ObjectRelocatable::update *)
Fixpoint update_relocations (o : Z) (rs : list (relocation * VersionedSymbol)) : M world unit :=
  match rs with
  | [] => mret tt
  | (r, sym) :: rs =>
      target ← is_latest_version (Symbol.sym_object sym);
      (if negb target && match Symbol.sym_type sym with STT_FUNC | STT_GNU_IFUNC | STT_SECTION => true | _ => false end
       then relocate o r false ;; mret tt else mret tt) ;;
      update_relocations o rs
  end.
Definition update (o : Z) : M world bool :=
  ob ← get_object o;
  update_relocations o (relocations (o_dyn ob)) ;;
  mret true.

(** ObjectRelocatable::patchable *)
Definition patchable (o : Z) : M world bool :=
  ob ← get_object o;
  id ← get_identity (o_file ob);
  mret (match Executable.previous id o with
        | Some p => bool_decide (elf_identification p = elf_identification o) && (elf_type p =? elf_type o)
        | None => false
        end).

(** ** Initialization *)

(** The functions of an array, called with the arguments of the program *)
Definition call_array (o : Z) (k : nat) : M world unit :=
  ob ← get_object o;
  let r := o_rel ob in
  match sections r !! k with
  | None => mret tt
  | Some s =>
      let a := w64 (o_base ob + default 0 (offset_sections r !! k)) in
      mfor (seq 0 (Z.to_nat (MemorySegment.sec_size (rs_section s) / 8))) (fun i =>
        tr ← history;
        l ← get_loader;
        emit (Ev_call (read_word tr (w64 (a + 8 * Z.of_nat i))) (argc l)))
  end.
Definition call_arrays (o : Z) (type : Z) : M world unit :=
  r ← get_rel o;
  mfor (seq 0 (length (sections r))) (fun k =>
    match sections r !! k with
    | Some s => if (0 <? MemorySegment.sec_size (rs_section s)) && (rs_type s =? type) then call_array o k else mret tt
    | None => mret tt
    end).

(** The .init sections of the object *)
Definition call_init (ob : Object) (r : RelState) (l : Loader) : M world unit :=
  mfor (init_sections r) (fun k =>
    match sections r !! k with
    | Some s =>
        if strcmp_eq (rs_name s) ".init" then
          assert ((0 <? MemorySegment.sec_size (rs_section s)) && (rs_type s =? SHT_PROGBITS)) ;;
          emit (Ev_call (w64 (o_base ob + default 0 (offset_sections r !! k))) (argc l))
        else mret tt
    | None => mret tt
    end).

(** ObjectRelocatable::initialize *)
Definition initialize (o : Z) (preinit : bool) : M world bool :=
  ob ← get_object o;
  let r := o_rel ob in
  (if preinit then call_arrays o SHT_PREINIT_ARRAY
   else
     l ← get_loader;
     (match find_symbol r "_init" with
      | Some s => if bool_decide (es_type s.2 = STT_FUNC) then emit (Ev_call (w64 (o_base ob + es_value s.2)) (argc l))
                  else call_init ob r l
      | None => call_init ob r l
      end) ;;
     call_arrays o SHT_INIT_ARRAY) ;;
  mret true.
End relocatable.
End Relocatable.
