(* ===== verification/Objects.v ===== *)
(** The virtual functions of all kinds of objects (the override declarations of src/src/object/executable.hpp,
    src/src/object/dynamic.hpp and src/src/object/relocatable.hpp, the defaults of src/src/object/base.hpp): an instance
    of the interface [ObjectOps] the rest of the loader is modelled against.

    Preloading a dynamic object opens the libraries it needs, which are loaded with the same functions:
    every nested load takes one unit of fuel. *)
From S2P Require Import Prelude Platform Segment Symbol Tls World Object Identity Gdb Loader Executable Dynamic Relocatable.

Module Objects.
Import World Object.

Definition PT_DYNAMIC : Z := 2.

Section objects.
Context `{DlhMath}.
Context (kernel : kernel_t) `{Env} `{Symbol.StringOps} `{Executable.ElfSegments} `{Dynamic.ElfTables} `{Dynamic.RelocatorOps}
  `{Dynamic.DynEnv} `{Relocatable.RelEnv}.

(** Dynamic dispatch *)
Definition by_kind {A} (o : Z) (dynamic : bool -> M world A) (executable relocatable : M world A) : M world A :=
  ob ← get_object o;
  match o_kind ob with
  | KDynamic pic => dynamic pic
  | KExecutable => executable
  | KRelocatable => relocatable
  end.

(** Symbol lookup does not depend on other functions. *)
Definition resolve_symbol (w : world) (o : Z) (n : string) (hash gnu_hash : Z) (v : Version) : option VersionedSymbol :=
  match objects w !! o with
  | Some ob =>
      match o_kind ob with
      | KDynamic _ => Dynamic.resolve_symbol o n hash gnu_hash v
      | KExecutable => None
      | KRelocatable => Relocatable.resolve_symbol w o n
      end
  | None => None
  end.
Definition resolve_address (w : world) (o addr : Z) : option VersionedSymbol :=
  match objects w !! o with
  | Some ob =>
      match o_kind ob with
      | KDynamic _ => Dynamic.resolve_address w o addr
      | KExecutable => None
      | KRelocatable => Relocatable.resolve_address w o addr
      end
  | None => None
  end.

(** Object::dynamic_address *)
Definition dynamic_address (w : world) (o : Z) : Z :=
  match objects w !! o with
  | Some ob =>
      match find (fun s => s.1 =? PT_DYNAMIC) (Executable.elf_segments o) with
      | Some (_, g) => w64 ((if bool_decide (h_type (header_at (trace w) (d_addr (o_data ob))) = ET_EXEC) then 0 else o_base ob)
                            + MemorySegment.seg_virt_addr g)
      | None => 0
      end
  | None => 0
  end.

(** One level: [sub] are the functions of the objects that are loaded meanwhile. *)
Definition ops_over (sub : ObjectOps) (fuel : nat) : ObjectOps := {|
  v_construct o := by_kind o (Dynamic.construct o) (mret tt) (Relocatable.construct o);
  v_preload o := by_kind o (fun _ => Dynamic.preload kernel fuel o) (Executable.preload_segments o false) (Relocatable.preload o);
  v_fix o := by_kind o (fun _ => Dynamic.fix_ o) (mret true) (mret true);
  v_preprepare o := by_kind o (fun _ => mret tt) (mret tt) (Relocatable.preprepare kernel o);
  v_prepare o := by_kind o (fun _ => Dynamic.prepare kernel o) (mret true) (Relocatable.prepare o);
  v_update o := by_kind o (fun _ => Dynamic.update kernel o) (mret true) (Relocatable.update o);
  v_patchable o := by_kind o (fun _ => Dynamic.patchable o) (mret false) (Relocatable.patchable o);
  v_initialize o preinit :=
    by_kind o (fun _ => Dynamic.initialize o preinit) (mret true) (Relocatable.initialize o preinit);
  v_resolve_symbol := resolve_symbol;
  v_resolve_address := resolve_address;
  v_dynamic_address := dynamic_address;
|}.

(** The functions when no further library can be loaded *)
Definition no_ops : ObjectOps := {|
  v_construct _ := no_fuel; v_preload _ := no_fuel; v_fix _ := no_fuel; v_preprepare _ := no_fuel;
  v_prepare _ := no_fuel; v_update _ := no_fuel; v_patchable _ := no_fuel; v_initialize _ _ := no_fuel;
  v_resolve_symbol := resolve_symbol; v_resolve_address := resolve_address; v_dynamic_address := dynamic_address;
|}.
Fixpoint object_ops (fuel : nat) : ObjectOps :=
  match fuel with
  | O => no_ops
  | S fuel => ops_over (object_ops fuel) fuel
  end.
End objects.
End Objects.
