(* ===== verification/DlResolve.v ===== *)
(** Lazy resolution of functions (src/src/dynamic_resolve.cpp): the assembler the procedure linkage table jumps to on the
    first call of a function, and the function it calls, which keeps the floating point state.

    The assembler is a list of instructions with their meaning on registers, memory and the state components of
    the floating point unit.  What the compiled resolver does with the registers is up to the compiler
    ([clobber]), its effect on the loader is [resolve]. *)
From S2P Require Import Prelude Platform X86 Segment Symbol World Object Process Executable Dynamic Relocatable Objects.

Module DlResolve.
Import X86 World Object Process Objects.

#[export] Instance reg_eq_dec : EqDecision reg.
Proof. solve_decision. Defined.

Definition fpu := Z -> Z.
Record cpu := MkCpu { regs : reg -> Z; mem : memory; fp : fpu; state : world }.

(** ** The processor *)

Inductive instr :=
| ENDBR64
| PUSH (r : reg)
| POP (r : reg)
| MOV (src dst : reg)
| LOAD (disp : Z) (base dst : reg)     (* mov disp(base), dst *)
| STORE (src : reg) (disp : Z) (base : reg)
| ADD (imm : Z) (dst : reg)
| MOVI (imm : Z) (dst : reg)           (* mov $imm, dst *)
| AND (imm : Z) (dst : reg).           (* and $imm, dst; imm is sign extended *)

Definition get_reg (r : reg) (c : cpu) : Z := regs c r.
Definition set_reg (r : reg) (v : Z) (c : cpu) : cpu :=
  MkCpu (fun x => if decide (x = r) then v else regs c x) (mem c) (fp c) (state c).
Definition store (a v : Z) (c : cpu) : cpu := MkCpu (regs c) (wr (mem c) a (le_bytes 8 v)) (fp c) (state c).
Definition load (a : Z) (c : cpu) : Z := word (mem c) a.
Definition push (v : Z) (c : cpu) : cpu :=
  let sp := w64 (regs c RSP - 8) in store sp v (set_reg RSP sp c).
Definition pop (r : reg) (c : cpu) : cpu :=
  let sp := regs c RSP in set_reg r (load sp c) (set_reg RSP (w64 (sp + 8)) c).

Definition exec (i : instr) (c : cpu) : cpu :=
  match i with
  | ENDBR64 => c
  | PUSH r => push (regs c r) c
  | POP r => pop r c
  | MOV src dst => set_reg dst (regs c src) c
  | LOAD disp base dst => set_reg dst (load (w64 (regs c base + disp)) c) c
  | STORE src disp base => store (w64 (regs c base + disp)) (regs c src) c
  | ADD imm dst => set_reg dst (w64 (regs c dst + imm)) c
  | MOVI imm dst => set_reg dst (w64 imm) c
  | AND imm dst => set_reg dst (Z.land (regs c dst) (w64 imm)) c
  end.
Definition run (l : list instr) (c : cpu) : cpu := foldl (fun c i => exec i c) c l.

(** [xsave] and [xrstor] with a mask of state components, [fxsave] and [fxrstor] for x87 and SSE *)
Definition in_mask (mask k : Z) : bool := (0 <=? k) && Z.testbit mask k.
Definition restore (mask : Z) (saved : fpu) (c : cpu) : cpu :=
  MkCpu (regs c) (mem c) (fun k => if in_mask mask k then saved k else fp c k) (state c).
Definition fx_mask : Z := 0x3.
Definition mask_low : Z := 0xff.

Section resolve.
Context `{DlhMath}.
Context (kernel : kernel_t) `{ObjectOps} `{Env} `{Symbol.StringOps} `{Executable.ElfSegments} `{Dynamic.ElfTables} `{Dynamic.RelocatorOps}
  `{Dynamic.DynEnv}.
Context (supports_xsave : bool) (clobber : cpu -> cpu) (return_address : Z).

(** ** __dlresolve *)

(** The call of the virtual function, under the lock *)
Definition resolve (o index : Z) : M world Z :=
  emit Ev_lock ;;
  r ← by_kind o (fun _ => Dynamic.dynamic_resolve kernel o (Z.to_nat index)) (Object.dynamic_resolve index) (Object.dynamic_resolve index);
  emit Ev_unlock ;;
  mret r.

Definition call_resolve : M cpu unit := fun c =>
  match resolve (regs c RDI) (regs c RSI) (state c) with
  | Ok (r, w) => let c' := clobber c in Ok (tt, set_reg RAX r (MkCpu (regs c') (mem c') (fp c') w))
  | AssertFailed => AssertFailed
  | OutOfFuel => OutOfFuel
  end.
Definition __dlresolve : M cpu unit :=
  saved ← gets fp;
  call_resolve ;;
  modify (restore (if supports_xsave then mask_low else fx_mask) saved).

(** ** _dlresolve *)

(** Save register *)
Definition saved_registers : list reg :=
  [RAX; RBX; RCX; RDX; RSI; RDI; R8; R9; R10; R11; R12; R13; R14; R15].
Definition prologue : list instr :=
  [ENDBR64; PUSH RBP; MOV RSP RBP] ++ (PUSH <$> saved_registers) ++ [LOAD 8 RBP RDI; LOAD 16 RBP RSI].
(** The result replaces the second parameter, which the return instruction then takes from the stack. *)
Definition epilogue : list instr :=
  [STORE RAX 16 RBP] ++ (POP <$> rev saved_registers) ++ [POP RBP; ADD 8 RSP].

(** A call pushes the return address, which the return of the function takes from the stack. *)
Definition call (f : M cpu unit) : M cpu unit :=
  modify (push return_address) ;; f ;; modify (fun c => set_reg RSP (w64 (regs c RSP + 8)) c).

(** The result is the address the final return continues at. *)
Definition _dlresolve : M cpu Z :=
  modify (run prologue) ;;
  call __dlresolve ;;
  modify (run epilogue) ;;
  c ← get;
  modify (fun c => set_reg RSP (w64 (regs c RSP + 8)) c) ;;
  mret (load (regs c RSP) c).
End resolve.
End DlResolve.
