(* ===== verification/Rtld.v ===== *)
(** The rest of the runtime linker's interface to GLIBC (src/src/comp/glibc/rtld/exception.cpp,
    src/src/comp/glibc/rtld/dl.cpp): exceptions, the memory protection of stacks, and the assembler for profiling.

    Most of these functions only log that they are not implemented; what remains is what a caller gets back. *)
From S2P Require Import Prelude Platform Segment World Object Process DlResolve.

Module Rtld.
Import World Process DlResolve.

(** ** Exceptions (addresses; zero is nullptr) *)

Record dl_exception := MkException { objname : Z; errstring : Z; message_buffer : Z }.
Definition no_exception : dl_exception := MkException 0 0 0.
(** The exception is left as it is. *)
Definition _dl_exception_create (exception : option dl_exception) (name error : Z) : option dl_exception := exception.
Definition _dl_exception_free (exception : option dl_exception) : option dl_exception := exception.
(** The operation is not run. *)
Definition _dl_catch_exception (exception : option dl_exception) (operate args : Z) : option dl_exception * Z :=
  ((fun _ => no_exception) <$> exception, 0).
(** What is stored behind the three pointers, and the result *)
Record caught := MkCaught { c_objname : Z; c_errstring : Z; c_malloced : bool; c_error : Z }.
Definition _dl_catch_error (operate args : Z) : caught :=
  let '(exception, errorcode) := _dl_catch_exception (Some no_exception) operate args in
  let e := default no_exception exception in
  MkCaught (objname e) (errstring e) (message_buffer e =? errstring e) errorcode.
Definition _dl_check_caller (caller mask : Z) : Z := 0.

(** ** Stacks *)

Definition _dl_make_stack_executable : Z := 0.

Section stacks.
Context (kernel : kernel_t).
(** The members of the thread: its memory, the guard in front of it, and the size with the guard *)
Definition __nptl_change_stack_perm (stackblock guardsize stackblock_size : Z) : M world Z :=
  let stack := w64 (stackblock + guardsize) in
  let len := w64 (stackblock_size - guardsize) in
  r ← syscall_ kernel (Sys_mprotect stack len (Z.lor PROT_READ (Z.lor PROT_WRITE PROT_EXEC)));
  mret (match r with Success _ => 0 | Failure e => e end).
End stacks.

(** ** Profiling

    A profiled function calls _dl_mcount when it has its parameters already; what is called then only logs, so that its effect
    is what compiled code does to the processor ([clobber]). *)
Section mcount.
Context (clobber : cpu -> cpu) (return_address : Z).

Definition __dl_mcount : M cpu unit := modify clobber.
Definition mcount_registers : list reg := [RAX; RCX; RDX; RSI; RDI; R8; R9].
Definition mcount_prologue : list instr := ENDBR64 :: (PUSH <$> mcount_registers).
Definition mcount_epilogue : list instr := POP <$> rev mcount_registers.
(** The result is the address the final return continues at. *)
Definition _dl_mcount : M cpu Z :=
  modify (run mcount_prologue) ;;
  call return_address __dl_mcount ;;
  modify (run mcount_epilogue) ;;
  c ← get;
  modify (fun c => set_reg RSP (w64 (regs c RSP + 8)) c) ;;
  mret (load (regs c RSP) c).
End mcount.
End Rtld.
