(* ===== verification/Fork.v ===== *)
(** Forking a process whose data segments are shared memory (src/src/comp/glibc/fork.cpp): the memory files are
    duplicated before, and the child maps the duplicates instead; and the assembler that replaces GLIBC's
    system call.

    Patch.v puts the call of [_fork_syscall] into GLIBC. *)
From S2P Require Import Prelude Platform X86 Segment Symbol World Object Process Identity Loader DlResolve.

Module Fork.
Import World Object Process Loader DlResolve.

Section fork.
Context `{DlhMath}.
Context (kernel : kernel_t) `{Env}.
(** The entries of a hash map in the order of its iteration; the thread identifier CLONE_CHILD_SETTID stores;
    the address of the member tid of the own thread *)
Context (hash_entries : gmap Z Z -> list (Z * Z)) (child_tid : list event -> Z) (self_tid : Z).
Abbreviation sys := (syscall_ kernel).
Abbreviation history := (gets trace).

(** All memory segments: the loops over identities, versions and segments *)
Definition all_segments (w : world) : list (Z * nat) :=
  concat ((fun o => match objects w !! o with
                    | Some ob => (fun k => (o, k)) <$> seq 0 (length (o_memory_map ob))
                    | None => []
                    end) <$> all_versions w (lookup (loader w))).
Definition segment_fd (o : Z) (k : nat) : M world Z := on_segment o k (fun _ => s ← st; mret (MemorySegment.fd s)).

(** Duplicate the memory file of a segment, unless it was duplicated already. *)
Definition duplicate (fuel : nat) (replace_fd : gmap Z Z) (s : Z * nat) : M world (gmap Z Z) :=
  let '(o, k) := s in
  old_fd ← segment_fd o k;
  if negb (old_fd =? -1) && negb (bool_decide (is_Some (replace_fd !! old_fd))) then
    new_fd ← on_segment o k (fun c => MemorySegment.shmemdup hex kernel fuel c);
    assert (negb (new_fd =? -1)) ;;
    mret (<[old_fd := new_fd]> replace_fd)
  else mret replace_fd.
Fixpoint duplicate_all (fuel : nat) (replace_fd : gmap Z Z) (l : list (Z * nat)) : M world (gmap Z Z) :=
  match l with
  | [] => mret replace_fd
  | s :: l => replace_fd ← duplicate fuel replace_fd s; duplicate_all fuel replace_fd l
  end.

(** Map the duplicate instead; replace_fd[old_fd] inserts zero for a missing key. *)
Definition remap (replace_fd : gmap Z Z) (s : Z * nat) : M world (gmap Z Z) :=
  let '(o, k) := s in
  old_fd ← segment_fd o k;
  if negb (old_fd =? -1) then
    let new_fd := default 0 (replace_fd !! old_fd) in
    on_segment o k (fun c => MemorySegment.unmap kernel c) ;;
    assert (negb (new_fd =? -1)) ;;
    on_segment o k (fun _ => upd (MemorySegment.set_fd new_fd)) ;;
    on_segment o k (fun c => MemorySegment.map hex kernel c) ;;
    on_segment o k (fun _ => MemorySegment.finalize kernel false) ;;
    mret (<[old_fd := new_fd]> replace_fd)
  else mret replace_fd.
Fixpoint remap_all (replace_fd : gmap Z Z) (l : list (Z * nat)) : M world (gmap Z Z) :=
  match l with
  | [] => mret replace_fd
  | s :: l => replace_fd ← remap replace_fd s; remap_all replace_fd l
  end.
Definition close_all (fds : list Z) : M world unit := mfor fds (fun f => sys (Sys_close f) ;; mret tt).

(** __fork_syscall, without the floating point state *)
Definition fork_process (fuel : nat) : M world Z :=
  emit Ev_read_lock ;;
  w ← get;
  let segments := all_segments w in
  replace_fd ← (if dynamic_update (config (loader w)) then duplicate_all fuel ∅ segments else mret ∅);
  clone ← sys Sys_clone;
  r ← (match clone with
       | Failure _ => mret (-1)
       | Success r =>
           if r =? 0 then
             replace_fd ← remap_all replace_fd segments;
             close_all (fst <$> hash_entries replace_fd) ;;
             tr ← history;
             emit (Ev_store self_tid (child_tid tr)) ;;
             start_handler_threads kernel ;;
             mret r
           else
             (if dynamic_update (config (loader w)) then close_all (snd <$> hash_entries replace_fd) else mret tt) ;;
             mret r
       end);
  emit Ev_read_unlock ;;
  mret r.

(** ** The assembler

    [rax_of r] is what the compiled function leaves in RAX when it returns the int [r], [clobber] what it does with the other
    registers. *)
Context (supports_xsave : bool) (clobber : cpu -> cpu) (rax_of : Z -> Z) (return_address : Z).

Definition call_fork (fuel : nat) : M cpu unit := fun c =>
  match fork_process fuel (state c) with
  | Ok (r, w) => let c' := clobber c in Ok (tt, set_reg RAX (rax_of r) (MkCpu (regs c') (mem c') (fp c') w))
  | AssertFailed => AssertFailed
  | OutOfFuel => OutOfFuel
  end.
Definition __fork_syscall (fuel : nat) : M cpu unit :=
  saved ← gets fp;
  call_fork fuel ;;
  modify (restore (if supports_xsave then mask_low else fx_mask) saved).

Definition fork_registers : list reg := [RBP; RBX; RCX; R8; R9; R10; R11; R12; R13; R14; R15].
Definition fork_prologue : list instr := ENDBR64 :: (PUSH <$> fork_registers).
Definition fork_epilogue : list instr := [MOVI 0 RDX; MOVI 0 RSI; MOVI 0x1200011 RDI] ++ (POP <$> rev fork_registers).

(** The result is the address the final return continues at. *)
Definition _fork_syscall (fuel : nat) : M cpu Z :=
  modify (run fork_prologue) ;;
  call return_address (__fork_syscall fuel) ;;
  modify (run fork_epilogue) ;;
  c ← get;
  modify (fun c => set_reg RSP (w64 (regs c RSP + 8)) c) ;;
  mret (load (regs c RSP) c).
End fork.
End Fork.
