(* ===== verification/DlInterface.v ===== *)
(** The interface of libdl (src/src/comp/glibc/libdl/interface.cpp), of libgcc's unwinder
    (src/src/comp/glibc/libgcc/iterate_phdr.cpp) and the lookups of the runtime linker for the C library
    (src/src/comp/glibc/rtld/dl.cpp, the function _dl_find_object of src/src/comp/glibc/rtld/global.cpp).

    The state is the world of the loader, the error message of the interface, and the memory of the program,
    which the functions fill in. *)
From Stdlib Require Import Ascii.
From S2P Require Import Prelude Platform X86 Segment Symbol Tls World Object Identity Process Loader.

Module DlInterface.
Import X86 World Object Identity Loader.

Record dl := MkDl { d_world : world; error_msg : option string; d_mem : memory }.
#[export] Instance eta_dl : Eta dl := fun d => MkDl (d_world d) (error_msg d) (d_mem d).

(** A handle of the program: the constants, or a pointer that may be an identity *)
Inductive handle := RTLD_DEFAULT | RTLD_NEXT | Handle (i : Z).

Definition RTLD_NOW : Z := 0x2.
Definition RTLD_NOLOAD : Z := 0x4.
Definition RTLD_DEEPBIND : Z := 0x8.
Definition RTLD_GLOBAL : Z := 0x100.
Definition RTLD_NODELETE : Z := 0x1000.
Definition RTLD_DL_SYMENT : Z := 1.
Definition RTLD_DL_LINKMAP : Z := 2.

(** The bytes of a C string without the terminator *)
Definition string_bytes (s : string) : list Z := (fun c => Z.of_nat (nat_of_ascii c)) <$> String.list_ascii_of_string s.

(** struct Serinfo: the size of the buffer, the number of directories, and for each the pointer to its name with flags *)
Definition sizeof_Serinfo : Z := 16.
Definition sizeof_Serpath : Z := 16.
Definition dls_size (m : memory) (info : Z) : Z := word m info.
Definition dls_cnt (m : memory) (info : Z) : Z := load_le (rd m) (info + 8) 4.
Definition dls_serpath (info lib : Z) : Z := info + sizeof_Serinfo + lib * sizeof_Serpath.

(** struct Info, and what the additional result of dladdr1 points to *)
Record Info := MkInfo { dli_fname : string; dli_fbase : Z; dli_sname : option string; dli_saddr : Z }.
Inductive Extra := LinkMap (i : Z) | SymbolEntry (s : VersionedSymbol).
(** struct dl_phdr_info; the counters of additions and removals are always zero *)
Record phdr_info := PhdrInfo {
  dlpi_addr : Z; dlpi_name : string; dlpi_phdr : Z; dlpi_phnum : Z; dlpi_tls_modid : Z; dlpi_tls_data : Z;
}.
(** struct dl_find_object *)
Record find_object := FindObject { dlfo_map_start : Z; dlfo_map_end : Z; dlfo_link_map : Z; dlfo_eh_frame : Z }.

Section dl.
Context `{DlhMath}.
Context (kernel : kernel_t) `{ObjectOps} `{Env} `{Symbol.StringOps}.
(** The address of the path of an identity; loader->tls.get_addr(Thread::self(), module, false);
    loader->symbol_trampoline.set(symbol); what an indirect function returns; Object::tls_address *)
Context (path_pointer : Z -> Z) (tls_data : Z -> M world Z) (trampoline_set : VersionedSymbol -> M world Z)
  (ifunc : Z -> Z) (tls_address : Z -> Z -> Z).

Definition on_world {A} (m : M world A) : M dl A := fun d =>
  match m (d_world d) with
  | Ok (a, w) => Ok (a, d <| d_world := w |>)
  | AssertFailed => AssertFailed
  | OutOfFuel => OutOfFuel
  end.
Definition fails {A} (msg : string) (a : A) : M dl A := modify (fun d => d <| error_msg := Some msg |>) ;; mret a.
Definition store (a : Z) (bs : list Z) : M dl unit := modify (fun d => d <| d_mem ::= fun m => wr m a bs |>).
(** GuardedReader, GuardedWriter *)
Definition reading {A} (m : M dl A) : M dl A :=
  on_world (emit Ev_read_lock) ;; a ← m; on_world (emit Ev_read_unlock) ;; mret a.
Definition writing {A} (m : M dl A) : M dl A :=
  on_world (emit Ev_lock) ;; a ← m; on_world (emit Ev_unlock) ;; mret a.

(** ** Opening and closing *)

Definition dlclose : M dl Z := fails "Unloading is not supported (yet)" (-1).
Definition dlerror : M dl (option string) := d ← get; modify (fun d => d <| error_msg := None |>) ;; mret (error_msg d).

Definition dl_flags (flags : Z) (f : Flags) : Flags :=
  f <| bind_now := has_flag flags RTLD_NOW |> <| bind_global := has_flag flags RTLD_GLOBAL |>
    <| persistent := has_flag flags RTLD_NODELETE |> <| bind_deep := has_flag flags RTLD_DEEPBIND |>.
Definition dlmopen (fuel : nat) (lmid : Z) (filename : option string) (flags : Z) : M dl (option Z) :=
  w ← gets d_world;
  let objflags := dl_flags flags (default_flags (loader w)) in
  writing (
    r ← on_world (Loader.dlopen kernel fuel filename objflags lmid (negb (has_flag flags RTLD_NOLOAD)));
    match r with
    | None => fails "Unable to open shared object!" None
    | Some i => mret (Some i)
    end).
Definition dlopen (fuel : nat) (filename : option string) (flags : Z) : M dl (option Z) := dlmopen fuel NAMESPACE_BASE filename flags.

(** ** dlinfo *)

(** The handle is an identity that is loaded. *)
Definition loaded (h : handle) : M dl (option Z) :=
  w ← gets d_world;
  mret (match h with Handle i => if is_loaded w i then Some i else None | _ => None end).
(** The directories a library of the object is searched in: the five lists, one after the other *)
Definition serinfo_dirs (i : Z) : M dl (list string) :=
  id ← on_world (get_identity i);
  match current id with
  | None => assert false ;; mret []
  | Some o =>
      ob ← on_world (get_object o);
      w ← gets d_world;
      mret (search_path (loader w) (rpath (o_dyn ob)) (runpath (o_dyn ob)))
  end.
Definition string_len (s : string) : Z := Z.of_nat (String.length s).

Definition serinfo_size (i info : Z) : M dl Z :=
  reading (
    store (info + 8) (le_bytes 4 0) ;;
    dirs ← serinfo_dirs i;
    let cnt := foldl (fun n _ => w64 (n + 1)) 0 dirs in
    let len := foldl (fun n d => w64 (n + string_len d + 1)) 0 dirs in
    store (info + 8) (le_bytes 4 cnt) ;;
    store info (le_bytes 8 (w64 (sizeof_Serinfo + cnt * sizeof_Serpath + len))) ;;
    mret 0).

Fixpoint serinfo_fill (info : Z) (dirs : list string) (lib buf_pos : Z) : M dl Z :=
  match dirs with
  | [] => mret 0
  | dir :: dirs =>
      let len := w64 (string_len dir + 1) in
      m ← gets d_mem;
      if dls_cnt m info <=? lib then fails "Info buffer too small for number of libraries!" (-1)
      else if dls_size m info <? w64 (buf_pos + len) then fails "Info buffer too small for path strings!" (-1)
      else
        store (w64 (info + buf_pos)) (string_bytes dir ++ [0]) ;;
        store (dls_serpath info lib) (le_bytes 8 (w64 (info + buf_pos))) ;;
        store (dls_serpath info lib + 8) (le_bytes 4 0) ;;
        serinfo_fill info dirs (w64 (lib + 1)) (w64 (buf_pos + len))
  end.
Definition serinfo (i info : Z) : M dl Z :=
  reading (
    m ← gets d_mem;
    dirs ← serinfo_dirs i;
    serinfo_fill info dirs 0 (w64 (sizeof_Serinfo + dls_cnt m info * sizeof_Serpath))).

Definition RTLD_DI_LMID : Z := 1.
Definition RTLD_DI_LINKMAP : Z := 2.
Definition RTLD_DI_SERINFO : Z := 4.
Definition RTLD_DI_SERINFOSIZE : Z := 5.
Definition RTLD_DI_ORIGIN : Z := 6.
Definition RTLD_DI_TLS_MODID : Z := 9.
Definition RTLD_DI_TLS_DATA : Z := 10.

(** Requests that refuse a null pointer *)
Definition not_null (info : Z) (m : M dl Z) : M dl Z :=
  if info =? 0 then fails "Null pointer parameter!" (-1) else m.
Definition dlinfo (h : handle) (request info : Z) : M dl Z :=
  reading (
    o ← loaded h;
    match o with
    | None => fails "Invalid handle for dlinfo!" (-1)
    | Some i =>
        id ← on_world (get_identity i);
        if request =? RTLD_DI_LMID then not_null info (store info (le_bytes 8 (w64 (ns id))) ;; mret 0)
        else if request =? RTLD_DI_LINKMAP then not_null info (store info (le_bytes 8 i) ;; mret 0)
        else if request =? RTLD_DI_SERINFOSIZE then not_null info (serinfo_size i info)
        else if request =? RTLD_DI_SERINFO then not_null info (serinfo i info)
        else if request =? RTLD_DI_ORIGIN then store info (le_bytes 8 (path_pointer i)) ;; mret 0
        else if request =? RTLD_DI_TLS_MODID then store info (le_bytes 8 (tls_module_id id)) ;; mret 0
        else if request =? RTLD_DI_TLS_DATA then
          a ← (if tls_offset id =? 0 then mret 0 else on_world (tls_data (tls_module_id id)));
          store info (le_bytes 8 a) ;; mret 0
        else fails "Unknown request for dlinfo!" (-1)
    end).

(** ** Addresses *)

(** The constructor of identities lets filename point to the buffer that holds the path; without a path both are empty. *)
Definition filename (id : ObjectIdentity) : string := path id.
(** [has_info]: the pointer to the result is not null *)
Definition dladdr1 (addr : Z) (has_info : bool) (flags : Z) : M dl (option (Info * option Extra)) :=
  reading (
    w ← gets d_world;
    match resolve_object w addr NAMESPACE_BASE with
    | None => mret None
    | Some o =>
        assert has_info ;;
        ob ← on_world (get_object o);
        id ← on_world (get_identity (o_file ob));
        let map := if flags =? RTLD_DL_LINKMAP then Some (LinkMap (o_file ob)) else None in
        match v_resolve_address w o addr with
        | Some s => mret (Some (MkInfo (filename id) (o_base ob) (Some (Symbol.sym_name s)) (w64 (o_base ob + Symbol.sym_value s)),
                                if flags =? RTLD_DL_SYMENT then Some (SymbolEntry s) else map))
        | None => mret (Some (MkInfo (filename id) (o_base ob) None 0, map))
        end
    end).
Definition dladdr (addr : Z) (has_info : bool) : M dl (option Info) :=
  r ← dladdr1 addr has_info 0; mret (fst <$> r).

Definition _dl_find_dso_for_object (addr : Z) : M dl (option Z) :=
  reading (
    w ← gets d_world;
    match resolve_object w addr NAMESPACE_BASE with
    | None => mret None
    | Some o => ob ← on_world (get_object o); mret (Some (o_file ob))
    end).

(** The first segment of a version that contains the address *)
Definition segment_with (w : world) (addr : Z) (o : Z) : option find_object :=
  match objects w !! o with
  | None => None
  | Some ob =>
      match find (fun s => MemorySegment.contains s addr) (o_memory_map ob) with
      | None => None
      | Some s => Some (FindObject (MemorySegment.address s) (w64 (MemorySegment.address s + MemorySegment.size s))
                                   (o_file ob) (eh_frame (o_dyn ob)))
      end
  end.
Definition _dl_find_object (address : Z) : M dl (option find_object) :=
  reading (
    w ← gets d_world;
    mret (head (omap (segment_with w address) (all_versions w (lookup (loader w)))))).

(** ** Symbols *)

Definition is_function (s : VersionedSymbol) : bool :=
  match Symbol.sym_type s with STT_FUNC | STT_GNU_IFUNC => true | _ => false end.
(** The symbol: in the global scope (of the caller's namespace), behind the caller, or in the object of the handle;
    [None] when the handle is wrong *)
Definition find_symbol (h : handle) (symbol : string) (version : option string) (caller : Z) : M dl (option (option VersionedSymbol)) :=
  w ← gets d_world;
  let global (mode : ResolveSymbolMode) :=
    match resolve_object w caller NAMESPACE_BASE with
    | None => assert false ;; mret None
    | Some o =>
        ob ← on_world (get_object o);
        id ← on_world (get_identity (o_file ob));
        match resolve w symbol version (ns id) (Some (o_file ob)) mode with
        | None => assert false ;; mret None
        | Some r => mret (Some r)
        end
    end in
  match h with
  | RTLD_DEFAULT => global RESOLVE_DEFAULT
  | RTLD_NEXT => global RESOLVE_AFTER_OBJECT
  | Handle i =>
      if negb (is_loaded w i) then fails "Invalid handle for dl[v]sym!" None
      else
        id ← on_world (get_identity i);
        match current id with
        | None => assert false ;; mret None
        | Some o => mret (Some (v_resolve_symbol w o symbol (Symbol.elf_hash (Some symbol)) (Symbol.gnu_hash (Some symbol))
                                  (Symbol.mk_version version false None)))
        end
  end.
Definition _dlvsym (h : handle) (symbol : string) (version : option string) (caller : Z) : M dl Z :=
  writing (
    r ← find_symbol h symbol version caller;
    match r with
    | None => mret 0
    | Some (Some s) =>
        if Symbol.sym_valid s then
          w ← gets d_world;
          ob ← on_world (get_object (Symbol.sym_object s));
          id ← on_world (get_identity (o_file ob));
          assert (bool_decide (current id = Some (Symbol.sym_object s))) ;;
          let ptr := Symbol.pointer (fun _ => o_base ob) ifunc tls_address s in
          if negb (ptr =? 0) && dynamic_dlupdate (config (loader w)) && is_function s then
            tptr ← on_world (trampoline_set s);
            assert (negb (tptr =? 0)) ;;
            mret tptr
          else mret ptr
        else fails "Symbol not found!" 0
    | Some None => fails "Symbol not found!" 0
    end).

(** ** The objects of the program *)

Definition phdr_info_of (w : world) (o : Z) : M dl phdr_info :=
  ob ← on_world (get_object o);
  id ← on_world (get_identity (o_file ob));
  let h := header_at (trace w) (d_addr (o_data ob)) in
  data ← (if tls_module_id id =? 0 then mret 0 else on_world (tls_data (tls_module_id id)));
  mret (PhdrInfo (o_base ob) (filename id) (w64 (d_addr (o_data ob) + e_phoff h)) (e_phnum h) (tls_module_id id) data).
Fixpoint phdr_infos (l : list Z) : M dl (list phdr_info) :=
  match l with
  | [] => mret []
  | o :: l => w ← gets d_world; i ← phdr_info_of w o; infos ← phdr_infos l; mret (i :: infos)
  end.
(** The callback is called without the lock, until it returns something else than zero. *)
Fixpoint iterate (callback : phdr_info -> M dl Z) (infos : list phdr_info) (ret : Z) : M dl Z :=
  match infos with
  | [] => mret ret
  | i :: infos => ret ← callback i; if negb (ret =? 0) then mret ret else iterate callback infos ret
  end.
Definition dl_iterate_phdr (callback : phdr_info -> M dl Z) : M dl Z :=
  infos ← reading (w ← gets d_world; phdr_infos (all_versions w (lookup (loader w))));
  iterate callback infos 0.
End dl.
End DlInterface.
