(* ===== verification/Main.v ===== *)
(** The command line program (src/src/main.cpp): options and configuration file become the configuration of the
    loader, the files are opened, libraries preloaded and linked, and the program is started.

    The parsers of the support library for the command line and configuration files are parameters
    ([MainEnv]): what they find is an argument of the functions here.  Log messages are left out. *)
From Stdlib Require Import Ascii.
From S2P Require Import Prelude Platform Segment Symbol Tls World Object Identity Gdb Process Redirect Loader.

Module Main.
Import World Object Identity Loader.

(** * Options *)

(** struct Opts; a null pointer is [None] *)
Record Opts := MkOpts {
  relaxPatchCheck : Z; updateMode : Z; trapMode : Z;
  libpath : list string; libload : list string; libexclude : list string; preload : list string;
  libpathconf : string; luciconf : string;
  argv0 : option string; entry : option string; debughash : option string; statusinfo : option string;
  detectOutdated : option string; debugSymbolsRoot : option string;
  delayOutdated : Z;
  pie : bool; noPie : bool; dynamicUpdate : bool; dynamicDlUpdate : bool; dependencyCheck : bool; modificationTime : bool;
  forceUpdate : bool; stopOnUpdate : bool; skipIdentical : bool; debugSymbols : bool; dynamicWeak : bool; relocateCheck : bool;
  relocateOutdated : bool; earlyStatusInfo : bool; bindNow : bool; bindNot : bool; linkstatic : bool;
  showVersion : bool; showArgs : bool; showAuxv : bool; showEnv : bool; showHelp : bool; debug : bool;
}.

(** Parser::Config: the environment and a configuration file.  [value_bool] and so on are value_or_default. *)
Record ConfigFile := MkConfigFile {
  value : string -> option string;
  value_bool : string -> bool -> bool;
  value_int : string -> Z -> Z;
  value_unsigned : string -> Z -> Z;
  value_string : string -> option string -> option string;
}.
(** Elf::Phdr *)
Record Phdr := MkPhdr { p_type : Z; p_offset : Z; p_vaddr : Z; p_memsz : Z }.
Definition sizeof_Phdr : Z := 56.
Definition PT_LOAD : Z := 1.
Definition PT_PHDR : Z := 6.
(** The result of parsing the command line *)
Record Arguments := MkArguments { options : Opts; positional : list string; terminal : list string }.

Class MainEnv := {
  LIBPATH_CONF : string; LDLUCI_CONF : string; SOPATH : string;   (* of the build *)
  pic : bool;                                                   (* Debian or Ubuntu *)
  parse_config : string -> ConfigFile;                           (* Parser::Config(file, ENV_CONFIG, true) *)
  parse_arguments : list string -> option Arguments;
  compare_case : string -> string -> bool;                       (* String::compare_case(...) == 0 *)
  compare_case_n : string -> string -> Z -> bool;
  split : string -> string -> list string;                       (* String::split_inplace, split_any_inplace *)
  readable : list event -> string -> bool;                       (* File::readable *)
  lines : list event -> string -> list string;                   (* File::lines *)
  contents_set : string -> option string -> M world Z;           (* File::contents::set *)
  connect : string -> M world bool;                              (* debug_hash_socket.connect *)
  self_relocated : bool;                                         (* &_DYNAMIC - _GLOBAL_OFFSET_TABLE_[0] == 0 *)
  namespace_start : Z;                                           (* what next_namespace is before its first use *)
  getpid : Z;
  phdrs : Z -> list Phdr;                                        (* the program headers in memory *)
  c_string : Z -> string;
  bytes_of : string -> list Z;
  hash_insert : Z -> Z -> gmap Z Z -> gmap Z Z; hash_entries : gmap Z Z -> list (Z * Z);
  env : surroundings;
  dlh_stack_pointer : Z; read_argc : Z -> Z; read_env : Z -> list (Z * bool); store_env : Z -> list (Z * bool) -> M world unit;
}.
Definition AT_PHENT : Z := 4.
Definition AT_BASE : Z := 7.
Definition AT_EXECFN : Z := 31.

(** Redirect::Mode as a number *)
Definition MODE_BREAKPOINT_TRAP : Z := 1.

Section main.
Context `{DlhMath}.
Context (kernel : kernel_t) `{ObjectOps} `{Env} `{Symbol.StringOps} `{Boot} `{MainEnv}.
Abbreviation sys := (syscall_ kernel).
Abbreviation history := (gets trace).

Definition default_opts : Opts :=
  MkOpts 0 0 MODE_BREAKPOINT_TRAP [] [] [] [] LIBPATH_CONF LDLUCI_CONF None None None None None None 1
    false false false false false false false false false false false false false false false false false false false false false
    false false.

(** ** Where Luci is in memory *)

(** base_from_phdr; [None] when the assertion fails *)
Fixpoint base_from (addr : Z) (phdr : list Phdr) (base : Z) (valid : bool) : option Z :=
  match phdr with
  | [] => if valid then Some base else None
  | p :: phdr =>
      if p_type p =? PT_PHDR then Some (w64 (addr - p_offset p))
      else if p_type p =? PT_LOAD then
        let valid := ((p_vaddr p <=? addr) && (addr <=? w64 (p_vaddr p + p_memsz p))) || valid in
        base_from addr phdr (if p_vaddr p <? base then p_vaddr p else base) valid
      else base_from addr phdr base valid
  end.
Definition base_from_phdr (addr entries : Z) : option Z :=
  match phdrs addr with
  | [] => None
  | p :: _ => base_from addr (take (Z.to_nat entries) (phdrs addr)) (p_vaddr p) false
  end.

(** ** The configuration *)

Definition vector_append_unique (dest : list string) (src : string) : list string :=
  if bool_decide (src ∈ dest) then dest else dest ++ [src].
Definition append_unique (dest src : list string) : list string := foldl vector_append_unique dest src.
(** HashSet::insert *)
Definition exclude (s : list string) (x : string) : list string := if bool_decide (x ∈ s) then s else s ++ [x].

(** str == nullptr || String::len(str) == 0 *)
Definition is_empty (s : option string) : bool := match s with None => true | Some s => bool_decide (s = EmptyString) end.
Definition first_some {A} (a b : option A) : option A := match a with Some x => Some x | None => b end.

(** Position dependent code *)
Definition set_position (o : Opts) (c : Config) : Config :=
  if noPie o && negb (linkstatic o) then c
  else if pie o && negb (linkstatic o) then c
  else if pie o && noPie o then c
  else if noPie o then c <| position_independent := false |>
  else if pie o then c <| position_independent := true |>
  else c.
(** A setting that is only looked at with dynamic updates *)
Definition when_dynamic (f : Config -> Config) (c : Config) : Config := if dynamic_update c then f c else c.
Definition set_updates (o : Opts) (f : ConfigFile) (c : Config) : Config :=
  let c := c <| debugger := debug o || value_bool f "LD_DEBUG" false |> in
  let c := c <| dynamic_update := dynamicUpdate o || value_bool f "LD_DYNAMIC_UPDATE" false |> in
  let c := when_dynamic (fun c => c <| dynamic_dlupdate := dynamicDlUpdate o || value_bool f "LD_DYNAMIC_DLUPDATE" false |>) c in
  let c := when_dynamic (fun c => c <| dependency_check := dependencyCheck o || value_bool f "LD_DEPENDENCY_CHECK" false |>) c in
  let c := when_dynamic (fun c => c <| force_update := forceUpdate o || value_bool f "LD_FORCE_UPDATE" false |>) c in
  let c := when_dynamic (fun c => c <| stop_on_update := stopOnUpdate o || value_bool f "LD_STOP_ON_UPDATE" false |>) c in
  let c := if cfg_skip_identical c
           then c <| cfg_skip_identical := skipIdentical o || value_bool f "LD_SKIP_IDENTICAL" false |> else c in
  let c := c <| use_mtime := modificationTime o || value_bool f "LD_USE_MTIME" false |> in
  let c := c <| dynamic_weak := dynamicWeak o || value_bool f "LD_DYNAMIC_WEAK" false |> in
  let c := when_dynamic (fun c => c <| check_relocation_content := relocateCheck o || value_bool f "LD_RELOCATE_CHECK" false |>) c in
  when_dynamic (fun c => c <| update_outdated_relocations := relocateOutdated o || value_bool f "LD_RELOCATE_OUTDATED" false |>) c.
Definition set_output (o : Opts) (f : ConfigFile) (c : Config) : Config :=
  let c := c <| early_statusinfo := earlyStatusInfo o || value_bool f "LD_EARLY_STATUS_INFO" false |> in
  let c := c <| show_args := showArgs o || value_bool f "LD_SHOW_ARGS" false |> in
  let c := c <| show_auxv := showAuxv o || value_bool f "LD_SHOW_AUXV" false |> in
  let c := c <| show_env := showEnv o || value_bool f "LD_SHOW_ENV" false |> in
  let c := when_dynamic (fun c => c <| find_debug_symbols := debugSymbols o || value_bool f "LD_DEBUG_SYMBOLS" false |>) c in
  if find_debug_symbols c
  then c <| debug_symbols_root := if negb (is_empty (debugSymbolsRoot o)) then debugSymbolsRoot o
                                  else value_string f "LD_DEBUG_SYMBOLS_ROOT" None |>
  else c.

(** Detect access of outdated versions; the second component tells whether old uprobes are removed. *)
Definition set_detect (o : Opts) (f : ConfigFile) (c : Config) : Config * bool :=
  let mode := if is_empty (detectOutdated o) then value_string f "LD_DETECT_OUTDATED" (Some "disabled"%string) else detectOutdated o in
  let m := default EmptyString mode in
  if negb (dynamic_update c) || is_empty mode || compare_case m "disabled" then (c <| detect_outdated := DETECT_OUTDATED_DISABLED |>, false)
  else if compare_case m "userfaultfd" then (c <| detect_outdated := DETECT_OUTDATED_VIA_USERFAULTFD |>, false)
  else if compare_case_n m "uprobes" 7 then
    if compare_case m "uprobes" then (c <| detect_outdated := DETECT_OUTDATED_VIA_UPROBES |>, true)
    else if compare_case m "uprobes_deps" then (c <| detect_outdated := DETECT_OUTDATED_WITH_DEPS_VIA_UPROBES |>, true)
    else (c <| detect_outdated := DETECT_OUTDATED_VIA_UPROBES |>, true)
  else (c, false).
Definition set_delay (o : Opts) (f : ConfigFile) (c : Config) : Config :=
  if negb (bool_decide (detect_outdated c = DETECT_OUTDATED_DISABLED))
  then c <| detect_outdated_delay := math_max (delayOutdated o) (value_unsigned f "LD_DETECT_OUTDATED_DELAY" (detect_outdated_delay c)) |>
  else c.
(** The casts to the enumerations keep the numbers. *)
Definition set_modes (o : Opts) (f : ConfigFile) (c : Config) : Config :=
  let c := c <| update_mode := math_max (updateMode o) (value_int f "LD_UPDATE_MODE" (update_mode c)) |> in
  let c := c <| trap_mode := math_max (trapMode o) (value_int f "LD_TRAP_MODE" (trap_mode c)) |> in
  c <| relax_comparison := math_max (relaxPatchCheck o) (value_int f "LD_RELAX_CHECK" (relax_comparison c)) |>.

Definition reset_uprobes : M world unit :=
  r ← contents_set "/sys/kernel/debug/tracing/events/uprobes/enable" (Some "0"%string);
  if negb (r =? 0) then contents_set "/sys/kernel/debug/tracing/uprobe_events" None ;; mret tt else mret tt.
Definition loader_config (o : Opts) (f : ConfigFile) : M world Config :=
  let c := set_output o f (set_updates o f (set_position o (default_config pic MODE_BREAKPOINT_TRAP))) in
  let '(c, uprobes) := set_detect o f c in
  (if uprobes : bool then reset_uprobes else mret tt) ;;
  mret (set_modes o f (set_delay o f c)).

(** ** Setup *)

(** The default member initializers of struct Loader *)
Definition new_loader (c : Config) : Loader :=
  MkLoader c [] [] ["/lib"; "/usr/lib"; "/lib64"; "/usr/lib64"]%string [] None None None false false getpid
    (-1) (-1) (-1) 0 0 0 false false no_flags namespace_start 0 ["ld-linux-x86-64.so.2"; "libdl.so.2"]%string TLS.tls_init.

(** O_WRONLY | O_CREAT | O_TRUNC | O_SYNC *)
Definition status_flags : Z := 0x101241.
(** Logging of the status, and the socket for debug hashes *)
Definition setup_output (o : Opts) (f : ConfigFile) : M world unit :=
  let uri := first_some (debughash o) (value f "LD_DEBUG_HASH") in
  (if negb (is_empty uri) then connect (default EmptyString uri) ;; mret tt else mret tt) ;;
  match first_some (statusinfo o) (value f "LD_STATUS_INFO") with
  | None => mret tt
  | Some p =>
      r ← sys (Sys_open p status_flags);
      match r with
      | Success fd => set_loader (fun l => l <| statusinfofd := fd |>)
      | Failure _ => mret tt
      end
  end.
(** The words of a setting, if it is there *)
Definition words (f : ConfigFile) (key separators : string) : list string :=
  match value f key with
  | Some s => if bool_decide (s = EmptyString) then [] else split s separators
  | None => []
  end.
Definition path_config (tr : list event) (o : Opts) (f : ConfigFile) (paths : list string) : list string :=
  let paths := if readable tr (libpathconf o) then append_unique paths (lines tr (libpathconf o)) else paths in
  match value f "LD_LIBRARY_CONF" with
  | Some s => if negb (bool_decide (s = EmptyString)) && readable tr s then append_unique paths (lines tr s) else paths
  | None => paths
  end.
(** The library search path and the libraries to skip *)
Definition setup_paths (o : Opts) (f : ConfigFile) : M world unit :=
  set_loader (fun l => l <| library_path_runtime ::= fun p => append_unique (append_unique p (libpath o)) (words f "LD_LIBRARY_PATH" ";") |>) ;;
  tr ← history;
  set_loader (fun l => l <| library_path_config ::= path_config tr o f |>) ;;
  set_loader (fun l => l <| library_exclude ::= fun s => foldl exclude (foldl exclude s (libexclude o)) (words f "LD_EXCLUDE" ";:") |>).

(** The result are the libraries to preload. *)
Definition setup (fuel : nat) (luci_base : Z) (luci_path : option string) (o : Opts) : M world (list string) :=
  let f := parse_config (luciconf o) in
  let luci_path := if is_empty luci_path then value f "LD_PATH" else luci_path in
  let luci_path := if is_empty luci_path then SOPATH else default EmptyString luci_path in
  c ← loader_config o f;
  set_loader (fun _ => new_loader c) ;;
  loader_init kernel fuel luci_base luci_path ;;
  setup_output o f ;;
  set_loader (fun l => l <| default_flags ::= fun g =>
    g <| bind_now := bindNow o || bool_decide (is_Some (value f "LD_BIND_NOW")) |>
      <| bind_not := bindNot o || bool_decide (is_Some (value f "LD_BIND_NOT")) |> |>) ;;
  setup_paths o f ;;
  mret (preload o ++ words f "LD_PRELOAD" ";:").

(** ** Opening files *)

Inductive LibName := LIB_NAME_COLON | LIB_NAME_SHARED | LIB_NAME_STATIC.
Definition lib_filename (lib : string) (n : LibName) : string :=
  match n with
  | LIB_NAME_COLON => match lib with String _ s => s | EmptyString => EmptyString end
  | LIB_NAME_SHARED =>
      ("lib" +:+ lib +:+ ".so" +:+ (if bool_decide (lib ∈ ["c"; "m"; "stdc++"]) then ".6" else ""))%string
  | LIB_NAME_STATIC => ("lib" +:+ lib +:+ ".a")%string
  end.
(** loader->library(file, default_flags, priority) *)
Definition load_library (fuel : nat) (file : string) (priority : bool) : M world (option Z) :=
  l ← get_loader; library kernel fuel file (default_flags l) priority [] [] NAMESPACE_BASE true.
Definition load_library_by_name (fuel : nat) (lib : string) (n : LibName) : M world bool :=
  i ← load_library fuel (lib_filename lib n) false;
  mret (bool_decide (is_Some i)).
Definition preload_all (fuel : nat) (libs : list string) : M world unit :=
  mfor libs (fun l => load_library fuel l true ;; mret tt).

Definition starts_with_colon (lib : string) : bool :=
  match lib with String c _ => bool_decide (c = ":"%char) | EmptyString => false end.
(** Whether the program goes on after the library; the condition is evaluated from left to right. *)
Definition link_library (fuel : nat) (lib : string) : M world bool :=
  colon ← (if starts_with_colon lib then
             r ← load_library_by_name fuel lib LIB_NAME_COLON; mret (negb r)
           else mret false);
  missing ← (if colon : bool then mret true
             else
               shared ← load_library_by_name fuel lib LIB_NAME_SHARED;
               if shared : bool then mret false
               else static ← load_library_by_name fuel lib LIB_NAME_STATIC; mret (negb static));
  mret (negb missing).

(** Open the files of the command line; the first one is started. *)
Fixpoint open_all (fuel : nat) (files : list string) (start : option Z) : M world (option Z) :=
  match files with
  | [] => mret start
  | file :: files =>
      l ← get_loader;
      o ← open kernel fuel file ((default_flags l) <| updatable := true |>) true NAMESPACE_BASE 0 ET_NONE None;
      match o with
      | None => mret None
      | Some i => open_all fuel files (Some (default i start))
      end
  end.

(** ** main *)

Inductive outcome := Exit (status : Z) | Started (registers : list (Process.reg * Z)).
Definition EXIT_SUCCESS : Z := 0.
Definition EXIT_FAILURE : Z := 1.
Definition finish (r : option (list (Process.reg * Z))) : outcome :=
  match r with Some regs => Started regs | None => Exit EXIT_FAILURE end.

(** Luci is started from the command line. *)
Definition main_command (fuel : nat) (base : Z) (argv : list string) : M world outcome :=
  match parse_arguments argv with
  | None => mret (Exit EXIT_FAILURE)
  | Some a =>
      let o := options a in
      if showVersion o then mret (Exit EXIT_SUCCESS)
      else if showHelp o then mret (Exit EXIT_SUCCESS)
      else
        preload ← setup fuel base (head argv) o;
        match positional a with
        | [] => mret (Exit EXIT_FAILURE)
        | bin :: _ =>
            s ← open_all fuel (positional a) None;
            match s with
            | None => mret (Exit EXIT_FAILURE)
            | Some start =>
                preload_all fuel preload ;;
                linked ← (if linkstatic o then all_until (link_library fuel) (libload o) else mret true);
                if negb linked then mret (Exit EXIT_FAILURE)
                else
                  r ← run_args kernel hash_insert hash_entries env start (bytes_of <$> (default bin (argv0 o) :: terminal a)) 0 0 (entry o);
                  mret (finish r)
            end
        end
  end.

(** Luci is the interpreter of the program. *)
Definition interpreter_flags (c : Config) (type : ehdr_type) (f : Flags) : Flags :=
  let f := if dynamic_update c && bool_decide (type = ET_DYN)
           then f <| updatable := true |> <| premapped := false |>
           else f <| updatable := false |> <| premapped := true |> in
  f <| executed_binary := true |>.
Definition main_interpreter (fuel : nat) (base : Z) : M world outcome :=
  let luci_base := default 0 (auxiliary AT_BASE) in
  preload ← setup fuel (if luci_base =? 0 then BASEADDRESS else luci_base) None default_opts;
  l ← get_loader;
  tr ← history;
  let flags := interpreter_flags (config l) (h_type (header_at tr base)) (default_flags l) in
  s ← open kernel fuel (c_string (default 0 (auxiliary AT_EXECFN))) flags true NAMESPACE_BASE (if premapped flags then base else 0) ET_NONE None;
  match s with
  | None => mret (Exit EXIT_FAILURE)
  | Some start =>
      preload_all fuel preload ;;
      r ← run_stack kernel read_argc read_env store_env start dlh_stack_pointer None;
      mret (finish r)
  end.

Definition main (fuel : nat) (argv : list string) : M world outcome :=
  assert self_relocated ;;
  assert (default 0 (auxiliary AT_PHENT) =? sizeof_Phdr) ;;
  match base_from_phdr (default 0 (auxiliary Process.AT_PHDR)) (default 0 (auxiliary Process.AT_PHNUM)) with
  | None => assert false ;; mret (Exit EXIT_FAILURE)
  | Some base => if base =? BASEADDRESS then main_command fuel base argv else main_interpreter fuel base
  end.
End main.
End Main.
