(* ===== verification/Layout.v ===== *)
(** Layout of C structures (System V ABI, x86-64), in which the loader provides its copies of GLIBC's
    internal structures (Glibc.v): sizes, alignments and the places of members and bit-fields. *)
From S2P Require Import Prelude.

Module Layout.

(** A member: a field, or a bit-field of [width] bits with a declared type of [size] bytes *)
Inductive member (T : Type) := Field (name : string) (t : T) | Bits (name : string) (size width : Z).
Arguments Field {T}.
Arguments Bits {T}.

Inductive ctype :=
| Scalar (size : Z)                       (* aligned to its size *)
| Array (t : ctype) (n : nat)
| Struct (members : list (member ctype))
| Union (ts : list ctype).

Abbreviation pointer := (Scalar 8).
Abbreviation size_t := (Scalar 8).
Abbreviation uint64_t := (Scalar 8).
Abbreviation uintptr_t := (Scalar 8).
Abbreviation uint32_t := (Scalar 4).
Abbreviation int_t := (Scalar 4).
Abbreviation enum_t := (Scalar 4).
Abbreviation uint16_t := (Scalar 2).
Abbreviation char_t := (Scalar 1).
Abbreviation bool_t := (Scalar 1).

(** The smallest multiple of [a] that is not below [x] *)
Definition round_up (x a : Z) : Z := (x + a - 1) / a * a.

(** ** Places, in bits *)

(** What the placement needs of a member: the width, and the storage unit.  A field is its own storage unit, a
    bit-field only has to stay within one unit of its declared type. *)
Record item := Item { i_name : string; i_bits : Z; i_align : Z; i_bitfield : bool }.
Record place := Place { p_item : item; p_offset : Z }.

Definition position (i : item) (bit : Z) : Z :=
  if i_bitfield i && (bit / i_align i =? (bit + i_bits i - 1) / i_align i) then bit
  else round_up bit (i_align i).
Fixpoint places (l : list item) (bit : Z) : list place :=
  match l with
  | [] => []
  | i :: l => let p := position i bit in Place i p :: places l (p + i_bits i)
  end.
(** The end of the last member *)
Fixpoint extent (l : list item) (bit : Z) : Z :=
  match l with
  | [] => bit
  | i :: l => extent l (position i bit + i_bits i)
  end.

(** ** Sizes, in bytes *)

Fixpoint alignof (t : ctype) : Z :=
  match t with
  | Scalar s => s
  | Array t _ => alignof t
  | Struct ms => foldr (fun m a => Z.max (match m with Field _ t => alignof t | Bits _ s _ => s end) a) 1 ms
  | Union ts => foldr (fun t a => Z.max (alignof t) a) 1 ts
  end.
Fixpoint sizeof (t : ctype) : Z :=
  match t with
  | Scalar s => s
  | Array t n => Z.of_nat n * sizeof t
  | Struct ms =>
      let items := (fun m => match m with
                             | Field n t => Item n (8 * sizeof t) (8 * alignof t) false
                             | Bits n s w => Item n w (8 * s) true
                             end) <$> ms in
      round_up (extent items 0) (8 * alignof t) / 8
  | Union ts => round_up (foldr (fun t a => Z.max (sizeof t) a) 0 ts) (alignof t)
  end.

Definition item_of (m : member ctype) : item :=
  match m with
  | Field n t => Item n (8 * sizeof t) (8 * alignof t) false
  | Bits n s w => Item n w (8 * s) true
  end.
Definition layout (t : ctype) : list place :=
  match t with Struct ms => places (item_of <$> ms) 0 | _ => [] end.

(** offsetof(t, name) in bytes, for a field *)
Definition offsetof (t : ctype) (name : string) : option Z :=
  (fun p => p_offset p / 8) <$> find (fun p => bool_decide (i_name (p_item p) = name)) (layout t).

(** Types the compiler accepts: alignments are powers of two, bit-fields fit into their declared type. *)
Definition power_of_2 (z : Z) : bool := bool_decide (z ∈ [1; 2; 4; 8; 16]).
Fixpoint well_formed (t : ctype) : bool :=
  match t with
  | Scalar s => power_of_2 s
  | Array t _ => well_formed t
  | Struct ms => forallb (fun m => match m with
                                   | Field _ t => well_formed t
                                   | Bits _ s w => power_of_2 s && (0 <? w) && (w <=? 8 * s)
                                   end) ms
  | Union ts => forallb well_formed ts
  end.
End Layout.
