(* ===== verification/Version.v ===== *)
(** The platforms the loader is built for (src/src/comp/glibc/version.hpp): the version of GLIBC, and the
    sizes its internal structures have there, against which the build checks the copies. *)
From S2P Require Import Prelude.

Module Version.

(** The macro COMPATIBILITY_... that is defined; AlmaLinux 8 and Oracle Linux 8 are like RHEL 8, AlmaLinux 9
    is like RHEL 9. *)
Inductive platform :=
| ARCH_202211
| DEBIAN_STRETCH | DEBIAN_BUSTER | DEBIAN_BULLSEYE | DEBIAN_BOOKWORM
| FEDORA_36 | FEDORA_37
| RHEL_8 | RHEL_9 | OL_9
| OPENSUSELEAP_15
| UBUNTU_FOCAL | UBUNTU_JAMMY.
#[export] Instance platform_eq_dec : EqDecision platform.
Proof. solve_decision. Defined.
Definition platforms : list platform :=
  [ARCH_202211; DEBIAN_STRETCH; DEBIAN_BUSTER; DEBIAN_BULLSEYE; DEBIAN_BOOKWORM; FEDORA_36; FEDORA_37;
   RHEL_8; RHEL_9; OL_9; OPENSUSELEAP_15; UBUNTU_FOCAL; UBUNTU_JAMMY].

Definition GLIBC_2_24 : Z := 224.
Definition GLIBC_2_25 : Z := 225.
Definition GLIBC_2_26 : Z := 226.
Definition GLIBC_2_27 : Z := 227.
Definition GLIBC_2_28 : Z := 228.
Definition GLIBC_2_29 : Z := 229.
Definition GLIBC_2_30 : Z := 230.
Definition GLIBC_2_31 : Z := 231.
Definition GLIBC_2_32 : Z := 232.
Definition GLIBC_2_33 : Z := 233.
Definition GLIBC_2_34 : Z := 234.
Definition GLIBC_2_35 : Z := 235.
Definition GLIBC_2_36 : Z := 236.

(** What the preprocessor defines for a platform *)
Record defines := Defines {
  GLIBC_VERSION : Z;
  GLIBC_PTHREAD_IN_LIBC : bool;
  GLIBC_RTLD_GLOBAL_SIZE : Z;
  GLIBC_RTLD_GLOBAL_RO_SIZE : Z;
  GLIBC_LINK_MAP_SIZE : Z;
  GLIBC_TUNABLE_COUNT : Z;
  GLIBC_TUNABLE_SIZE : Z;
}.

Definition arch_202211 : defines := Defines GLIBC_2_36 true 4328 896 1184 37 4144.
Definition debian_stretch : defines := Defines GLIBC_2_24 false 3968 376 1136 0 0.
Definition debian_buster : defines := Defines GLIBC_2_31 false 3992 432 1144 24 1344.
Definition debian_bullseye : defines := Defines GLIBC_2_31 false 4000 544 1152 28 1568.
Definition debian_bookworm : defines := Defines GLIBC_2_36 true 4328 896 1184 37 4144.
Definition fedora_36 : defines := Defines GLIBC_2_35 true 4304 928 1160 35 3920.
Definition fedora_37 : defines := Defines GLIBC_2_36 true 4336 896 1192 37 4144.
Definition rhel_8 : defines := Defines GLIBC_2_28 false 4152 688 1152 29 1624.
Definition rhel_9 : defines := Defines GLIBC_2_34 true 4176 912 1160 34 3808.
Definition ol_9 : defines := Defines GLIBC_2_34 true 4176 912 1160 37 4144.
Definition opensuseleap_15 : defines := Defines GLIBC_2_31 false 4000 544 1152 26 1456.
Definition ubuntu_focal : defines := Defines GLIBC_2_31 false 3992 536 1152 26 1456.
Definition ubuntu_jammy : defines := Defines GLIBC_2_35 true 4304 928 1160 35 3920.

Definition defined (p : platform) : defines :=
  match p with
  | ARCH_202211 => arch_202211
  | DEBIAN_STRETCH => debian_stretch | DEBIAN_BUSTER => debian_buster
  | DEBIAN_BULLSEYE => debian_bullseye | DEBIAN_BOOKWORM => debian_bookworm
  | FEDORA_36 => fedora_36 | FEDORA_37 => fedora_37
  | RHEL_8 => rhel_8 | RHEL_9 => rhel_9 | OL_9 => ol_9
  | OPENSUSELEAP_15 => opensuseleap_15
  | UBUNTU_FOCAL => ubuntu_focal | UBUNTU_JAMMY => ubuntu_jammy
  end.
Definition COMPATIBILITY_RHEL_8_LIKE (p : platform) : bool := bool_decide (p = RHEL_8).
Definition COMPATIBILITY_RHEL_9_LIKE (p : platform) : bool := bool_decide (p ∈ [RHEL_9; OL_9]).
End Version.
