(* ===== verification/Tunables.v ===== *)
(** The tunables of GLIBC (src/src/comp/glibc/rtld/tunable.cpp): their default values, the lists of the
    versions, and __tunable_get_val.

    The macros GLIBC_... of the tunables are definitions of the same name; the list of a version selects
    them in the order of its enumeration. *)
From Stdlib Require Import Ascii.
From S2P Require Import Prelude Layout Version.

Module Tunables.
Import Layout Version.

Inductive TypeCode := TUNABLE_TYPE_INT_32 | TUNABLE_TYPE_UINT_64 | TUNABLE_TYPE_SIZE_T | TUNABLE_TYPE_STRING.
Inductive SecLevel := TUNABLE_SECLEVEL_SXID_ERASE | TUNABLE_SECLEVEL_SXID_IGNORE | TUNABLE_SECLEVEL_NONE.

(** A tunable; the value is a union of a number and a pointer, both 8 bytes. *)
Record Tunable := MkTunable {
  name : string;
  type_code : TypeCode; min : Z; max : Z;
  val : Z;
  initialized : bool;
  security_level : SecLevel;
  env_alias : option string;
}.

Definition UINT64_MAX : Z := 2^64 - 1.
Definition SIZE_MAX : Z := 2^64 - 1.
Definition INT32_MIN : Z := - 2^31.
Definition INT32_MAX : Z := 2^31 - 1.
Definition HWCAP_IMPORTANT : Z := 7.

(** The entry of the list: the name is composed, the bounds are cast to int64_t. *)
Definition TUNABLE_VALUE (top ns id : string) (type : TypeCode) (min max val : Z) (init : bool) (security : SecLevel)
  (alias : option string) : Tunable :=
  MkTunable (top +:+ "." +:+ ns +:+ "." +:+ id)%string type (s64 min) (s64 max) val init security alias.

(** ** The tunables *)

Definition GLIBC_CPU_HWCAP_MASK : Tunable :=
  TUNABLE_VALUE "glibc" "cpu" "hwcap_mask" TUNABLE_TYPE_UINT_64 0 UINT64_MAX HWCAP_IMPORTANT false TUNABLE_SECLEVEL_SXID_ERASE (Some "LD_HWCAP_MASK").
Definition GLIBC_CPU_HWCAPS : Tunable :=
  TUNABLE_VALUE "glibc" "cpu" "hwcaps" TUNABLE_TYPE_STRING 0 0 0 false TUNABLE_SECLEVEL_SXID_ERASE None.
Definition GLIBC_CPU_X86_DATA_CACHE_SIZE : Tunable :=
  TUNABLE_VALUE "glibc" "cpu" "x86_data_cache_size" TUNABLE_TYPE_SIZE_T 0 SIZE_MAX 0 false TUNABLE_SECLEVEL_SXID_ERASE None.
Definition GLIBC_CPU_X86_IBT : Tunable :=
  TUNABLE_VALUE "glibc" "cpu" "x86_ibt" TUNABLE_TYPE_STRING 0 0 0 false TUNABLE_SECLEVEL_SXID_ERASE None.
Definition GLIBC_CPU_X86_NON_TEMPORAL_THRESHOLD : Tunable :=
  TUNABLE_VALUE "glibc" "cpu" "x86_non_temporal_threshold" TUNABLE_TYPE_SIZE_T 0 SIZE_MAX 0 false TUNABLE_SECLEVEL_SXID_ERASE None.
Definition GLIBC_CPU_X86_REP_MOVSB_THRESHOLD : Tunable :=
  TUNABLE_VALUE "glibc" "cpu" "x86_rep_movsb_threshold" TUNABLE_TYPE_SIZE_T 1 SIZE_MAX 2048 false TUNABLE_SECLEVEL_SXID_ERASE None.
Definition GLIBC_CPU_X86_REP_STOSB_THRESHOLD : Tunable :=
  TUNABLE_VALUE "glibc" "cpu" "x86_rep_stosb_threshold" TUNABLE_TYPE_SIZE_T 1 SIZE_MAX 2048 false TUNABLE_SECLEVEL_SXID_ERASE None.
Definition GLIBC_CPU_X86_SHARED_CACHE_SIZE : Tunable :=
  TUNABLE_VALUE "glibc" "cpu" "x86_shared_cache_size" TUNABLE_TYPE_SIZE_T 0 SIZE_MAX 0 false TUNABLE_SECLEVEL_SXID_ERASE None.
Definition GLIBC_CPU_X86_SHSTK : Tunable :=
  TUNABLE_VALUE "glibc" "cpu" "x86_shstk" TUNABLE_TYPE_STRING 0 0 0 false TUNABLE_SECLEVEL_SXID_ERASE None.
Definition GLIBC_ELISION_ENABLE : Tunable :=
  TUNABLE_VALUE "glibc" "elision" "enable" TUNABLE_TYPE_INT_32 0 1 0 false TUNABLE_SECLEVEL_SXID_ERASE None.
Definition GLIBC_ELISION_SKIP_LOCK_AFTER_RETRIES : Tunable :=
  TUNABLE_VALUE "glibc" "elision" "skip_lock_after_retries" TUNABLE_TYPE_INT_32 INT32_MIN INT32_MAX 3 false TUNABLE_SECLEVEL_SXID_ERASE None.
Definition GLIBC_ELISION_SKIP_LOCK_BUSY : Tunable :=
  TUNABLE_VALUE "glibc" "elision" "skip_lock_busy" TUNABLE_TYPE_INT_32 INT32_MIN INT32_MAX 3 false TUNABLE_SECLEVEL_SXID_ERASE None.
Definition GLIBC_ELISION_SKIP_LOCK_INTERNAL_ABORT : Tunable :=
  TUNABLE_VALUE "glibc" "elision" "skip_lock_internal_abort" TUNABLE_TYPE_INT_32 INT32_MIN INT32_MAX 3 false TUNABLE_SECLEVEL_SXID_ERASE None.
Definition GLIBC_ELISION_SKIP_TRYLOCK_INTERNAL_ABORT : Tunable :=
  TUNABLE_VALUE "glibc" "elision" "skip_trylock_internal_abort" TUNABLE_TYPE_INT_32 INT32_MIN INT32_MAX 3 false TUNABLE_SECLEVEL_SXID_ERASE None.
Definition GLIBC_ELISION_TRIES : Tunable :=
  TUNABLE_VALUE "glibc" "elision" "tries" TUNABLE_TYPE_INT_32 INT32_MIN INT32_MAX 3 false TUNABLE_SECLEVEL_SXID_ERASE None.
Definition GLIBC_GMON_MINARCS : Tunable :=
  TUNABLE_VALUE "glibc" "gmon" "minarcs" TUNABLE_TYPE_INT_32 0x32 INT32_MAX 0x32 false TUNABLE_SECLEVEL_SXID_ERASE None.
Definition GLIBC_GMON_MAXARCS : Tunable :=
  TUNABLE_VALUE "glibc" "gmon" "maxarcs" TUNABLE_TYPE_INT_32 0x32 INT32_MAX 0x100000 false TUNABLE_SECLEVEL_SXID_ERASE None.
Definition GLIBC_MALLOC_ARENA_MAX : Tunable :=
  TUNABLE_VALUE "glibc" "malloc" "arena_max" TUNABLE_TYPE_SIZE_T 1 SIZE_MAX 0 false TUNABLE_SECLEVEL_SXID_IGNORE (Some "MALLOC_ARENA_MAX").
Definition GLIBC_MALLOC_ARENA_TEST : Tunable :=
  TUNABLE_VALUE "glibc" "malloc" "arena_test" TUNABLE_TYPE_SIZE_T 1 SIZE_MAX 0 false TUNABLE_SECLEVEL_SXID_IGNORE (Some "MALLOC_ARENA_TEST").
Definition GLIBC_MALLOC_CHECK : Tunable :=
  TUNABLE_VALUE "glibc" "malloc" "check" TUNABLE_TYPE_INT_32 0 3 0 false TUNABLE_SECLEVEL_SXID_ERASE (Some "MALLOC_CHECK_").
Definition GLIBC_MALLOC_HUGETLB : Tunable :=
  TUNABLE_VALUE "glibc" "malloc" "hugetlb" TUNABLE_TYPE_SIZE_T 0 SIZE_MAX 0 false TUNABLE_SECLEVEL_SXID_ERASE None.
Definition GLIBC_MALLOC_MMAP_MAX : Tunable :=
  TUNABLE_VALUE "glibc" "malloc" "mmap_max" TUNABLE_TYPE_INT_32 INT32_MIN INT32_MAX 0 false TUNABLE_SECLEVEL_SXID_IGNORE (Some "MALLOC_MMAP_MAX_").
Definition GLIBC_MALLOC_MMAP_THRESHOLD : Tunable :=
  TUNABLE_VALUE "glibc" "malloc" "mmap_threshold" TUNABLE_TYPE_SIZE_T 0 SIZE_MAX 0 false TUNABLE_SECLEVEL_SXID_IGNORE (Some "MALLOC_MMAP_THRESHOLD_").
Definition GLIBC_MALLOC_MXFAST : Tunable :=
  TUNABLE_VALUE "glibc" "malloc" "mxfast" TUNABLE_TYPE_SIZE_T 0 SIZE_MAX 0 false TUNABLE_SECLEVEL_SXID_IGNORE None.
Definition GLIBC_MALLOC_PERTURB : Tunable :=
  TUNABLE_VALUE "glibc" "malloc" "perturb" TUNABLE_TYPE_INT_32 0 0xff 0 false TUNABLE_SECLEVEL_SXID_IGNORE (Some "MALLOC_PERTURB_").
Definition GLIBC_MALLOC_TCACHE_COUNT : Tunable :=
  TUNABLE_VALUE "glibc" "malloc" "tcache_count" TUNABLE_TYPE_SIZE_T 0 SIZE_MAX 0 false TUNABLE_SECLEVEL_SXID_ERASE None.
Definition GLIBC_MALLOC_TCACHE_MAX : Tunable :=
  TUNABLE_VALUE "glibc" "malloc" "tcache_max" TUNABLE_TYPE_SIZE_T 0 SIZE_MAX 0 false TUNABLE_SECLEVEL_SXID_ERASE None.
Definition GLIBC_MALLOC_TCACHE_UNSORTED_LIMIT : Tunable :=
  TUNABLE_VALUE "glibc" "malloc" "tcache_unsorted_limit" TUNABLE_TYPE_SIZE_T 0 SIZE_MAX 0 false TUNABLE_SECLEVEL_SXID_ERASE None.
Definition GLIBC_MALLOC_TOP_PAD : Tunable :=
  TUNABLE_VALUE "glibc" "malloc" "top_pad" TUNABLE_TYPE_SIZE_T 0 SIZE_MAX 0 false TUNABLE_SECLEVEL_SXID_IGNORE (Some "MALLOC_TOP_PAD_").
Definition GLIBC_MALLOC_TRIM_THRESHOLD : Tunable :=
  TUNABLE_VALUE "glibc" "malloc" "trim_threshold" TUNABLE_TYPE_SIZE_T 0 SIZE_MAX 0 false TUNABLE_SECLEVEL_SXID_IGNORE (Some "MALLOC_TRIM_THRESHOLD_").
Definition GLIBC_MEM_TAGGING : Tunable :=
  TUNABLE_VALUE "glibc" "mem" "tagging" TUNABLE_TYPE_INT_32 0 255 0 false TUNABLE_SECLEVEL_SXID_IGNORE None.
Definition GLIBC_PTHREAD_MUTEX_SPIN_COUNT : Tunable :=
  TUNABLE_VALUE "glibc" "pthread" "mutex_spin_count" TUNABLE_TYPE_INT_32 0 32767 100 false TUNABLE_SECLEVEL_SXID_ERASE None.
Definition GLIBC_PTHREAD_RSEQ : Tunable :=
  TUNABLE_VALUE "glibc" "pthread" "rseq" TUNABLE_TYPE_INT_32 0 1 1 false TUNABLE_SECLEVEL_SXID_ERASE None.
Definition GLIBC_PTHREAD_STACK_CACHE_SIZE : Tunable :=
  TUNABLE_VALUE "glibc" "pthread" "stack_cache_size" TUNABLE_TYPE_SIZE_T 0 SIZE_MAX 41943040 false TUNABLE_SECLEVEL_SXID_ERASE None.
Definition GLIBC_PTHREAD_STACK_HUGETLB : Tunable :=
  TUNABLE_VALUE "glibc" "pthread" "stack_hugetlb" TUNABLE_TYPE_INT_32 0 1 1 false TUNABLE_SECLEVEL_SXID_ERASE None.
Definition GLIBC_RTLD_DYNAMIC_SORT : Tunable :=
  TUNABLE_VALUE "glibc" "rtld" "dynamic_sort" TUNABLE_TYPE_INT_32 1 2 2 false TUNABLE_SECLEVEL_SXID_ERASE None.
Definition GLIBC_RTLD_NNS : Tunable :=
  TUNABLE_VALUE "glibc" "rtld" "nns" TUNABLE_TYPE_SIZE_T 1 16 4 false TUNABLE_SECLEVEL_SXID_ERASE None.
Definition GLIBC_RTLD_OPTIONAL_STATIC_TLS : Tunable :=
  TUNABLE_VALUE "glibc" "rtld" "optional_static_tls" TUNABLE_TYPE_SIZE_T 0 SIZE_MAX 512 false TUNABLE_SECLEVEL_SXID_ERASE None.
Definition GLIBC_TUNE_HWCAP_MASK : Tunable :=
  TUNABLE_VALUE "glibc" "tune" "hwcap_mask" TUNABLE_TYPE_UINT_64 0 UINT64_MAX HWCAP_IMPORTANT false TUNABLE_SECLEVEL_SXID_ERASE (Some "LD_HWCAP_MASK").
Definition GLIBC_TUNE_HWCAPS : Tunable :=
  TUNABLE_VALUE "glibc" "tune" "hwcaps" TUNABLE_TYPE_STRING 0 0 0 false TUNABLE_SECLEVEL_SXID_ERASE None.
Definition GLIBC_TUNE_X86_DATA_CACHE_SIZE : Tunable :=
  TUNABLE_VALUE "glibc" "tune" "x86_data_cache_size" TUNABLE_TYPE_SIZE_T 0 SIZE_MAX 0 false TUNABLE_SECLEVEL_SXID_ERASE None.
Definition GLIBC_TUNE_X86_IBT : Tunable :=
  TUNABLE_VALUE "glibc" "tune" "x86_ibt" TUNABLE_TYPE_STRING 0 0 0 false TUNABLE_SECLEVEL_SXID_ERASE None.
Definition GLIBC_TUNE_X86_NON_TEMPORAL_THRESHOLD : Tunable :=
  TUNABLE_VALUE "glibc" "tune" "x86_non_temporal_threshold" TUNABLE_TYPE_SIZE_T 0 SIZE_MAX 0 false TUNABLE_SECLEVEL_SXID_ERASE None.
Definition GLIBC_TUNE_X86_SHARED_CACHE_SIZE : Tunable :=
  TUNABLE_VALUE "glibc" "tune" "x86_shared_cache_size" TUNABLE_TYPE_SIZE_T 0 SIZE_MAX 0 false TUNABLE_SECLEVEL_SXID_ERASE None.
Definition GLIBC_TUNE_X86_SHSTK : Tunable :=
  TUNABLE_VALUE "glibc" "tune" "x86_shstk" TUNABLE_TYPE_STRING 0 0 0 false TUNABLE_SECLEVEL_SXID_ERASE None.

(** ** The lists, by version of GLIBC and by platform *)

Definition TUNABLE_LIST_GLIBC_225 : list Tunable :=
  [GLIBC_MALLOC_ARENA_MAX; GLIBC_MALLOC_MMAP_MAX; GLIBC_MALLOC_MMAP_THRESHOLD; GLIBC_MALLOC_CHECK;
   GLIBC_MALLOC_PERTURB; GLIBC_MALLOC_TRIM_THRESHOLD; GLIBC_MALLOC_ARENA_TEST; GLIBC_MALLOC_TOP_PAD].
Definition TUNABLE_LIST_GLIBC_226 : list Tunable :=
  [GLIBC_TUNE_HWCAPS; GLIBC_MALLOC_TRIM_THRESHOLD; GLIBC_MALLOC_PERTURB; GLIBC_MALLOC_TOP_PAD;
   GLIBC_MALLOC_MMAP_MAX; GLIBC_MALLOC_TCACHE_UNSORTED_LIMIT; GLIBC_TUNE_X86_NON_TEMPORAL_THRESHOLD;
   GLIBC_TUNE_X86_SHARED_CACHE_SIZE; GLIBC_TUNE_HWCAP_MASK; GLIBC_MALLOC_ARENA_MAX;
   GLIBC_MALLOC_MMAP_THRESHOLD; GLIBC_MALLOC_TCACHE_COUNT; GLIBC_MALLOC_ARENA_TEST;
   GLIBC_TUNE_X86_DATA_CACHE_SIZE; GLIBC_MALLOC_TCACHE_MAX; GLIBC_MALLOC_CHECK].
Definition TUNABLE_LIST_GLIBC_227 : list Tunable :=
  [GLIBC_TUNE_HWCAPS; GLIBC_ELISION_SKIP_LOCK_AFTER_RETRIES; GLIBC_MALLOC_TRIM_THRESHOLD;
   GLIBC_MALLOC_PERTURB; GLIBC_ELISION_TRIES; GLIBC_ELISION_ENABLE; GLIBC_ELISION_SKIP_LOCK_BUSY;
   GLIBC_MALLOC_TOP_PAD; GLIBC_MALLOC_MMAP_MAX; GLIBC_ELISION_SKIP_TRYLOCK_INTERNAL_ABORT;
   GLIBC_MALLOC_TCACHE_UNSORTED_LIMIT; GLIBC_TUNE_X86_NON_TEMPORAL_THRESHOLD;
   GLIBC_TUNE_X86_SHARED_CACHE_SIZE; GLIBC_ELISION_SKIP_LOCK_INTERNAL_ABORT; GLIBC_TUNE_HWCAP_MASK;
   GLIBC_MALLOC_ARENA_MAX; GLIBC_MALLOC_MMAP_THRESHOLD; GLIBC_MALLOC_TCACHE_COUNT; GLIBC_MALLOC_ARENA_TEST;
   GLIBC_TUNE_X86_DATA_CACHE_SIZE; GLIBC_MALLOC_TCACHE_MAX; GLIBC_MALLOC_CHECK].
Definition TUNABLE_LIST_GLIBC_228 : list Tunable :=
  [GLIBC_TUNE_HWCAPS; GLIBC_ELISION_SKIP_LOCK_AFTER_RETRIES; GLIBC_MALLOC_TRIM_THRESHOLD;
   GLIBC_MALLOC_PERTURB; GLIBC_TUNE_X86_SHSTK; GLIBC_ELISION_TRIES; GLIBC_ELISION_ENABLE;
   GLIBC_MALLOC_MXFAST; GLIBC_TUNE_X86_IBT; GLIBC_ELISION_SKIP_LOCK_BUSY; GLIBC_MALLOC_TOP_PAD;
   GLIBC_MALLOC_MMAP_MAX; GLIBC_ELISION_SKIP_TRYLOCK_INTERNAL_ABORT; GLIBC_MALLOC_TCACHE_UNSORTED_LIMIT;
   GLIBC_TUNE_X86_NON_TEMPORAL_THRESHOLD; GLIBC_TUNE_X86_SHARED_CACHE_SIZE;
   GLIBC_ELISION_SKIP_LOCK_INTERNAL_ABORT; GLIBC_TUNE_HWCAP_MASK; GLIBC_MALLOC_ARENA_MAX;
   GLIBC_MALLOC_MMAP_THRESHOLD; GLIBC_MALLOC_TCACHE_COUNT; GLIBC_MALLOC_ARENA_TEST;
   GLIBC_TUNE_X86_DATA_CACHE_SIZE; GLIBC_MALLOC_TCACHE_MAX; GLIBC_MALLOC_CHECK].
Definition TUNABLE_LIST_GLIBC_229 : list Tunable :=
  [GLIBC_ELISION_SKIP_LOCK_AFTER_RETRIES; GLIBC_MALLOC_TRIM_THRESHOLD; GLIBC_MALLOC_PERTURB;
   GLIBC_CPU_X86_SHARED_CACHE_SIZE; GLIBC_ELISION_TRIES; GLIBC_ELISION_ENABLE; GLIBC_MALLOC_MXFAST;
   GLIBC_ELISION_SKIP_LOCK_BUSY; GLIBC_MALLOC_TOP_PAD; GLIBC_CPU_X86_NON_TEMPORAL_THRESHOLD;
   GLIBC_CPU_X86_SHSTK; GLIBC_CPU_HWCAP_MASK; GLIBC_MALLOC_MMAP_MAX;
   GLIBC_ELISION_SKIP_TRYLOCK_INTERNAL_ABORT; GLIBC_MALLOC_TCACHE_UNSORTED_LIMIT; GLIBC_CPU_X86_IBT;
   GLIBC_CPU_HWCAPS; GLIBC_ELISION_SKIP_LOCK_INTERNAL_ABORT; GLIBC_MALLOC_ARENA_MAX;
   GLIBC_MALLOC_MMAP_THRESHOLD; GLIBC_CPU_X86_DATA_CACHE_SIZE; GLIBC_MALLOC_TCACHE_COUNT;
   GLIBC_MALLOC_ARENA_TEST; GLIBC_PTHREAD_MUTEX_SPIN_COUNT; GLIBC_MALLOC_TCACHE_MAX; GLIBC_MALLOC_CHECK].
Definition TUNABLE_LIST_GLIBC_230 : list Tunable := TUNABLE_LIST_GLIBC_229.
Definition TUNABLE_LIST_GLIBC_231 : list Tunable := TUNABLE_LIST_GLIBC_230.
Definition TUNABLE_LIST_GLIBC_232 : list Tunable :=
  [GLIBC_RTLD_NNS; GLIBC_ELISION_SKIP_LOCK_AFTER_RETRIES; GLIBC_MALLOC_TRIM_THRESHOLD; GLIBC_MALLOC_PERTURB;
   GLIBC_CPU_X86_SHARED_CACHE_SIZE; GLIBC_ELISION_TRIES; GLIBC_ELISION_ENABLE;
   GLIBC_CPU_X86_REP_MOVSB_THRESHOLD; GLIBC_MALLOC_MXFAST; GLIBC_ELISION_SKIP_LOCK_BUSY;
   GLIBC_MALLOC_TOP_PAD; GLIBC_CPU_X86_REP_STOSB_THRESHOLD; GLIBC_CPU_X86_NON_TEMPORAL_THRESHOLD;
   GLIBC_CPU_X86_SHSTK; GLIBC_CPU_HWCAP_MASK; GLIBC_MALLOC_MMAP_MAX;
   GLIBC_ELISION_SKIP_TRYLOCK_INTERNAL_ABORT; GLIBC_MALLOC_TCACHE_UNSORTED_LIMIT; GLIBC_CPU_X86_IBT;
   GLIBC_CPU_HWCAPS; GLIBC_ELISION_SKIP_LOCK_INTERNAL_ABORT; GLIBC_MALLOC_ARENA_MAX;
   GLIBC_MALLOC_MMAP_THRESHOLD; GLIBC_CPU_X86_DATA_CACHE_SIZE; GLIBC_MALLOC_TCACHE_COUNT;
   GLIBC_MALLOC_ARENA_TEST; GLIBC_PTHREAD_MUTEX_SPIN_COUNT; GLIBC_RTLD_OPTIONAL_STATIC_TLS;
   GLIBC_MALLOC_TCACHE_MAX; GLIBC_MALLOC_CHECK].
Definition TUNABLE_LIST_GLIBC_233 : list Tunable :=
  [GLIBC_RTLD_NNS; GLIBC_ELISION_SKIP_LOCK_AFTER_RETRIES; GLIBC_MALLOC_TRIM_THRESHOLD; GLIBC_MALLOC_PERTURB;
   GLIBC_CPU_X86_SHARED_CACHE_SIZE; GLIBC_MEM_TAGGING; GLIBC_ELISION_TRIES; GLIBC_ELISION_ENABLE;
   GLIBC_CPU_X86_REP_MOVSB_THRESHOLD; GLIBC_MALLOC_MXFAST; GLIBC_ELISION_SKIP_LOCK_BUSY;
   GLIBC_MALLOC_TOP_PAD; GLIBC_CPU_X86_REP_STOSB_THRESHOLD; GLIBC_CPU_X86_NON_TEMPORAL_THRESHOLD;
   GLIBC_CPU_X86_SHSTK; GLIBC_CPU_HWCAP_MASK; GLIBC_MALLOC_MMAP_MAX;
   GLIBC_ELISION_SKIP_TRYLOCK_INTERNAL_ABORT; GLIBC_MALLOC_TCACHE_UNSORTED_LIMIT; GLIBC_CPU_X86_IBT;
   GLIBC_CPU_HWCAPS; GLIBC_ELISION_SKIP_LOCK_INTERNAL_ABORT; GLIBC_MALLOC_ARENA_MAX;
   GLIBC_MALLOC_MMAP_THRESHOLD; GLIBC_CPU_X86_DATA_CACHE_SIZE; GLIBC_MALLOC_TCACHE_COUNT;
   GLIBC_MALLOC_ARENA_TEST; GLIBC_PTHREAD_MUTEX_SPIN_COUNT; GLIBC_RTLD_OPTIONAL_STATIC_TLS;
   GLIBC_MALLOC_TCACHE_MAX; GLIBC_MALLOC_CHECK].
Definition TUNABLE_LIST_GLIBC_234 : list Tunable :=
  [GLIBC_RTLD_NNS; GLIBC_ELISION_SKIP_LOCK_AFTER_RETRIES; GLIBC_MALLOC_TRIM_THRESHOLD; GLIBC_MALLOC_PERTURB;
   GLIBC_CPU_X86_SHARED_CACHE_SIZE; GLIBC_MEM_TAGGING; GLIBC_ELISION_TRIES; GLIBC_ELISION_ENABLE;
   GLIBC_CPU_X86_REP_MOVSB_THRESHOLD; GLIBC_MALLOC_MXFAST; GLIBC_ELISION_SKIP_LOCK_BUSY;
   GLIBC_MALLOC_TOP_PAD; GLIBC_PTHREAD_STACK_CACHE_SIZE; GLIBC_CPU_X86_REP_STOSB_THRESHOLD;
   GLIBC_CPU_X86_NON_TEMPORAL_THRESHOLD; GLIBC_CPU_X86_SHSTK; GLIBC_CPU_HWCAP_MASK; GLIBC_MALLOC_MMAP_MAX;
   GLIBC_ELISION_SKIP_TRYLOCK_INTERNAL_ABORT; GLIBC_MALLOC_TCACHE_UNSORTED_LIMIT; GLIBC_CPU_X86_IBT;
   GLIBC_CPU_HWCAPS; GLIBC_ELISION_SKIP_LOCK_INTERNAL_ABORT; GLIBC_MALLOC_ARENA_MAX;
   GLIBC_MALLOC_MMAP_THRESHOLD; GLIBC_CPU_X86_DATA_CACHE_SIZE; GLIBC_MALLOC_TCACHE_COUNT;
   GLIBC_MALLOC_ARENA_TEST; GLIBC_PTHREAD_MUTEX_SPIN_COUNT; GLIBC_RTLD_OPTIONAL_STATIC_TLS;
   GLIBC_MALLOC_TCACHE_MAX; GLIBC_MALLOC_CHECK].
Definition TUNABLE_LIST_GLIBC_235 : list Tunable :=
  [GLIBC_RTLD_NNS; GLIBC_ELISION_SKIP_LOCK_AFTER_RETRIES; GLIBC_MALLOC_TRIM_THRESHOLD; GLIBC_MALLOC_PERTURB;
   GLIBC_CPU_X86_SHARED_CACHE_SIZE; GLIBC_PTHREAD_RSEQ; GLIBC_MEM_TAGGING; GLIBC_ELISION_TRIES;
   GLIBC_ELISION_ENABLE; GLIBC_MALLOC_HUGETLB; GLIBC_CPU_X86_REP_MOVSB_THRESHOLD; GLIBC_MALLOC_MXFAST;
   GLIBC_RTLD_DYNAMIC_SORT; GLIBC_ELISION_SKIP_LOCK_BUSY; GLIBC_MALLOC_TOP_PAD;
   GLIBC_CPU_X86_REP_STOSB_THRESHOLD; GLIBC_CPU_X86_NON_TEMPORAL_THRESHOLD; GLIBC_CPU_X86_SHSTK;
   GLIBC_PTHREAD_STACK_CACHE_SIZE; GLIBC_CPU_HWCAP_MASK; GLIBC_MALLOC_MMAP_MAX;
   GLIBC_ELISION_SKIP_TRYLOCK_INTERNAL_ABORT; GLIBC_MALLOC_TCACHE_UNSORTED_LIMIT; GLIBC_CPU_X86_IBT;
   GLIBC_CPU_HWCAPS; GLIBC_ELISION_SKIP_LOCK_INTERNAL_ABORT; GLIBC_MALLOC_ARENA_MAX;
   GLIBC_MALLOC_MMAP_THRESHOLD; GLIBC_CPU_X86_DATA_CACHE_SIZE; GLIBC_MALLOC_TCACHE_COUNT;
   GLIBC_MALLOC_ARENA_TEST; GLIBC_PTHREAD_MUTEX_SPIN_COUNT; GLIBC_RTLD_OPTIONAL_STATIC_TLS;
   GLIBC_MALLOC_TCACHE_MAX; GLIBC_MALLOC_CHECK].
Definition TUNABLE_LIST_GLIBC_236 : list Tunable :=
  [GLIBC_RTLD_NNS; GLIBC_ELISION_SKIP_LOCK_AFTER_RETRIES; GLIBC_MALLOC_TRIM_THRESHOLD; GLIBC_MALLOC_PERTURB;
   GLIBC_CPU_X86_SHARED_CACHE_SIZE; GLIBC_PTHREAD_RSEQ; GLIBC_MEM_TAGGING; GLIBC_ELISION_TRIES;
   GLIBC_ELISION_ENABLE; GLIBC_MALLOC_HUGETLB; GLIBC_CPU_X86_REP_MOVSB_THRESHOLD; GLIBC_MALLOC_MXFAST;
   GLIBC_RTLD_DYNAMIC_SORT; GLIBC_ELISION_SKIP_LOCK_BUSY; GLIBC_MALLOC_TOP_PAD;
   GLIBC_CPU_X86_REP_STOSB_THRESHOLD; GLIBC_CPU_X86_NON_TEMPORAL_THRESHOLD; GLIBC_CPU_X86_SHSTK;
   GLIBC_PTHREAD_STACK_CACHE_SIZE; GLIBC_GMON_MINARCS; GLIBC_CPU_HWCAP_MASK; GLIBC_MALLOC_MMAP_MAX;
   GLIBC_ELISION_SKIP_TRYLOCK_INTERNAL_ABORT; GLIBC_MALLOC_TCACHE_UNSORTED_LIMIT; GLIBC_CPU_X86_IBT;
   GLIBC_CPU_HWCAPS; GLIBC_ELISION_SKIP_LOCK_INTERNAL_ABORT; GLIBC_MALLOC_ARENA_MAX;
   GLIBC_MALLOC_MMAP_THRESHOLD; GLIBC_CPU_X86_DATA_CACHE_SIZE; GLIBC_MALLOC_TCACHE_COUNT;
   GLIBC_MALLOC_ARENA_TEST; GLIBC_PTHREAD_MUTEX_SPIN_COUNT; GLIBC_GMON_MAXARCS;
   GLIBC_RTLD_OPTIONAL_STATIC_TLS; GLIBC_MALLOC_TCACHE_MAX; GLIBC_MALLOC_CHECK].
Definition TUNABLE_LIST_Debian_Buster : list Tunable :=
  [GLIBC_TUNE_HWCAPS; GLIBC_ELISION_SKIP_LOCK_AFTER_RETRIES; GLIBC_MALLOC_TRIM_THRESHOLD;
   GLIBC_MALLOC_PERTURB; GLIBC_TUNE_X86_SHSTK; GLIBC_ELISION_TRIES; GLIBC_ELISION_ENABLE; GLIBC_TUNE_X86_IBT;
   GLIBC_ELISION_SKIP_LOCK_BUSY; GLIBC_MALLOC_TOP_PAD; GLIBC_MALLOC_MMAP_MAX;
   GLIBC_ELISION_SKIP_TRYLOCK_INTERNAL_ABORT; GLIBC_MALLOC_TCACHE_UNSORTED_LIMIT;
   GLIBC_TUNE_X86_NON_TEMPORAL_THRESHOLD; GLIBC_TUNE_X86_SHARED_CACHE_SIZE;
   GLIBC_ELISION_SKIP_LOCK_INTERNAL_ABORT; GLIBC_TUNE_HWCAP_MASK; GLIBC_MALLOC_ARENA_MAX;
   GLIBC_MALLOC_MMAP_THRESHOLD; GLIBC_MALLOC_TCACHE_COUNT; GLIBC_MALLOC_ARENA_TEST;
   GLIBC_TUNE_X86_DATA_CACHE_SIZE; GLIBC_MALLOC_TCACHE_MAX; GLIBC_MALLOC_CHECK].
Definition TUNABLE_LIST_Debian_Bullseye : list Tunable :=
  [GLIBC_RTLD_NNS; GLIBC_ELISION_SKIP_LOCK_AFTER_RETRIES; GLIBC_MALLOC_TRIM_THRESHOLD; GLIBC_MALLOC_PERTURB;
   GLIBC_CPU_X86_SHARED_CACHE_SIZE; GLIBC_ELISION_TRIES; GLIBC_ELISION_ENABLE; GLIBC_MALLOC_MXFAST;
   GLIBC_ELISION_SKIP_LOCK_BUSY; GLIBC_MALLOC_TOP_PAD; GLIBC_CPU_X86_NON_TEMPORAL_THRESHOLD;
   GLIBC_CPU_X86_SHSTK; GLIBC_CPU_HWCAP_MASK; GLIBC_MALLOC_MMAP_MAX;
   GLIBC_ELISION_SKIP_TRYLOCK_INTERNAL_ABORT; GLIBC_MALLOC_TCACHE_UNSORTED_LIMIT; GLIBC_CPU_X86_IBT;
   GLIBC_CPU_HWCAPS; GLIBC_ELISION_SKIP_LOCK_INTERNAL_ABORT; GLIBC_MALLOC_ARENA_MAX;
   GLIBC_MALLOC_MMAP_THRESHOLD; GLIBC_CPU_X86_DATA_CACHE_SIZE; GLIBC_MALLOC_TCACHE_COUNT;
   GLIBC_MALLOC_ARENA_TEST; GLIBC_PTHREAD_MUTEX_SPIN_COUNT; GLIBC_RTLD_OPTIONAL_STATIC_TLS;
   GLIBC_MALLOC_TCACHE_MAX; GLIBC_MALLOC_CHECK].
Definition TUNABLE_LIST_RHEL_8 : list Tunable :=
  [GLIBC_RTLD_NNS; GLIBC_ELISION_SKIP_LOCK_AFTER_RETRIES; GLIBC_MALLOC_TRIM_THRESHOLD; GLIBC_MALLOC_PERTURB;
   GLIBC_CPU_X86_SHARED_CACHE_SIZE; GLIBC_ELISION_TRIES; GLIBC_ELISION_ENABLE;
   GLIBC_CPU_X86_REP_MOVSB_THRESHOLD; GLIBC_MALLOC_MXFAST; GLIBC_ELISION_SKIP_LOCK_BUSY;
   GLIBC_MALLOC_TOP_PAD; GLIBC_CPU_X86_REP_STOSB_THRESHOLD; GLIBC_CPU_X86_NON_TEMPORAL_THRESHOLD;
   GLIBC_CPU_X86_SHSTK; GLIBC_CPU_HWCAP_MASK; GLIBC_MALLOC_MMAP_MAX;
   GLIBC_ELISION_SKIP_TRYLOCK_INTERNAL_ABORT; GLIBC_MALLOC_TCACHE_UNSORTED_LIMIT; GLIBC_CPU_X86_IBT;
   GLIBC_CPU_HWCAPS; GLIBC_ELISION_SKIP_LOCK_INTERNAL_ABORT; GLIBC_MALLOC_ARENA_MAX;
   GLIBC_MALLOC_MMAP_THRESHOLD; GLIBC_CPU_X86_DATA_CACHE_SIZE; GLIBC_MALLOC_TCACHE_COUNT;
   GLIBC_MALLOC_ARENA_TEST; GLIBC_RTLD_OPTIONAL_STATIC_TLS; GLIBC_MALLOC_TCACHE_MAX; GLIBC_MALLOC_CHECK].
Definition TUNABLE_LIST_RHEL_9 : list Tunable :=
  [GLIBC_RTLD_NNS; GLIBC_ELISION_SKIP_LOCK_AFTER_RETRIES; GLIBC_MALLOC_TRIM_THRESHOLD; GLIBC_MALLOC_PERTURB;
   GLIBC_CPU_X86_SHARED_CACHE_SIZE; GLIBC_PTHREAD_RSEQ; GLIBC_MEM_TAGGING; GLIBC_ELISION_TRIES;
   GLIBC_ELISION_ENABLE; GLIBC_CPU_X86_REP_MOVSB_THRESHOLD; GLIBC_MALLOC_MXFAST; GLIBC_RTLD_DYNAMIC_SORT;
   GLIBC_ELISION_SKIP_LOCK_BUSY; GLIBC_MALLOC_TOP_PAD; GLIBC_CPU_X86_REP_STOSB_THRESHOLD;
   GLIBC_CPU_X86_NON_TEMPORAL_THRESHOLD; GLIBC_CPU_X86_SHSTK; GLIBC_PTHREAD_STACK_CACHE_SIZE;
   GLIBC_CPU_HWCAP_MASK; GLIBC_MALLOC_MMAP_MAX; GLIBC_ELISION_SKIP_TRYLOCK_INTERNAL_ABORT;
   GLIBC_MALLOC_TCACHE_UNSORTED_LIMIT; GLIBC_CPU_X86_IBT; GLIBC_CPU_HWCAPS;
   GLIBC_ELISION_SKIP_LOCK_INTERNAL_ABORT; GLIBC_MALLOC_ARENA_MAX; GLIBC_MALLOC_MMAP_THRESHOLD;
   GLIBC_CPU_X86_DATA_CACHE_SIZE; GLIBC_MALLOC_TCACHE_COUNT; GLIBC_MALLOC_ARENA_TEST;
   GLIBC_PTHREAD_MUTEX_SPIN_COUNT; GLIBC_RTLD_OPTIONAL_STATIC_TLS; GLIBC_MALLOC_TCACHE_MAX;
   GLIBC_MALLOC_CHECK].
Definition TUNABLE_LIST_OL_9 : list Tunable :=
  [GLIBC_RTLD_NNS; GLIBC_ELISION_SKIP_LOCK_AFTER_RETRIES; GLIBC_MALLOC_TRIM_THRESHOLD; GLIBC_MALLOC_PERTURB;
   GLIBC_CPU_X86_SHARED_CACHE_SIZE; GLIBC_PTHREAD_RSEQ; GLIBC_MEM_TAGGING; GLIBC_ELISION_TRIES;
   GLIBC_ELISION_ENABLE; GLIBC_CPU_X86_REP_MOVSB_THRESHOLD; GLIBC_MALLOC_MXFAST; GLIBC_RTLD_DYNAMIC_SORT;
   GLIBC_ELISION_SKIP_LOCK_BUSY; GLIBC_MALLOC_TOP_PAD; GLIBC_CPU_X86_REP_STOSB_THRESHOLD;
   GLIBC_CPU_X86_NON_TEMPORAL_THRESHOLD; GLIBC_CPU_X86_SHSTK; GLIBC_PTHREAD_STACK_CACHE_SIZE;
   GLIBC_CPU_HWCAP_MASK; GLIBC_MALLOC_MMAP_MAX; GLIBC_ELISION_SKIP_TRYLOCK_INTERNAL_ABORT;
   GLIBC_MALLOC_TCACHE_UNSORTED_LIMIT; GLIBC_CPU_X86_IBT; GLIBC_CPU_HWCAPS;
   GLIBC_ELISION_SKIP_LOCK_INTERNAL_ABORT; GLIBC_MALLOC_ARENA_MAX; GLIBC_MALLOC_MMAP_THRESHOLD;
   GLIBC_CPU_X86_DATA_CACHE_SIZE; GLIBC_MALLOC_TCACHE_COUNT; GLIBC_MALLOC_ARENA_TEST;
   GLIBC_PTHREAD_MUTEX_SPIN_COUNT; GLIBC_RTLD_OPTIONAL_STATIC_TLS; GLIBC_MALLOC_TCACHE_MAX;
   GLIBC_MALLOC_CHECK; GLIBC_GMON_MINARCS; GLIBC_GMON_MAXARCS; GLIBC_PTHREAD_STACK_HUGETLB].

(** TUNABLE_LIST: defined by the platform, or else the list of the version *)
Definition by_version (version : Z) : list Tunable :=
  match List.find (fun x => fst x =? version)
    [(225, TUNABLE_LIST_GLIBC_225); (226, TUNABLE_LIST_GLIBC_226); (227, TUNABLE_LIST_GLIBC_227);
     (228, TUNABLE_LIST_GLIBC_228); (229, TUNABLE_LIST_GLIBC_229); (230, TUNABLE_LIST_GLIBC_230);
     (231, TUNABLE_LIST_GLIBC_231); (232, TUNABLE_LIST_GLIBC_232); (233, TUNABLE_LIST_GLIBC_233);
     (234, TUNABLE_LIST_GLIBC_234); (235, TUNABLE_LIST_GLIBC_235); (236, TUNABLE_LIST_GLIBC_236)]
  with
  | Some x => snd x
  | None => []
  end.
Definition TUNABLE_LIST (p : platform) : list Tunable :=
  match p with
  | DEBIAN_BUSTER => TUNABLE_LIST_Debian_Buster
  | DEBIAN_BULLSEYE => TUNABLE_LIST_Debian_Bullseye
  | RHEL_8 => TUNABLE_LIST_RHEL_8
  | RHEL_9 => TUNABLE_LIST_RHEL_9
  | OL_9 => TUNABLE_LIST_OL_9
  | _ => by_version (GLIBC_VERSION (defined p))
  end.
(** The file is empty unless GLIBC_TUNABLE_SIZE > 0. *)
Definition tunables (p : platform) : list Tunable :=
  if 0 <? GLIBC_TUNABLE_SIZE (defined p) then TUNABLE_LIST p else [].

(** ** struct Tunable *)

(** The names are arrays within the structure from 2.33 on *)
Definition inline_names (p : platform) : bool := GLIBC_2_33 <=? GLIBC_VERSION (defined p).
Definition name_size : nat := 42.
Definition alias_size : nat := 23.
Definition tunable_type (p : platform) : ctype :=
  Struct
    [Field "name" (if inline_names p then Array char_t name_size else pointer);
     Field "type" (Struct [Field "type_code" enum_t; Field "min" (Scalar 8); Field "max" (Scalar 8)]);
     Field "val" (Union [Scalar 8; pointer]);
     Field "initialized" bool_t;
     Field "security_level" enum_t;
     Field "env_alias" (if inline_names p then Array char_t alias_size else pointer)].

(** The constructor copies a name up to its terminator, at most [n] characters. *)
Fixpoint copy_chars (n : nat) (s : list ascii) : list ascii :=
  match n, s with
  | O, _ => []
  | S n, [] => [zero]
  | S n, c :: s => c :: copy_chars n s
  end.

(** ** __tunable_get_val

    The state is the memory of the process; the result is the value the callback was called with, if it was. *)
Definition get_val (p : platform) (id : nat) (valp : Z) (callback : bool) : M memory (option Z) :=
  match tunables p !! id with
  | None => assert false ;; mret None
  | Some cur =>
      modify (fun m =>
        match type_code cur with
        | TUNABLE_TYPE_UINT_64 => wr m valp (le_bytes 8 (w64 (val cur)))
        | TUNABLE_TYPE_INT_32 => wr m valp (le_bytes 4 (s32 (val cur)))
        | TUNABLE_TYPE_SIZE_T => wr m valp (le_bytes 8 (w64 (val cur)))
        | TUNABLE_TYPE_STRING => wr m valp (le_bytes 8 (w64 (val cur)))
        end) ;;
      mret (if initialized cur && callback then Some (val cur) else None)
  end.
End Tunables.
