(* ===== verification/Glibc.v ===== *)
(** The copies of GLIBC's internal structures: the link_map (src/src/comp/glibc/libdl/interface.hpp),
    _rtld_global and _rtld_global_ro (src/src/comp/glibc/rtld/global.hpp), and the structures of the debugger they
    contain (src/src/comp/gdb.hpp), as descriptions of their layout.

    Programs access the members by their offsets; the offsets and sizes must be those of the version of GLIBC
    on the platform. *)
From S2P Require Import Prelude Layout Version.

Module Glibc.
Import Layout Version.

(** #if ... #endif around members *)
Definition when {A} (b : bool) (l : list A) : list A := if b then l else [].

Section platform.
Context (p : platform).
Abbreviation at_least v := (v <=? GLIBC_VERSION (defined p)).
Abbreviation before v := (GLIBC_VERSION (defined p) <? v).
Abbreviation on q := (bool_decide (p = q)).
Abbreviation bit name := (Bits name 4 1).

(** ** struct link_map *)

Definition r_scope_elem : ctype := Struct [Field "r_list" pointer; Field "r_nlist" uint32_t].
Definition r_search_path_struct : ctype := Struct [Field "dirs" pointer; Field "malloced" int_t].

(** Up to the hash tables: l_addr to l_direct_opencount *)
Definition link_map_head : list (member ctype) :=
  [Field "l_addr" uintptr_t; Field "l_name" pointer; Field "l_ld" pointer; Field "l_next" pointer; Field "l_prev" pointer;
   Field "l_real" pointer; Field "l_ns" (Scalar 8); Field "l_libname" pointer;
   Field "l_info" (Array pointer (if at_least GLIBC_2_36 then 80 else if at_least GLIBC_2_28 then 77 else 76));
   Field "l_phdr" pointer; Field "l_entry" uintptr_t; Field "l_phnum" uint16_t; Field "l_ldnum" uint16_t;
   Field "l_searchlist" r_scope_elem; Field "l_symbolic_searchlist" r_scope_elem;
   Field "l_loader" pointer; Field "l_versions" pointer;
   Field "l_nversions" uint32_t; Field "l_nbuckets" uint32_t; Field "l_gnu_bitmask_idxbits" uint32_t; Field "l_gnu_shift" uint32_t;
   Field "l_gnu_bitmask" pointer; Field "l_gnu_buckets" (Union [pointer; pointer]);
   Field "l_gnu_chain_zero" (Union [pointer; pointer]); Field "l_direct_opencount" uint32_t].
(** The flags: l_type to l_cet *)
Definition link_map_flags : list (member ctype) :=
  let like_2_35 := at_least GLIBC_2_35 || COMPATIBILITY_RHEL_9_LIKE p in
  [Bits "l_type" 4 2] ++ when (at_least GLIBC_2_36) [bit "l_dt_relr_ref"]
  ++ [bit "l_relocated"; bit "l_init_called"; bit "l_global"; Bits "l_reserved" 4 2]
  ++ when like_2_35 [bit "l_main_map"; bit "l_visited"; bit "l_map_used"; bit "l_map_done"]
  ++ [bit "l_phdr_allocated"; bit "l_soname_added"; bit "l_faked"; bit "l_need_tls_init"; bit "l_auditing";
      bit "l_audit_any_plt"; bit "l_removed"; bit "l_contiguous"]
  ++ when (before GLIBC_2_36) [bit "l_symbolic_in_local_scope"]
  ++ [bit "l_free_initfini"]
  ++ when like_2_35 [bit "l_ld_readonly"]
  ++ when (at_least GLIBC_2_35) [bit "l_find_object_processed"]
  ++ when ((at_least GLIBC_2_31 && negb (on DEBIAN_BUSTER)) || COMPATIBILITY_RHEL_8_LIKE p || COMPATIBILITY_RHEL_9_LIKE p)
       [Field "l_nodelete_active" bool_t; Field "l_nodelete_pending" bool_t]
  ++ (if at_least GLIBC_2_33 then
        [Bits "l_property" 4 2; Field "l_x86_feature_1_and" uint32_t; Field "l_x86_isa_1_needed" uint32_t]
        ++ when (at_least GLIBC_2_35) [Field "l_1_needed" uint32_t]
      else when (at_least GLIBC_2_28) [Bits "l_cet" 4 3]).
(** The rest: l_rpath_dirs to l_audit *)
Definition link_map_tail : list (member ctype) :=
  [Field "l_rpath_dirs" r_search_path_struct; Field "l_reloc_result" pointer; Field "l_versyms" pointer; Field "l_origin" pointer;
   Field "l_map_start" uintptr_t; Field "l_map_end" uintptr_t; Field "l_text_end" uintptr_t;
   Field "l_scope_mem" (Array pointer 4); Field "l_scope_max" size_t; Field "l_scope" pointer;
   Field "l_local_scope" (Array pointer 2); Field "l_file_id" (Struct [Field "dev" uint64_t; Field "ino" uint64_t]);
   Field "l_runpath_dirs" r_search_path_struct; Field "l_initfini" pointer]
  ++ when (on FEDORA_37) [Field "l_init_called_next" pointer]
  ++ [Field "l_reldeps" pointer; Field "l_reldepsmax" uint32_t; Field "l_used" uint32_t; Field "l_feature_1" uint32_t;
      Field "l_flags_1" uint32_t; Field "l_flags" uint32_t; Field "l_idx" int_t;
      Field "l_mach" (Struct [Field "plt" uintptr_t; Field "gotplt" uintptr_t; Field "tlsdesc_table" pointer]);
      Field "l_lookup_cache" (Struct [Field "sym" pointer; Field "type_class" int_t; Field "value" pointer; Field "ret" pointer]);
      Field "l_tls_initimage" uintptr_t; Field "l_tls_initimage_size" size_t; Field "l_tls_blocksize" size_t; Field "l_tls_align" size_t;
      Field "l_tls_firstbyte_offset" size_t; Field "l_tls_offset" (Scalar 8); Field "l_tls_modid" size_t; Field "l_tls_dtor_count" size_t;
      Field "l_relro_addr" uintptr_t; Field "l_relro_size" size_t; Field "l_serial" (Scalar 8)]
  ++ when (before GLIBC_2_31) [Field "l_audit" (Array (Struct [Field "cookie" uintptr_t; Field "bindflags" uint32_t]) 0)].
Definition link_map : ctype := Struct (link_map_head ++ link_map_flags ++ link_map_tail).

(** ** The structures of the debugger *)

Definition RDebug : ctype :=
  Struct [Field "r_version" int_t; Field "r_map" pointer; Field "r_brk" pointer; Field "r_state" enum_t; Field "r_ldbase" uintptr_t].
Definition RDebugExtended : ctype := Struct [Field "base" RDebug; Field "r_next" pointer].

(** ** struct Global (_rtld_global) *)

Definition rtld_lock_t : ctype := Array char_t 40.
Definition list_t : ctype := Struct [Field "next" pointer; Field "prev" pointer].
Definition unique_sym_table : ctype :=
  Struct [Field "lock" rtld_lock_t; Field "entries" pointer; Field "size" size_t; Field "n_elements" size_t; Field "free" pointer].
Definition link_namespaces : ctype :=
  Struct ([Field "_ns_loaded" pointer; Field "_ns_nloaded" uint32_t; Field "_ns_main_searchlist" pointer;
           Field "_ns_global_scope_alloc" uint32_t; Field "_ns_global_scope_pending_adds" uint32_t]
          ++ when (at_least GLIBC_2_32 || COMPATIBILITY_RHEL_8_LIKE p) [Field "libc_map" pointer]
          ++ [Field "_ns_unique_sym_table" unique_sym_table;
              Field "_ns_debug" (if at_least GLIBC_2_35 then RDebugExtended else RDebug)]).
Definition auditstate : ctype := Struct [Field "cookie" uintptr_t; Field "bindflags" uint32_t].
Definition dl_x86_feature_control : ctype := Struct [Bits "ibt" 4 2; Bits "shstk" 4 2].

(** Up to _dl_stack_flags *)
Definition Global_head : list (member ctype) :=
  [Field "_dl_ns" (Array link_namespaces 16); Field "_dl_nns" size_t;
   Field "_dl_load_lock" rtld_lock_t; Field "_dl_load_write_lock" rtld_lock_t]
  ++ when (at_least GLIBC_2_35 || COMPATIBILITY_RHEL_8_LIKE p || COMPATIBILITY_RHEL_9_LIKE p)
       [Field "_dl_load_tls_lock" rtld_lock_t]
  ++ [Field "_dl_load_adds" uint64_t; Field "_dl_initfirst" pointer]
  ++ when ((before GLIBC_2_30 || on DEBIAN_BUSTER) && negb (COMPATIBILITY_RHEL_8_LIKE p)) [Field "_dl_cpuclock_offset" uint64_t]
  ++ [Field "_dl_profile_map" pointer; Field "_dl_num_relocations" uint64_t; Field "_dl_num_cache_relocations" uint64_t;
      Field "_dl_all_dirs" pointer]
  ++ when (before GLIBC_2_25) [Field "_dl_error_catch_tsd" pointer]
  ++ [Field "_dl_rtld_map" link_map; Field "_dl_rtld_auditstate" (Array auditstate 16)]
  ++ when (negb (GLIBC_PTHREAD_IN_LIBC (defined p)))
       [Field "_dl_rtld_lock_recursive" pointer; Field "_dl_rtld_unlock_recursive" pointer]
  ++ (if at_least GLIBC_2_32 || COMPATIBILITY_RHEL_8_LIKE p then
        [Field "_dl_x86_feature_1" uint32_t; Field "_dl_x86_feature_control" dl_x86_feature_control]
      else when (at_least GLIBC_2_28)
        [Field "_dl_x86_feature_1" (Array uint32_t 2); Field "_dl_x86_legacy_bitmap" (Array uint64_t 2)])
  ++ when (before GLIBC_2_34 || negb (GLIBC_PTHREAD_IN_LIBC (defined p))) [Field "_dl_make_stack_executable_hook" pointer].
(** From _dl_stack_flags on *)
Definition Global_tail : list (member ctype) :=
  [Field "_dl_stack_flags" uint32_t; Field "_dl_tls_dtv_gaps" bool_t; Field "_dl_tls_max_dtv_idx" size_t;
   Field "_dl_tls_dtv_slotinfo_list" pointer; Field "_dl_tls_static_nelem" size_t]
  ++ when (before GLIBC_2_34) [Field "_dl_tls_static_size" size_t]
  ++ [Field "_dl_tls_static_used" size_t]
  ++ when (before GLIBC_2_34) [Field "_dl_tls_static_align" size_t]
  ++ when (at_least GLIBC_2_32 || on DEBIAN_BULLSEYE || COMPATIBILITY_RHEL_8_LIKE p || on OPENSUSELEAP_15)
       [Field "_dl_tls_static_optional" size_t]
  ++ [Field "_dl_initial_dtv" pointer; Field "_dl_tls_generation" size_t]
  ++ when (before GLIBC_2_34 || negb (GLIBC_PTHREAD_IN_LIBC (defined p))) [Field "_dl_init_static_tls" pointer]
  ++ when (before GLIBC_2_33) [Field "_dl_wait_lookup_done" pointer]
  ++ [Field "_dl_scope_free_list" pointer]
  ++ (if GLIBC_PTHREAD_IN_LIBC (defined p) && at_least GLIBC_2_33 then
        [Field "_dl_stack_used" list_t; Field "_dl_stack_user" list_t]
        ++ when (at_least GLIBC_2_34)
             [Field "_dl_stack_cache" list_t; Field "_dl_stack_cache_actsize" size_t; Field "_dl_in_flight_stack" uintptr_t]
        ++ [Field "_dl_stack_cache_lock" int_t]
      else when (negb (GLIBC_PTHREAD_IN_LIBC (defined p)) && at_least GLIBC_2_35)
        [Field "_dl_pthread_num_threads" int_t; Field "_dl_pthread_threads" pointer]).
Definition Global : ctype := Struct (Global_head ++ Global_tail).

(** ** struct GlobalRO (_rtld_global_ro) *)

Definition cpuid_registers : ctype := Struct [Field "eax" uint32_t; Field "ebx" uint32_t; Field "ecx" uint32_t; Field "edx" uint32_t].
Definition cpuid_features : ctype := Struct [Field "cpuid" cpuid_registers; Field "usable" cpuid_registers].
Definition cpu_features_basic : ctype :=
  Struct [Field "kind" enum_t; Field "max_cpuid" int_t; Field "family" uint32_t; Field "model" uint32_t; Field "stepping" uint32_t].
(** Identification of the processor *)
Definition cpu_features_head : list (member ctype) :=
  let rhel_8 := COMPATIBILITY_RHEL_8_LIKE p in
  if (at_least GLIBC_2_29 && negb (on DEBIAN_BUSTER)) || rhel_8 then
    when (at_least GLIBC_2_29 && before GLIBC_2_32)
      [Field "cpuid" (Array cpuid_registers 6); Field "feature" (Array uint32_t 2)]
    ++ [Field "basic" cpu_features_basic]
    ++ when (at_least GLIBC_2_32 || rhel_8)
         [Field "features" (Array cpuid_features (if at_least GLIBC_2_34 then 9
                                                  else if (GLIBC_VERSION (defined p) =? GLIBC_2_33) || rhel_8 then 8 else 7));
          Field "preferred" (Array uint32_t 1)]
    ++ when (at_least GLIBC_2_33) [Field "isa_1" uint32_t]
  else
    [Field "kind" enum_t; Field "max_cpuid" int_t; Field "cpuid" (Array cpuid_registers 3); Field "family" uint32_t;
     Field "model" uint32_t].
(** Sizes of the state and the caches *)
Definition cpu_features_tail : list (member ctype) :=
  let rhel_8 := COMPATIBILITY_RHEL_8_LIKE p in
  when (at_least GLIBC_2_27 || on DEBIAN_STRETCH) [Field "xsave_state_size" size_t]
  ++ when (at_least GLIBC_2_27) [Field "xsave_state_full_size" uint32_t]
  ++ when ((before GLIBC_2_29 || on DEBIAN_BUSTER) && negb rhel_8) [Field "feature" (Array uint32_t 1)]
  ++ when (at_least GLIBC_2_26)
       [Field "data_cache_size" size_t; Field "shared_cache_size" size_t; Field "non_temporal_threshold" size_t]
  ++ when (at_least GLIBC_2_33 || rhel_8)
       ([Field "rep_movsb_threshold" size_t]
        ++ when (at_least GLIBC_2_33) [Field "rep_movsb_stop_threshold" size_t]
        ++ [Field "rep_stosb_threshold" size_t]
        ++ when (negb rhel_8)
             [Field "level1_icache_size" size_t; Field "level1_icache_linesize" size_t; Field "level1_dcache_size" size_t;
              Field "level1_dcache_assoc" size_t; Field "level1_dcache_linesize" size_t; Field "level2_cache_size" size_t;
              Field "level2_cache_assoc" size_t; Field "level2_cache_linesize" size_t; Field "level3_cache_size" size_t;
              Field "level3_cache_assoc" size_t; Field "level3_cache_linesize" size_t; Field "level4_cache_size" size_t]).
Definition cpu_features : ctype := Struct (cpu_features_head ++ cpu_features_tail).

(** Up to the auxiliary vector *)
Definition GlobalRO_head : list (member ctype) :=
  [Field "_dl_debug_mask" int_t]
  ++ when (before GLIBC_2_36) [Field "_dl_osversion" uint32_t]
  ++ [Field "_dl_platform" pointer; Field "_dl_platformlen" size_t; Field "_dl_pagesize" size_t]
  ++ when (at_least GLIBC_2_34) [Field "_dl_minsigstacksize" size_t]
  ++ [Field "_dl_inhibit_cache" int_t; Field "_dl_initial_searchlist" r_scope_elem;
      Field "_dl_clktck" int_t; Field "_dl_verbose" int_t; Field "_dl_debug_fd" int_t; Field "_dl_lazy" int_t;
      Field "_dl_bind_not" int_t; Field "_dl_dynamic_weak" int_t; Field "_dl_fpu_control" uint16_t]
  ++ when (before GLIBC_2_36) [Field "_dl_correct_cache_id" int_t]
  ++ [Field "_dl_hwcap" uint64_t]
  ++ when (before GLIBC_2_26 || (before GLIBC_2_26 && (GLIBC_TUNABLE_COUNT (defined p) =? 0))) [Field "_dl_hwcap_mask" uint64_t]
  ++ [Field "_dl_auxv" pointer].
(** From the processor to the vDSO *)
Definition GlobalRO_mid : list (member ctype) :=
  [Field "_dl_x86_cpu_features" cpu_features]
  ++ when (at_least GLIBC_2_27)
       [Field "_dl_x86_hwcap_flags" (Array (Array char_t 9) 3); Field "_dl_x86_platforms" (Array (Array char_t 9) 4)]
  ++ [Field "_dl_inhibit_rpath" pointer; Field "_dl_origin_path" pointer]
  ++ when (before GLIBC_2_36) [Field "_dl_use_load_bias" uintptr_t]
  ++ when (at_least GLIBC_2_34) [Field "_dl_tls_static_size" size_t; Field "_dl_tls_static_align" size_t]
  ++ when (at_least GLIBC_2_34 || on DEBIAN_BULLSEYE || COMPATIBILITY_RHEL_8_LIKE p || on OPENSUSELEAP_15)
       [Field "_dl_tls_static_surplus" size_t]
  ++ [Field "_dl_profile" pointer; Field "_dl_profile_output" pointer]
  ++ when (before GLIBC_2_36) [Field "_dl_trace_prelink" pointer; Field "_dl_trace_prelink_map" pointer]
  ++ [Field "_dl_init_all_dirs" pointer; Field "_dl_sysinfo_dso" pointer; Field "_dl_sysinfo_map" pointer]
  ++ when (at_least GLIBC_2_31 && negb (on DEBIAN_BUSTER))
       [Field "_dl_vdso_clock_gettime64" pointer; Field "_dl_vdso_gettimeofday" pointer; Field "_dl_vdso_time" pointer;
        Field "_dl_vdso_getcpu" pointer; Field "_dl_vdso_clock_getres_time64" pointer]
  ++ [Field "_dl_hwcap2" uint64_t]
  ++ when (at_least GLIBC_2_34) [Field "_dl_dso_sort_algo" enum_t].
(** The function table *)
Definition GlobalRO_functions : list (member ctype) :=
  [Field "_dl_debug_printf" pointer]
  ++ when (before GLIBC_2_25) [Field "_dl_catch_error" pointer; Field "_dl_signal_error" pointer]
  ++ [Field "_dl_mcount" pointer; Field "_dl_lookup_symbol_x" pointer]
  ++ when (before GLIBC_2_28) [Field "_dl_check_caller" pointer]
  ++ [Field "_dl_open" pointer; Field "_dl_close" pointer]
  ++ when (at_least GLIBC_2_34) [Field "_dl_catch_error" pointer; Field "_dl_error_free" pointer]
  ++ [Field "_dl_tls_get_addr_soft" pointer]
  ++ when (at_least GLIBC_2_35) [Field "_dl_libc_freeres" pointer; Field "_dl_find_object" pointer]
  ++ when (before GLIBC_2_36) [Field "_dl_discover_osversion" pointer]
  ++ when (at_least GLIBC_2_34) [Field "_dl_dlfcn_hook" pointer]
  ++ [Field "_dl_audit" pointer; Field "_dl_naudit" uint32_t]
  ++ when (COMPATIBILITY_RHEL_8_LIKE p) [Field "_dl_catch_error" pointer; Field "_dl_error_free" pointer].
Definition GlobalRO : ctype := Struct (GlobalRO_head ++ GlobalRO_mid ++ GlobalRO_functions).
End platform.
End Glibc.
