(* ===== verification/Patch.v ===== *)
(** Patches of GLIBC's code (src/src/comp/glibc/patch.cpp): functions of the C library that rely on its own
    dynamic linker are replaced by jumps to functions of the loader, and its fork system call by a call.

    The code is changed through the interface of CodeStore.v.  The tables of symbols and notes of the object are read
    by the library Elfo ([symbol_table], [note]); the offsets for known builds (patch.offsets) are an argument. *)
From S2P Require Import Prelude Platform X86 Symbol CodeStore Version.

Module Patch.
Import Version.

(** Elf::SymbolTable: finding a symbol by its name and hashes, and its entry *)
Record symbol := MkSymbol { s_value : Z; s_size : Z; s_func : bool }.
Record symbol_table := MkTable {
  t_index : string -> Z -> Z -> Z;       (* index(name, hash, gnuhash); STN_UNDEF is 0 *)
  t_symbol : Z -> symbol;
}.
(** Elf::Note *)
Record note := MkNote { n_name : option string; n_type : Z; n_description : list Z }.
Definition NT_GNU_BUILD_ID : Z := 3.

Inductive section := SHT_DYNSYM (t : symbol_table) | SHT_SYMTAB (t : symbol_table) | SHT_NOTE (notes : list note) | SHT_other.

(** The bytes of the instructions searched for and written *)
Definition endbr64 : list Z := [0xf3; 0x0f; 0x1e; 0xfa].
Definition fork_syscall (glibc : Z) : list Z :=
  [0xbf; 0x11; 0x00; 0x20; 0x01]                                    (* mov $0x1200011,%edi *)
  ++ (if GLIBC_2_34 <=? glibc then [0x4c; 0x8d; 0x90; 0xd0; 0x02; 0x00; 0x00] else [])  (* lea 0x2d0(%rax),%r10 *)
  ++ [0xb8; 0x38; 0x00; 0x00; 0x00]                                 (* mov $0x38,%eax *)
  ++ [0x0f; 0x05].                                                  (* syscall *)
Definition call_code (glibc arg : Z) : list Z :=
  [0x48; 0xb8] ++ le_bytes 8 arg                                    (* movabs $arg, %rax *)
  ++ [0xff; 0xd0]                                                   (* callq *%rax *)
  ++ (if GLIBC_2_34 <=? glibc then [0x0f; 0x1f; 0x80; 0x00; 0x00; 0x00; 0x00] else []).  (* nop *)
Definition jump_code (arg : Z) : list Z := [0xff; 0x25; 0; 0; 0; 0] ++ le_bytes 8 arg.

Section patch.
Context {S : Type} `{CodeStore S} `{Symbol.StringOps}.
Context (glibc : Z).                     (* GLIBC_VERSION *)

(** class Patch; a patch without name is not valid *)
Record Patch := MkPatch { name : option string; func : Z -> Z -> Z -> M S bool; arg : Z }.
Definition valid (p : Patch) : bool := bool_decide (is_Some (name p)).

(** ** The patch functions: address (in the composing buffer), size, argument *)

Definition matches (s : S) (a : Z) (code : list Z) : bool :=
  forallb (fun i => load s (a + Z.of_nat i) =? nth i code 0) (seq 0 (length code)).

(** The loop: the first [n] addresses from [a] on are compared with the code. *)
Fixpoint find_code (s : S) (code : list Z) (n : nat) (a : Z) : option Z :=
  match n with
  | O => None
  | Datatypes.S n => if matches s a code then Some a else find_code s code n (a + 1)
  end.
Definition redirect_fork_syscall (address size arg : Z) : M S bool :=
  s ← get;
  match find_code s (fork_syscall glibc) (Z.to_nat size) address with
  | None => mret false
  | Some a => modify (store_bytes a (call_code glibc arg)) ;; mret true
  end.

(** for (; size > req; size--) *(address++) = 0x90; and the jump *)
Definition nops_jmp (address size arg : Z) : M S bool :=
  let req := 14 in
  if size <? req then mret false
  else
    modify (store_bytes address (replicate (Z.to_nat (size - req)) 0x90)) ;;
    modify (store_bytes (address + (size - req)) (jump_code arg)) ;;
    mret true.

(** ** Applying patches *)

(** Patch::apply; [base] is the base of the object *)
Definition apply (p : Patch) (object base address size : Z) : M S bool :=
  if negb (valid p) then mret false
  else
    r ← compose_pointer object (w64 (base + address));
    match r with
    | None => mret false
    | Some (addr, _) =>
        s ← get;
        let '(addr, size) := if matches s addr endbr64 then (addr + 4, w64 (size - 4)) else (addr, size) in
        func p addr size (arg p)
    end.

(** PatchSymbol::apply *)
Definition apply_symbol (p : Patch) (object base : Z) (t : symbol_table) : M S bool :=
  match name p with
  | None => mret false
  | Some n =>
      let idx := t_index t n (Symbol.elf_hash (Some n)) (Symbol.gnu_hash (Some n)) in
      if idx =? 0 then mret false
      else
        let sym := t_symbol t idx in
        assert (s_func sym) ;;
        apply p object base (s_value sym) (s_size sym)
  end.

(** PatchOffset::apply *)
Record PatchOffset := MkOffset { po_patch : Patch; po_address : Z; po_size : Z }.
Definition apply_offset (p : PatchOffset) (object base : Z) : M S bool :=
  apply (po_patch p) object base (po_address p) (po_size p).

(** symbol_fixes: the addresses of the loader's functions are arguments. *)
Context (dl_addr dlopen dlclose dlsym dlvsym fork : Z) (stretch : bool).
Definition symbol_fixes : list Patch :=
  [MkPatch (Some "_dl_addr"%string) nops_jmp dl_addr;
   MkPatch (Some "__libc_dlopen_mode"%string) nops_jmp dlopen;
   MkPatch (Some "__libc_dlclose"%string) nops_jmp dlclose;
   MkPatch (Some "__libc_dlsym"%string) nops_jmp dlsym]
  ++ (if stretch then [] else [MkPatch (Some "__libc_dlvsym"%string) nops_jmp dlvsym])
  ++ [MkPatch (Some (if GLIBC_2_34 <=? glibc then "_Fork"%string else "__libc_fork"%string)) redirect_fork_syscall fork].

(** The last table of each kind counts. *)
Definition tables (sections : list section) : option symbol_table * option symbol_table :=
  foldl (fun ts s =>
    match s with
    | SHT_DYNSYM t => (fst ts, Some t)
    | SHT_SYMTAB t => (Some t, snd ts)
    | _ => ts
    end) (None, None) sections.
Definition try_table (p : Patch) (object base : Z) (t : option symbol_table) : M S bool :=
  match t with Some t => apply_symbol p object base t | None => mret false end.
Definition patch_using_symbol_fixes (object base : Z) (sections : list section) : M S bool :=
  let '(symtab, dynsym) := tables sections in
  match symtab, dynsym with
  | None, None => mret false
  | _, _ =>
      mall symbol_fixes (fun fix_ =>
        b ← try_table fix_ object base symtab;
        if b : bool then mret true else try_table fix_ object base dynsym)
  end.

(** The build id of the object: the first such note of the sections decides. *)
Definition build_id (sections : list section) : option (list Z) :=
  n_description <$> find (fun n => bool_decide (n_name n = Some "GNU"%string) && (n_type n =? NT_GNU_BUILD_ID))
    (concat ((fun s => match s with SHT_NOTE l => l | _ => [] end) <$> sections)).
Fixpoint apply_while_valid (l : list PatchOffset) (object base : Z) : M S bool :=
  match l with
  | [] => mret true
  | p :: l => if valid (po_patch p)
              then b ← apply_offset p object base; r ← apply_while_valid l object base; mret (b && r)
              else mret true
  end.
Context (offset_fixes : list (list Z * list PatchOffset)).
Definition patch_using_offset_fixes (object base : Z) (sections : list section) : M S bool :=
  match offset_fixes with
  | [] => mret false
  | _ =>
      match build_id sections with
      | None => mret false
      | Some id =>
          match find (fun f => bool_decide (length id = 20%nat) && bool_decide (fst f = id)) offset_fixes with
          | Some f => apply_while_valid (snd f) object base
          | None => mret false
          end
      end
  end.

(** GLIBC::patch *)
Definition patch (object base : Z) (sections : list section) : M S bool :=
  b ← patch_using_offset_fixes object base sections;
  if b : bool then mret true else patch_using_symbol_fixes object base sections.
End patch.
End Patch.
