(* ===== verification/GlibcInit.v ===== *)
(** The values of GLIBC's global structures (src/src/comp/glibc/rtld/global.cpp) and the calls that make the C library
    ready (src/src/comp/glibc/init.cpp).

    The structures themselves are in Glibc.v; here they are records of the fields that are set.  The functions the
    structures point to are given by their names; most of them only log that they are not implemented. *)
From S2P Require Import Prelude Platform Segment Symbol Tls World Object Identity Loader Version Layout Glibc.

Module GlibcInit.
Import World Object Identity Loader Version Glibc.

Definition AT_PAGESZ : Z := 6.
Definition AT_UID : Z := 11.
Definition AT_EUID : Z := 12.
Definition AT_GID : Z := 13.
Definition AT_EGID : Z := 14.
Definition AT_PLATFORM : Z := 15.
Definition AT_HWCAP : Z := 16.
Definition AT_CLKTCK : Z := 17.
Definition AT_FPUCW : Z := 18.
Definition AT_SECURE : Z := 23.
Definition AT_HWCAP2 : Z := 26.
Definition AT_SYSINFO_EHDR : Z := 33.
Definition AT_MINSIGSTKSZ : Z := 51.

(** ** The auxiliary vector *)

(** What init_globals sets from it; the initial values are those of global.hpp.  A platform is its pointer and length. *)
Record auxiliary_globals := MkAux {
  _dl_clktck : Z; _dl_pagesize : Z; _dl_platform : option Z; _dl_platformlen : Z;
  _dl_hwcap : Z; _dl_hwcap2 : Z; _dl_fpu_control : Z; _dl_sysinfo_dso : Z; _dl_minsigstacksize : Z;
  __libc_enable_secure : Z;
}.
#[export] Instance eta_aux : Eta auxiliary_globals := fun a =>
  MkAux (_dl_clktck a) (_dl_pagesize a) (_dl_platform a) (_dl_platformlen a) (_dl_hwcap a) (_dl_hwcap2 a) (_dl_fpu_control a)
    (_dl_sysinfo_dso a) (_dl_minsigstacksize a) (__libc_enable_secure a).
(** "haswell" *)
Definition initial_aux : auxiliary_globals := MkAux 0 0x1000 None 7 2 2 0x037f 0 1604 0.

(** The variables of the loop; an int is 32 bits. *)
Record ids := MkIds { uid : Z; gid : Z; seen : Z }.
Definition no_ids : ids := MkIds 0 0 0.
Definition see_uid (bit value : Z) (i : ids) : ids := MkIds (Z.lxor (uid i) (s32 value)) (gid i) (Z.lor (seen i) bit).
Definition see_gid (bit value : Z) (i : ids) : ids := MkIds (uid i) (Z.lxor (gid i) (s32 value)) (Z.lor (seen i) bit).

Section globals.
Context (string_length : Z -> Z).        (* String::len *)

Definition read_entry (p : platform) (s : auxiliary_globals * ids) (aux : Z * Z) : auxiliary_globals * ids :=
  let '(g, i) := s in
  let '(type, value) := aux in
  if type =? AT_CLKTCK then (g <| _dl_clktck := s32 value |>, i)
  else if type =? AT_PAGESZ then (g <| _dl_pagesize := value |>, i)
  else if type =? AT_PLATFORM then (g <| _dl_platform := Some value |> <| _dl_platformlen := string_length value |>, i)
  else if type =? AT_HWCAP then (g <| _dl_hwcap := value |>, i)
  else if type =? AT_HWCAP2 then (g <| _dl_hwcap2 := value |>, i)
  else if type =? AT_FPUCW then (g <| _dl_fpu_control := value mod 2^16 |>, i)
  else if type =? AT_SYSINFO_EHDR then (g <| _dl_sysinfo_dso := value |>, i)
  else if (type =? AT_MINSIGSTKSZ) && (GLIBC_2_34 <=? GLIBC_VERSION (defined p)) then (g <| _dl_minsigstacksize := value |>, i)
  else if type =? AT_UID then (g, see_uid 1 value i)
  else if type =? AT_EUID then (g, see_uid 2 value i)
  else if type =? AT_GID then (g, see_gid 4 value i)
  else if type =? AT_EGID then (g, see_gid 8 value i)
  else if type =? AT_SECURE then (g <| __libc_enable_secure := s32 value |>, MkIds (uid i) (gid i) (-1))
  else (g, i).
(** [auxv] are the entries before the one that is not valid. *)
Definition read_auxv (p : platform) (auxv : list (Z * Z)) : auxiliary_globals :=
  let '(g, i) := foldl (read_entry p) (initial_aux, no_ids) auxv in
  if seen i =? 0xf then g <| __libc_enable_secure := if negb (uid i =? 0) || negb (gid i =? 0) then 1 else 0 |> else g.

(** ** The rest of the globals *)

Record globals := MkGlobals {
  g_aux : auxiliary_globals;
  vdso : list Z;                  (* clock_gettime, gettimeofday, time, getcpu, clock_getres; zero if it is not there *)
  _ns_loaded : Z; _ns_nloaded : Z; _dl_rtld_map : Z;   (* the identities whose link maps they are *)
}.
(** From GLIBC 2.31 on, not on Debian Buster *)
Definition has_vdso (p : platform) : bool := (GLIBC_2_31 <=? GLIBC_VERSION (defined p)) && negb (bool_decide (p = DEBIAN_BUSTER)).
Definition vdso_names : list string :=
  ["__vdso_clock_gettime"; "__vdso_gettimeofday"; "__vdso_time"; "__vdso_getcpu"; "__vdso_clock_getres"]%string.

Context `{ObjectOps} `{Symbol.StringOps}.
(** resolve *)
Definition resolve_name (name : string) : M world Z :=
  emit Ev_read_lock ;;
  w ← get;
  r ← (match resolve w name None NAMESPACE_BASE None RESOLVE_DEFAULT with
       | None => assert false ;; mret 0
       | Some None => mret 0
       | Some (Some s) => ob ← get_object (Symbol.sym_object s); mret (w64 (o_base ob + Symbol.sym_value s))
       end);
  emit Ev_read_unlock ;;
  mret r.
Fixpoint resolve_all (names : list string) : M world (list Z) :=
  match names with
  | [] => mret []
  | n :: names => a ← resolve_name n; l ← resolve_all names; mret (a :: l)
  end.
Definition init_globals (p : platform) (auxv : list (Z * Z)) : M world globals :=
  v ← (if has_vdso p then resolve_all vdso_names else mret []);
  l ← get_loader;
  match target l, self l with
  | Some t, Some s => mret (MkGlobals (read_auxv p auxv) v t (Z.of_nat (length (lookup l)) mod 2^32) s)
  | _, _ => assert false ;; mret (MkGlobals initial_aux [] 0 0 0)
  end.

(** The functions init_globals enters into the two structures: the member and the name of the function *)
Definition global_functions (p : platform) : list (string * string) :=
  let v := GLIBC_VERSION (defined p) in
  let pthread := GLIBC_PTHREAD_IN_LIBC (defined p) in
  when (v <? GLIBC_2_25) [("_dl_error_catch_tsd", "_dl_error_catch_tsd")]%string
  ++ when (negb pthread)
       [("_dl_rtld_lock_recursive", "_dl_rtld_lock_recursive"); ("_dl_rtld_unlock_recursive", "_dl_rtld_unlock_recursive")]%string
  ++ when ((v <? GLIBC_2_34) || negb pthread)
       [("_dl_make_stack_executable_hook", "_dl_make_stack_executable"); ("_dl_init_static_tls", "_dl_init_static_tls")]%string
  ++ when (v <? GLIBC_2_33) [("_dl_wait_lookup_done", "_dl_wait_lookup_done")]%string.
Definition global_ro_functions (p : platform) : list (string * string) :=
  let v := GLIBC_VERSION (defined p) in
  [("_dl_debug_printf", "_dl_debug_printf")]%string
  ++ when (v <? GLIBC_2_25) [("_dl_catch_error", "_dl_catch_error"); ("_dl_signal_error", "_dl_signal_error")]%string
  ++ [("_dl_mcount", "_dl_mcount"); ("_dl_lookup_symbol_x", "_dl_lookup_symbol_x")]%string
  ++ when (v <? GLIBC_2_28) [("_dl_check_caller", "_dl_check_caller")]%string
  ++ [("_dl_open", "_dl_open"); ("_dl_close", "_dl_close")]%string
  ++ when ((GLIBC_2_34 <=? v) || COMPATIBILITY_RHEL_8_LIKE p) [("_dl_catch_error", "_dl_catch_error"); ("_dl_error_free", "_dl_error_free")]%string
  ++ [("_dl_tls_get_addr_soft", "_dl_tls_get_addr_soft")]%string
  ++ when (GLIBC_2_35 <=? v) [("_dl_libc_freeres", "_dl_libc_freeres"); ("_dl_find_object", "_dl_find_object")]%string
  ++ when (v <? GLIBC_2_36) [("_dl_discover_osversion", "_dl_discover_osversion")]%string.
(** The lists clear_list makes empty: both pointers are the address of the list. *)
Definition clear_list (l : Z) : Z * Z := (l, l).
Definition cleared_lists (p : platform) : list string :=
  let v := GLIBC_VERSION (defined p) in
  when (GLIBC_PTHREAD_IN_LIBC (defined p) && (GLIBC_2_33 <=? v))
    (["_dl_stack_used"; "_dl_stack_user"]%string ++ when (GLIBC_2_34 <=? v) ["_dl_stack_cache"]%string).

(** init_globals_tls; the surplus is only a field of newer structures. *)
Record tls_globals := MkTlsGlobals {
  _dl_tls_max_dtv_idx : Z; _dl_tls_generation : Z; _dl_initial_dtv : Z; _dl_tls_static_nelem : Z; _dl_tls_static_used : Z;
  _dl_tls_static_size : Z; _dl_tls_static_align : Z; _dl_tls_static_surplus : option Z;
}.
Context `{DlhMath} (sizeof_Thread : Z).
Definition init_globals_tls (p : platform) (tls : TLS.tls) (dtv : Z) : tls_globals :=
  MkTlsGlobals (Z.of_nat (length (TLS.modules tls))) (TLS.gen tls) dtv (Z.of_nat (TLS.initial_count tls)) (TLS.initial_size tls)
    (w64 (align_up (w64 (TLS.initial_size tls + TLS.surplus)) (TLS.initial_align tls) + sizeof_Thread)) (TLS.initial_align tls)
    (if (GLIBC_2_34 <=? GLIBC_VERSION (defined p)) || bool_decide (p = DEBIAN_BULLSEYE) then Some TLS.surplus else None).

(** ** init *)

Context (ifunc : Z -> Z) (tls_address : Z -> Z -> Z).
(** init(loader): __libc_early_init of new versions is called with true *)
Definition init (p : platform) : M world bool :=
  if GLIBC_2_32 <=? GLIBC_VERSION (defined p) then
    w ← get;
    match resolve w "__libc_early_init" (Some "GLIBC_PRIVATE"%string) NAMESPACE_BASE None RESOLVE_DEFAULT with
    | None => assert false ;; mret false
    | Some None => mret false
    | Some (Some s) =>
        ob ← get_object (Symbol.sym_object s);
        assert (bool_decide (Symbol.sym_type s = STT_FUNC)) ;;
        emit (Ev_call (Symbol.pointer (fun _ => o_base ob) ifunc tls_address s) 1) ;;
        mret true
    end
  else mret true.

(** init(object): the link map of a library; the pointers to its program headers and its entry *)
Record link_map_headers := Headers { l_phdr : Z; l_entry : Z; l_phnum : Z }.
(** The flags init(object) sets to one *)
Definition set_flags (p : platform) : list string :=
  ["l_relocated"; "l_init_called"; "l_global"]%string ++ when (GLIBC_2_35 <=? GLIBC_VERSION (defined p)) ["l_visited"%string] ++ ["l_used"%string].

(** init_tls: the block of a library in its link map *)
Record link_map_tls := MkLinkMapTls {
  l_tls_blocksize : Z; l_tls_align : Z; l_tls_initimage : Z; l_tls_initimage_size : Z; l_tls_firstbyte_offset : Z; l_tls_offset : Z;
  l_tls_modid : Z;
}.
Definition init_tls (size align image image_size offset modid : Z) : link_map_tls :=
  MkLinkMapTls size align image image_size offset offset modid.
Context `{Env}.
Definition init_object (o : Z) : M world link_map_headers :=
  ob ← get_object o;
  tr ← gets trace;
  let h := header_at tr (d_addr (o_data ob)) in
  set_identity (o_file ob) (fun x => x <| World.l_type := Some lt_library |> <| l_visible := true |>) ;;
  mret (Headers (w64 (d_addr (o_data ob) + e_phoff h)) (h_entry h) (e_phnum h)).
End globals.
End GlibcInit.
