(* ===== verification/Start.v ===== *)
(** Starting a program without an entry point (src/src/comp/glibc/start.cpp): object files are started at their
    function main, through GLIBC if it is there.

    The assembler is a list of instructions as in DlResolve.v. *)
From S2P Require Import Prelude Platform X86 Segment Symbol World Object Process Identity Loader DlResolve.

Module Start.
Import World Object Process Loader DlResolve.

(** The global pointers, with the world *)
Record start := MkStart { ptr_main : Z; ptr_libc_start_main : Z; s_world : world }.
#[export] Instance eta_start : Eta start := fun s => MkStart (ptr_main s) (ptr_libc_start_main s) (s_world s).

Section entry.
Context `{ObjectOps} `{Symbol.StringOps} (ifunc : Z -> Z) (tls_address : Z -> Z -> Z).
(** The addresses of the two pieces of assembler *)
Context (libc_start_address luci_start_address : Z).

(** A function outside of the loader; zero is the null pointer *)
Definition resolve_symbol (name : string) : M start Z := fun s =>
  let w := s_world s in
  match Loader.resolve w name None NAMESPACE_BASE (self (loader w)) RESOLVE_EXCEPT_OBJECT with
  | None => AssertFailed
  | Some None => Ok (0, s)
  | Some (Some sym) =>
      match Symbol.sym_type sym with
      | STT_FUNC | STT_GNU_IFUNC =>
          Ok (Symbol.pointer (fun o => match objects w !! o with Some ob => o_base ob | None => 0 end) ifunc tls_address sym, s)
      | _ => Ok (0, s)
      end
  end.
Definition start_entry : M start Z :=
  symptr ← resolve_symbol "_start";
  if negb (symptr =? 0) then mret symptr
  else
    symptr ← resolve_symbol "main";
    if negb (symptr =? 0) then
      modify (fun s => s <| ptr_main := symptr |>) ;;
      s ← get;
      missing ← (if ptr_libc_start_main s =? 0 then
                   p ← resolve_symbol "__libc_start_main";
                   modify (fun s => s <| ptr_libc_start_main := p |>) ;;
                   mret (p =? 0)
                 else mret false);
      mret (if missing : bool then luci_start_address else libc_start_address)
    else mret 0.
End entry.

(** ** The assembler

    [main_at] and [libc_at] are the addresses of the pointers. *)
Definition libc_start (main_at libc_at : Z) : list instr :=
  [ENDBR64; MOVI 0 RBP; MOV RDX R9; POP RSI; MOV RSP RDX; AND (-16) RSP; PUSH RAX; PUSH RSP; MOVI 0 RCX; MOVI 0 R8;
   MOVI main_at R12; LOAD 0 R12 RDI; MOVI libc_at R12].
Definition luci_start (main_at : Z) : list instr :=
  [ENDBR64; MOVI 0 RBP; POP RDI; MOV RSP RSI; AND (-16) RSP; MOVI main_at R12].
(** Where call *(%r12) goes *)
Definition call_target (c : cpu) : Z := load (regs c R12) c.
(** After main: the result of main is the argument of _luci_exit. *)
Definition luci_after_main : list instr := [MOV RAX RDI].
End Start.
