(* ===== verification/Assembly.v ===== *)
(** The parts of the start put together: the functions of comp/glibc/ that Loader::prepare and
    Loader::get_entry_point call (the interface [Boot] of Loader.v) are those of GlibcInit.v and Start.v. *)
From S2P Require Import Prelude Platform Segment Symbol World Object Identity Process Loader Version GlibcInit Start.

Module Assembly.
Import World Object Loader Version.

Section assembly.
Context `{DlhMath} `{ObjectOps} `{Env} `{Symbol.StringOps}.
Context (p : platform) (auxv : list (Z * Z)) (string_length : Z -> Z) (ifunc : Z -> Z) (tls_address : Z -> Z -> Z)
  (libc_start_address luci_start_address : Z).

(** The static pointers of start.cpp are null until the entry point is looked for, which happens once. *)
Definition entry_of_program : M world Z := fun w =>
  match Start.start_entry ifunc tls_address libc_start_address luci_start_address (Start.MkStart 0 0 w) with
  | Ok (a, s) => Ok (a, Start.s_world s)
  | AssertFailed => AssertFailed
  | OutOfFuel => OutOfFuel
  end.
(** [rest] are the parts that are not among the two files. *)
Definition glibc_boot (rest : Boot) : Boot := {|
  tls_allocate := @tls_allocate rest; tls_dtv_setup := @tls_dtv_setup rest; setup_guards := @setup_guards rest;
  init_globals := GlibcInit.init_globals string_length p auxv ;; mret tt;
  init_globals_tls := @init_globals_tls rest;
  glibc_init := GlibcInit.init ifunc tls_address p ;; mret tt;
  glibc_starting := @glibc_starting rest;
  start_entry := entry_of_program;
  trampoline_update := @trampoline_update rest; redirect_setup := @redirect_setup rest;
  dynamic_tags := @dynamic_tags rest; r_debug_address := @r_debug_address rest;
|}.
End assembly.
End Assembly.
