(* ===== verification/Samples.v ===== *)
(** Concrete instances of the interfaces (World.v, Object.v, Loader.v, Helper.v) and a small world, with
    which the theorems about the loader are applied to examples. *)
From Stdlib Require Import Ascii.
From S2P Require Import Prelude Platform Segment Symbol Tls World Object Identity Gdb Loader Helper Executable Dynamic Relocatable.

Module Samples.
Import World Object Identity Loader Helper.

(** Every system call succeeds; descriptors are 5, mappings and watches have fixed numbers. *)
Definition ex_kernel : kernel_t := fun _ c =>
  match c with
  | Sys_open _ _ => Success 5
  | Sys_mmap _ _ _ _ _ _ => Success 0x10000
  | Sys_inotify_add_watch _ _ _ => Success 1
  | Sys_inotify_init => Success 3
  | Sys_memfd_create _ _ => Success 6
  | Sys_read _ _ => Success 16
  | _ => Success 0
  end.

(** The part behind the last slash, and both parts *)
Fixpoint split_last (s : string) : option (string * string) :=
  match s with
  | EmptyString => None
  | String c s =>
      match split_last s with
      | Some (a, b) => Some (String c a, b)
      | None => if bool_decide (c = "/"%char) then Some (EmptyString, s) else None
      end
  end.

Definition ex_header (type : ehdr_type) : elf_header := MkHeader true 0 62 type 0x40 64 3.

(** The files that exist are given; ELF files unless their name ends in ".a" like the archive "x.a". *)
Definition ex_env (files : list string) (archives : list (string * list ar_entry)) (mem_is_ar : bool) : Env := {|
  hex _ := "0"%string; dec z := pretty z;
  str_find_last s := match split_last s with Some (_, b) => b | None => s end;
  str_split_last := split_last;
  file_exists _ p := bool_decide (p ∈ files);
  file_format _ p := if bool_decide (p ∈ archives.*1) then FORMAT_AR else FORMAT_ELF;
  mem_format _ _ := if mem_is_ar then FORMAT_AR else FORMAT_ELF;
  archive _ p := snd <$> find (fun x => bool_decide (x.1 = p)) archives;
  auxiliary _ := None; parse_number _ := None;
  file_absolute _ p := Some p; file_absolute_fd _ _ := Some "/lib"%string;
  stat_is_link _ _ := false; stat_of _ _ := ((1, 0), 0x1000);
  header_at _ _ := ex_header ET_DYN; elf_size _ _ := 0x1000; elf_valid _ _ _ := true;
  elf_dynamic_segment _ _ := true; elf_build_id _ _ := None; build_id_count := 41;
  data_hash _ _ _ _ := 7; new_object _ _ := true;
  debug_symbols_file _ _ _ _ := None; contents_get _ _ := None;
  FLAG_RESOLVE_INTERNAL_RELOCATIONS := 1; FLAG_RECONSTRUCT_RELOCATIONS := 2; FLAG_HASH_ATTRIBUTES_FOR_ID := 4;
  bean_diff _ _ _ _ _ := []; hook_result _ _ := 0;
  socket_connected _ := false; socket_query _ _ := (0, 0, EmptyString);
|}.

Definition no_version : Version := Symbol.no_version true.
Definition ex_symbol (object value : Z) (bind : Bind) (name : string) : VersionedSymbol :=
  Symbol.Build_VersionedSymbol object (object * 0x1000 + value) name value 8 bind STT_FUNC true no_version None None.

(** Objects whose symbols are given by a table; everything succeeds unless told otherwise. *)
Definition ex_ops (symbols : list VersionedSymbol) (preloads patches : bool) : ObjectOps := {|
  v_construct _ := mret tt;
  v_preload _ := mret preloads; v_fix _ := mret true; v_preprepare _ := mret tt; v_prepare _ := mret true;
  v_update _ := mret true; v_patchable _ := mret patches; v_initialize _ _ := mret true;
  v_resolve_symbol _ o name _ _ _ :=
    find (fun s => (Symbol.sym_object s =? o) && bool_decide (Symbol.sym_name s = name)) symbols;
  v_resolve_address _ _ _ := None; v_dynamic_address _ _ := 0;
|}.

Definition ex_boot : Boot := {|
  tls_allocate := mret true; tls_dtv_setup := mret tt; setup_guards _ := mret tt; init_globals := mret tt;
  init_globals_tls := mret tt; glibc_init := mret tt; glibc_starting := mret tt; start_entry := mret 0x1000;
  trampoline_update := mret tt; redirect_setup _ := mret tt; dynamic_tags _ _ := []; r_debug_address := 0x7000;
|}.

(** ** Worlds *)

Definition ex_config : Config := default_config true 0.
Definition ex_loader (c : Config) (ids : list Z) : Loader :=
  MkLoader c [] [] ["/lib"; "/usr/lib"]%string ids None None None false false 1000 (-1) 3 (-1) 0 0 0 false false no_flags 1 0 [] TLS.tls_init.
Definition ex_identity (n : string) (f : Flags) (vs : list Z) : ObjectIdentity :=
  MkIdentity NAMESPACE_BASE n ("/lib/" +:+ n)%string f (-1) vs no_hook 0 0 None false [] 0 0 ∅ ∅.
Definition ex_segment (start len : Z) : segment :=
  MemorySegment.Segment 0 len 0 start len PROT_READ PROT_READ (-1) 0 false MemorySegment.MEMSEG_MAPPED 0.
Definition ex_object (i : Z) (deps : list Z) (segs : list segment) : Object :=
  MkObject i (KDynamic true) (no_data <| d_addr := 0x20000 |>) 0 STATUS_MAPPED deps segs None None (Some 1) None no_dyn no_rel.
Definition no_gdb : rdebug := RDebug 0 false RT_CONSISTENT 0 None [].

(** Identity 1 (object 11) depends on 2 (object 12); 12 was loaded as second version of identity 2 after 22. *)
Definition ex_world (c : Config) : world :=
  World (ex_loader c [1; 2]) no_gdb
    (list_to_map [(1, ex_identity "main" (no_flags <| bind_global := true |>) [11]);
                  (2, ex_identity "libx.so" (no_flags <| bind_global := true |> <| updatable := dynamic_update c |>) [12; 22])])
    (list_to_map [(11, ex_object 1 [2] [ex_segment 0x400000 0x2000]);
                  (12, ex_object 2 [1] [ex_segment 0x600000000000 0x3000]);
                  (22, ex_object 2 [] [ex_segment 0x600000004000 0x1800])])
    100 [].

(** ** Dynamic objects *)

Definition ex_elf_symbol (n : string) (undefined : bool) (value : Z) : elf_symbol :=
  ElfSymbol value n value 8 Symbol.STB_GLOBAL STT_FUNC true undefined true (if undefined then 0 else 1).
Fixpoint index_of (n : string) (l : list elf_symbol) (k : Z) : Z :=
  match l with
  | [] => 0
  | s :: l => if bool_decide (es_name s = n) then k else index_of n l (k + 1)
  end.

(** Object 11 needs the library "libx.so" and its function "f", which 12 and 22 define. *)
Definition ex_tables : Dynamic.ElfTables := {|
  Dynamic.dynamic_table o := if o =? 11 then [Dynamic.DynEntry 1 0 "libx.so" 0] else [];
  Dynamic.get_soname _ := None; Dynamic.virt_offset _ := 0;
  Dynamic.dynamic_relocations o := if o =? 11 then [Reloc 0x400100 1 6 0] else [];
  Dynamic.dynamic_relocations_plt _ := []; Dynamic.relative_relocations _ := [];
  Dynamic.version_needed o := if o =? 11 then [Dynamic.VersionNeed "libx.so" [Dynamic.VersionAux "V1" 2 3 false; Dynamic.VersionAux "V2" 2 4 false]] else [];
  Dynamic.version_definition o :=
    if o =? 11 then [Dynamic.VersionDef true 4 1 false "main"; Dynamic.VersionDef false 2 2 false "V1"] else [];
  Dynamic.dynamic_symbols o :=
    [ex_elf_symbol "" true 0; if o =? 11 then ex_elf_symbol "f" true 0 else ex_elf_symbol "f" false (if o =? 12 then 0x10 else 0x20)];
  Dynamic.symbol_index o n _ _ _ := index_of n [ex_elf_symbol "" true 0; ex_elf_symbol "f" true 0] 0;
  Dynamic.symbol_version _ _ := 1;
  Dynamic.elf_identification _ := (0, 62, 1);
|}.

(** Absolute relocations, to memory that holds zeroes *)
Definition ex_relocator : Dynamic.RelocatorOps := {|
  Dynamic.r_address r _ base := base + r_offset r; Dynamic.r_is_copy _ := false;
  Dynamic.r_value_internal r _ base _ _ _ := base + r_addend r;
  Dynamic.r_value_external r _ _ s base _ _ _ := base + Symbol.sym_value s + r_addend r;
  Dynamic.r_valid_value _ _ := true; Dynamic.r_fixed _ v := v;
  Dynamic.r_read _ _ _ _ := 0; Dynamic.read_word _ _ := 0;
|}.

(** Cut at every colon; replace the first occurrence of a token *)
Fixpoint split_at_colon (s acc : string) : list string :=
  match s with
  | EmptyString => [acc]
  | String c s => if bool_decide (c = ":"%char) then acc :: split_at_colon s EmptyString
                  else split_at_colon s (acc +:+ String c EmptyString)%string
  end.
Fixpoint replace_first (s from to : string) : string :=
  if String.prefix from s then (to +:+ String.substring (String.length from) (String.length s) s)%string
  else match s with EmptyString => EmptyString | String c s => String c (replace_first s from to) end.
Definition ex_dyn : Dynamic.DynEnv := {|
  Dynamic.split_colon s := split_at_colon s EmptyString;
  Dynamic.replace_inplace s _ from to := replace_first s from to;
  Dynamic.string_at _ := "x86_64"%string;
  Dynamic.relocations_insert r s l := (r, s) :: filter (fun x => x.1 <> r) l;
  Dynamic.dlresolve := 0x5000;
  Dynamic.glibc_init_object _ := mret true; Dynamic.glibc_patch _ := mret true; Dynamic.run_init _ _ := mret tt;
  Dynamic.redirect_add _ _ _ _ _ := mret true; Dynamic.bean_patchable _ _ _ _ _ := true;
  Dynamic.bean_update _ _ _ _ _ := mret tt;
  Dynamic.FLAG_USE_SYMBOL_NAMES := 1; Dynamic.FLAG_ONLY_EXECUTABLE := 2; Dynamic.FLAG_ONLY_BRANCH_RELS := 4;
  Dynamic.FLAG_IGNORE_LOCAL_RELS := 8;
|}.

Definition ex_rel : Relocatable.RelEnv := {|
  Relocatable.elf_sections _ := []; Relocatable.elf_type _ := 1; Relocatable.read_byte _ _ := 0;
  Relocatable.ifunc_result _ p := p + 0x100; Relocatable.r_value _ base _ _ t _ _ := t - base;
  Relocatable.symbols_insert x l := x :: l; Relocatable.trampoline_set _ := mret 0x70000;
|}.

(** Object 60: an object file with the indirect function "g" and the function "h", and relocations to both *)
Definition ex_object_file : Object :=
  (ex_object 1 [] []) <| o_kind := KRelocatable |> <| o_base := 0x10000 |> <| o_rel := no_rel
    <| sections := [RelSection Relocatable.SHT_SYMTAB ".symtab" 0 false false (MemorySegment.Build_elf_section 0 72 8 false false false)
                      [ex_elf_symbol "" true 0; (ex_elf_symbol "g" false 0x100) <| es_type := STT_GNU_IFUNC |>; ex_elf_symbol "h" false 0x200] [];
                    RelSection Relocatable.SHT_RELA ".rela.text" 2 false false (MemorySegment.Build_elf_section 0 48 8 false false false)
                      [] [Reloc 0x10 1 1 0; Reloc 0x20 2 1 0]] |>
    <| relocation_tables := [1%nat] |> |>.

(** The sample world, when the relocation of object 11 is still to the outdated version 22 *)
Definition ex_outdated : world :=
  (ex_world ex_config) <| objects ::= alter (fun ob => ob <| o_dyn ::= fun d =>
    d <| relocations := [(Reloc 0x400100 1 6 0, ex_symbol 22 0x20 Symbol.STB_GLOBAL "f")] |> |>) 11 |>.

(** The state a run of a program leaves, to state what it did. *)
Definition after {A} (r : res (A * world)) (d : world) : world := match r with Ok (_, w) => w | _ => d end.
End Samples.
