(* ===== verification/WorldProofs.v ===== *)
(** Shared lemmas about the world: what the access functions, objects and identities leave unchanged. *)
From S2P Require Import Prelude Platform Segment Symbol World Object Identity Gdb Loader.

Module WorldProofs.
Import World Object Identity Loader.

Lemma keeps_run {A} (P : world -> Prop) (m : M world A) w a w' : keeps P m -> P w -> m w = Ok (a, w') -> P w'.
Proof. unfold keeps, hoare. eauto. Qed.

(** * Invariants of the access functions *)

Section access.
Context (P : world -> Prop).

Lemma keeps_get_identity i : keeps P (get_identity i).
Proof. intros w x w' Hw [_ ->]%get_identity_Ok. done. Qed.
Lemma keeps_get_object o : keeps P (get_object o).
Proof. intros w x w' Hw [_ ->]%get_object_Ok. done. Qed.
Lemma keeps_syscall kernel c : (forall w t, P w -> P (w <| trace := t |>)) -> keeps P (syscall_ kernel c).
Proof. intros HP w x w' Hw. unfold syscall_. intros [_ <-]%Ok_inj. by apply HP. Qed.
Lemma keeps_world_emit e : (forall w t, P w -> P (w <| trace := t |>)) -> keeps P (emit e).
Proof. intros HP. apply keeps_modify. intros w Hw. by apply HP. Qed.
Lemma keeps_set_identity i f : (forall w t, P w -> P (w <| identities := t |>)) -> keeps P (set_identity i f).
Proof. intros HP. apply keeps_modify. intros w Hw. by apply HP. Qed.
Lemma keeps_set_object i f : (forall w t, P w -> P (w <| objects := t |>)) -> keeps P (set_object i f).
Proof. intros HP. apply keeps_modify. intros w Hw. by apply HP. Qed.
Lemma keeps_if {A} (b : bool) (m1 m2 : M world A) : keeps P m1 -> keeps P m2 -> keeps P (if b then m1 else m2).
Proof. by destruct b. Qed.
Lemma keeps_fresh : (forall w n, P w -> P (w <| next_id := n |>)) -> keeps P fresh.
Proof. intros HP w x w' Hw [_ <-]%Ok_inj. by apply HP. Qed.
Lemma keeps_on_segment {A} o k (f : _ -> M _ A) :
  (forall w t, P w -> P (w <| trace := t |>)) -> (forall w t, P w -> P (w <| objects := t |>)) ->
  keeps P (on_segment o k f).
Proof.
  intros HPt HPo w x w' Hw Hr. unfold on_segment in Hr. repeat (case_match; try discriminate Hr; try done).
  apply Ok_inj in Hr as [_ <-]. apply (HPt (w <| objects := _ |>)). by apply HPo.
Qed.
Lemma keeps_all_until {A} (f : A -> M world bool) l : (forall x, keeps P (f x)) -> keeps P (all_until f l).
Proof.
  intros Hf. induction l as [|x l IH]; cbn; [apply keeps_ret|].
  apply keeps_bind; [apply Hf|]. intros []; [done|apply keeps_ret].
Qed.
End access.

(** Prove [keeps P m] for code on the world; leaves what the structure of [m] does not decide. *)
Ltac wkeeps_step :=
  first
    [ apply keeps_get_identity | apply keeps_get_object
    | apply keeps_syscall; intros; done | apply keeps_world_emit; intros; done
    | apply keeps_set_identity; intros; done | apply keeps_set_object; intros; done
    | apply keeps_on_segment; intros; done | apply keeps_fresh; intros; done
    | apply keeps_all_until; intros ?
    | keeps_step ].
Ltac wkeeps := repeat wkeeps_step; try (apply keeps_modify; cbn; intros; done).

(** * What destruction leaves alone *)

Section destroy.
Context `{DlhMath} (kernel : kernel_t) `{ObjectOps} `{Env}.

Lemma keeps_object_destroy_lookup l o :
  keeps (fun w => lookup (loader w) = l) (Object.destroy kernel reset_address o).
Proof. unfold Object.destroy, reset_address, segment_indices, set_loader. wkeeps. Qed.

Lemma keeps_destroy_lookup l i :
  keeps (fun w => lookup (loader w) = l) (Identity.destroy kernel reset_address i).
Proof.
  unfold Identity.destroy, get_config, get_loader.
  repeat (apply keeps_object_destroy_lookup || wkeeps_step); apply keeps_modify; done.
Qed.

Lemma keeps_notify_lookup l s : keeps (fun w => lookup (loader w) = l) (GDB.notify s).
Proof. unfold GDB.notify. wkeeps. Qed.
Lemma keeps_refresh_lookup l : keeps (fun w => lookup (loader w) = l) (GDB.refresh).
Proof. unfold GDB.refresh. wkeeps. Qed.
End destroy.
#[export] Hint Resolve keeps_object_destroy_lookup keeps_destroy_lookup keeps_notify_lookup keeps_refresh_lookup : luci.

End WorldProofs.
