(* ===== verification/GraphProofs.v ===== *)
(** Theorems about the preparation of the object graph (Identity.v): the depth first traversal of the
    dependencies ends on every graph, prepares every object at most once, and dependencies first. *)
From S2P Require Import Prelude Platform Segment Symbol World Object Identity Gdb Loader Helper Samples WorldProofs.

Module GraphProofs.
Import World Object Identity WorldProofs Samples.

(** * The graph *)

Definition status_of (w : world) (o : Z) : option Status := o_status <$> objects w !! o.
Definition deps_of (w : world) (o : Z) : option (list Z) := o_dependencies <$> objects w !! o.
Definition chain_of (w : world) (i : Z) : option (list Z) := versions <$> identities w !! i.
Definition latest (w : world) (i : Z) : option Z := chain_of w i ≫= head.

(** The calls of a virtual function in a history *)
Definition calls (f : vfun) (tr : list event) : list Z :=
  omap (fun e => match e with Ev_virtual g o => if decide (g = f) then Some o else None | _ => None end) tr.

Definition same_graph (w w' : world) : Prop :=
  (forall o, deps_of w' o = deps_of w o) /\ (forall i, chain_of w' i = chain_of w i).
#[export] Instance same_graph_refl : Reflexive same_graph.
Proof. by split. Qed.
#[export] Instance same_graph_trans : Transitive same_graph.
Proof. intros w1 w2 w3 [H1 H2] [H3 H4]. split; intros; [by rewrite H3|by rewrite H4]. Qed.

(** Objects not yet visited; a visit makes them fewer. *)
Definition unvisited (w : world) : gset Z := dom (filter (fun x => o_status x.2 = STATUS_MAPPED) (objects w)).

Lemma calls_app f t1 t2 : calls f (t1 ++ t2) = calls f t1 ++ calls f t2.
Proof. unfold calls. apply omap_app. Qed.

Lemma elem_of_unvisited w o : o ∈ unvisited w <-> status_of w o = Some STATUS_MAPPED.
Proof.
  unfold unvisited, status_of. rewrite elem_of_dom. split.
  - intros [ob [Ho Hs]%map_lookup_filter_Some]. cbn in Hs. by rewrite Ho, <- Hs.
  - intros Hs. destruct (objects w !! o) as [ob|] eqn:Ho; [|done]. injection Hs as Hs. exists ob.
    by apply map_lookup_filter_Some.
Qed.

(** Status changes *)
Definition mark (s : Status) (o : Z) (w : world) : world :=
  w <| objects ::= alter (fun x => x <| o_status := s |>) o |>.
Lemma status_mark s o w x :
  status_of (mark s o w) x = if decide (x = o) then (if decide (is_Some (objects w !! o)) then Some s else None) else status_of w x.
Proof.
  unfold status_of, mark. cbn. destruct (decide (x = o)) as [->|Hne]; [|by rewrite lookup_alter_ne].
  rewrite lookup_alter_eq. by destruct (objects w !! o).
Qed.
Lemma same_graph_mark s o w : same_graph w (mark s o w).
Proof.
  split; [|done]. intros x. unfold deps_of, mark. cbn. destruct (decide (x = o)) as [->|Hne]; [|by rewrite lookup_alter_ne].
  rewrite lookup_alter_eq. by destruct (objects w !! o).
Qed.

(** What the preparation of the graph relies on: preparing one object, that is performing its relocations,
    returns, and leaves alone the graph and the status of all objects, and prepares no other object. *)
Class PreparesQuietly (ops : ObjectOps) : Prop := {
  prepare_confined o w b w' : v_prepare o w = Ok (b, w') ->
    same_graph w w' /\ (forall x, status_of w' x = status_of w x)
    /\ calls V_prepare (trace w') = calls V_prepare (trace w);
  prepare_ends o : ends (v_prepare o);
}.

Section prepare.
Context `{ObjectOps} `{!PreparesQuietly H}.

(** A traversal from [w] to [w'] that called prepare of [ps] in this order and returned [b]. *)
Record traversal (b : bool) (w w' : world) (ps : list Z) : Prop := {
  tr_calls : calls V_prepare (trace w') = calls V_prepare (trace w) ++ ps;
  tr_nodup : NoDup ps;
  tr_visited o : o ∈ ps -> status_of w o = Some STATUS_MAPPED /\ status_of w' o <> Some STATUS_MAPPED;
  tr_status o : status_of w o <> Some STATUS_MAPPED -> status_of w' o = status_of w o;
  tr_prepared o : status_of w o = Some STATUS_MAPPED -> status_of w' o = Some STATUS_PREPARED -> o ∈ ps;
  tr_complete o : b = true -> status_of w o = Some STATUS_MAPPED -> status_of w' o <> Some STATUS_PREPARING;
  tr_graph : same_graph w w';
}.

Lemma traversal_refl b w : traversal b w w [].
Proof.
  split; try done; [by rewrite app_nil_r|constructor|intros o Ho; by apply not_elem_of_nil in Ho|congruence|congruence].
Qed.

Lemma traversal_trans b w1 w2 w3 ps1 ps2 :
  traversal true w1 w2 ps1 -> traversal b w2 w3 ps2 -> traversal b w1 w3 (ps1 ++ ps2).
Proof.
  intros T1 T2. 
  assert (forall o, status_of w2 o = Some STATUS_MAPPED -> status_of w1 o = Some STATUS_MAPPED) as Hback.
  { intros o Ho. destruct (decide (status_of w1 o = Some STATUS_MAPPED)) as [|Hne]; [done|].
    by rewrite (tr_status _ _ _ _ T1 o Hne) in Ho. }
  split.
  - rewrite (tr_calls _ _ _ _ T2), (tr_calls _ _ _ _ T1). by rewrite app_assoc.
  - apply NoDup_app. split_and!; [apply T1| |apply T2].
    intros o Ho1 Ho2. apply (tr_visited _ _ _ _ T1) in Ho1 as [_ ?]. by apply (tr_visited _ _ _ _ T2) in Ho2 as [? _].
  - intros o [Ho|Ho]%elem_of_app.
    + apply (tr_visited _ _ _ _ T1) in Ho as [? Hne]. split; [done|]. by rewrite (tr_status _ _ _ _ T2 o Hne).
    + apply (tr_visited _ _ _ _ T2) in Ho as [? ?]. auto.
  - intros o Ho. rewrite (tr_status _ _ _ _ T2 o); [by apply T1|]. by rewrite (tr_status _ _ _ _ T1 o Ho).
  - intros o Ho1 Ho3. apply elem_of_app. destruct (decide (status_of w2 o = Some STATUS_MAPPED)) as [Ho2|Ho2].
    + right. by apply (tr_prepared _ _ _ _ T2).
    + left. apply (tr_prepared _ _ _ _ T1); [done|]. by rewrite <- (tr_status _ _ _ _ T2 o Ho2).
  - intros o Hb Ho1 Ho3. destruct (decide (status_of w2 o = Some STATUS_MAPPED)) as [Ho2|Ho2].
    + by apply (tr_complete _ _ _ _ T2 o Hb Ho2).
    + rewrite (tr_status _ _ _ _ T2 o Ho2) in Ho3. by apply (tr_complete _ _ _ _ T1 o eq_refl Ho1).
  - etransitivity; [apply T1|apply T2].
Qed.
Lemma traversal_unvisited b w w' ps : traversal b w w' ps -> unvisited w' ⊆ unvisited w.
Proof.
  intros T o. rewrite !elem_of_unvisited. intros Ho.
  destruct (decide (status_of w o = Some STATUS_MAPPED)) as [|Hne]; [done|]. by rewrite (tr_status _ _ _ _ T o Hne) in Ho.
Qed.

(** ** One object *)

Lemma traversal_failed w o w1 ps :
  status_of w o = Some STATUS_MAPPED -> traversal false (mark STATUS_PREPARING o w) w1 ps -> traversal false w w1 ps.
Proof.
  intros Ho T. assert (forall x, x <> o -> status_of (mark STATUS_PREPARING o w) x = status_of w x) as Hne.
  { intros x Hx. rewrite status_mark. by rewrite decide_False. }
  assert (status_of (mark STATUS_PREPARING o w) o = Some STATUS_PREPARING) as Hs.
  { rewrite status_mark, decide_True by done. unfold status_of in Ho. destruct (objects w !! o); [|done]. by rewrite decide_True. }
  destruct T as [Hc Hnd Hv Hst Hp _ Hg]. split; [exact Hc|exact Hnd| | | |done|].
  - intros x Hx. destruct (Hv x Hx) as [Hm ?]. split; [|done].
    destruct (decide (x = o)) as [->|]; [done|]. by rewrite <- Hne.
  - intros x Hx. assert (x <> o) by congruence. rewrite <- (Hne x) by done. apply Hst. by rewrite Hne.
  - intros x Hx Hx'. destruct (decide (x = o)) as [->|]; [|apply Hp; [by rewrite Hne|done]].
    rewrite Hst in Hx' by (rewrite Hs; done). congruence.
  - etransitivity; [apply same_graph_mark|exact Hg].
Qed.

Lemma traversal_node w o w1 ps b w2 :
  status_of w o = Some STATUS_MAPPED -> traversal true (mark STATUS_PREPARING o w) w1 ps ->
  prepare o w1 = Ok (b, w2) ->
  traversal b w (if b then mark STATUS_PREPARED o w2 else w2) (ps ++ [o]).
Proof.
  intros Ho T Hp. assert (forall x, x <> o -> status_of (mark STATUS_PREPARING o w) x = status_of w x) as Hne.
  { intros x Hx. rewrite status_mark. by rewrite decide_False. }
  assert (status_of (mark STATUS_PREPARING o w) o = Some STATUS_PREPARING) as Hs.
  { rewrite status_mark, decide_True by done. unfold status_of in Ho. destruct (objects w !! o); [|done]. by rewrite decide_True. }
  pose proof (tr_status _ _ _ _ T o ltac:(by rewrite Hs)) as Hs1. rewrite Hs in Hs1.
  unfold prepare in Hp. wsplit. apply prepare_confined in Hp as (Hg & Hst & Hc).
  assert (calls V_prepare (trace w2) = calls V_prepare (trace w1) ++ [o]) as Hc' by (rewrite Hc; apply calls_app).
  assert (forall x, status_of w2 x = status_of w1 x) as Hst' by (intros x; exact (Hst x)).
  assert (same_graph w w2) as Hg'.
  { etransitivity; [apply same_graph_mark|]. etransitivity; [apply T|exact Hg]. }
  clear Hg Hst Hc. set (w3 := if b then mark STATUS_PREPARED o w2 else w2).
  assert (forall x, x <> o -> status_of w3 x = status_of w1 x) as Hne3.
  { intros x Hx. unfold w3. destruct b; [rewrite status_mark, decide_False by done|]; apply Hst'. }
  assert (status_of w3 o = Some (if b then STATUS_PREPARED else STATUS_PREPARING)) as Hs3.
  { unfold w3. rewrite <- Hst' in Hs1. destruct b; [|done]. rewrite status_mark, decide_True by done.
    unfold status_of in Hs1. destruct (objects w2 !! o); [|done]. by rewrite decide_True. }
  destruct T as [Hc Hnd Hv Hst Hp Hcp Hg]. split.
  - replace (trace w3) with (trace w2) by (unfold w3; by destruct b). by rewrite Hc', Hc, app_assoc.
  - apply NoDup_app. split_and!; [done| |apply NoDup_singleton].
    intros x Hx ->%list_elem_of_singleton. apply Hv in Hx as [Hx _]. congruence.
  - intros x [Hx| ->%list_elem_of_singleton]%elem_of_app; [|split; [done|rewrite Hs3; by destruct b]].
    pose proof (Hv x Hx) as [Hm Hm1]. assert (x <> o) by congruence. by rewrite <- (Hne x), Hne3.
  - intros x Hx. assert (x <> o) by congruence. rewrite Hne3, <- (Hne x) by done. apply Hst. by rewrite Hne.
  - intros x Hx Hx'. apply elem_of_app. destruct (decide (x = o)) as [->|Hxo]; [right; by apply list_elem_of_singleton|left].
    rewrite Hne3 in Hx' by done. apply Hp; [by rewrite Hne|done].
  - intros x -> Hx. destruct (decide (x = o)) as [->|Hxo]; [by rewrite Hs3|].
    rewrite Hne3 by done. apply Hcp; [done|by rewrite Hne].
  - etransitivity; [exact Hg'|]. unfold w3. destruct b; [apply same_graph_mark|done].
Qed.

(** ** The traversal *)

(** One call: nothing to do, a dependency failed, or the object itself was prepared. *)
Lemma id_prepare_inv fuel i w b w' :
  id_prepare (S fuel) i w = Ok (b, w') ->
  exists o, latest w i = Some o /\
    ((is_Some (status_of w o) /\ status_of w o <> Some STATUS_MAPPED /\ b = true /\ w' = w)
     \/ exists deps b1 w1,
         status_of w o = Some STATUS_MAPPED /\ deps_of w o = Some deps
         /\ all_until (id_prepare fuel) deps (mark STATUS_PREPARING o w) = Ok (b1, w1)
         /\ ((b1 = false /\ b = false /\ w' = w1)
             \/ (b1 = true /\ exists w2, prepare o w1 = Ok (b, w2) /\ w' = if b then mark STATUS_PREPARED o w2 else w2))).
Proof.
  intros Hr. cbn [id_prepare] in Hr. wsplit. branch Hr; [|done]. rename z into o. exists o. split.
  { unfold latest, chain_of. by rewrite Hid. }
  unfold status_of, deps_of. rewrite Hob. cbn.
  destruct (o_status x0) eqn:Hst; wsplit; [right|left; by eauto..].
  exists (o_dependencies x0), x2, s0. split_and!; try done. branch Hr; [left; by destruct x2|right].
  split; [by destruct x2|]. branch Hr; eexists; split; done.
Qed.

Lemma all_until_traversal (f : Z -> M world bool) l w b w' :
  (forall i w b w', f i w = Ok (b, w') -> exists ps, traversal b w w' ps) ->
  all_until f l w = Ok (b, w') -> exists ps, traversal b w w' ps.
Proof.
  intros Hf. revert w; induction l as [|i l IH]; intros w Hr; cbn in Hr; wsplit; [eexists; apply traversal_refl|].
  apply Hf in Hm as [ps1 T1]. branch Hr; [|by eexists].
  apply IH in Hr as [ps2 T2]. eexists. by eapply traversal_trans.
Qed.

Lemma id_prepare_traversal fuel i w b w' :
  id_prepare fuel i w = Ok (b, w') -> exists ps, traversal b w w' ps.
Proof.
  revert i w b w'; induction fuel as [|fuel IH]; intros i w b w' Hr; [done|].
  apply id_prepare_inv in Hr as (o & Ho & [(_ & _ & -> & ->)|(deps & b1 & w1 & Hs & Hd & Hr & Hb)]).
  { eexists. apply traversal_refl. }
  apply all_until_traversal in Hr as [ps T]; [|exact IH].
  destruct Hb as [(-> & -> & ->)|(-> & w2 & Hp & ->)].
  - eexists. by eapply traversal_failed.
  - eexists. by eapply traversal_node.
Qed.

(** ** Fuel *)

Lemma all_until_fuel n (f : Z -> M world bool) l w :
  (forall i w, (size (unvisited w) < n)%nat -> f i w <> OutOfFuel) ->
  (forall i w b w', f i w = Ok (b, w') -> exists ps, traversal b w w' ps) ->
  (size (unvisited w) < n)%nat -> all_until f l w <> OutOfFuel.
Proof.
  intros Hf Ht. revert w; induction l as [|i l IH]; intros w Hw; [done|]. cbn [all_until].
  intros [Hr|([] & w1 & Hr & Hn)]%bind_OutOfFuel; [by apply (Hf i w)| |done].
  apply Ht in Hr as [ps T]. apply (IH w1); [|done].
  pose proof (subseteq_size _ _ (traversal_unvisited _ _ _ _ T)). lia.
Qed.

Lemma unvisited_mark w o s :
  status_of w o = Some STATUS_MAPPED -> s <> STATUS_MAPPED -> (size (unvisited (mark s o w)) < size (unvisited w))%nat.
Proof.
  intros Ho Hs. apply subset_size. split.
  - intros x. rewrite !elem_of_unvisited, status_mark. case_decide; [case_decide; congruence|done].
  - intros Hsub. assert (o ∈ unvisited (mark s o w)) as Hin by (apply Hsub; by apply elem_of_unvisited).
    rewrite elem_of_unvisited, status_mark, decide_True in Hin by done. case_decide; congruence.
Qed.

Lemma id_prepare_fuel fuel i w : (size (unvisited w) < fuel)%nat -> id_prepare fuel i w <> OutOfFuel.
Proof.
  revert i w; induction fuel as [|fuel IH]; intros i w Hw; [lia|]. cbn [id_prepare].
  intros [Hr|(id & w1 & [_ ->]%get_identity_Ok & Hr)]%bind_OutOfFuel.
  { unfold get_identity in Hr. by destruct (identities w !! i). }
  destruct (current id) as [o|]; [|done].
  apply bind_OutOfFuel in Hr as [Hr|(ob & w1 & [Hob ->]%get_object_Ok & Hr)].
  { unfold get_object in Hr. by destruct (objects w !! o). }
  destruct (o_status ob) eqn:Hst; try done.
  apply bind_OutOfFuel in Hr as [Hr|([] & w1 & Hm & Hr)]; [done|].
  assert (w1 = mark STATUS_PREPARING o w) as -> by (unfold set_object, modify in Hm; by injection Hm as <-).
  apply bind_OutOfFuel in Hr as [Hr|([] & w2 & Ha & Hr)]; [|cbn in Hr|done].
  - revert Hr. apply (all_until_fuel fuel); [exact IH|intros; by eapply id_prepare_traversal|].
    assert (status_of w o = Some STATUS_MAPPED) by (unfold status_of; by rewrite Hob, <- Hst).
    pose proof (unvisited_mark w o STATUS_PREPARING). naive_solver lia.
  - apply bind_OutOfFuel in Hr as [Hr|([] & w3 & Hp & Hr)]; [|done..].
    unfold prepare in Hr. apply bind_OutOfFuel in Hr as [Hr|([] & w3 & _ & Hr)]; [done|]. by apply prepare_ends in Hr.
Qed.

(** C17: Preparing the object graph ends and is done once.  On every graph, cyclic or not, fuel for as many
    nested calls as there are objects not yet prepared is enough; the objects whose relocations are
    performed are pairwise different, had not been prepared before and are not to be prepared any more;
    all other objects and all dependencies are as before; when the call succeeds no object it reached
    is left half prepared. *)
Theorem prepare_terminates_once fuel i w :
  (size (unvisited w) < fuel)%nat ->
  id_prepare fuel i w <> OutOfFuel
  /\ forall b w', id_prepare fuel i w = Ok (b, w') -> exists ps, traversal b w w' ps.
Proof.
  intros Hw. split; [by apply id_prepare_fuel|]. intros b w' Hr. by eapply id_prepare_traversal.
Qed.

(** ** Order *)

Section order.
Context (rank : Z -> nat).

(** The dependencies of an object have a smaller rank: the graph has no cycle. *)
Definition acyclic (w : world) : Prop :=
  forall o deps d c, deps_of w o = Some deps -> d ∈ deps -> latest w d = Some c -> (rank c < rank o)%nat.
(** Only objects above [n] are being prepared. *)
Definition preparing_above (n : nat) (w : world) : Prop :=
  forall o, status_of w o = Some STATUS_PREPARING -> (n <= rank o)%nat.
(** Everything prepared had its dependencies prepared before. *)
Definition ordered (w : world) (ps : list Z) : Prop :=
  forall k o deps d c, ps !! k = Some o -> deps_of w o = Some deps -> d ∈ deps -> latest w d = Some c ->
    status_of w c = Some STATUS_PREPARED \/ c ∈ take k ps.

Lemma same_graph_latest w w' d : same_graph w w' -> latest w' d = latest w d.
Proof. intros [_ Hc]. unfold latest. by rewrite Hc. Qed.
Lemma acyclic_same w w' : same_graph w w' -> acyclic w -> acyclic w'.
Proof.
  intros Hg Ha o deps d c Hd Hin Hl. rewrite (same_graph_latest _ _ _ Hg) in Hl. rewrite (proj1 Hg) in Hd. by eapply Ha.
Qed.
Lemma traversal_prepared w w' ps c :
  traversal true w w' ps -> status_of w' c = Some STATUS_PREPARED -> status_of w c = Some STATUS_PREPARED \/ c ∈ ps.
Proof.
  intros T Hc. destruct (decide (status_of w c = Some STATUS_MAPPED)) as [Hm|Hm].
  - right. by apply (tr_prepared _ _ _ _ T).
  - left. by rewrite <- (tr_status _ _ _ _ T c Hm).
Qed.

Lemma ordered_app b w w1 w2 ps1 ps2 :
  traversal true w w1 ps1 -> traversal b w1 w2 ps2 -> ordered w ps1 -> ordered w1 ps2 -> ordered w (ps1 ++ ps2).
Proof.
  intros T1 T2 O1 O2 k o deps d c Hk Hd Hin Hl. apply lookup_app_Some in Hk as [Hk|[Hlen Hk]].
  - destruct (O1 k o deps d c Hk Hd Hin Hl) as [|Hc]; [by left|right].
    rewrite take_app_le; [done|]. apply lookup_lt_Some in Hk. lia.
  - pose proof (tr_graph _ _ _ _ T1) as Hg.
    destruct (O2 (k - length ps1)%nat o deps d c Hk) as [Hc|Hc];
      [by rewrite (proj1 Hg)|done|by rewrite (same_graph_latest _ _ _ Hg)| |].
    + apply (traversal_prepared _ _ _ _ T1) in Hc as [|Hc]; [by left|right].
      rewrite take_app_ge by done. apply elem_of_app. by left.
    + right. rewrite take_app_ge by done. apply elem_of_app. by right.
Qed.

Definition visit_spec (f : Z -> M world bool) : Prop := forall i w b w' c,
  f i w = Ok (b, w') -> acyclic w -> latest w i = Some c -> preparing_above (S (rank c)) w ->
  exists ps, traversal b w w' ps /\ ordered w ps /\ (b = true -> status_of w' c = Some STATUS_PREPARED).

Lemma all_until_order f l w b w' n :
  visit_spec f -> (forall i w b w', f i w = Ok (b, w') -> is_Some (latest w i)) ->
  all_until f l w = Ok (b, w') -> acyclic w -> preparing_above n w ->
  (forall d c, d ∈ l -> latest w d = Some c -> (rank c < n)%nat) ->
  exists ps, traversal b w w' ps /\ ordered w ps
    /\ (b = true -> forall d c, d ∈ l -> latest w d = Some c -> status_of w' c = Some STATUS_PREPARED).
Proof.
  intros Hf Hl. revert w; induction l as [|i l IH]; intros w Hr Ha Hp Hd; cbn in Hr; wsplit.
  { exists []. split; [apply traversal_refl|]. split; [by intros k o ? ? ? ?|]. intros _ d c Hin. by apply not_elem_of_nil in Hin. }
  destruct (Hl _ _ _ _ Hm) as [c Hc].
  assert (rank c < n)%nat as Hcn by (apply (Hd i); [left|done]).
  destruct (Hf i w x s c Hm Ha Hc) as (ps1 & T1 & O1 & S1); [intros o Ho; apply Hp in Ho; lia|].
  branch Hr; [|by exists ps1].
  pose proof (tr_graph _ _ _ _ T1) as Hg.
  destruct (IH s Hr) as (ps2 & T2 & O2 & S2).
  - by eapply acyclic_same.
  - intros o Ho. destruct (decide (status_of w o = Some STATUS_MAPPED)) as [Hmo|Hmo].
    + by apply (tr_complete _ _ _ _ T1 o eq_refl Hmo) in Ho.
    + apply Hp. by rewrite <- (tr_status _ _ _ _ T1 o Hmo).
  - intros d c' Hin Hc'. rewrite (same_graph_latest _ _ _ Hg) in Hc'. apply (Hd d); [by right|done].
  - exists (ps1 ++ ps2). split; [by eapply traversal_trans|]. split; [by eapply ordered_app|].
    intros -> d c' [->|Hin]%elem_of_cons Hc'.
    + assert (c' = c) as -> by congruence. rewrite (tr_status _ _ _ _ T2); [by apply S1|]. by rewrite S1.
    + apply (S2 eq_refl d); [done|]. by rewrite (same_graph_latest _ _ _ Hg).
Qed.

Lemma id_prepare_latest fuel i w b w' : id_prepare fuel i w = Ok (b, w') -> is_Some (latest w i).
Proof. destruct fuel as [|fuel]; [done|]. intros (o & Ho & _)%id_prepare_inv. by exists o. Qed.

Lemma preparing_above_mark w c :
  preparing_above (S (rank c)) w -> preparing_above (rank c) (mark STATUS_PREPARING c w).
Proof.
  intros Hp o. rewrite status_mark. case_decide as Ho; [by subst|]. intros Hs. apply Hp in Hs. lia.
Qed.

Lemma ordered_mark w c s ps :
  status_of w c = Some STATUS_MAPPED -> s <> STATUS_PREPARED -> ordered (mark s c w) ps -> ordered w ps.
Proof.
  intros Hc Hs O k o deps d c' Hk Hd Hin Hl.
  pose proof (same_graph_mark s c w) as Hg.
  destruct (O k o deps d c' Hk) as [H1|]; [by rewrite (proj1 Hg)|done|by rewrite (same_graph_latest _ _ _ Hg)| |by right].
  left. rewrite status_mark in H1. case_decide; [case_decide; congruence|done].
Qed.

Lemma ordered_snoc w w1 ps o deps :
  ordered w ps -> traversal true (mark STATUS_PREPARING o w) w1 ps -> status_of w o = Some STATUS_MAPPED ->
  deps_of w o = Some deps -> acyclic w ->
  (forall d c, d ∈ deps -> latest w d = Some c -> status_of w1 c = Some STATUS_PREPARED) ->
  ordered w (ps ++ [o]).
Proof.
  intros O T Ho Hd Ha S k x deps' d c Hk Hdx Hin Hl. apply lookup_app_Some in Hk as [Hk|[Hlen Hk]].
  - destruct (O k x deps' d c Hk Hdx Hin Hl) as [|Hc]; [by left|right].
    rewrite take_app_le; [done|]. apply lookup_lt_Some in Hk. lia.
  - apply list_lookup_singleton_Some in Hk as [Hk ->]. replace k with (length ps) by lia.
    rewrite take_app_length. assert (deps' = deps) as -> by congruence.
    destruct (traversal_prepared _ _ _ c T (S d c Hin Hl)) as [Hc|]; [left|by right].
    rewrite status_mark in Hc. case_decide as Hco; [|done]. subst c. pose proof (Ha _ _ _ _ Hd Hin Hl). lia.
Qed.

Lemma id_prepare_order fuel : visit_spec (id_prepare fuel).
Proof.
  induction fuel as [|fuel IH]; intros i w b w' c Hr Ha Hc Hp; [done|].
  apply id_prepare_inv in Hr as (o & Ho & Hr). assert (o = c) as -> by congruence. clear Ho.
  destruct Hr as [(Hsome & Hs & -> & ->)|(deps & b1 & w1 & Hs & Hd & Hr & Hb)].
  { exists []. split; [apply traversal_refl|]. split; [by intros k o ? ? ? ?|]. intros _.
    destruct Hsome as [[] Hs']; [congruence| |done]. apply Hp in Hs'. lia. }
  pose proof (same_graph_mark STATUS_PREPARING c w) as Hg.
  apply (all_until_order _ _ _ _ _ (rank c)) in Hr as (ps & T & O & S);
    [|done|by eapply id_prepare_latest|by eapply acyclic_same|by apply preparing_above_mark|].
  2: { intros d c' Hin Hl. rewrite (same_graph_latest _ _ _ Hg) in Hl. by eapply Ha. }
  apply ordered_mark in O; [|done..].
  destruct Hb as [(-> & -> & ->)|(-> & w2 & Hpr & ->)].
  - exists ps. split; [by eapply traversal_failed|]. by split.
  - pose proof (traversal_node _ _ _ _ _ _ Hs T Hpr) as T2. exists (ps ++ [c]). split; [done|]. split.
    + eapply ordered_snoc; [done..|]. intros d c' Hin Hl. apply (S eq_refl d); [done|].
      by rewrite (same_graph_latest _ _ _ Hg).
    + intros ->. assert (status_of w2 c = Some STATUS_PREPARING) as Hs2.
      { unfold prepare in Hpr. wsplit. apply prepare_confined in Hpr as (_ & Hst & _). rewrite Hst.
        assert (status_of (mark STATUS_PREPARING c w) c = Some STATUS_PREPARING) as Hc1.
        { rewrite status_mark, decide_True by done. unfold status_of in Hs. destruct (objects w !! c); [|done].
          by rewrite decide_True. }
        rewrite <- Hc1. apply (tr_status _ _ _ _ T). by rewrite Hc1. }
      rewrite status_mark, decide_True by done. unfold status_of in Hs2. destruct (objects w2 !! c); [|done].
      by rewrite decide_True.
Qed.

(** C18: Dependencies first.  In a graph without cycles (a rank grows from a dependency to what depends on
    it) a successful preparation of an identity leaves its current object prepared, and the objects it
    prepares are in topological order: when an object's relocations are performed, the current object
    of each of its dependencies is prepared, before this call or earlier in it. *)
Theorem prepare_dependencies_first fuel i w w' c :
  id_prepare fuel i w = Ok (true, w') -> acyclic w -> latest w i = Some c ->
  (forall o, status_of w o <> Some STATUS_PREPARING) ->
  exists ps, calls V_prepare (trace w') = calls V_prepare (trace w) ++ ps
    /\ ordered w ps /\ status_of w' c = Some STATUS_PREPARED.
Proof.
  intros Hr Ha Hl Hp. destruct (id_prepare_order fuel i w true w' c Hr Ha Hl) as (ps & T & O & S).
  { intros o Ho. by apply Hp in Ho. }
  exists ps. split; [apply T|]. split; [done|]. by apply S.
Qed.
End order.
End prepare.

(** * Examples *)

Definition ex_quiet : ObjectOps := ex_ops [] true false.

#[export] Instance ex_quiet_quiet : PreparesQuietly ex_quiet.
Proof. split; [by intros o w b w' [= <- <-]|done]. Qed.

(** The two objects of the sample world depend on each other. *)
Lemma prepare_terminates_once_witness :
  exists w' ps, id_prepare (H0 := ex_quiet) 10 1 (ex_world ex_config) = Ok (true, w')
    /\ traversal true (ex_world ex_config) w' ps /\ calls V_prepare (trace w') = [12; 11].
Proof.
  eexists. destruct (prepare_terminates_once (H := ex_quiet) 10 1 (ex_world ex_config)) as [_ Ht];
    [vm_compute; lia|].
  destruct (Ht true _ ltac:(vm_compute; reflexivity)) as [ps T].
  exists ps. split; [vm_compute; reflexivity|]. split; [exact T|vm_compute; reflexivity].
Defined.

(** The same objects, when 12 does not depend on 1 *)
Definition ex_acyclic : world :=
  (ex_world ex_config) <| objects ::= <[12 := ex_object 2 [] [ex_segment 0x600000000000 0x3000]]> |>.

Lemma ex_acyclic_acyclic : acyclic (fun o => if o =? 11 then 1%nat else 0%nat) ex_acyclic.
Proof.
  intros o deps d c Hd Hin Hl.
  assert (o = 11 /\ deps = [2] \/ deps = []) as [[-> ->]| ->].
  { unfold deps_of in Hd. destruct (objects ex_acyclic !! o) as [ob|] eqn:Ho; [|done].
    apply elem_of_map_to_list in Ho. vm_compute in Ho. set_unfold in Ho. naive_solver. }
  - apply list_elem_of_singleton in Hin as ->. vm_compute in Hl. injection Hl as <-. vm_compute. lia.
  - by apply not_elem_of_nil in Hin.
Qed.

Lemma prepare_dependencies_first_witness :
  exists w' ps, id_prepare (H0 := ex_quiet) 10 1 ex_acyclic = Ok (true, w')
    /\ calls V_prepare (trace w') = ps /\ ordered ex_acyclic ps /\ status_of w' 11 = Some STATUS_PREPARED.
Proof.
  eexists. destruct (prepare_dependencies_first (H := ex_quiet) (fun o => if o =? 11 then 1%nat else 0%nat) 10 1
    ex_acyclic _ 11 ltac:(vm_compute; reflexivity)) as (ps & Hc & O & S).
  - exact ex_acyclic_acyclic.
  - vm_compute; reflexivity.
  - intros o. unfold status_of. destruct (objects ex_acyclic !! o) as [ob|] eqn:Ho; [|done].
    apply elem_of_map_to_list in Ho. vm_compute in Ho. set_unfold in Ho. naive_solver.
  - exists ps. split; [vm_compute; reflexivity|]. split; [exact Hc|]. split; [exact O|exact S].
Defined.
End GraphProofs.
