(* ===== verification/FrameProofs.v ===== *)
(** What relocating an object leaves alone: the frame of the code that writes relocations
    (Dynamic.v, Relocatable.v). *)
From S2P Require Import Prelude Platform Segment Symbol Tls World Object Identity Gdb Loader Helper Executable Dynamic Relocatable Samples WorldProofs.

Module FrameProofs.
Import World Object WorldProofs.

(** * The frame *)

(** The calls of virtual functions in a history *)
Definition virtuals (tr : list event) : list (vfun * Z) :=
  omap (fun e => match e with Ev_virtual f o => Some (f, o) | _ => None end) tr.

(** What does not change: of a segment its place and requested protection, of an object everything but
    the state of its segments, the symbols its relocations refer to and the place of its exception frames, of an identity everything but
    the values it remembers. *)
Definition erase_segment (s : segment) : segment :=
  MemorySegment.Segment (MemorySegment.src_offset s) (MemorySegment.src_size s) (MemorySegment.base s)
    (MemorySegment.offset s) (MemorySegment.size s) (MemorySegment.protection s) 0 (-1) 0 (MemorySegment.relro s)
    MemorySegment.MEMSEG_NOT_MAPPED 0.
Definition erase_object (ob : Object) : Object :=
  ob <| o_memory_map ::= fmap erase_segment |> <| o_dyn ::= fun d => d <| relocations := [] |> <| eh_frame := 0 |> |>.
Definition erase_identity (i : ObjectIdentity) : ObjectIdentity := i <| datarel_content := ∅ |>.

Record frame (w w' : world) : Prop := {
  f_objects : erase_object <$> objects w' = erase_object <$> objects w;
  f_identities : erase_identity <$> identities w' = erase_identity <$> identities w;
  f_loader : loader w' = loader w;
  f_virtuals : virtuals (trace w') = virtuals (trace w);
  f_next : next_id w' = next_id w;
}.
#[export] Instance frame_refl : Reflexive frame.
Proof. done. Qed.
#[export] Instance frame_trans : Transitive frame.
Proof. intros w1 w2 w3 [] []. split; congruence. Qed.

Lemma virtuals_app t1 t2 : virtuals (t1 ++ t2) = virtuals t1 ++ virtuals t2.
Proof. unfold virtuals. apply omap_app. Qed.

Lemma fmap_alter_same {A B} (g : A -> B) (f : A -> A) (k : Z) (m : gmap Z A) :
  (forall x, g (f x) = g x) -> g <$> alter f k m = g <$> m.
Proof.
  intros Hf. apply map_eq. intros i. rewrite !lookup_fmap. destruct (decide (i = k)) as [->|Hne].
  - rewrite lookup_alter_eq. destruct (m !! k); cbn; [by rewrite Hf|done].
  - by rewrite lookup_alter_ne.
Qed.

(** ** The primitive operations *)

Section access.
Context (w0 : world).
Abbreviation framed := (frame w0).

Lemma framed_set_object o f : (forall x, erase_object (f x) = erase_object x) -> keeps framed (set_object o f).
Proof.
  intros Hf. apply keeps_modify. intros w []. split; cbn; try done. rewrite <- f_objects0. by apply fmap_alter_same.
Qed.
Lemma framed_set_identity i f : (forall x, erase_identity (f x) = erase_identity x) -> keeps framed (set_identity i f).
Proof.
  intros Hf. apply keeps_modify. intros w []. split; cbn; try done. rewrite <- f_identities0. by apply fmap_alter_same.
Qed.
Lemma framed_emit e : virtuals [e] = [] -> keeps framed (emit e).
Proof. intros He. apply keeps_modify. intros w []. split; cbn; try done. by rewrite virtuals_app, He, app_nil_r. Qed.
End access.

(** ** Segments *)

Section segment.
Context `{DlhMath} (kernel : kernel_t) (hex : Z -> string).
Context (e : segment) (v : list (vfun * Z)).
Abbreviation placed := (fun t => erase_segment (t_state t) = e /\ virtuals (t_trace t) = v).

Lemma placed_sys c : keeps placed (sys kernel c).
Proof.
  intros t r t' [He Hv]. unfold sys. intros [_ <-]%Ok_inj. cbn. split; [done|]. by rewrite virtuals_app, app_nil_r.
Qed.
Lemma placed_copy dst src len : keeps placed (mem_copy dst src len).
Proof.
  intros t r t' [He Hv]. unfold mem_copy. intros [_ <-]%Ok_inj. cbn. split; [done|]. by rewrite virtuals_app, app_nil_r.
Qed.
Lemma placed_st : keeps placed st.
Proof. intros t r t' Ht. by intros [_ <-]%Ok_inj. Qed.
Lemma placed_upd f : (forall s, erase_segment (f s) = erase_segment s) -> keeps placed (upd f).
Proof. intros Hf t r t' [He Hv]. unfold upd. intros [_ <-]%Ok_inj. cbn. by rewrite Hf. Qed.

Ltac placed_step :=
  first [ apply placed_sys | apply placed_copy | apply placed_st | apply placed_upd; intros; done | keeps_step ].

Lemma placed_map o : keeps placed (MemorySegment.map hex kernel o).
Proof. unfold MemorySegment.map, MemorySegment.shmemfd. repeat placed_step. Qed.
Lemma placed_compose o : keeps placed (MemorySegment.compose hex kernel o).
Proof. unfold MemorySegment.compose. repeat (apply placed_map || placed_step). Qed.
Lemma placed_finalize force : keeps placed (MemorySegment.finalize kernel force).
Proof. unfold MemorySegment.finalize. repeat placed_step. Qed.
End segment.

(** An operation of a segment of an object *)
Lemma framed_on_segment {A} w0 o k (f : _ -> M (traced segment) A) :
  (forall e v c, keeps (fun t => erase_segment (t_state t) = e /\ virtuals (t_trace t) = v) (f c)) ->
  keeps (frame w0) (on_segment o k f).
Proof.
  intros Hf w a w' Hw Hr. unfold on_segment in Hr. destruct (objects w !! o) as [ob|] eqn:Ho; [|done].
  destruct (identities w !! o_file ob) as [id|] eqn:Hid; [|done]. destruct (o_memory_map ob !! k) as [s|] eqn:Hs; [|done].
  destruct (f _ _) as [[c t]| |] eqn:Hc; [|done..]. apply Ok_inj in Hr as [_ <-].
  apply (Hf (erase_segment s) (virtuals (trace w))) in Hc as [He Hv]; [|done].
  destruct Hw as [Ho0 Hi0 Hl0 Hv0 Hn0]. split; cbn; [|done..|by etransitivity|done].
  rewrite <- Ho0. apply map_eq. intros x. rewrite !lookup_fmap. destruct (decide (x = o)) as [->|Hne]; [|by rewrite lookup_insert_ne].
  rewrite lookup_insert_eq, Ho. cbn. f_equal. unfold erase_object. cbn. f_equal.
  rewrite list_fmap_insert, He. apply list_insert_id. by rewrite list_lookup_fmap, Hs.
Qed.
Lemma framed_compose `{DlhMath} kernel hex w0 o k : keeps (frame w0) (on_segment o k (MemorySegment.compose hex kernel)).
Proof. apply framed_on_segment. intros. apply placed_compose. Qed.

(** ** Relocation and preparation *)

Section dynamic.
Context `{DlhMath} (kernel : kernel_t) `{ObjectOps} `{Env} `{Symbol.StringOps} `{Executable.ElfSegments}
  `{Dynamic.ElfTables} `{Dynamic.RelocatorOps} `{Dynamic.DynEnv}.
Context (w0 : world).
Abbreviation framed := (frame w0).

Ltac frame_step :=
  first
    [ apply keeps_get_identity | apply keeps_get_object | apply framed_compose
    | apply framed_emit; done | apply framed_set_identity; intros; done | apply framed_set_object; intros; done
    | keeps_step ].
Ltac solve_frame := repeat frame_step.

Lemma framed_fix_value o r seg key value : keeps framed (Dynamic.fix_value kernel o r seg key value).
Proof. unfold Dynamic.fix_value, Dynamic.write_base. solve_frame. Qed.
Lemma framed_relocate_symbol o ob id r : keeps framed (Dynamic.relocate_symbol o ob id r).
Proof. unfold Dynamic.relocate_symbol. solve_frame. Qed.
Lemma framed_datarel_key o ob seg a : keeps framed (Dynamic.datarel_key o ob seg a).
Proof. unfold Dynamic.datarel_key, get_config, is_latest_version. solve_frame. Qed.
Lemma framed_relocate_value o ob id r f seg key : keeps framed (Dynamic.relocate_value kernel o ob id r f seg key).
Proof.
  unfold Dynamic.relocate_value, Dynamic.set_dyn.
  repeat (apply framed_fix_value || apply framed_relocate_symbol || frame_step).
Qed.
Lemma framed_relocate o r f : keeps framed (Dynamic.relocate kernel o r f).
Proof.
  unfold Dynamic.relocate. repeat (apply framed_datarel_key || apply framed_relocate_value || frame_step).
Qed.
Lemma framed_relocate_all o rs error : keeps framed (Dynamic.relocate_all kernel o rs error).
Proof.
  revert error. induction rs as [|r rs IH]; intros error; cbn; [apply keeps_ret|].
  repeat (apply framed_relocate || apply IH || frame_step).
Qed.
Lemma framed_update_relocations o rs : keeps framed (Dynamic.update_relocations kernel o rs).
Proof.
  induction rs as [|[r s] rs IH]; cbn; [apply keeps_ret|]. unfold is_latest_version.
  repeat (apply framed_relocate || apply IH || frame_step).
Qed.

(** Preparing a dynamic object is confined to its relocations. *)
Lemma framed_prepare o : keeps framed (Dynamic.prepare kernel o).
Proof. unfold Dynamic.prepare. repeat (apply framed_relocate_all || frame_step). Qed.
End dynamic.

(** *** Relocatable objects; trampolines are not part of the objects *)

Section relocatable.
Context `{DlhMath} `{ObjectOps} `{Env} `{Symbol.StringOps} `{Dynamic.ElfTables} `{Dynamic.RelocatorOps}
  `{Dynamic.DynEnv} `{Relocatable.RelEnv}.
Context (w0 : world) (framed_trampoline : forall s, keeps (frame w0) (Relocatable.trampoline_set s)).
Abbreviation framed := (frame w0).

Ltac frame_step :=
  first
    [ apply keeps_get_identity | apply keeps_get_object | apply framed_trampoline
    | apply framed_emit; done | apply framed_set_identity; intros; done | apply framed_set_object; intros; done
    | keeps_step ].

Lemma framed_store_all a bs : keeps framed (Relocatable.store_all a bs).
Proof. revert a. induction bs as [|b bs IH]; intros a; cbn; repeat (apply IH || frame_step). Qed.
Lemma framed_relax base r : keeps framed (Relocatable.relax_instruction base r).
Proof. unfold Relocatable.relax_instruction. repeat (apply framed_store_all || frame_step). Qed.
Lemma framed_insert o r s : keeps framed (Relocatable.insert_relocation o r s).
Proof. unfold Relocatable.insert_relocation, Dynamic.set_dyn. repeat frame_step. Qed.
Lemma framed_fix_reloc r b v : keeps framed (Relocatable.fix_reloc r b v).
Proof. unfold Relocatable.fix_reloc. repeat frame_step. Qed.
Lemma framed_relocate_local o ob id r s p : keeps framed (Relocatable.relocate_local o ob id r s p).
Proof.
  unfold Relocatable.relocate_local, is_latest_version.
  repeat (apply framed_insert || apply framed_fix_reloc || frame_step).
Qed.
Lemma framed_rel_relocate o r p : keeps framed (Relocatable.relocate o r p).
Proof.
  unfold Relocatable.relocate, Relocatable.call_ifunc, Relocatable.external_value.
  repeat (apply framed_relax || apply framed_insert || apply framed_fix_reloc || apply framed_relocate_local || frame_step).
Qed.
Lemma framed_relocate_first o rs : keeps framed (Relocatable.relocate_first o rs).
Proof. induction rs as [|r rs IH]; cbn; repeat (apply framed_rel_relocate || apply IH || frame_step). Qed.
Lemma framed_relocate_postponed o rs : keeps framed (Relocatable.relocate_postponed o rs).
Proof. induction rs as [|r rs IH]; cbn; repeat (apply framed_rel_relocate || apply IH || frame_step). Qed.
Lemma framed_rel_prepare o : keeps framed (Relocatable.prepare o).
Proof.
  unfold Relocatable.prepare, Relocatable.get_rel, Relocatable.write_eh_header, Dynamic.set_dyn.
  repeat (apply framed_relocate_first || apply framed_relocate_postponed || apply framed_store_all || frame_step).
Qed.
End relocatable.

(** ** What the frame gives *)

Lemma frame_object w w' o : frame w w' -> erase_object <$> (objects w' !! o) = erase_object <$> (objects w !! o).
Proof. intros Hf. by rewrite <- !lookup_fmap, (f_objects _ _ Hf). Qed.
Lemma frame_identity w w' i : frame w w' -> erase_identity <$> (identities w' !! i) = erase_identity <$> (identities w !! i).
Proof. intros Hf. by rewrite <- !lookup_fmap, (f_identities _ _ Hf). Qed.

(** Fields that are not erased are the same on both sides. *)
Lemma frame_object_field {A} (f : Object -> A) w w' o :
  frame w w' -> (forall x, f (erase_object x) = f x) -> f <$> (objects w' !! o) = f <$> (objects w !! o).
Proof.
  intros Hf He. pose proof (frame_object _ _ o Hf) as Ho. apply (f_equal (fmap f)) in Ho.
  rewrite <- !option_fmap_compose in Ho. unfold compose in Ho.
  destruct (objects w' !! o), (objects w !! o); cbn in *; try done. by rewrite !He in Ho.
Qed.
Lemma frame_identity_field {A} (f : ObjectIdentity -> A) w w' i :
  frame w w' -> (forall x, f (erase_identity x) = f x) -> f <$> (identities w' !! i) = f <$> (identities w !! i).
Proof.
  intros Hf He. pose proof (frame_identity _ _ i Hf) as Ho. apply (f_equal (fmap f)) in Ho.
  destruct (identities w' !! i), (identities w !! i); cbn in *; try done. by rewrite !He in Ho.
Qed.
End FrameProofs.
