(* ===== verification/PhaseProofs.v ===== *)
(** Theorems about the phases of relocation (Loader::relocate in src/src/loader.cpp): everything that is loaded gets its
    last segments before any relocation is performed, all relocations are performed before an update,
    and the memory gets its final protection last. *)
From S2P Require Import Prelude Platform Segment Symbol World Object Identity Gdb Loader Helper Samples WorldProofs GraphProofs FrameProofs.

Module PhaseProofs.
Import World Object Identity Loader WorldProofs GraphProofs FrameProofs Samples.

(** * What a piece of code ran *)

(** From [w] to [w'] the virtual functions [l] were called; the graph and the list of libraries are as before. *)
Record ran (l : list (vfun * Z)) (w w' : world) : Prop := {
  ran_virtuals : virtuals (trace w') = virtuals (trace w) ++ l;
  ran_graph : same_graph w w';
  ran_lookup : lookup (loader w') = lookup (loader w);
}.
Lemma ran_refl w : ran [] w w.
Proof. split; [by rewrite app_nil_r|done..]. Qed.
Lemma ran_trans l1 l2 w1 w2 w3 : ran l1 w1 w2 -> ran l2 w2 w3 -> ran (l1 ++ l2) w1 w3.
Proof. intros [] []. split; [|by etransitivity|congruence]. rewrite ran_virtuals1, ran_virtuals0. by rewrite app_assoc. Qed.
Lemma ran_then l w1 w2 w3 : ran l w1 w2 -> ran [] w2 w3 -> ran l w1 w3.
Proof. intros H1 H2. rewrite <- (app_nil_r l). by eapply ran_trans. Qed.

(** Only the function [f] of some objects *)
Definition only (f : vfun) (w w' : world) : Prop := exists os, ran (pair f <$> os) w w'.
#[export] Instance only_refl f : Reflexive (only f).
Proof. intros w. exists []. apply ran_refl. Qed.
Lemma only_trans f w1 w2 w3 : only f w1 w2 -> only f w2 w3 -> only f w1 w3.
Proof. intros [l1 H1] [l2 H2]. exists (l1 ++ l2). rewrite fmap_app. by eapply ran_trans. Qed.

Lemma frame_ran w w' : frame w w' -> ran [] w w'.
Proof.
  intros Hf. split; [by rewrite (f_virtuals _ _ Hf), app_nil_r| |by rewrite (f_loader _ _ Hf)]. split; intros k.
  - by apply (frame_object_field o_dependencies w w' k Hf).
  - by apply (frame_identity_field versions w w' k Hf).
Qed.

(** The changes of the world that do not count *)
Section silent.
Context (w0 : world) (l : list (vfun * Z)).
Lemma ran_object o f : (forall x, o_dependencies (f x) = o_dependencies x) -> keeps (ran l w0) (set_object o f).
Proof.
  intros Hf. apply keeps_modify. intros w [Hv [Hd Hc] Hl]. split; [done| |done]. split; [|done].
  intros k. rewrite <- Hd. unfold deps_of. cbn. destruct (decide (k = o)) as [->|Hne]; [|by rewrite lookup_alter_ne].
  rewrite lookup_alter_eq. destruct (objects w !! o); cbn; [by rewrite Hf|done].
Qed.
Lemma ran_identity i f : (forall x, versions (f x) = versions x) -> keeps (ran l w0) (set_identity i f).
Proof.
  intros Hf. apply keeps_modify. intros w [Hv [Hd Hc] Hl]. split; [done| |done]. split; [done|].
  intros k. rewrite <- Hc. unfold chain_of. cbn. destruct (decide (k = i)) as [->|Hne]; [|by rewrite lookup_alter_ne].
  rewrite lookup_alter_eq. destruct (identities w !! i); cbn; [by rewrite Hf|done].
Qed.
Lemma ran_emit e : virtuals [e] = [] -> keeps (ran l w0) (emit e).
Proof. intros He. apply keeps_modify. intros w []. split; [|done..]. cbn. by rewrite virtuals_app, He, app_nil_r. Qed.
Lemma ran_loader f : (forall x, lookup (f x) = lookup x) -> keeps (ran l w0) (set_loader f).
Proof. intros Hf. apply keeps_modify. intros w []. split; [done..|]. cbn. by rewrite Hf. Qed.
End silent.

(** Code that runs nothing *)
Definition quiet {A} (m : M world A) : Prop := forall w a w', m w = Ok (a, w') -> ran [] w w'.
Lemma keeps_quiet {A} (m : M world A) : (forall w, keeps (ran [] w) m) -> quiet m.
Proof. intros Hm w a w' Hr. eapply (Hm w); [apply ran_refl|exact Hr]. Qed.
Lemma quiet_framed {A} (m : M world A) : (forall w, keeps (frame w) m) -> quiet m.
Proof. intros Hm w a w' Hr. apply frame_ran. by eapply (Hm w); [|exact Hr]. Qed.
Lemma quiet_keeps {A} (m : M world A) l w : quiet m -> keeps (ran l w) m.
Proof. intros Hm w1 a w' H1 Hr. eapply ran_then; [exact H1|]. by eapply Hm. Qed.
Lemma quiet_only {A} (m : M world A) f w : quiet m -> keeps (only f w) m.
Proof. intros Hm w1 a w' [os H1] Hr. exists os. eapply ran_then; [exact H1|]. by eapply Hm. Qed.
Lemma ran_called f o w : ran [(f, o)] w (w <| trace ::= fun t => t ++ [Ev_virtual f o] |>).
Proof. split; [|done..]. cbn. by rewrite virtuals_app. Qed.

(** What the phases rely on: the functions of the objects call no other virtual functions, and leave alone the
    graph, the list of libraries and, before they are relocated, the status of the objects; they return. *)
Class Confined (ops : ObjectOps) : Prop := {
  quiet_preprepare o : quiet (v_preprepare o);
  status_preprepare o s : keeps (fun w => forall x, status_of w x = s x) (v_preprepare o);
  quiet_prepare o : quiet (v_prepare o);
  quiet_update o : quiet (v_update o);
  ends_preprepare o : ends (v_preprepare o);
  ends_update o : ends (v_update o);
}.

Section phases.
Context `{DlhMath} (kernel : kernel_t) {ops : ObjectOps} `{!PreparesQuietly ops} `{!Confined ops} `{Env} `{Symbol.StringOps} `{Boot}.

Lemma latest_current w i id o : identities w !! i = Some id -> current id = Some o -> latest w i = Some o.
Proof. intros Hid Hc. unfold latest, chain_of. by rewrite Hid. Qed.

(** ** Before the relocation *)

Lemma preprepare_phase l w r w' :
  mfor l id_preprepare w = Ok (r, w') ->
  exists os, mapM (latest w) l = Some os /\ ran (pair V_preprepare <$> os) w w'
    /\ forall x, status_of w' x = status_of w x.
Proof.
  revert w; induction l as [|i l IH]; intros w Hr; cbn in Hr.
  { apply Ok_inj in Hr as [_ <-]. exists []. by split; [|split; [apply ran_refl|]]. }
  apply bind_Ok in Hr as ([] & w1 & Hm & Hr). unfold id_preprepare in Hm.
  apply bind_Ok in Hm as (id & w2 & [Hid ->]%get_identity_Ok & Hm).
  destruct (current id) as [o|] eqn:Hcur; [|done].
  apply bind_Ok in Hm as ([] & w2 & [_ <-]%Ok_inj & Hm).
  assert (ran [(V_preprepare, o)] w w1) as R1.
  { eapply ran_then; [apply (ran_called V_preprepare o w)|]. by eapply quiet_preprepare. }
  assert (forall x, status_of w1 x = status_of w x) as Hs1.
  { eapply (status_preprepare o (status_of w)); [|exact Hm]. done. }
  apply IH in Hr as (os & Hos & R2 & Hs2). exists (o :: os). split; [|split].
  - cbn [mapM]. rewrite (latest_current w i id o Hid Hcur). cbn.
    assert (mapM (latest w) l = Some os) as ->; [|done]. rewrite <- Hos. apply mapM_ext. intros d.
    symmetry. apply same_graph_latest, R1.
  - eapply (ran_trans [_]); [exact R1|exact R2].
  - intros x. by rewrite Hs2.
Qed.
(** ** The relocation *)

Lemma prepare_only fuel i w : keeps (only V_prepare w) (id_prepare fuel i).
Proof.
  revert i; induction fuel as [|fuel IH]; intros i; cbn [id_prepare]; [apply keeps_no_fuel|].
  assert (forall o, keeps (only V_prepare w) (Object.prepare o)) as Hp.
  { intros o w1 b w2 [os R1] Hr. unfold Object.prepare in Hr. apply bind_Ok in Hr as ([] & w3 & [_ <-]%Ok_inj & Hr).
    exists (os ++ [o]). rewrite fmap_app. eapply ran_then; [|by eapply quiet_prepare].
    eapply ran_trans; [exact R1|]. apply ran_called. }
  assert (forall o s, quiet (set_object o (fun x => x <| o_status := s |>))) as Hs.
  { intros o s. apply keeps_quiet. intros w1. by apply ran_object. }
  repeat (apply Hp || apply IH || (apply quiet_only; apply Hs) || wkeeps_step).
Qed.

Lemma prepare_exists fuel i x : keeps (fun w => is_Some (status_of w x)) (id_prepare fuel i).
Proof.
  revert i; induction fuel as [|fuel IH]; intros i; cbn [id_prepare]; [apply keeps_no_fuel|].
  assert (forall o, keeps (fun w => is_Some (status_of w x)) (Object.prepare o)) as Hp.
  { intros o. apply keeps_bind; [by apply keeps_modify|]. intros _ w b w' Hx Hr.
    apply prepare_confined in Hr as (_ & Hs & _). by rewrite Hs. }
  assert (forall o s, keeps (fun w => is_Some (status_of w x)) (set_object o (fun ob => ob <| o_status := s |>))) as Hs.
  { intros o s. apply keeps_modify. intros w Hx. change (is_Some (status_of (mark s o w) x)). rewrite status_mark.
    destruct (decide (x = o)) as [->|]; [|done]. unfold status_of in Hx. destruct (objects w !! o); [|by destruct Hx].
    by rewrite decide_True. }
  repeat (apply Hp || apply IH || apply Hs || wkeeps_step).
Qed.

Lemma ran_calls f os w w' : ran (pair f <$> os) w w' -> calls f (trace w') = calls f (trace w) ++ os.
Proof.
  intros R. set (g := fun x : vfun * Z => if decide (x.1 = f) then Some x.2 else None).
  assert (forall tr, calls f tr = omap g (virtuals tr)) as Hc.
  { induction tr as [|e tr IH]; [done|]. destruct e; try exact IH.
    change (calls f ([Ev_virtual f0 object] ++ tr) = omap g ([(f0, object)] ++ virtuals tr)).
    by rewrite calls_app, omap_app, IH. }
  rewrite !Hc, (ran_virtuals _ _ _ R), omap_app. f_equal. clear R. induction os as [|o os IH]; [done|].
  change (omap g ([(f, o)] ++ (pair f <$> os)) = [o] ++ os). rewrite omap_app, IH. f_equal.
  cbn. unfold g. cbn. by rewrite decide_True.
Qed.

Lemma prepare_one fuel i w b w' :
  id_prepare fuel i w = Ok (b, w') ->
  exists ps, ran (pair V_prepare <$> ps) w w' /\ traversal b w w' ps
    /\ (b = true -> forall o, latest w i = Some o -> status_of w' o <> Some STATUS_MAPPED).
Proof.
  intros Hr. destruct (id_prepare_traversal _ _ _ _ _ Hr) as [ps T].
  destruct (prepare_only fuel i w w b w' ltac:(done) Hr) as [os R].
  assert (os = ps) as ->.
  { pose proof (ran_calls _ _ _ _ R) as Hc. rewrite (tr_calls _ _ _ _ T) in Hc. by apply app_inv_head in Hc. }
  exists ps. split_and!; [done|done|]. intros -> o Ho. destruct fuel as [|fuel]; [done|].
  apply id_prepare_inv in Hr as (o' & Ho' & [(_ & Hs & _ & ->)|(deps & b1 & w1 & Hs & _ & Hr & [(_ & [=] & _)|(-> & w2 & Hp & ->)])]).
  { congruence. }
  assert (o' = o) as -> by congruence. apply all_until_traversal in Hr as [ps1 T1]; [|apply id_prepare_traversal].
  pose proof (traversal_node _ _ _ _ _ _ Hs T1 Hp) as T2.
  apply (tr_visited _ _ _ _ T2 o). apply elem_of_app. right. by apply list_elem_of_singleton.
Qed.

Lemma prepare_phase fuel l w b w' :
  all_until (id_prepare fuel) l w = Ok (b, w') ->
  exists ps, ran (pair V_prepare <$> ps) w w' /\ traversal b w w' ps
    /\ (b = true -> forall i o, i ∈ l -> latest w i = Some o -> status_of w' o <> Some STATUS_MAPPED).
Proof.
  revert w; induction l as [|i l IH]; intros w Hr; cbn in Hr.
  { apply Ok_inj in Hr as [<- <-]. exists []. split_and!; [apply ran_refl|apply traversal_refl|].
    intros _ i o Hi. by apply not_elem_of_nil in Hi. }
  apply bind_Ok in Hr as ([] & w1 & Hm & Hr); apply prepare_one in Hm as (ps1 & R1 & T1 & M1).
  - apply IH in Hr as (ps2 & R2 & T2 & M2). exists (ps1 ++ ps2).
    split_and!; [rewrite fmap_app; by eapply ran_trans|by eapply traversal_trans|].
    intros -> d o [->|Hd]%elem_of_cons Ho.
    + intros Hs. rewrite (tr_status _ _ _ _ T2) in Hs; by eapply M1.
    + apply (M2 eq_refl d); [done|]. by rewrite (same_graph_latest _ _ d (ran_graph _ _ _ R1)).
  - apply Ok_inj in Hr as [<- <-]. by exists ps1.
Qed.

(** After a successful phase everything that was to be prepared has been. *)
Lemma prepare_phase_complete fuel l w b w' :
  all_until (id_prepare fuel) l w = Ok (b, w') ->
  exists ps, ran (pair V_prepare <$> ps) w w' /\ NoDup ps /\ (forall o, o ∈ ps -> status_of w o = Some STATUS_MAPPED)
    /\ (b = true -> forall i o, i ∈ l -> latest w i = Some o -> status_of w o = Some STATUS_MAPPED -> o ∈ ps).
Proof.
  intros Hr. destruct (prepare_phase _ _ _ _ _ Hr) as (ps & R & T & Hl). exists ps.
  split_and!; [done|apply T|intros o Ho; by apply T|]. intros -> i o Hi Ho Hs.
  assert (is_Some (status_of w' o)) as [s Hs'].
  { eapply (keeps_run (fun w => is_Some (status_of w o))); [|by rewrite Hs|exact Hr].
    apply keeps_all_until. intros x. apply prepare_exists. }
  destruct s; [by destruct (Hl eq_refl i o Hi Ho)|by destruct (tr_complete _ _ _ _ T o eq_refl Hs)|].
  by apply (tr_prepared _ _ _ _ T).
Qed.

(** ** The update *)

Lemma update_versions_ran vs outdated w b w' :
  update_versions vs outdated w = Ok (b, w') ->
  ran (pair V_update <$> (if outdated then vs else take 1 vs)) w w'.
Proof.
  assert (forall o w b w', Object.update o w = Ok (b, w') -> ran [(V_update, o)] w w') as Hu.
  { intros o w0 b0 w1 Hr. unfold Object.update in Hr. apply bind_Ok in Hr as ([] & w2 & [_ <-]%Ok_inj & Hr).
    eapply ran_then; [apply ran_called|by eapply quiet_update]. }
  revert w b w'; induction vs as [|o vs IH]; intros w b w' Hr; cbn in Hr.
  { apply Ok_inj in Hr as [_ <-]. destruct outdated; apply ran_refl. }
  apply bind_Ok in Hr as (b1 & w1 & R1%Hu & Hr). destruct outdated.
  - apply bind_Ok in Hr as (b2 & w2 & R2%IH & [_ <-]%Ok_inj). eapply (ran_trans [_]); [exact R1|exact R2].
  - apply Ok_inj in Hr as [_ <-]. exact R1.
Qed.
Lemma quiet_hook i f : quiet (set_identity i (fun x => x <| hook ::= f x |>)).
Proof. apply keeps_quiet. intros w. by apply ran_identity. Qed.
Lemma quiet_call f arg : quiet (emit (Ev_call f arg)).
Proof. apply keeps_quiet. intros w. by apply ran_emit. Qed.
Lemma quiet_hook_refresh i : quiet (hook_refresh i).
Proof.
  apply keeps_quiet. intros w. unfold hook_refresh.
  repeat ((apply quiet_keeps; apply quiet_hook) || apply keeps_get_identity || keeps_step).
Qed.

Lemma update_phase l w b w' :
  all_until id_update l w = Ok (b, w') ->
  exists us, ran (pair V_update <$> us) w w'
    /\ (b = true -> forall i o, i ∈ l -> latest w i = Some o -> o ∈ us).
Proof.
  assert (forall i w b w', id_update i w = Ok (b, w') ->
    exists us, ran (pair V_update <$> us) w w' /\ forall o, latest w i = Some o -> o ∈ us) as Hone.
  { clear l w b w'. intros i w b w' Hr. unfold id_update in Hr.
    apply bind_Ok in Hr as ([] & w1 & R1%quiet_hook & Hr).
    apply bind_Ok in Hr as (id & w2 & [Hid ->]%get_identity_Ok & Hr).
    apply bind_Ok in Hr as ([] & w2 & Hs & Hr).
    assert (ran [] w w2) as R2.
    { eapply (keeps_run (ran [] w)); [|exact R1|exact Hs]. unfold call_serialize.
      repeat ((apply quiet_keeps; apply quiet_hook) || (apply quiet_keeps; apply quiet_call) || keeps_step). }
    apply bind_Ok in Hr as (b1 & w3 & R3%update_versions_ran & Hr).
    set (us := if update_outdated (flags id) then versions id else take 1 (versions id)) in *.
    exists us. split.
    - eapply (keeps_run (ran _ w)); [|eapply (ran_trans []); [exact R2|exact R3]|exact Hr].
      repeat ((apply quiet_keeps; apply quiet_hook_refresh) || (apply quiet_keeps; apply quiet_call)
              || apply keeps_get_identity || keeps_step).
    - intros o Ho. rewrite <- (same_graph_latest _ _ i (ran_graph _ _ _ R1)) in Ho.
      unfold latest, chain_of in Ho. rewrite Hid in Ho. unfold us. cbn in Ho.
      destruct (versions id); [done|]. injection Ho as ->. destruct (update_outdated _); left. }
  revert w b w'; induction l as [|i l IH]; intros w b w' Hr; cbn in Hr.
  { apply Ok_inj in Hr as [<- <-]. exists []. split; [apply ran_refl|]. intros _ i o Hi. by apply not_elem_of_nil in Hi. }
  apply bind_Ok in Hr as ([] & w1 & (us & R1 & U1)%Hone & Hr).
  - apply IH in Hr as (us2 & R2 & U2). exists (us ++ us2). split; [rewrite fmap_app; by eapply ran_trans|].
    intros -> d o [->|Hd]%elem_of_cons Ho; apply elem_of_app; [left; by apply U1|right].
    apply (U2 eq_refl d); [done|]. by rewrite (same_graph_latest _ _ d (ran_graph _ _ _ R1)).
  - apply Ok_inj in Hr as [<- <-]. by exists us.
Qed.

(** ** The final protection *)

Lemma quiet_finalize o k : quiet (on_segment o k (fun _ => MemorySegment.finalize kernel false)).
Proof. apply quiet_framed. intros w. apply framed_on_segment. intros. apply placed_finalize. Qed.

Lemma finalize_versions vs w b w' :
  mall vs (Object.finalize kernel) w = Ok (b, w') -> ran (pair V_finalize <$> vs) w w'.
Proof.
  revert w b w'; induction vs as [|o vs IH]; intros w b w' Hr; cbn in Hr.
  { apply Ok_inj in Hr as [_ <-]. apply ran_refl. }
  apply bind_Ok in Hr as (b1 & w1 & Ho & Hr). apply bind_Ok in Hr as (b2 & w2 & R2%IH & [_ <-]%Ok_inj).
  eapply (ran_trans [(V_finalize, o)]); [|exact R2]. unfold Object.finalize in Ho.
  apply bind_Ok in Ho as ([] & w3 & [_ <-]%Ok_inj & Ho).
  eapply (keeps_run (ran _ w)); [|apply ran_called|exact Ho]. unfold segment_indices.
  repeat ((apply quiet_keeps; apply quiet_finalize) || wkeeps_step).
Qed.

Lemma all_versions_same l w w' : same_graph w w' -> all_versions w' l = all_versions w l.
Proof.
  intros [_ Hc]. unfold all_versions. f_equal. apply list_fmap_ext. intros _ d _.
  pose proof (Hc d) as Hd. unfold chain_of in Hd. destruct (identities w' !! d), (identities w !! d); cbn in Hd; by simplify_eq.
Qed.

Lemma finalize_phase l w b w' :
  all_until (id_finalize kernel) l w = Ok (b, w') ->
  exists fs, ran (pair V_finalize <$> fs) w w' /\ (b = true -> fs = all_versions w l).
Proof.
  revert w b w'; induction l as [|i l IH]; intros w b w' Hr; cbn in Hr.
  { apply Ok_inj in Hr as [<- <-]. exists []. split; [apply ran_refl|done]. }
  apply bind_Ok in Hr as (b1 & w1 & Hi & Hr). unfold id_finalize in Hi.
  apply bind_Ok in Hi as (id & w2 & [Hid ->]%get_identity_Ok & R1%finalize_versions). destruct b1.
  - apply IH in Hr as (fs & R2 & F2). exists (versions id ++ fs).
    split; [rewrite fmap_app; by eapply ran_trans|]. intros Hb. unfold all_versions. cbn. rewrite Hid. f_equal.
    rewrite (F2 Hb). apply (all_versions_same l), R1.
  - apply Ok_inj in Hr as [<- <-]. by exists (versions id).
Qed.
(** ** Termination *)

(** Fuel for all objects is enough for the objects not visited. *)
Lemma unvisited_all w : (size (unvisited w) < S (size (objects w)))%nat.
Proof.
  assert (size (unvisited w) <= size (dom (objects w)))%nat as Hs; [|rewrite size_dom in Hs; lia].
  apply subseteq_size. intros o. rewrite elem_of_unvisited, elem_of_dom. unfold status_of.
  by destruct (objects w !! o).
Qed.
Lemma ends_get_object o : ends (get_object o).
Proof. intros w. unfold get_object. by case_match. Qed.
Lemma ends_get_identity i : ends (get_identity i).
Proof. intros w. unfold get_identity. by case_match. Qed.
Lemma ends_on_segment {A} o k (f : _ -> M _ A) : (forall c, ends (f c)) -> ends (on_segment o k f).
Proof.
  intros Hf w. unfold on_segment. destruct (objects w !! o) as [ob|]; [|done].
  destruct (identities w !! o_file ob) as [i|]; [|done]. destruct (o_memory_map ob !! k) as [s|]; [|done].
  specialize (Hf (object_ctx (loader w) i o ob) (Traced s (trace w))). by destruct (f _ _) as [[]| |].
Qed.
Lemma ends_all_until {A} (f : A -> M world bool) l : (forall x, ends (f x)) -> ends (all_until f l).
Proof. intros Hf. induction l as [|x l IH]; cbn; [done|]. apply ends_bind; [done|]. by intros []. Qed.
Lemma ends_primitive {S A} (f : S -> A * S) : ends (fun s => Ok (f s)).
Proof. done. Qed.
End phases.

Ltac world_ends_step :=
  first [ apply ends_get_object | apply ends_get_identity | apply ends_on_segment; intros ? | apply ends_all_until; intros ?
        | ends_step | apply ends_primitive ].
Ltac world_ends := repeat world_ends_step.

Section relocate.
Context `{DlhMath} (kernel : kernel_t) {ops : ObjectOps} `{!PreparesQuietly ops} `{!Confined ops} `{Env} `{Symbol.StringOps} `{Boot}.
Context (quiet_trampolines : quiet trampoline_update) (ends_trampolines : ends trampoline_update).

Lemma ends_id_preprepare i : ends (id_preprepare i).
Proof. unfold id_preprepare, Object.preprepare. repeat (apply ends_preprepare || world_ends_step). Qed.
Lemma ends_id_update i : ends (id_update i).
Proof.
  assert (forall vs outdated, ends (update_versions vs outdated)) as Hu.
  { intros vs outdated. induction vs as [|o vs IH]; cbn; [done|]. unfold Object.update.
    repeat (apply ends_update || apply IH || world_ends_step). }
  unfold id_update, call_serialize, hook_refresh. repeat (apply Hu || world_ends_step).
Qed.
Lemma ends_id_finalize i : ends (id_finalize kernel i).
Proof. unfold id_finalize, Object.finalize, segment_indices, MemorySegment.finalize. world_ends. Qed.

Lemma ends_relocate upd : ends (Loader.relocate kernel upd).
Proof.
  intros w. unfold Loader.relocate.
  intros [Hr|(l & w1 & [<- <-]%Ok_inj & Hr)]%bind_OutOfFuel; [done|].
  apply bind_OutOfFuel in Hr as [Hr|([] & w1 & _ & Hr)]; [revert Hr; apply ends_mfor, ends_id_preprepare|].
  apply bind_OutOfFuel in Hr as [Hr|(p & w2 & _ & Hr)].
  - apply bind_OutOfFuel in Hr as [Hr|(l & w2 & [_ <-]%Ok_inj & Hr)]; [done|].
    apply bind_OutOfFuel in Hr as [Hr|(fuel & w2 & [<- <-]%Ok_inj & Hr)]; [done|].
    revert Hr. eapply all_until_fuel; [intros; by apply id_prepare_fuel|intros; by eapply id_prepare_traversal|apply unvisited_all].
  - revert Hr. destruct p; [|done].
    repeat (apply ends_id_update || apply ends_id_finalize || apply ends_trampolines || world_ends_step).
Qed.

(** The update, if it is requested *)
Lemma update_step upd w u w' :
  (if upd : bool then
     l ← get_loader;
     u ← all_until id_update (rev (lookup l));
     if u : bool then trampoline_update ;; mret true else mret false
   else mret true : M world bool) w = Ok (u, w') ->
  exists ups, ran (pair V_update <$> ups) w w' /\ (upd = false -> ups = [])
    /\ (u = true -> upd = true -> forall i o, i ∈ rev (lookup (loader w)) -> latest w i = Some o -> o ∈ ups).
Proof.
  intros Hu. destruct upd; [|apply Ok_inj in Hu as [<- <-]; exists []; by split; [apply ran_refl|]].
  apply bind_Ok in Hu as (l & w1 & [<- <-]%Ok_inj & Hu).
  apply bind_Ok in Hu as (u1 & w1 & (ups & R & C)%update_phase & Hu). exists ups. destruct u1.
  - apply bind_Ok in Hu as ([] & w2 & R1%quiet_trampolines & [<- <-]%Ok_inj).
    split_and!; [by eapply ran_then|done|]. intros _ _. by apply C.
  - by apply Ok_inj in Hu as [<- <-].
Qed.

(** What a relocation ran *)
Lemma relocate_ran upd w b w' :
  Loader.relocate kernel upd w = Ok (b, w') ->
  exists pre prep ups fins,
    ran ((pair V_preprepare <$> pre) ++ (pair V_prepare <$> prep) ++ (pair V_update <$> ups) ++ (pair V_finalize <$> fins)) w w'
    /\ mapM (latest w) (rev (lookup (loader w))) = Some pre
    /\ NoDup prep /\ (forall o, o ∈ prep -> status_of w o = Some STATUS_MAPPED)
    /\ (upd = false -> ups = [])
    /\ (b = true ->
        (forall o, o ∈ pre -> status_of w o = Some STATUS_MAPPED -> o ∈ prep)
        /\ (upd = true -> pre ⊆ ups) /\ fins = all_versions w (rev (lookup (loader w)))).
Proof.
  intros Hr. unfold Loader.relocate in Hr.
  apply bind_Ok in Hr as (l & w0 & [<- <-]%Ok_inj & Hr).
  apply bind_Ok in Hr as ([] & w1 & (pre & Hpre & R1 & S1)%preprepare_phase & Hr).
  apply bind_Ok in Hr as (p & w2 & Hp & Hr).
  apply bind_Ok in Hp as (l & w3 & [<- <-]%Ok_inj & Hp).
  apply bind_Ok in Hp as (fuel & w3 & [_ <-]%Ok_inj & (prep & R2 & N2 & M2 & C2)%prepare_phase_complete).
  rewrite (ran_lookup _ _ _ R1) in C2.
  assert (forall o, o ∈ pre -> exists i, i ∈ rev (lookup (loader w)) /\ latest w i = Some o) as Hin.
  { intros o [k Ho]%list_elem_of_lookup. apply mapM_Some_1 in Hpre.
    destruct (Forall2_lookup_r _ _ _ _ _ Hpre Ho) as (i & Hi & Hl). exists i. split; [|done]. by eapply list_elem_of_lookup_2. }
  pose proof (ran_trans _ _ _ _ _ R1 R2) as R12.
  exists pre, prep. destruct p.
  2: { apply Ok_inj in Hr as [<- <-]. exists [], []. split_and!; try done. by rewrite app_nil_r.
       intros o Ho. rewrite <- S1. by apply M2. }
  apply bind_Ok in Hr as (u & w3 & (ups & R3 & U3 & C3)%update_step & Hr).
  rewrite (ran_lookup _ _ _ R12) in C3.
  pose proof (ran_trans _ _ _ _ _ R12 R3) as R123. exists ups. destruct u.
  2: { apply Ok_inj in Hr as [<- <-]. exists []. split_and!; try done. by rewrite app_nil_r, app_assoc.
       intros o Ho. rewrite <- S1. by apply M2. }
  apply bind_Ok in Hr as (l & w4 & [<- <-]%Ok_inj & (fins & R4 & F4)%finalize_phase). exists fins.
  split_and!; try done.
  - rewrite !app_assoc. by eapply ran_trans.
  - intros o Ho. rewrite <- S1. by apply M2.
  - intros ->. split_and!.
    + intros o (i & Hi & Hl)%Hin Hs. apply (C2 eq_refl i); [done| |by rewrite S1].
      by rewrite (same_graph_latest _ _ i (ran_graph _ _ _ R1)).
    + intros Hupd o (i & Hi & Hl)%Hin. apply (C3 eq_refl Hupd i); [done|].
      by rewrite (same_graph_latest _ _ i (ran_graph _ _ _ R12)).
    + rewrite (F4 eq_refl), (ran_lookup _ _ _ R123). apply all_versions_same, R123.
Qed.

(** C7: Relocation runs in phases.  It ends, for every object graph.  First every current object is
    pre-prepared (in reverse load order), so that all memory is in place before a relocation is
    performed; then objects are prepared, none twice; only then objects are updated, and only on request; the final
    protection of the memory is set last.  If it succeeds no phase left anything out: no current object
    is left unprepared, every current object was updated, the memory of all versions is finalized. *)
Theorem relocate_phases upd w :
  Loader.relocate kernel upd w <> OutOfFuel
  /\ forall b w', Loader.relocate kernel upd w = Ok (b, w') ->
     exists pre prep ups fins,
       ran ((pair V_preprepare <$> pre) ++ (pair V_prepare <$> prep) ++ (pair V_update <$> ups) ++ (pair V_finalize <$> fins)) w w'
       /\ mapM (latest w) (rev (lookup (loader w))) = Some pre
       /\ NoDup prep /\ (forall o, o ∈ prep -> status_of w o = Some STATUS_MAPPED)
       /\ (upd = false -> ups = [])
       /\ (b = true ->
           (forall o, o ∈ pre -> status_of w o = Some STATUS_MAPPED -> o ∈ prep)
           /\ (upd = true -> pre ⊆ ups) /\ fins = all_versions w (rev (lookup (loader w)))).
Proof. split; [apply ends_relocate|]. intros b w' Hr. exact (relocate_ran upd w b w' Hr). Qed.
End relocate.
End PhaseProofs.
