(* ===== verification/WellFormedProofs.v ===== *)
(** The well-formedness of the loader's data (World.v): the versions of the identities and the objects refer to
    each other, no object is in two chains or in none, numbers are not reused.  Opening libraries, loading and
    discarding versions, preparing and updating keep it. *)
From S2P Require Import Prelude Platform Segment Symbol Tls World Object Identity Gdb Loader Helper Samples WorldProofs.

Module WellFormedProofs.
Import World Object Identity Loader WorldProofs Samples.

(** * Well-formed worlds *)

(** [x] is a new object (with its identity) that is not yet in the chain of its identity. *)
Record wf_but (x : option (Z * Z)) (w : world) : Prop := {
  wf_version i id o : identities w !! i = Some id -> o ∈ versions id ->
    exists ob, objects w !! o = Some ob /\ o_file ob = i;
  wf_nodup i id : identities w !! i = Some id -> NoDup (versions id);
  wf_object o ob : objects w !! o = Some ob ->
    exists id, identities w !! o_file ob = Some id /\ (o ∈ versions id \/ x = Some (o, o_file ob));
  wf_extra o i : x = Some (o, i) ->
    (exists ob, objects w !! o = Some ob /\ o_file ob = i) /\ forall id, identities w !! i = Some id -> o ∉ versions id;
  wf_next_object o : is_Some (objects w !! o) -> o < next_id w;
  wf_next_identity i : is_Some (identities w !! i) -> i < next_id w;
  wf_lookup i : i ∈ lookup (loader w) -> is_Some (identities w !! i);
  wf_lookup_nodup : NoDup (lookup (loader w));
}.
Abbreviation wf := (wf_but None).

(** Everything but the fields the definition mentions may change. *)
Definition same_shape (w w' : world) : Prop :=
  (forall i, versions <$> identities w' !! i = versions <$> identities w !! i)
  /\ (forall o, o_file <$> objects w' !! o = o_file <$> objects w !! o)
  /\ next_id w' = next_id w /\ lookup (loader w') = lookup (loader w).
Lemma wf_same x w w' : same_shape w w' -> wf_but x w -> wf_but x w'.
Proof.
  intros (Hi & Ho & Hn & Hl) [Hv Hnd Hobj Hx Hno Hni Hlk Hlnd].
  assert (forall i id', identities w' !! i = Some id' -> exists id, identities w !! i = Some id /\ versions id = versions id') as Hi'.
  { intros i id' Hid. specialize (Hi i). rewrite Hid in Hi. destruct (identities w !! i) as [id|]; [|done].
    injection Hi as Hi. eauto. }
  assert (forall o ob', objects w' !! o = Some ob' -> exists ob, objects w !! o = Some ob /\ o_file ob = o_file ob') as Ho'.
  { intros o ob' Hob. specialize (Ho o). rewrite Hob in Ho. destruct (objects w !! o) as [ob|]; [|done].
    injection Ho as Ho. eauto. }
  assert (forall i id, identities w !! i = Some id -> exists id', identities w' !! i = Some id' /\ versions id' = versions id) as Hi2.
  { intros i id Hid. specialize (Hi i). rewrite Hid in Hi. destruct (identities w' !! i) as [id'|]; [|done].
    injection Hi as Hi. eauto. }
  assert (forall o ob, objects w !! o = Some ob -> exists ob', objects w' !! o = Some ob' /\ o_file ob' = o_file ob) as Ho2.
  { intros o ob Hob. specialize (Ho o). rewrite Hob in Ho. destruct (objects w' !! o) as [ob'|]; [|done].
    injection Ho as Ho. eauto. }
  split.
  - intros i id' o (id & Hid & <-)%Hi' Hin. destruct (Hv i id o Hid Hin) as (ob & (ob' & ? & <-)%Ho2 & <-). eauto.
  - intros i id' (id & Hid & <-)%Hi'. eauto.
  - intros o ob' (ob & Hob & <-)%Ho'. destruct (Hobj o ob Hob) as (id & (id' & ? & <-)%Hi2 & ?). eauto.
  - intros o i He. destruct (Hx o i He) as ((ob & (ob' & ? & <-)%Ho2 & <-) & Hnot). split; [eauto|].
    intros id' (id & Hid & <-)%Hi'. eauto.
  - intros o [ob' (ob & Hob & _)%Ho']. rewrite Hn. eauto.
  - intros i [id' (id & Hid & _)%Hi']. rewrite Hn. eauto.
  - intros i. rewrite Hl. intros [id (id' & ? & _)%Hi2]%Hlk. eauto.
  - by rewrite Hl.
Qed.

(** Predicates that only depend on these fields *)
Class Stable (P : world -> Prop) : Prop := stable w w' : same_shape w w' -> P w -> P w'.
#[export] Instance wf_stable x : Stable (wf_but x).
Proof. intros w w'. apply wf_same. Qed.
#[export] Instance and_stable P Q : Stable P -> Stable Q -> Stable (fun w => P w /\ Q w).
Proof. intros HP HQ w w' Hs [? ?]. split; by eapply stable. Qed.

(** The chain of [i] has versions of the list only. *)
Definition chain_below (i : Z) (l : list Z) (w : world) : Prop :=
  forall id, identities w !! i = Some id -> versions id ⊆ l.
#[export] Instance chain_below_stable i l : Stable (chain_below i l).
Proof.
  intros w w' (Hi & _) Hb id' Hid. specialize (Hi i). rewrite Hid in Hi. destruct (identities w !! i) as [id|] eqn:Hid0; [|done].
  injection Hi as ->. by apply Hb.
Qed.
(** An object of an identity *)
Definition file_is (o i : Z) (w : world) : Prop := o_file <$> objects w !! o = Some i.
#[export] Instance file_is_stable o i : Stable (file_is o i).
Proof. intros w w' (_ & Ho & _) Hf. unfold file_is. by rewrite Ho. Qed.
(** The list of libraries is [l] and the chain of [i] exists *)
Definition lookup_is (l : list Z) (w : world) : Prop := lookup (loader w) = l.
#[export] Instance lookup_is_stable l : Stable (lookup_is l).
Proof. intros w w' (_ & _ & _ & Hl) Hlk. unfold lookup_is. by rewrite Hl. Qed.
Definition not_loaded (i : Z) (w : world) : Prop := i ∉ lookup (loader w).
#[export] Instance not_loaded_stable i : Stable (not_loaded i).
Proof. intros w w' (_ & _ & _ & Hl) Hn. unfold not_loaded. by rewrite Hl. Qed.
Definition identity_exists (i : Z) (w : world) : Prop := is_Some (identities w !! i).
#[export] Instance identity_exists_stable i : Stable (identity_exists i).
Proof.
  intros w w' (Hi & _) [id Hid]. specialize (Hi i). rewrite Hid in Hi. unfold identity_exists.
  destruct (identities w' !! i); [eauto|done].
Qed.

Section access.
Context (P : world -> Prop) `{!Stable P}.
Lemma stable_modify f : (forall w, same_shape w (f w)) -> keeps P (modify f).
Proof. intros Hf. apply keeps_modify. intros w. by apply stable. Qed.
Lemma stable_set_object o f : (forall ob, o_file (f ob) = o_file ob) -> keeps P (set_object o f).
Proof.
  intros Hf. apply stable_modify. intros w. split_and!; try done. intros k. cbn.
  destruct (decide (k = o)) as [->|Hne]; [|by rewrite lookup_alter_ne].
  rewrite lookup_alter_eq. destruct (objects w !! o); cbn; [by rewrite Hf|done].
Qed.
Lemma stable_set_identity i f : (forall id, versions (f id) = versions id) -> keeps P (set_identity i f).
Proof.
  intros Hf. apply stable_modify. intros w. split_and!; try done. intros k. cbn.
  destruct (decide (k = i)) as [->|Hne]; [|by rewrite lookup_alter_ne].
  rewrite lookup_alter_eq. destruct (identities w !! i); cbn; [by rewrite Hf|done].
Qed.
Lemma stable_set_loader f : (forall l, lookup (f l) = lookup l) -> keeps P (set_loader f).
Proof. intros Hf. apply stable_modify. intros w. split_and!; try done. cbn. by rewrite Hf. Qed.
Lemma stable_emit e : keeps P (emit e).
Proof. by apply stable_modify. Qed.
Lemma stable_syscall kernel c : keeps P (syscall_ kernel c).
Proof. intros w r w' Hw [_ <-]%Ok_inj. by eapply stable; [|exact Hw]. Qed.
Lemma stable_on_segment {A} o k (f : _ -> M _ A) : keeps P (on_segment o k f).
Proof.
  intros w a w' Hw Hr. unfold on_segment in Hr. destruct (objects w !! o) as [ob|] eqn:Ho; [|done].
  repeat (case_match; try discriminate Hr). apply Ok_inj in Hr as [_ <-].
  eapply stable; [|exact Hw]. split_and!; try done. intros y. cbn.
  destruct (decide (y = o)) as [->|Hne]; [|by rewrite lookup_insert_ne]. by rewrite lookup_insert_eq, Ho.
Qed.
End access.

Ltac stable_step :=
  first
    [ apply keeps_get_identity | apply keeps_get_object
    | apply stable_set_object; [apply _|intros; done] | apply stable_set_identity; [apply _|intros; done]
    | apply stable_set_loader; [apply _|intros; done]
    | apply stable_emit; apply _ | apply stable_syscall; apply _ | apply stable_on_segment; apply _
    | apply keeps_all_until; intros ? | keeps_step | apply stable_modify; [apply _|intros; done] ].
Ltac solve_stable := repeat stable_step.

(** * Objects come and go *)

(** A new object gets an unused number. *)
Lemma wf_insert_object w i ob :
  wf w -> is_Some (identities w !! i) -> o_file ob = i ->
  wf_but (Some (next_id w, i)) (w <| next_id ::= Z.succ |> <| objects ::= <[next_id w := ob]> |>).
Proof.
  intros [Hv Hnd Hobj _ Hno Hni Hlk Hlnd] Hi Hf. set (o := next_id w).
  assert (objects w !! o = None) as Hnone.
  { apply eq_None_not_Some. intros Hs. apply Hno in Hs. unfold o in Hs. lia. }
  split; cbn; try done.
  - intros j id y Hid Hin. destruct (Hv j id y Hid Hin) as (ob' & Hob & Hj). exists ob'.
    rewrite lookup_insert_ne; [done|]. intros ->. congruence.
  - intros y ob' Hy. destruct (decide (y = o)) as [->|Hne].
    + rewrite lookup_insert_eq in Hy. injection Hy as <-. destruct Hi as [id Hid]. exists id. rewrite Hf. by split; [|right].
    + rewrite lookup_insert_ne in Hy by done. destruct (Hobj y ob' Hy) as (id & Hid & [Hin|]); [|done]. exists id. by split; [|left].
  - intros y j [= <- <-]. split; [exists ob; by rewrite lookup_insert_eq|].
    intros id Hid Hin. destruct (Hv _ _ _ Hid Hin) as (ob' & Hob & _). congruence.
  - intros y Hy. destruct (decide (y = o)) as [->|Hne]; [unfold o; lia|].
    rewrite lookup_insert_ne in Hy by done. apply Hno in Hy. lia.
  - intros j Hj. apply Hni in Hj. lia.
Qed.

(** It becomes the newest version. *)
Lemma wf_push o i : hoare (wf_but (Some (o, i))) (set_identity i (fun x => x <| versions ::= cons o |>)) (fun _ => wf).
Proof.
  intros w r w' [Hv Hnd Hobj Hx Hno Hni Hlk Hlnd] [_ <-]%Ok_inj. destruct (Hx o i eq_refl) as [(ob & Hob & Hf) Hnot].
  split; cbn; try done.
  - intros j id y Hid Hin. destruct (decide (j = i)) as [->|Hne].
    + rewrite lookup_alter_eq in Hid. destruct (identities w !! i) as [id0|] eqn:Hid0; [|done]. injection Hid as <-.
      cbn in Hin. apply elem_of_cons in Hin as [->|Hin]; eauto.
    + rewrite lookup_alter_ne in Hid by done. eauto.
  - intros j id Hid. destruct (decide (j = i)) as [->|Hne].
    + rewrite lookup_alter_eq in Hid. destruct (identities w !! i) as [id0|] eqn:Hid0; [|done]. injection Hid as <-.
      apply NoDup_cons. eauto.
    + rewrite lookup_alter_ne in Hid by done. eauto.
  - intros y ob' Hy. destruct (Hobj y ob' Hy) as (id & Hid & Hin). destruct (decide (o_file ob' = i)) as [Heq|Hne].
    + rewrite Heq in *. rewrite lookup_alter_eq, Hid. eexists. split; [done|]. left. cbn.
      destruct Hin as [Hin|[= ->]]; [by right|left].
    + rewrite lookup_alter_ne by done. exists id. split; [done|]. destruct Hin as [Hin|[= -> ->]]; [by left|done].
  - intros j Hj. apply Hni. destruct (decide (j = i)) as [->|Hne]; [|by rewrite lookup_alter_ne in Hj].
    rewrite lookup_alter_eq in Hj. by apply fmap_is_Some in Hj.
  - intros j Hj. apply Hlk in Hj. destruct (decide (j = i)) as [->|Hne]; [|by rewrite lookup_alter_ne].
    rewrite lookup_alter_eq. by apply fmap_is_Some.
Qed.

(** It leaves the chain. *)
Lemma wf_filter w x o ob :
  wf_but x w -> objects w !! o = Some ob -> x = None \/ x = Some (o, o_file ob) ->
  wf_but (Some (o, o_file ob)) (w <| identities ::= alter (fun y => y <| versions ::= filter (fun v => v <> o) |>) (o_file ob) |>).
Proof.
  intros [Hv Hnd Hobj Hx Hno Hni Hlk Hlnd] Hob Hor.
  assert (forall j id, alter (fun y => y <| versions ::= filter (fun v => v <> o) |>) (o_file ob) (identities w) !! j = Some id ->
    exists id0, identities w !! j = Some id0 /\ versions id = (if decide (j = o_file ob) then filter (fun v => v <> o) (versions id0) else versions id0)) as Hj.
  { intros j id Hid. destruct (decide (j = o_file ob)) as [->|Hne]; [|rewrite lookup_alter_ne in Hid by done; eauto].
    rewrite lookup_alter_eq in Hid. destruct (identities w !! o_file ob) as [id0|]; [|done]. injection Hid as <-. eauto. }
  split; cbn; try done.
  - intros j id y (id0 & Hid0 & Hvs)%Hj Hin. rewrite Hvs in Hin. apply (Hv j id0 y Hid0).
    case_decide; [by apply list_elem_of_filter in Hin as [_ ?]|done].
  - intros j id (id0 & Hid0 & ->)%Hj. case_decide; [apply NoDup_filter|]; eauto.
  - intros y ob' Hy. destruct (Hobj y ob' Hy) as (id & Hid & Hin).
    destruct (decide (y = o)) as [->|Hyo].
    { assert (ob' = ob) as -> by congruence. rewrite lookup_alter_eq, Hid. eexists. split; [done|]. by right. }
    assert (y ∈ versions id) as Hin'. { destruct Hin as [|Hx']; [done|]. destruct Hor as [->| ->]; congruence. }
    destruct (decide (o_file ob' = o_file ob)) as [Heq|Hne].
    + rewrite Heq in *. rewrite lookup_alter_eq, Hid. eexists. split; [done|]. left. cbn. by apply list_elem_of_filter.
    + rewrite lookup_alter_ne by done. exists id. by split; [|left].
  - intros y j [= <- <-]. split; [eauto|]. intros id (id0 & Hid0 & Hvs)%Hj Hin. rewrite Hvs, decide_True in Hin by done.
    by apply list_elem_of_filter in Hin as [? _].
  - intros j [id (id0 & Hid0 & _)%Hj]. eauto.
  - intros j Hjl. apply Hlk in Hjl. destruct (decide (j = o_file ob)) as [->|Hne]; [|by rewrite lookup_alter_ne].
    rewrite lookup_alter_eq. by apply fmap_is_Some.
Qed.

(** It is deleted. *)
Lemma wf_delete_object w o i : wf_but (Some (o, i)) w -> wf (w <| objects ::= delete o |>).
Proof.
  intros [Hv Hnd Hobj Hx Hno Hni Hlk Hlnd]. destruct (Hx o i eq_refl) as [(ob & Hob & Hf) Hnot]. split; cbn; try done.
  - intros j id y Hid Hin. destruct (Hv j id y Hid Hin) as (ob' & Hob' & Hj). exists ob'. split; [|done].
    rewrite lookup_delete_ne; [done|]. intros ->. assert (j = i) as -> by congruence. by eapply Hnot.
  - intros y ob' Hy. apply lookup_delete_Some in Hy as [Hne Hy]. destruct (Hobj y ob' Hy) as (id & Hid & [Hin|[= -> ->]]); [|done].
    exists id. by split; [|left].
  - intros y Hy. apply Hno. destruct Hy as [ob' [_ Hy]%lookup_delete_Some]. eauto.
Qed.

(** What the functions of the objects promise: those that run before the object is a version also while there
    is a new object. *)
Class WellTyped (ops : ObjectOps) : Prop := {
  wt_construct o x : keeps (wf_but x) (v_construct o);
  wt_patchable o x : keeps (wf_but x) (v_patchable o);
  wt_preload o : keeps wf (v_preload o);
  wt_fix o : keeps wf (v_fix o);
  wt_preprepare o : keeps wf (v_preprepare o);
  wt_prepare o : keeps wf (v_prepare o);
  wt_update o : keeps wf (v_update o);
  wt_initialize o b : keeps wf (v_initialize o b);
}.

Section loader.
Context `{DlhMath} (kernel : kernel_t) {ops : ObjectOps} `{!WellTyped ops} `{Env} `{Symbol.StringOps}.

(** Deleting an object: an old version, or a new object that did not become one. *)
Lemma object_destroy_wf x o i l :
  x = None \/ (exists j, x = Some (o, j)) ->
  hoare (fun w => wf_but x w /\ chain_below i (o :: l) w) (Object.destroy kernel reset_address o)
    (fun _ w => wf w /\ chain_below i l w).
Proof.
  intros Hx w r w' [Hw Hb] Hr. unfold Object.destroy in Hr.
  apply bind_Ok in Hr as (ob & w0 & [Hob ->]%get_object_Ok & Hr).
  apply bind_Ok in Hr as ([] & w1 & H1' & Hr).
  assert (wf_but x w1 /\ chain_below i (o :: l) w1 /\ file_is o (o_file ob) w1) as (Hw1 & Hb1 & Hf1).
  { eapply (keeps_run (fun w => wf_but x w /\ chain_below i (o :: l) w /\ file_is o (o_file ob) w)); [|split_and!; try done|exact H1'].
    - solve_stable.
    - unfold file_is. by rewrite Hob. }
  clear H1' Hw Hb. destruct (objects w1 !! o) as [ob1|] eqn:Hob1; [|unfold file_is in Hf1; by rewrite Hob1 in Hf1].
  unfold file_is in Hf1. rewrite Hob1 in Hf1. injection Hf1 as Hf1.
  apply bind_Ok in Hr as ([] & w2 & H2' & Hr). unfold set_identity in H2'. apply Ok_inj in H2' as [_ <-].
  rewrite <- Hf1 in Hr. 
  assert (wf_but (Some (o, o_file ob1)) (w1 <| identities ::= alter (fun y => y <| versions ::= filter (fun v => v <> o) |>) (o_file ob1) |>)
    /\ chain_below i l (w1 <| identities ::= alter (fun y => y <| versions ::= filter (fun v => v <> o) |>) (o_file ob1) |>)) as Hw2.
  { split.
    - apply (wf_filter w1 x); [done|done|]. destruct Hx as [->|[j ->]]; [by left|right].
      destruct (wf_extra _ _ Hw1 o j eq_refl) as [(ob2 & ? & <-) _]. congruence.
    - intros id Hid v Hv. cbn in Hid. destruct (decide (i = o_file ob1)) as [->|Hne].
      + rewrite lookup_alter_eq in Hid. destruct (identities w1 !! o_file ob1) as [id0|] eqn:Hid0; [|done]. injection Hid as <-.
        cbn in Hv. apply list_elem_of_filter in Hv as [Hvo Hv]. apply (Hb1 id0 Hid0) in Hv. by apply elem_of_cons in Hv as [|].
      + rewrite lookup_alter_ne in Hid by done. pose proof (Hb1 id Hid v Hv) as [->|]%elem_of_cons; [|done].
        destruct (wf_version _ _ Hw1 i id o Hid Hv) as (ob2 & ? & <-). congruence. }
  revert Hw2 Hr. generalize (w1 <| identities ::= alter (fun y => y <| versions ::= filter (fun v => v <> o) |>) (o_file ob1) |>).
  intros w2 Hw2 Hr. rewrite Hf1 in *. clear Hob1 Hw1 Hb1.
  set (P := fun w => wf_but (Some (o, o_file ob)) w /\ chain_below i l w) in *.
  apply bind_Ok in Hr as (ks & w3 & Hr3 & Hr). apply (keeps_run P) in Hr3; [|unfold segment_indices; solve_stable|exact Hw2].
  apply bind_Ok in Hr as (? & w4 & Hr4 & Hr). apply (keeps_run P) in Hr4; [|solve_stable|exact Hr3].
  apply bind_Ok in Hr as (? & w5 & Hr5 & Hr). apply (keeps_run P) in Hr5; [|unfold reset_address; solve_stable|exact Hr4].
  apply bind_Ok in Hr as (? & w6 & Hr6 & Hr). apply (keeps_run P) in Hr6; [|solve_stable|exact Hr5].
  apply bind_Ok in Hr as (? & w7 & Hr7 & Hr). apply (keeps_run P) in Hr7; [|solve_stable|exact Hr6].
  apply Ok_inj in Hr as [_ <-]. destruct Hr7 as [Hw7 Hb7]. split; [by eapply wf_delete_object|exact Hb7].
Qed.

Lemma object_destroy_keeps o : keeps wf (Object.destroy kernel reset_address o).
Proof.
  intros w r w' Hw Hr. pose proof (object_destroy_wf None o (-1)) as Hd.
  destruct (identities w !! (-1)) as [id|] eqn:Hid.
  - eapply (Hd (versions id)); [by left| |exact Hr]. split; [exact Hw|]. intros id' Hid'. rewrite Hid in Hid'.
    injection Hid' as <-. set_solver.
  - eapply (Hd []); [by left| |exact Hr]. split; [exact Hw|]. intros id' Hid'. by rewrite Hid in Hid'.
Qed.
Lemma object_destroy_new o i : hoare (wf_but (Some (o, i))) (Object.destroy kernel reset_address o) (fun _ => wf).
Proof.
  intros w r w' Hw Hr. destruct (wf_extra _ _ Hw o i eq_refl) as [(ob & Hob & Hf) Hnot].
  destruct (wf_object _ _ Hw o ob Hob) as (id & Hid & _). rewrite Hf in Hid.
  eapply (object_destroy_wf (Some (o, i)) o i (versions id)); [right; by exists i| |exact Hr]. split; [exact Hw|].
  intros id' Hid'. rewrite Hid in Hid'. injection Hid' as <-. set_solver.
Qed.

(** Taking back a version *)
Lemma discard_wf i o : keeps wf (discard kernel reset_address i o).
Proof.
  intros w r w' Hw Hr. unfold discard in Hr. apply bind_Ok in Hr as ([] & w1 & Hs & Hr).
  unfold set_identity in Hs. apply Ok_inj in Hs as [_ <-].
  destruct (decide (o_file <$> objects w !! o = Some i)) as [Hf|Hf].
  - destruct (objects w !! o) as [ob|] eqn:Hob; [|done]. injection Hf as <-.
    eapply object_destroy_new; [|exact Hr]. apply (wf_filter w None); [done|done|by left].
  - eapply object_destroy_keeps; [|exact Hr]. eapply wf_same; [|exact Hw]. split_and!; try done.
    intros j. cbn. destruct (decide (j = i)) as [->|Hne]; [|by rewrite lookup_alter_ne].
    rewrite lookup_alter_eq. destruct (identities w !! i) as [id|] eqn:Hid; [|done]. cbn. f_equal.
    assert (o ∉ versions id) as Hno.
    { intros Hin. apply Hf. destruct (wf_version _ _ Hw i id o Hid Hin) as (ob & Hob & <-). by rewrite Hob. }
    clear Hid. induction (versions id) as [|v vs IH]; [done|]. apply not_elem_of_cons in Hno as [? ?].
    rewrite filter_cons_True by auto. f_equal. auto.
Qed.

(** Deleting an identity with all its versions *)
Lemma wf_delete_identity w i :
  wf w -> chain_below i [] w -> i ∉ lookup (loader w) -> wf (w <| identities ::= delete i |>).
Proof.
  intros [Hv Hnd Hobj Hx Hno Hni Hlk Hlnd] Hb Hl. split; cbn; try done.
  - intros j id o [_ Hid]%lookup_delete_Some. eauto.
  - intros j id [_ Hid]%lookup_delete_Some. eauto.
  - intros o ob Hob. destruct (Hobj o ob Hob) as (id & Hid & [Hin|]); [|done]. exists id. split; [|by left].
    rewrite lookup_delete_ne; [done|]. intros ->. apply (Hb id Hid) in Hin. by apply not_elem_of_nil in Hin.
  - intros j [id [_ Hid]%lookup_delete_Some]. eauto.
  - intros j Hj. rewrite lookup_delete_ne; [by apply Hlk|]. by intros <-.
Qed.
Lemma identity_destroy_wf i :
  hoare (fun w => wf w /\ i ∉ lookup (loader w)) (Identity.destroy kernel reset_address i) (fun _ => wf).
Proof.
  intros w r w' [Hw Hl] Hr. unfold Identity.destroy in Hr.
  apply bind_Ok in Hr as (id & w0 & [Hid ->]%get_identity_Ok & Hr).
  apply bind_Ok in Hr as (c & w0 & [_ <-]%Ok_inj & Hr). apply bind_Ok in Hr as (l & w0 & [_ <-]%Ok_inj & Hr).
  apply bind_Ok in Hr as (? & w1 & Hr1 & Hr).
  assert ((wf w1 /\ chain_below i (versions id) w1) /\ lookup_is (lookup (loader w)) w1) as [Hw1 Hl1].
  { eapply (keeps_run (fun w1 => (wf w1 /\ chain_below i (versions id) w1) /\ lookup_is (lookup (loader w)) w1)); [|split_and!; try done|exact Hr1].
    - solve_stable.
    - intros id' Hid'. rewrite Hid in Hid'. by injection Hid' as ->. }
  clear Hr1 Hw Hid. apply bind_Ok in Hr as (? & w2 & Hr2 & Hr). apply Ok_inj in Hr as [_ <-].
  assert (lookup_is (lookup (loader w)) w2) as Hl2.
  { eapply (keeps_run (lookup_is (lookup (loader w)))); [|exact Hl1|exact Hr2]. apply keeps_mfor. intros o.
    apply (keeps_object_destroy_lookup kernel). }
  assert (forall vs, hoare (fun w => wf w /\ chain_below i vs w) (mfor vs (Object.destroy kernel reset_address)) (fun _ w => wf w /\ chain_below i [] w)) as Hm.
  { induction vs as [|v vs IH]; cbn [mfor]; [by intros ? ? ? ? [_ <-]%Ok_inj|].
    eapply hoare_bind; [apply object_destroy_wf; by left|]. intros ?. apply IH. }
  apply Hm in Hr2 as [Hw2 Hb2]; [|exact Hw1]. apply wf_delete_identity; [done|done|]. unfold lookup_is in Hl2. by rewrite Hl2.
Qed.

Lemma pop_back_wf : keeps wf (pop_back kernel).
Proof.
  intros w r w' Hw Hr. unfold pop_back in Hr. apply bind_Ok in Hr as (l & w0 & [<- <-]%Ok_inj & Hr).
  destruct (last (lookup (loader w))) as [y|] eqn:Hlast; [|by apply Ok_inj in Hr as [_ <-]].
  apply bind_Ok in Hr as ([] & w1 & [_ <-]%Ok_inj & Hr). eapply identity_destroy_wf; [|exact Hr].
  apply last_Some in Hlast as [l' Hl']. destruct Hw as [Hv Hnd Hobj Hx Hno Hni Hlk Hlnd].
  assert (removelast (lookup (loader w)) = l') as Hrem by (by rewrite Hl', removelast_last).
  rewrite Hl' in Hlnd. apply NoDup_app in Hlnd as (Hn1 & Hn2 & _).
  split; [split|]; cbn; rewrite ?Hrem; try done.
  - intros j Hj. apply Hlk. rewrite Hl'. apply elem_of_app. by left.
  - intros Hin. apply (Hn2 _ Hin). by apply list_elem_of_singleton.
Qed.

(** * Loading a version *)

Ltac typed_step :=
  first
    [ lazymatch goal with |- keeps _ (let _ := _ in _) => cbv zeta end
    | apply wt_construct | apply wt_patchable | apply wt_preload | apply wt_fix | apply wt_preprepare | apply wt_prepare
    | apply wt_update | apply wt_initialize | apply discard_wf | stable_step ].
Ltac typed := repeat typed_step.

Lemma new_wf i k data : hoare wf (new i k data) (fun o => wf_but (Some (o, i))).
Proof.
  intros w o w' Hw Hr. unfold new in Hr.
  apply bind_Ok in Hr as (id & w0 & [Hid ->]%get_identity_Ok & Hr).
  apply bind_Ok in Hr as (? & w0 & Ha & Hr). assert (w0 = w) as -> by (unfold assert in Ha; by destruct (negb _); [injection Ha|]).
  apply bind_Ok in Hr as (tr & w0 & [_ <-]%Ok_inj & Hr). apply bind_Ok in Hr as (o' & w0 & [<- <-]%Ok_inj & Hr).
  apply bind_Ok in Hr as (? & w1 & [_ <-]%Ok_inj & Hr). apply bind_Ok in Hr as (? & w2 & Hc & [<- <-]%Ok_inj).
  eapply wt_construct; [|exact Hc]. apply wf_insert_object; [done|by rewrite Hid|done].
Qed.
Lemma compatible_wf x i o : keeps (wf_but x) (compatible kernel i o).
Proof. unfold compatible, load_debug_symbols, query_debug_hash, patchable, get_config. typed. Qed.
Lemma install_wf i o type first : keeps wf (install i o type first).
Proof. unfold install, fix_, preprepare, Object.prepare. typed. Qed.

Lemma map_wf o : keeps wf (Object.map kernel o).
Proof. unfold Object.map, segment_indices. typed. Qed.
Lemma preload_wf o : keeps wf (Object.preload o).
Proof. unfold Object.preload. typed. Qed.

Lemma create_wf i data type : keeps wf (create kernel reset_address i data type).
Proof.
  unfold create. repeat first [ apply keeps_bind; [apply keeps_get_identity || apply keeps_gets || apply keeps_get|intros ?] ].
  destruct (_ && existsb _ _); [apply keeps_ret|]. destruct (object_kind _ _ _) as [k|]; [|apply keeps_ret].
  destruct (new_object _ _); [|apply keeps_ret]. eapply hoare_bind; [apply new_wf|]. intros o. cbn [negb].
  set (P := wf_but (Some (o, i))).
  eapply (hoare_bind _ _ (fun _ => P)); [apply keeps_get_identity|intros id].
  eapply (hoare_bind _ _ (fun _ => P)); [apply keeps_gets|intros tr].
  eapply (hoare_bind _ _ (fun _ => P)); [apply keeps_assert|intros []].
  eapply (hoare_bind _ _ (fun _ => P)); [destruct (_ && _); [apply compatible_wf|apply keeps_ret]|intros []]; cbn [negb].
  - eapply (hoare_bind _ _ (fun _ => wf)); [apply wf_push|intros []].
    lazymatch goal with |- hoare _ ?m _ => change (keeps wf m) end.
    repeat first [ apply preload_wf | apply map_wf | apply install_wf | typed_step ].
  - eapply (hoare_bind _ _ (fun _ => wf)); [apply object_destroy_new|intros []; apply keeps_ret].
Qed.

Lemma load_wf i addr type : keeps wf (load kernel reset_address i addr type).
Proof.
  unfold load, open, open_file, debug_memfd, watch, status, hook_refresh, get_config, get_loader.
  repeat first [ apply create_wf | typed_step ].
Qed.

(** * Opening libraries *)

Lemma wf_insert_identity w id :
  wf w -> versions id = [] ->
  (wf (w <| next_id ::= Z.succ |> <| identities ::= <[next_id w := id]> |>)
   /\ identity_exists (next_id w) (w <| next_id ::= Z.succ |> <| identities ::= <[next_id w := id]> |>))
  /\ not_loaded (next_id w) (w <| next_id ::= Z.succ |> <| identities ::= <[next_id w := id]> |>).
Proof.
  intros [Hv Hnd Hobj Hx Hno Hni Hlk Hlnd] Hvs. set (i := next_id w).
  assert (identities w !! i = None) as Hnone.
  { apply eq_None_not_Some. intros Hs. apply Hni in Hs. unfold i in Hs. lia. }
  split; [split|].
  - split; cbn; try done.
    + intros j id' o Hid Hin. destruct (decide (j = i)) as [->|Hne].
      * rewrite lookup_insert_eq in Hid. injection Hid as <-. rewrite Hvs in Hin. by apply not_elem_of_nil in Hin.
      * rewrite lookup_insert_ne in Hid by done. eauto.
    + intros j id' Hid. destruct (decide (j = i)) as [->|Hne].
      * rewrite lookup_insert_eq in Hid. injection Hid as <-. rewrite Hvs. constructor.
      * rewrite lookup_insert_ne in Hid by done. eauto.
    + intros o ob Hob. destruct (Hobj o ob Hob) as (id' & Hid & Hin). exists id'. split; [|done].
      rewrite lookup_insert_ne; [done|]. intros Heq. rewrite <- Heq in Hid. congruence.
    + intros o Ho. apply Hno in Ho. lia.
    + intros j Hj. destruct (decide (j = i)) as [->|Hne]; [unfold i; lia|].
      rewrite lookup_insert_ne in Hj by done. apply Hni in Hj. lia.
    + intros j Hj. apply Hlk in Hj. destruct (decide (j = i)) as [->|Hne]; [by rewrite lookup_insert_eq|by rewrite lookup_insert_ne].
  - unfold identity_exists. cbn. by rewrite lookup_insert_eq.
  - unfold not_loaded. cbn. intros Hin. apply Hlk in Hin as [? Hin]. congruence.
Qed.

Lemma construct_wf f p n alt :
  hoare wf (Identity.construct kernel f p n alt) (fun i w => (wf w /\ identity_exists i w) /\ not_loaded i w).
Proof.
  intros w i w' Hw Hr. unfold Identity.construct in Hr.
  apply bind_Ok in Hr as (? & w0 & Ha & Hr). assert (w0 = w) as -> by (unfold assert in Ha; by destruct (negb _); [injection Ha|]).
  apply bind_Ok in Hr as (c & w0 & [_ <-]%Ok_inj & Hr). apply bind_Ok in Hr as (i' & w0 & [<- <-]%Ok_inj & Hr).
  destruct (initial_flags c f) as [f'|]; [|done].
  apply bind_Ok in Hr as (tr & w0 & [_ <-]%Ok_inj & Hr). destruct p as [p|].
  - cbv zeta in Hr. apply bind_Ok in Hr as (? & w1 & [_ <-]%Ok_inj & Hr). apply bind_Ok in Hr as (? & w2 & Hr2 & [<- <-]%Ok_inj).
    eapply (keeps_run (fun w1 => (wf w1 /\ identity_exists (next_id w) w1) /\ not_loaded (next_id w) w1)); [| |exact Hr2].
    + solve_stable.
    + by apply wf_insert_identity.
  - cbv zeta in Hr. apply bind_Ok in Hr as (? & w1 & [_ <-]%Ok_inj & [<- <-]%Ok_inj). by apply wf_insert_identity.
Qed.

Lemma insert_before_Permutation p x l : insert_before p x l ≡ₚ x :: l.
Proof.
  induction l as [|y l IH]; cbn; [done|]. case_decide; [done|]. rewrite IH. apply Permutation_swap.
Qed.
Lemma wf_new_library w i l :
  wf w -> identity_exists i w -> not_loaded i w -> l ≡ₚ i :: lookup (loader w) -> wf (w <| loader ::= fun k => k <| lookup := l |> |>).
Proof.
  intros [Hv Hnd Hobj Hx Hno Hni Hlk Hlnd] Hi Hn Hl. split; cbn; try done.
  - intros j. rewrite Hl. intros [->|Hj]%elem_of_cons; [exact Hi|auto].
  - rewrite Hl. by apply NoDup_cons.
Qed.
Lemma emplace_wf pos i :
  hoare (fun w => (wf w /\ identity_exists i w) /\ not_loaded i w) (emplace pos i) (fun _ => wf).
Proof.
  intros w r w' [[Hw Hi] Hn] Hr. unfold emplace in Hr. apply bind_Ok in Hr as (l & w0 & [<- <-]%Ok_inj & Hr).
  destruct pos as [p|].
  - apply bind_Ok in Hr as (? & w0 & Ha & [_ <-]%Ok_inj). assert (w0 = w) as -> by (unfold assert in Ha; by destruct (bool_decide _); [injection Ha|]).
    apply (wf_new_library w i (insert_before p i (lookup (loader w)))); [done..|]. apply insert_before_Permutation.
  - apply Ok_inj in Hr as [_ <-]. apply (wf_new_library w i (lookup (loader w) ++ [i])); [done..|].
    rewrite (Permutation_app_comm _ [i]). done.
Qed.

Lemma notify_wf s : keeps wf (GDB.notify s).
Proof. unfold GDB.notify. typed. Qed.
Lemma refresh_wf : keeps wf GDB.refresh.
Proof. unfold GDB.refresh. typed. Qed.

(** The branch for one file *)
Lemma open_elf_wf f filepath n alt (pos : option Z) (first : Loader -> bool) addr type :
  keeps wf
    (GDB.notify RT_ADD ;;
     l ← get_loader;
     i ← Identity.construct kernel f (Some filepath) n alt;
     emplace (if bool_decide (is_Some pos) then dependencies l else None) i ;;
     (if first l then set_loader (fun l => l <| dependencies := Some i |>) else mret tt) ;;
     o ← load kernel reset_address i addr type;
     GDB.refresh ;;
     GDB.notify RT_CONSISTENT ;;
     match o with
     | Some _ => mret (Some i)
     | None => pop_back kernel ;; mret None
     end).
Proof.
  apply keeps_bind; [apply notify_wf|intros _]. apply keeps_bind; [apply keeps_gets|intros l].
  eapply hoare_bind; [apply construct_wf|]. intros i. eapply hoare_bind; [apply emplace_wf|]. intros ?. cbn beta.
  lazymatch goal with |- hoare _ ?m _ => change (keeps wf m) end.
  repeat first [ apply load_wf | apply notify_wf | apply refresh_wf | apply pop_back_wf | typed_step ].
Qed.

Lemma open_wf fuel filepath f priority n addr type alt :
  keeps wf (Loader.open kernel fuel filepath f priority n addr type alt).
Proof.
  revert filepath f priority n addr type alt; induction fuel as [|fuel IH]; intros; cbn [Loader.open]; [apply keeps_no_fuel|].
  apply keeps_bind; [apply keeps_gets|intros tr]. destruct (_ || _); [|apply keeps_ret].
  apply keeps_bind; [unfold get_loader; typed|]. intros m. cbv zeta. destruct (if negb _ then _ else _).
  - pose proof (open_elf_wf f filepath m alt (if priority then Some 0 else None)
      (fun l => negb priority && bool_decide (dependencies l = None)) addr type) as Ho. by destruct priority.
  - destruct (archive tr filepath) as [entries|]; [|apply keeps_ret].
    generalize (None : option Z). induction entries as [|e l IHl]; intros obj; [apply keeps_ret|].
    destruct (is_regular e); [|apply IHl].
    repeat first [ apply IH | apply IHl | typed_step ].
  - apply keeps_ret.
Qed.

Lemma library_wf fuel filename f priority rpath runpath n do_load :
  keeps wf (library kernel fuel filename f priority rpath runpath n do_load).
Proof.
  unfold library. apply keeps_bind; [apply keeps_get|intros w]. cbv zeta.
  assert (forall dirs, keeps wf (search kernel fuel filename dirs f priority n)) as Hs.
  { induction dirs as [|d dirs IHd]; cbn; [apply keeps_ret|]. unfold open_in.
    apply keeps_bind; [apply open_wf|]. intros [i|]; [apply keeps_ret|exact IHd]. }
  repeat first [ apply Hs | apply open_wf | keeps_step ].
Qed.

(** * Preparing, updating and the functions for programs *)

Lemma id_prepare_wf fuel i : keeps wf (id_prepare fuel i).
Proof.
  revert i; induction fuel as [|fuel IH]; intros i; cbn [id_prepare]; [apply keeps_no_fuel|].
  unfold Object.prepare. repeat first [ apply IH | typed_step ].
Qed.
Lemma id_initialize_wf fuel i : keeps wf (id_initialize fuel i).
Proof.
  revert i; induction fuel as [|fuel IH]; intros i; cbn [id_initialize]; [apply keeps_no_fuel|].
  unfold Object.initialize. repeat first [ apply IH | typed_step ].
Qed.
Lemma id_update_wf i : keeps wf (id_update i).
Proof.
  assert (forall vs b, keeps wf (update_versions vs b)) as Hu.
  { intros vs b. induction vs as [|o vs IH]; cbn; [apply keeps_ret|]. unfold Object.update.
    repeat first [ apply IH | typed_step ]. }
  unfold id_update, call_serialize, hook_refresh. repeat first [ apply Hu | typed_step ].
Qed.

Lemma relocate_wf `{Boot} upd : keeps wf trampoline_update -> keeps wf (relocate kernel upd).
Proof.
  intros Ht. unfold relocate, all_fuel, id_preprepare, id_finalize, Object.preprepare, Object.finalize, segment_indices, get_loader.
  repeat first [ exact Ht | apply id_prepare_wf | apply id_update_wf | typed_step ].
Qed.

Lemma dlopen_wf fuel file f n do_load : keeps wf (dlopen kernel fuel file f n do_load).
Proof.
  unfold dlopen, all_fuel, get_loader.
  repeat first [ apply library_wf | apply id_prepare_wf | apply id_initialize_wf | typed_step ].
Qed.
Lemma load_helper_wf fuel i addr : keeps wf (Helper.load_helper kernel fuel i addr).
Proof.
  revert i addr; induction fuel as [|fuel IH]; intros; cbn [Helper.load_helper]; [apply keeps_no_fuel|].
  repeat first [ apply load_wf | apply IH | typed_step ].
Qed.
Lemma loader_update_wf `{Boot} : keeps wf trampoline_update -> keeps wf (loader_update kernel).
Proof.
  intros Ht. unfold loader_update.
  repeat first [ apply notify_wf | apply refresh_wf | apply relocate_wf; exact Ht | typed_step ].
Qed.

(** C21: The data of the loader stays well-formed, whatever a run does -- succeeds, fails and takes back what it
    did, opens libraries while it loads one --: opening a library for a program, an update of everything
    that is loaded, and the helper thread's load of a new version lead from well-formed worlds to
    well-formed worlds.  In these every version of an identity is an object of this identity, every object is in
    exactly one chain and there once, the list of libraries has no duplicates and no dangling entries, and no
    number is used twice.  The dependencies of objects, the list of the debugger and the symbols of relocations are
    not part of this: the loader destroys identities they may refer to (LoaderProofs.v). *)
Theorem world_stays_well_formed `{Boot} (Ht : keeps wf trampoline_update) w :
  wf w ->
  (forall fuel file f n do_load r w', dlopen kernel fuel file f n do_load w = Ok (r, w') -> wf w')
  /\ (forall r w', loader_update kernel w = Ok (r, w') -> wf w')
  /\ (forall fuel i addr r w', Helper.load_helper kernel fuel i addr w = Ok (r, w') -> wf w').
Proof.
  intros Hw. split_and!; intros.
  - by eapply dlopen_wf.
  - by eapply loader_update_wf.
  - by eapply load_helper_wf.
Qed.
End loader.
End WellFormedProofs.
