(* ===== verification/ObjectsProofs.v ===== *)
(** The objects of the loader (Objects.v) keep what the traversals of the object graph rely on: relocating a dynamic
    object, an object file or an executable returns, changes neither the graph nor a status, and calls
    no virtual function of another object. *)
From S2P Require Import Prelude Platform Segment Symbol Tls World Object Identity Gdb Loader Helper Executable Dynamic Relocatable Objects Samples WorldProofs GraphProofs FrameProofs PhaseProofs WellFormedProofs.

Module ObjectsProofs.
Import World Object Objects WorldProofs GraphProofs FrameProofs PhaseProofs WellFormedProofs Samples.

(** * What the parts outside of the objects promise *)

(** Trampolines, redirections and the comparison library change nothing of the loader's own state; the latter
    calls what it is given. *)
Class QuietParts `{Dynamic.DynEnv} `{Relocatable.RelEnv} : Prop := {
  framed_trampoline_set w0 s : keeps (frame w0) (Relocatable.trampoline_set s);
  ends_trampoline_set s : ends (Relocatable.trampoline_set s);
  quiet_redirect_add o a t n st : quiet (Dynamic.redirect_add o a t n st);
  ends_redirect_add o a t n st : ends (Dynamic.redirect_add o a t n st);
  quiet_bean_update f from to redirect relocate :
    (forall a b c, quiet (redirect a b c)) -> (forall r s, quiet (relocate r s)) ->
    quiet (Dynamic.bean_update f from to redirect relocate);
  ends_bean_update f from to redirect relocate :
    (forall a b c, ends (redirect a b c)) -> (forall r s, ends (relocate r s)) ->
    ends (Dynamic.bean_update f from to redirect relocate);
}.

(** * Relocating an object returns *)

Section segment.
Context `{DlhMath} (kernel : kernel_t) (hex : Z -> string).
Lemma ends_map c : ends (MemorySegment.map hex kernel c).
Proof. unfold MemorySegment.map, MemorySegment.shmemfd. world_ends. Qed.
Lemma ends_compose c : ends (MemorySegment.compose hex kernel c).
Proof. unfold MemorySegment.compose. repeat (apply ends_map || world_ends_step). Qed.
End segment.

Section objects.
Context `{DlhMath} (kernel : kernel_t) `{ObjectOps} `{Env} `{Symbol.StringOps} `{Executable.ElfSegments}
  `{Dynamic.ElfTables} `{Dynamic.RelocatorOps} `{Dynamic.DynEnv} `{Relocatable.RelEnv} `{!QuietParts}.

Ltac object_ends_step := first [ apply ends_compose | apply ends_map | apply ends_trampoline_set | apply ends_redirect_add | world_ends_step ].

Lemma ends_datarel_key o ob seg a : ends (Dynamic.datarel_key o ob seg a).
Proof. unfold Dynamic.datarel_key, is_latest_version. repeat object_ends_step. Qed.
Lemma ends_fix_value o r seg key value : ends (Dynamic.fix_value kernel o r seg key value).
Proof. unfold Dynamic.fix_value, Dynamic.write_base. repeat object_ends_step. Qed.
Lemma ends_dyn_relocate o r f : ends (Dynamic.relocate kernel o r f).
Proof.
  unfold Dynamic.relocate, Dynamic.relocate_value, Dynamic.relocate_symbol.
  repeat (apply ends_datarel_key || apply ends_fix_value || object_ends_step).
Qed.
Lemma ends_relocate_all o rs error : ends (Dynamic.relocate_all kernel o rs error).
Proof. revert error. induction rs as [|r rs IH]; intros error; cbn; repeat (apply ends_dyn_relocate || apply IH || object_ends_step). Qed.
Lemma ends_dyn_prepare o : ends (Dynamic.prepare kernel o).
Proof. unfold Dynamic.prepare. repeat (apply ends_relocate_all || object_ends_step). Qed.
Lemma ends_dyn_update o : ends (Dynamic.update kernel o).
Proof.
  assert (forall rs, ends (Dynamic.update_relocations kernel o rs)) as Hr.
  { induction rs as [|[r s] rs IH]; cbn; [done|]. unfold is_latest_version.
    repeat (apply ends_dyn_relocate || apply IH || object_ends_step). }
  unfold Dynamic.update, is_latest_version.
  repeat first [ apply Hr | apply ends_bean_update; intros; unfold Dynamic.update_redirect, Dynamic.update_relocate, Dynamic.write_base
               | object_ends_step ].
Qed.

Lemma ends_store_all a bs : ends (Relocatable.store_all a bs).
Proof. revert a. induction bs as [|b bs IH]; intros a; cbn; repeat (apply IH || object_ends_step). Qed.
Lemma ends_relocate_local o ob id r s p : ends (Relocatable.relocate_local o ob id r s p).
Proof. unfold Relocatable.relocate_local, is_latest_version. repeat object_ends_step. Qed.
Lemma ends_rel_relocate o r p : ends (Relocatable.relocate o r p).
Proof.
  unfold Relocatable.relocate, Relocatable.relax_instruction, Relocatable.call_ifunc, Relocatable.external_value.
  repeat (apply ends_store_all || apply ends_relocate_local || object_ends_step).
Qed.
Lemma ends_relocate_first o rs : ends (Relocatable.relocate_first o rs).
Proof. induction rs as [|r rs IH]; cbn; repeat (apply ends_rel_relocate || apply IH || object_ends_step). Qed.
Lemma ends_relocate_postponed o rs : ends (Relocatable.relocate_postponed o rs).
Proof. induction rs as [|r rs IH]; cbn; repeat (apply ends_rel_relocate || apply IH || object_ends_step). Qed.
Lemma ends_rel_prepare o : ends (Relocatable.prepare o).
Proof.
  unfold Relocatable.prepare, Relocatable.get_rel, Relocatable.write_eh_header.
  repeat (apply ends_relocate_first || apply ends_relocate_postponed || apply ends_store_all || object_ends_step).
Qed.
Lemma ends_rel_update o : ends (Relocatable.update o).
Proof.
  assert (forall rs, ends (Relocatable.update_relocations o rs)) as Hr.
  { induction rs as [|[r s] rs IH]; cbn; [done|]. unfold is_latest_version.
    repeat (apply ends_rel_relocate || apply IH || object_ends_step). }
  unfold Relocatable.update. repeat (apply Hr || object_ends_step).
Qed.
Lemma ends_prepare_commons o l g c : ends (Relocatable.prepare_commons o l g c).
Proof.
  revert g c. induction l as [|s l IH]; intros g c; cbn; [done|]. unfold Relocatable.prepare_common, Loader.next_address.
  repeat (apply IH || object_ends_step).
Qed.
Lemma ends_rel_preprepare o : ends (Relocatable.preprepare kernel o).
Proof. unfold Relocatable.preprepare. repeat (apply ends_prepare_commons || object_ends_step). Qed.
(** * Relocating an object is confined to it *)

Lemma framed_write_base w o seg d : keeps (frame w) (Dynamic.write_base kernel o seg d).
Proof. unfold Dynamic.write_base. repeat (apply framed_compose || keeps_step). Qed.
Lemma quiet_write_base o seg d : quiet (Dynamic.write_base kernel o seg d).
Proof. apply quiet_framed. intros w. apply framed_write_base. Qed.
Lemma quiet_update_redirect p a b c : quiet (Dynamic.update_redirect p a b c).
Proof.
  apply keeps_quiet. intros w. unfold Dynamic.update_redirect.
  repeat ((apply quiet_keeps; apply quiet_redirect_add) || wkeeps_step).
Qed.
Lemma quiet_update_relocate p o r s : quiet (Dynamic.update_relocate kernel p o r s).
Proof.
  apply keeps_quiet. intros w. unfold Dynamic.update_relocate.
  repeat ((apply quiet_keeps; apply quiet_write_base) || (apply ran_emit; done) || apply keeps_get_object || apply keeps_get_identity || keeps_step).
Qed.
Lemma quiet_dyn_update o : quiet (Dynamic.update kernel o).
Proof.
  apply keeps_quiet. intros w. unfold Dynamic.update, is_latest_version.
  repeat first
    [ apply quiet_keeps, quiet_framed; intros ?; apply framed_update_relocations
    | apply quiet_keeps, quiet_bean_update; intros; [apply quiet_update_redirect|apply quiet_update_relocate]
    | apply keeps_get_object | apply keeps_get_identity | keeps_step ].
Qed.
Lemma framed_rel_update o w : keeps (frame w) (Relocatable.update o).
Proof.
  unfold Relocatable.update.
  assert (forall rs, keeps (frame w) (Relocatable.update_relocations o rs)) as Hr.
  { induction rs as [|[r s] rs IH]; cbn; [apply keeps_ret|]. unfold is_latest_version.
    repeat first [ apply framed_rel_relocate; intros; apply framed_trampoline_set | apply IH
                 | apply keeps_get_object | apply keeps_get_identity | keeps_step ]. }
  repeat (apply Hr || apply keeps_get_object || keeps_step).
Qed.
Lemma quiet_rel_update o : quiet (Relocatable.update o).
Proof. apply quiet_framed. intros w. apply framed_rel_update. Qed.

(** Pre-preparation adds memory and symbols to the object. *)
Lemma quiet_map o k : quiet (on_segment o k (MemorySegment.map hex kernel)).
Proof. apply quiet_framed. intros w. apply framed_on_segment. intros. apply placed_map. Qed.
Lemma quiet_next_address n : quiet (Loader.next_address n).
Proof. apply keeps_quiet. intros w. unfold Loader.next_address. repeat ((apply ran_loader; done) || keeps_step). Qed.
Lemma quiet_rel_preprepare o : quiet (Relocatable.preprepare kernel o).
Proof.
  apply keeps_quiet. intros w.
  assert (forall l g c, keeps (ran [] w) (Relocatable.prepare_commons o l g c)) as Hc.
  { induction l as [|s l IH]; intros g c; cbn; [apply keeps_ret|]. unfold Relocatable.prepare_common, Relocatable.set_rel.
    repeat first [ apply IH | apply quiet_keeps, quiet_next_address | apply ran_object; done | apply keeps_get_object | keeps_step ]. }
  unfold Relocatable.preprepare, Relocatable.set_rel.
  repeat first [ apply Hc | apply quiet_keeps, quiet_map | apply ran_object; done | apply keeps_get_object | keeps_step ].
Qed.

(** The status of the objects is that of the traversal. *)
Abbreviation status_is s := (fun w => forall x, status_of w x = s x).
Lemma keeps_status_object s o f : (forall x, o_status (f x) = o_status x) -> keeps (status_is s) (set_object o f).
Proof.
  intros Hf. apply keeps_modify. intros w Hw x. rewrite <- Hw. unfold status_of. cbn.
  destruct (decide (x = o)) as [->|Hne]; [|by rewrite lookup_alter_ne].
  rewrite lookup_alter_eq. destruct (objects w !! o); cbn; [by rewrite Hf|done].
Qed.
Lemma keeps_status_framed {A} s (m : M world A) : (forall w, keeps (frame w) m) -> keeps (status_is s) m.
Proof.
  intros Hm w a w' Hw Hr x. rewrite <- Hw. apply (Hm w) in Hr; [|done]. by apply (frame_object_field o_status w w' x Hr).
Qed.
Lemma status_rel_preprepare o s : keeps (status_is s) (Relocatable.preprepare kernel o).
Proof.
  assert (forall k, keeps (status_is s) (on_segment o k (MemorySegment.map hex kernel))) as Hm.
  { intros k. apply keeps_status_framed. intros w. apply framed_on_segment. intros. apply placed_map. }
  assert (forall l g c, keeps (status_is s) (Relocatable.prepare_commons o l g c)) as Hc.
  { induction l as [|y l IH]; intros g c; cbn; [apply keeps_ret|].
    unfold Relocatable.prepare_common, Relocatable.set_rel, Loader.next_address, set_loader.
    repeat first [ apply IH | apply keeps_status_object; done | apply keeps_get_object | apply keeps_modify; done | keeps_step ]. }
  unfold Relocatable.preprepare, Relocatable.set_rel.
  repeat first [ apply Hc | apply Hm | apply keeps_status_object; done | apply keeps_get_object | keeps_step ].
Qed.

(** * The virtual functions *)

Lemma keeps_by_kind {A} P o (d : bool -> M world A) e r :
  (forall b, keeps P (d b)) -> keeps P e -> keeps P r -> keeps P (by_kind o d e r).
Proof. intros. unfold by_kind. repeat (apply keeps_get_object || keeps_step); done. Qed.
Lemma ends_by_kind {A} o (d : bool -> M world A) e r :
  (forall b, ends (d b)) -> ends e -> ends r -> ends (by_kind o d e r).
Proof. intros. unfold by_kind. repeat (apply ends_get_object || ends_step); done. Qed.
Lemma quiet_by_kind {A} o (d : bool -> M world A) e r :
  (forall b, quiet (d b)) -> quiet e -> quiet r -> quiet (by_kind o d e r).
Proof. intros. apply keeps_quiet. intros w. apply keeps_by_kind; intros; by apply quiet_keeps. Qed.
Lemma quiet_ret {A} (a : A) : quiet (mret a).
Proof. apply keeps_quiet. intros w. apply keeps_ret. Qed.
End objects.

Section instances.
Context `{DlhMath} (kernel : kernel_t) `{Env} `{Symbol.StringOps} `{Executable.ElfSegments}
  `{Dynamic.ElfTables} `{Dynamic.RelocatorOps} `{Dynamic.DynEnv} `{Relocatable.RelEnv} `{!QuietParts}.

Lemma framed_object_prepare n o w : keeps (frame w) (v_prepare (ObjectOps := object_ops kernel (S n)) o).
Proof.
  cbn. apply keeps_by_kind; [intros _; apply framed_prepare|apply keeps_ret|].
  apply framed_rel_prepare. intros. apply framed_trampoline_set.
Qed.

#[export] Instance objects_prepare_quietly n : PreparesQuietly (object_ops kernel (S n)).
Proof.
  split.
  - intros o w b w' Hr. apply (framed_object_prepare n o w) in Hr as Hf; [|done].
    pose proof (frame_ran _ _ Hf) as R. split_and!; [apply R| |].
    + intros x. by apply (frame_object_field o_status w w' x Hf).
    + apply (ran_calls V_prepare []) in R. by rewrite app_nil_r in R.
  - intros o. cbn. apply ends_by_kind; [intros _; apply ends_dyn_prepare|done|apply ends_rel_prepare].
Qed.

#[export] Instance objects_confined n : Confined (object_ops kernel (S n)).
Proof.
  split; intros o.
  - apply quiet_by_kind; [intros _; apply quiet_ret|apply quiet_ret|apply quiet_rel_preprepare].
  - intros s. apply keeps_by_kind; [intros _; apply keeps_ret|apply keeps_ret|apply status_rel_preprepare].
  - apply quiet_framed. intros w. apply framed_object_prepare.
  - apply quiet_by_kind; [intros _; exact (quiet_dyn_update kernel o)|apply quiet_ret|apply quiet_rel_update].
  - apply ends_by_kind; [done|done|apply ends_rel_preprepare].
  - apply ends_by_kind; [intros _; exact (ends_dyn_update kernel o)|done|apply ends_rel_update].
Qed.
End instances.

(** * Objects keep the loader's data well-formed *)

(** What the parts outside of the objects promise in addition *)
Class TypedParts `{Dynamic.DynEnv} `{Relocatable.RelEnv} : Prop := {
  typed_run_init o b x : keeps (wf_but x) (Dynamic.run_init o b);
  typed_glibc_init o P `{!Stable P} : keeps P (Dynamic.glibc_init_object o);
  typed_glibc_patch o P `{!Stable P} : keeps P (Dynamic.glibc_patch o);
  typed_redirect_add o a t n s x : keeps (wf_but x) (Dynamic.redirect_add o a t n s);
  typed_bean_update f from to redirect relocate x :
    (forall a b c, keeps (wf_but x) (redirect a b c)) -> (forall r s, keeps (wf_but x) (relocate r s)) ->
    keeps (wf_but x) (Dynamic.bean_update f from to redirect relocate);
}.

Lemma frame_same_shape w w' : frame w w' -> same_shape w w'.
Proof.
  intros Hf. split_and!; [intros i|intros o|apply Hf|by rewrite (f_loader _ _ Hf)].
  - by apply (frame_identity_field versions w w' i Hf).
  - by apply (frame_object_field o_file w w' o Hf).
Qed.
Lemma framed_stable {A} P `{!Stable P} (m : M world A) : (forall w, keeps (frame w) m) -> keeps P m.
Proof. intros Hm w a w' Hw Hr. eapply stable; [|exact Hw]. apply frame_same_shape. by eapply (Hm w); [|exact Hr]. Qed.

Section typed.
Context `{DlhMath} (kernel : kernel_t) {sub : ObjectOps} `{!WellTyped sub} `{Env} `{Symbol.StringOps} `{Executable.ElfSegments}
  `{Dynamic.ElfTables} `{Dynamic.RelocatorOps} `{Dynamic.DynEnv} `{Relocatable.RelEnv} `{!QuietParts} `{!TypedParts}.

Ltac part_step :=
  first
    [ lazymatch goal with |- keeps _ (let _ := _ in _) => cbv zeta end
    | apply typed_run_init | apply typed_glibc_init; apply _ | apply typed_glibc_patch; apply _ | apply typed_redirect_add
    | apply typed_bean_update; intros | apply framed_stable; [apply _|intros; apply framed_trampoline_set]
    | stable_step ].
Ltac parts := repeat part_step.

Lemma typed_next_address P `{!Stable P} n : keeps P (Loader.next_address n).
Proof. unfold Loader.next_address. parts. Qed.
Lemma typed_on_tls {A} P `{!Stable P} (m : M TLS.world A) : keeps P (Executable.on_tls m).
Proof.
  intros w a w' Hw Hr. unfold Executable.on_tls in Hr. destruct (m _) as [[r t]| |]; [|done..].
  apply Ok_inj in Hr as [_ <-]. by eapply stable; [|exact Hw].
Qed.

(** ** Dynamic objects and executables *)

Lemma typed_preload_segments o b P `{!Stable P} : keeps P (Executable.preload_segments o b).
Proof.
  unfold Executable.preload_segments.
  assert (forall relro s, keeps P (Executable.preload_segment o relro s)) as Hs.
  { intros relro s. unfold Executable.preload_segment, Executable.load_segment, Executable.tls_segment, Executable.emplace_segment, get_loader.
    repeat first [ apply typed_on_tls; apply _ | part_step ]. }
  unfold Executable.take_over. repeat first [ apply Hs | part_step ].
Qed.
Lemma typed_dyn_construct o b P `{!Stable P} : keeps P (Dynamic.construct o b).
Proof. unfold Dynamic.construct, Dynamic.set_dyn. repeat first [ apply typed_next_address; apply _ | part_step ]. Qed.
Lemma typed_dyn_preload fuel o : keeps wf (Dynamic.preload kernel fuel o).
Proof.
  assert (forall p f, keeps wf (Dynamic.add_paths o p f)) as Hp.
  { intros p f. unfold Dynamic.add_paths, Dynamic.addpath, Dynamic.set_dyn. parts. }
  assert (forall ds, keeps wf (Dynamic.preload_entries o ds)) as He.
  { induction ds as [|d ds IH]; cbn; [apply keeps_ret|]. unfold Dynamic.preload_entry, Dynamic.set_dyn.
    repeat first [ apply Hp | apply IH | part_step ]. }
  assert (forall libs f b, keeps wf (Dynamic.load_libraries kernel fuel o f libs b)) as Hl.
  { induction libs as [|lib libs IH]; intros f b; cbn; [apply keeps_ret|]. unfold get_loader.
    repeat first [ apply library_wf | apply IH | part_step ]. }
  unfold Dynamic.preload, Dynamic.preload_libraries, Dynamic.compatibility_setup, get_config.
  repeat first [ apply typed_preload_segments; apply _ | apply He | apply Hl | part_step ].
Qed.
Lemma typed_dyn_update o : keeps wf (Dynamic.update kernel o).
Proof.
  unfold Dynamic.update, is_latest_version, Dynamic.update_redirect, Dynamic.update_relocate, get_config.
  repeat first [ apply framed_stable; [apply _|intros; apply framed_update_relocations]
               | apply framed_stable; [apply _|intros; apply framed_write_base] | part_step ].
Qed.

(** ** Relocatable objects *)

Lemma typed_rel_construct o P `{!Stable P} : keeps P (Relocatable.construct o).
Proof. unfold Relocatable.construct, Relocatable.set_rel. repeat first [ apply typed_next_address; apply _ | part_step ]. Qed.
Lemma typed_adjust_offsets o p a k P `{!Stable P} : keeps P (Relocatable.adjust_offsets o p a k).
Proof. unfold Relocatable.adjust_offsets, Relocatable.get_rel, Relocatable.set_rel. parts. Qed.
Lemma typed_preload_section o p k tls P `{!Stable P} : keeps P (Relocatable.preload_section o p k tls).
Proof.
  unfold Relocatable.preload_section, Relocatable.get_rel, Relocatable.set_rel, Relocatable.emplace_section, get_loader.
  repeat first [ apply typed_adjust_offsets; apply _ | part_step ].
Qed.
Lemma typed_preload_sections o p ks tls P `{!Stable P} : keeps P (Relocatable.preload_sections o p ks tls).
Proof.
  revert tls; induction ks as [|k ks IH]; intros tls; cbn; [apply keeps_ret|].
  apply keeps_bind; [apply typed_preload_section; apply _|]. intros ?. apply IH.
Qed.
Lemma typed_rel_preload o P `{!Stable P} : keeps P (Relocatable.preload o).
Proof.
  unfold Relocatable.preload, Relocatable.complete, Relocatable.setup_tls, get_config.
  repeat first [ apply typed_preload_sections; apply _ | apply typed_adjust_offsets; apply _ | apply typed_on_tls; apply _ | part_step ].
Qed.
Lemma typed_rel_preprepare o P `{!Stable P} : keeps P (Relocatable.preprepare kernel o).
Proof.
  assert (forall l g c, keeps P (Relocatable.prepare_commons o l g c)) as Hc.
  { induction l as [|s l IH]; intros g c; cbn; [apply keeps_ret|]. unfold Relocatable.prepare_common, Relocatable.set_rel.
    repeat first [ apply IH | apply typed_next_address; apply _ | part_step ]. }
  unfold Relocatable.preprepare, Relocatable.set_rel. repeat first [ apply Hc | part_step ].
Qed.
Lemma typed_rel_initialize o b x : keeps (wf_but x) (Relocatable.initialize o b).
Proof.
  unfold Relocatable.initialize, Relocatable.call_arrays, Relocatable.call_array, Relocatable.call_init, Relocatable.get_rel, get_loader. parts.
Qed.
End typed.

(** ** The virtual functions *)

#[export] Instance objects_well_typed `{DlhMath} (kernel : kernel_t) `{Env} `{Symbol.StringOps} `{Executable.ElfSegments}
  `{Dynamic.ElfTables} `{Dynamic.RelocatorOps} `{Dynamic.DynEnv} `{Relocatable.RelEnv} `{!QuietParts} `{!TypedParts} n :
  WellTyped (object_ops kernel n).
Proof.
  induction n as [|n IH]; [split; intros; apply keeps_no_fuel|].
  split; intros; cbn; apply keeps_by_kind; try (intros; apply keeps_ret).
  - intros b. exact (typed_dyn_construct _ b _).
  - exact (typed_rel_construct _ _).
  - intros _. unfold Dynamic.patchable, get_config. solve_stable.
  - unfold Relocatable.patchable. solve_stable.
  - intros _. exact (typed_dyn_preload kernel n o).
  - exact (typed_preload_segments _ _ _).
  - exact (typed_rel_preload _ _).
  - intros _. unfold Dynamic.fix_. repeat first [ apply typed_glibc_patch; apply _ | stable_step ].
  - exact (typed_rel_preprepare kernel _ _).
  - intros _. apply framed_stable; [apply _|]. intros w. apply framed_prepare.
  - apply framed_stable; [apply _|]. intros w. apply framed_rel_prepare. intros. apply framed_trampoline_set.
  - intros _. exact (typed_dyn_update kernel o).
  - apply framed_stable; [apply _|]. intros w. exact (framed_rel_update o w).
  - intros _. unfold Dynamic.initialize. repeat (apply typed_run_init || stable_step).
  - exact (typed_rel_initialize _ _ _).
Qed.

(** * An example: an update of the sample world *)

Lemma ex_quiet_parts : @QuietParts ex_dyn ex_rel.
Proof. split; intros; first [apply keeps_ret | by apply quiet_ret | done]. Qed.

Definition ex_load_segments : Executable.ElfSegments :=
  {| Executable.elf_segments _ := [] |}.
(** The sample world with the object file 60 as third library, before relocation *)
Definition ex_three : world :=
  (ex_world ex_config) <| loader ::= fun l => l <| lookup ::= fun k => k ++ [3] |> |>
    <| identities ::= <[3 := ex_identity "o.o" no_flags [60]]> |>
    <| objects ::= <[60 := ex_object_file <| o_file := 3 |>]> |>.
Definition ex_objects : ObjectOps :=
  object_ops (H := dlh_4k) ex_kernel (H0 := ex_env [] [] false) (H1 := Symbol.ex_strings) (H2 := ex_load_segments)
    (H3 := ex_tables) (H4 := ex_relocator) (H5 := ex_dyn) (H6 := ex_rel) 1.
Definition ex_relocate (upd : bool) : res (bool * world) :=
  Loader.relocate (H := dlh_4k) ex_kernel (H0 := ex_objects) (H1 := ex_env [] [] false) (H2 := Symbol.ex_strings)
    (H3 := ex_boot) upd ex_three.

(** The object file is relocated first, then the executable libx.so depends on, then libx.so. *)
Lemma relocate_phases_witness :
  ex_relocate true <> OutOfFuel
  /\ exists pre prep ups fins,
       ran ((pair V_preprepare <$> pre) ++ (pair V_prepare <$> prep) ++ (pair V_update <$> ups) ++ (pair V_finalize <$> fins))
         ex_three (after (ex_relocate true) ex_three)
       /\ Some pre = Some [60; 12; 11] /\ NoDup prep /\ (forall o, o ∈ [60; 12; 11] -> o ∈ prep)
       /\ pre ⊆ ups /\ fins = [60; 12; 22; 11].
Proof.
  pose proof ex_quiet_parts as Hq.
  destruct (@relocate_phases dlh_4k ex_kernel ex_objects (objects_prepare_quietly ex_kernel 0) (objects_confined ex_kernel 0)
    (ex_env [] [] false) Symbol.ex_strings ex_boot (quiet_ret tt) (ends_ret tt) true ex_three) as [He Hr].
  split; [exact He|].
  destruct (Hr true (after (ex_relocate true) ex_three) ltac:(vm_compute; reflexivity))
    as (pre & prep & ups & fins & R & Hpre & Hnd & _ & _ & Hall).
  destruct (Hall eq_refl) as (Hprep & Hups & Hfins). vm_compute in Hpre. injection Hpre as <-.
  exists [60; 12; 11], prep, ups, fins. split; [exact R|]. split; [done|]. split; [exact Hnd|].
  split; [|split; [by apply Hups|rewrite Hfins; vm_compute; reflexivity]].
  intros o Ho. apply Hprep; [exact Ho|].
  repeat (apply elem_of_cons in Ho as [->|Ho]; [vm_compute; reflexivity|]). by apply not_elem_of_nil in Ho.
Defined.

(** * An example: opening a library with the sample world *)

Lemma ex_typed_parts : @TypedParts ex_dyn ex_rel.
Proof. split; intros; apply keeps_ret. Qed.

Ltac each_entry H := repeat (apply elem_of_cons in H as [[= -> ->]|H]; [|]); try (by apply not_elem_of_nil in H).
Lemma ex_world_wf c : wf (ex_world c).
Proof.
  assert (forall i, is_Some (identities (ex_world c) !! i) -> i = 1 \/ i = 2) as Hi.
  { intros i [id Hid%elem_of_list_to_map_2]. each_entry Hid; auto. }
  assert (forall o, is_Some (objects (ex_world c) !! o) -> o = 11 \/ o = 12 \/ o = 22) as Ho.
  { intros o [ob Hob%elem_of_list_to_map_2]. each_entry Hob; auto. }
  split; try done.
  - intros i id o Hid Hin. destruct (Hi i ltac:(by rewrite Hid)) as [->| ->]; injection Hid as <-; cbn in Hin;
      repeat (apply elem_of_cons in Hin as [->|Hin]; [by eexists|]); by apply not_elem_of_nil in Hin.
  - intros i id Hid. destruct (Hi i ltac:(by rewrite Hid)) as [->| ->]; injection Hid as <-;
      apply (bool_decide_eq_true_1 _); vm_compute; reflexivity.
  - intros o ob Hob. destruct (Ho o ltac:(by rewrite Hob)) as [->|[->| ->]]; injection Hob as <-;
      (eexists; split; [reflexivity|left; apply (bool_decide_eq_true_1 _); vm_compute; reflexivity]).
  - intros o [->|[->| ->]]%Ho; cbn; lia.
  - intros i [->| ->]%Hi; cbn; lia.
  - intros i Hin. cbn in Hin. repeat (apply elem_of_cons in Hin as [->|Hin]; [by eexists|]). by apply not_elem_of_nil in Hin.
  - apply (bool_decide_eq_true_1 _). vm_compute. reflexivity.
Qed.

(** A kernel that maps memory where it is asked to *)
Definition ex_placing : kernel_t := fun tr c =>
  match c with Sys_mmap a _ _ _ _ _ => Success (if a =? 0 then 0x10000 else a) | _ => ex_kernel tr c end.
Definition ex_one_segment : Executable.ElfSegments :=
  {| Executable.elf_segments o := if o =? 101 then [(Executable.PT_LOAD, MemorySegment.Build_elf_segment 0 0x800 0 0x800 0x1000 true false false false)] else [] |}.
Definition ex_typed_objects : ObjectOps :=
  object_ops (H := dlh_4k) ex_placing (H0 := ex_env ["/lib/liby.so"%string] [] false) (H1 := Symbol.ex_strings) (H2 := ex_one_segment)
    (H3 := ex_tables) (H4 := ex_relocator) (H5 := ex_dyn) (H6 := ex_rel) 2.
Definition ex_dlopen : res (option Z * world) :=
  Loader.dlopen (H := dlh_4k) ex_placing (H0 := ex_typed_objects) (H1 := ex_env ["/lib/liby.so"%string] [] false)
    (H2 := Symbol.ex_strings) 3 (Some "liby.so"%string) no_flags NAMESPACE_BASE true (ex_world ex_config).

Definition ex_opened : world := after ex_dlopen (ex_world ex_config).

Lemma world_stays_well_formed_witness :
  ex_dlopen = Ok (Some 100, ex_opened) /\ wf ex_opened /\ lookup (loader ex_opened) = [1; 2; 100].
Proof.
  pose proof ex_quiet_parts as Hq. pose proof ex_typed_parts as Ht. split; [vm_compute; reflexivity|split].
  - destruct (@world_stays_well_formed dlh_4k ex_placing ex_typed_objects (objects_well_typed ex_placing 2)
      (ex_env ["/lib/liby.so"%string] [] false) Symbol.ex_strings ex_boot (keeps_ret _ _) (ex_world ex_config) (ex_world_wf _)) as [Hd _].
    apply (Hd 3%nat (Some "liby.so"%string) no_flags NAMESPACE_BASE true (Some 100)). vm_compute. reflexivity.
  - vm_compute. reflexivity.
Defined.
End ObjectsProofs.
