(* ===== verification/ExecutableProofs.v ===== *)
(** Theorems about the memory segments of executables and dynamic objects (Executable.v). *)
From S2P Require Import Prelude Platform Segment Symbol Tls World Object Identity Gdb Loader Helper Executable Dynamic Samples WorldProofs.

Module ExecutableProofs.
Import World Object Executable Samples.

(** * Segments *)

Section segments.
Context `{DlhMath} `{Executable.ElfSegments}.
(** A list of segments covers a range of memory without gaps and overlaps, in ascending order. *)
Fixpoint tiles (l : list segment) (start len : Z) : Prop :=
  match l with
  | [] => len = 0
  | s :: l => MemorySegment.address s = start /\ 0 <= MemorySegment.size s <= len
              /\ tiles l (start + MemorySegment.size s) (len - MemorySegment.size s)
  end.

(** The segments to load, and what is known of program headers: addresses do not wrap around, and the
    relocation read-only part is not larger than the segment it is part of. *)
Definition loads (segs : list (Z * elf_segment)) : list elf_segment :=
  snd <$> filter (fun s => s.1 = PT_LOAD /\ 0 < MemorySegment.seg_virt_size s.2) segs.
Record headers_wf (base : Z) (segs : list (Z * elf_segment)) : Prop := {
  hw_base : 0 <= base;
  hw_range g : g ∈ loads segs -> 0 <= MemorySegment.seg_virt_addr g
    /\ base + MemorySegment.seg_virt_addr g + MemorySegment.seg_virt_size g < 2^64;
  hw_relro g r : g ∈ loads segs -> relro_of segs = Some r ->
    MemorySegment.seg_virt_addr g = MemorySegment.seg_virt_addr r ->
    0 <= MemorySegment.seg_virt_size r <= MemorySegment.seg_virt_size g;
}.

Lemma of_segment_place c g base d s :
  MemorySegment.of_segment c g base d = Some s -> 0 <= base -> 0 <= d <= MemorySegment.seg_virt_size g ->
  0 <= MemorySegment.seg_virt_addr g -> base + MemorySegment.seg_virt_addr g + MemorySegment.seg_virt_size g < 2^64 ->
  MemorySegment.address s = base + MemorySegment.seg_virt_addr g + d /\ MemorySegment.size s = MemorySegment.seg_virt_size g - d.
Proof.
  unfold MemorySegment.of_segment. cbn zeta. destruct (_ <=? _); [|done]. intros [= <-] ? ? ? ?. unfold MemorySegment.address. cbn.
  rewrite !(w64_small (_ + d)), (w64_small (_ - d)) by (unfold is_u64; lia). rewrite w64_small by (unfold is_u64; lia). lia.
Qed.

(** The object after some of its program headers were processed *)
Definition progress (o : Z) (ob0 : Object) (l : list segment) (w0 w : world) : Prop :=
  (exists ob, objects w !! o = Some ob /\ o_base ob = o_base ob0 /\ o_file ob = o_file ob0 /\ o_memory_map ob = l)
  /\ (forall p, p <> o -> objects w !! p = objects w0 !! p)
  /\ (forall i, versions <$> identities w !! i = versions <$> identities w0 !! i).

Lemma emplace_segment_Ok o ob0 l w0 g d w w' :
  progress o ob0 l w0 w -> emplace_segment o g d w = Ok (tt, w') ->
  exists c s, MemorySegment.of_segment c g (o_base ob0) d = Some s /\ progress o ob0 (l ++ [s]) w0 w'.
Proof.
  intros ((ob & Hob & Hb & Hfile & Hl) & Hother & Hids) Hr. unfold emplace_segment in Hr.
  apply bind_Ok in Hr as (ob' & w1 & [Hob' ->]%get_object_Ok & Hr). assert (ob' = ob) as -> by congruence.
  apply bind_Ok in Hr as (id & w1 & [Hid ->]%get_identity_Ok & Hr).
  apply bind_Ok in Hr as (ld & w1 & [<- <-]%Ok_inj & Hr). rewrite Hb in Hr.
  destruct (MemorySegment.of_segment _ _ _ _) as [s|] eqn:Hs; [|done]. apply Ok_inj in Hr as [_ <-].
  eexists _, s. split; [exact Hs|]. split; [|split; [|exact Hids]].
  - exists (ob <| o_memory_map ::= fun m => m ++ [s] |>). cbn. rewrite lookup_alter_eq, Hob. cbn. by rewrite Hl.
  - intros p Hp. cbn. rewrite lookup_alter_ne by done. by apply Hother.
Qed.

Lemma load_segment_Ok o ob0 l w0 segs relro g w w' :
  headers_wf (o_base ob0) segs -> g ∈ loads segs -> relro = None \/ relro = relro_of segs ->
  progress o ob0 l w0 w -> load_segment o relro g w = Ok (tt, w') ->
  exists l', tiles l' (o_base ob0 + MemorySegment.seg_virt_addr g) (MemorySegment.seg_virt_size g) /\ progress o ob0 (l ++ l') w0 w'.
Proof.
  intros Hwf Hg Hrelro Hp Hr. destruct (hw_range _ _ Hwf g Hg) as [Ha He]. pose proof (hw_base _ _ Hwf) as Hb.
  assert (0 < MemorySegment.seg_virt_size g) as Hpos.
  { unfold loads in Hg. apply list_elem_of_fmap in Hg as (x & -> & Hx). by apply list_elem_of_filter in Hx as [[_ ?] _]. }
  unfold load_segment in Hr. rewrite (proj2 (Z.ltb_lt _ _)) in Hr by done.
  assert (forall v, emplace_segment o g 0 w = Ok (tt, v) ->
    exists l', tiles l' (o_base ob0 + MemorySegment.seg_virt_addr g) (MemorySegment.seg_virt_size g) /\ progress o ob0 (l ++ l') w0 v) as Hwhole.
  { intros v Hv. eapply emplace_segment_Ok in Hv as (c & s & Hs & Hp'); [|exact Hp]. exists [s]. split; [|done].
    apply of_segment_place in Hs as [H1a H2a]; [|lia..]. cbn. lia. }
  destruct relro as [r|]; [|by apply Hwhole].
  destruct (_ && _ && _) eqn:Hmatch; [|by apply Hwhole].
  rewrite !andb_true_iff, !Z.eqb_eq in Hmatch. destruct Hmatch as [[_ Hv] _].
  destruct Hrelro as [|Hrelro]; [done|]. pose proof (hw_relro _ _ Hwf g r Hg (eq_sym Hrelro) Hv) as Hrs.
  apply bind_Ok in Hr as ([] & w1 & H1r & Hr).
  eapply emplace_segment_Ok in H1r as (c & s & Hs & Hp1); [|exact Hp].
  apply of_segment_place in Hs as [Hs1 Hs2]; [|lia..].
  destruct (Z.ltb_spec 0 (w64 (MemorySegment.seg_virt_size g - MemorySegment.seg_virt_size r))) as [Hrest|Hrest].
  - apply bind_Ok in Hr as ([] & w2 & Hassert & Hr). assert (w2 = w1) as ->.
    { unfold assert in Hassert. destruct (_ =? _); [by apply Ok_inj in Hassert as [_ <-]|done]. }
    eapply emplace_segment_Ok in Hr as (c2 & s2 & Hs' & Hp2); [|exact Hp1].
    apply of_segment_place in Hs' as [Hs3 Hs4]; [|lia..].
    exists [s; s2]. split; [cbn; lia|]. by rewrite <- app_assoc in Hp2.
  - apply Ok_inj in Hr as [_ <-]. exists [s]. split; [|done]. rewrite w64_small in Hrest by (unfold is_u64; lia). cbn. lia.
Qed.

Lemma preload_segment_Ok o ob0 l w0 segs relro x w w' :
  headers_wf (o_base ob0) segs -> x ∈ segs -> relro = None \/ relro = relro_of segs ->
  progress o ob0 l w0 w -> preload_segment o relro x w = Ok (tt, w') ->
  exists l', progress o ob0 (l ++ l') w0 w'
    /\ (if decide (x.1 = PT_LOAD /\ 0 < MemorySegment.seg_virt_size x.2)
        then tiles l' (o_base ob0 + MemorySegment.seg_virt_addr x.2) (MemorySegment.seg_virt_size x.2) else l' = []).
Proof.
  intros Hwf Hx Hrelro Hp Hr. unfold preload_segment in Hr. destruct (Z.eqb_spec x.1 PT_LOAD) as [Hl|Hl].
  - destruct (decide (0 < MemorySegment.seg_virt_size x.2)) as [Hpos|Hpos].
    + eapply load_segment_Ok in Hr as (l' & Ht & Hp'); [|exact Hwf| |exact Hrelro|exact Hp].
      * exists l'. split; [done|]. by rewrite decide_True.
      * unfold loads. apply list_elem_of_fmap. exists x. split; [done|]. by apply list_elem_of_filter.
    + unfold load_segment in Hr. rewrite (proj2 (Z.ltb_ge _ _)) in Hr by lia. apply Ok_inj in Hr as [_ <-].
      exists []. rewrite app_nil_r, decide_False by (intros []; done). done.
  - exists []. rewrite app_nil_r, decide_False by (intros []; done). split; [|done].
    destruct Hp as ((ob & Hob & Hb & Hfile & Hm) & Hother & Hids).
    destruct (Z.eqb_spec x.1 PT_TLS); [|destruct (Z.eqb_spec x.1 PT_GNU_EH_FRAME)].
    + unfold tls_segment in Hr. apply bind_Ok in Hr as (ob' & w1 & [Hob' ->]%get_object_Ok & Hr).
      assert (ob' = ob) as -> by congruence. apply bind_Ok in Hr as (id & w1 & [Hid ->]%get_identity_Ok & Hr).
      destruct (_ && _).
      * apply bind_Ok in Hr as ([m off] & w1 & Ht & Hr). unfold on_tls in Ht. destruct (TLS.add_module _ _ _ _ _ _) as [[a t]| |]; [|done..].
        apply Ok_inj in Ht as [_ <-]. apply Ok_inj in Hr as [_ <-]. split; [by exists ob|]. split; [exact Hother|].
        intros i. cbn. rewrite <- Hids. destruct (decide (i = o_file ob)) as [->|Hne]; [|by rewrite lookup_alter_ne].
        rewrite lookup_alter_eq. by destruct (identities w !! o_file ob).
      * apply Ok_inj in Hr as [_ <-]. split; [by exists ob|done].
    + injection Hr as <-. split; [|split; [|exact Hids]].
      * eexists. cbn. rewrite lookup_alter_eq, Hob. by split.
      * intros p Hne. cbn. rewrite lookup_alter_ne by done. by apply Hother.
    + apply Ok_inj in Hr as [_ <-]. split; [by exists ob|done].
Qed.

Lemma preload_loop_Ok o ob0 relro segs todo l w0 w w' :
  headers_wf (o_base ob0) segs -> (forall x, x ∈ todo -> x ∈ segs) -> relro = None \/ relro = relro_of segs ->
  progress o ob0 l w0 w -> mfor todo (preload_segment o relro) w = Ok (tt, w') ->
  exists ls, progress o ob0 (l ++ concat ls) w0 w'
    /\ Forall2 (fun g l => tiles l (o_base ob0 + MemorySegment.seg_virt_addr g) (MemorySegment.seg_virt_size g)) (loads todo) ls.
Proof.
  intros Hwf Hin Hrelro. revert l w. induction todo as [|x todo IH]; intros l w Hp Hr.
  { apply Ok_inj in Hr as [_ <-]. exists []. cbn. rewrite app_nil_r. by split; [|constructor]. }
  cbn [mfor] in Hr. apply bind_Ok in Hr as ([] & w1 & Hx & Hr).
  eapply preload_segment_Ok in Hx as (l' & Hp1 & Hl'); [|exact Hwf|apply Hin; by left|exact Hrelro|exact Hp].
  destruct (IH ltac:(intros; apply Hin; by right) _ _ Hp1 Hr) as (ls & Hp2 & Hls).
  unfold loads. destruct (decide (x.1 = PT_LOAD /\ 0 < MemorySegment.seg_virt_size x.2)) as [Hd|Hd].
  - exists (l' :: ls). cbn [concat]. rewrite app_assoc. split; [done|]. rewrite filter_cons_True by done. by constructor.
  - subst l'. rewrite app_nil_r in Hp2. exists ls. split; [done|]. by rewrite filter_cons_False.
Qed.

Lemma take_over_length prev cur : length (take_over prev cur) = length cur.
Proof. revert cur. induction prev as [|p prev IH]; intros [|c cur]; cbn; [done..|]. by rewrite IH. Qed.

(** The memory file aside, segments are the same. *)
Definition same_place (s s' : segment) : Prop :=
  MemorySegment.address s' = MemorySegment.address s /\ MemorySegment.size s' = MemorySegment.size s
  /\ MemorySegment.protection s' = MemorySegment.protection s /\ MemorySegment.src_offset s' = MemorySegment.src_offset s.
Lemma same_place_refl l : Forall2 same_place l l.
Proof. induction l; by constructor. Qed.
Lemma take_over_same prev cur : Forall2 same_place cur (take_over prev cur).
Proof.
  revert cur. induction prev as [|p prev IH]; intros [|c cur]; cbn.
  - constructor.
  - apply same_place_refl.
  - constructor.
  - constructor; [by case_match|]. apply IH.
Qed.
Lemma take_over_fd prev cur k p s :
  prev !! k = Some p -> take_over prev cur !! k = Some s -> MemorySegment.fd p <> -1 -> MemorySegment.fd s = MemorySegment.fd p.
Proof.
  revert prev cur. induction k as [|k IH]; intros [|q prev] [|c cur] Hp Hs Hfd; cbn in *; simplify_eq.
  - by rewrite (proj2 (Z.eqb_neq _ _)).
  - by eapply IH.
Qed.

(** C34: preload_segments sets up exactly the memory the program headers ask for: the new memory map is, up to
    the memory files, a sequence of groups, one for every PT_LOAD header that is not empty and in their
    order, each of which covers the address range of its header without gap and overlap -- also when the
    range is split in a relocation read-only part and the rest.  On an update the numbers of
    segments have to agree, and a segment uses the memory file of the corresponding segment of
    the previous version if that has one. *)
Theorem preload_segments_cover o relro w ob0 id0 b w' :
  objects w !! o = Some ob0 -> o_memory_map ob0 = [] -> identities w !! o_file ob0 = Some id0 ->
  (forall p, previous id0 o = Some p -> p <> o) ->
  headers_wf (o_base ob0) (elf_segments o) ->
  preload_segments o relro w = Ok (b, w') ->
  exists ob' ls plain,
    objects w' !! o = Some ob' /\ plain = concat ls
    /\ Forall2 (fun g l => tiles l (o_base ob0 + MemorySegment.seg_virt_addr g) (MemorySegment.seg_virt_size g))
         (loads (elf_segments o)) ls
    /\ Forall2 same_place plain (o_memory_map ob')
    /\ (b = true -> o_memory_map ob' <> []
        /\ forall p pob, previous id0 o = Some p -> objects w !! p = Some pob ->
             length (o_memory_map ob') = length (o_memory_map pob)
             /\ forall k s s', o_memory_map pob !! k = Some s -> o_memory_map ob' !! k = Some s' ->
                  MemorySegment.fd s <> -1 -> MemorySegment.fd s' = MemorySegment.fd s).
Proof.
  intros Hob Hempty Hid Hself Hwf Hr. unfold preload_segments in Hr. cbn zeta in Hr.
  apply bind_Ok in Hr as ([] & w1 & Hloop & Hr).
  eapply (preload_loop_Ok o ob0 _ (elf_segments o) _ [] w) in Hloop as (ls & ((ob & Hob1 & Hb & Hfile & Hm) & Hother & Hids) & Hls);
    [|exact Hwf|done|by destruct relro; [right|left]|by split; [exists ob0|]].
  apply bind_Ok in Hr as (ob' & w2 & [Hob' ->]%get_object_Ok & Hr). assert (ob' = ob) as -> by congruence.
  apply bind_Ok in Hr as (id & w2 & [Hid' ->]%get_identity_Ok & Hr).
  cbn [app] in Hm. assert (previous id o = previous id0 o) as Hprev.
  { specialize (Hids (o_file ob0)). rewrite <- Hfile, Hid', Hfile, Hid in Hids. injection Hids as Hv.
    unfold previous, current. by rewrite Hv. }
  rewrite Hprev in Hr. destruct (previous id0 o) as [p|] eqn:Hpo.
  - apply bind_Ok in Hr as (pob & w2 & [Hpob ->]%get_object_Ok & Hr).
    rewrite Hother in Hpob by (by apply Hself).
    destruct (Nat.eqb_spec (length (o_memory_map ob)) (length (o_memory_map pob))) as [Hlen|Hlen]; cbn in Hr.
    + injection Hr as <- <-. eexists _, ls, (o_memory_map ob). cbn. rewrite lookup_alter_eq, Hob1. cbn. split_and!; [done..| |].
      * apply take_over_same.
      * intros Hne. split.
        { intros Hnil%(f_equal length). cbn in Hnil. rewrite take_over_length in Hnil. apply negb_true_iff, bool_decide_eq_false in Hne.
          apply Hne. by apply length_zero_iff_nil. }
        intros p' pob' [= <-] Hpob'. assert (pob' = pob) as -> by congruence. split; [cbn; by rewrite take_over_length|].
        intros k s s' Hk Hk'. by eapply take_over_fd.
    + apply Ok_inj in Hr as [<- <-]. exists ob, ls, (o_memory_map ob). split_and!; [done..| |done]. apply same_place_refl.
  - apply Ok_inj in Hr as [<- <-]. exists ob, ls, (o_memory_map ob). split_and!; [done..| |].
    + apply same_place_refl.
    + intros Hne. split; [|done]. by apply negb_true_iff, bool_decide_eq_false in Hne.
Qed.
End segments.

(** ** Example: a new version of an object with a relocation read-only part *)

Definition ex_phdr (offset size vaddr vsize : Z) (w relro : bool) : elf_segment :=
  MemorySegment.Build_elf_segment offset size vaddr vsize 0x1000 true w false relro.
Definition ex_headers : ElfSegments := {|
  elf_segments _ := [(PT_LOAD, ex_phdr 0 0x800 0 0x800 false false);
                     (PT_LOAD, ex_phdr 0x1000 0x1800 0x1000 0x2000 true false);
                     (PT_GNU_RELRO, ex_phdr 0x1000 0x1000 0x1000 0x1000 false true)];
|}.
Definition ex_new : Object := (ex_object 2 [] []) <| o_base := 0x600000010000 |>.
(** The current version 12 of the sample world has three segments, the second one with a memory file. *)
Definition ex_versions : world :=
  (ex_world ex_config) <| objects ::= fun m =>
    <[12 := ex_object 2 [] [ex_segment 0x600000000000 0x800; MemorySegment.set_fd 9 (ex_segment 0x600000001000 0x1000); ex_segment 0x600000002000 0x1000]]>
    (<[50 := ex_new]> m) |>.

Definition ex_preloaded : world := after (@preload_segments dlh_4k ex_headers 50 true ex_versions) ex_versions.

Lemma preload_segments_cover_witness :
  exists ob', objects ex_preloaded !! 50 = Some ob'
    /\ MemorySegment.address <$> o_memory_map ob' = [0x600000010000; 0x600000011000; 0x600000012000]
    /\ MemorySegment.fd <$> o_memory_map ob' = [-1; 9; -1] /\ length (o_memory_map ob') = 3%nat.
Proof.
  destruct (@preload_segments_cover dlh_4k ex_headers 50 true ex_versions
    ex_new (ex_identity "libx.so" (no_flags <| bind_global := true |> <| updatable := false |>) [12; 22]) true
    ex_preloaded ltac:(vm_compute; reflexivity) eq_refl ltac:(vm_compute; reflexivity) ltac:(by intros p [= <-]))
    as (ob' & ls & plain & Hob' & _ & _ & _ & Hb).
  - split; [done| |].
    + intros g Hg%list_elem_of_In. vm_compute in Hg. destruct Hg as [<-|[<-|[]]]; cbn; lia.
    + intros g r Hg%list_elem_of_In Hr. vm_compute in Hr. injection Hr as <-. vm_compute in Hg.
      destruct Hg as [<-|[<-|[]]]; cbn; lia.
  - vm_compute. reflexivity.
  - exists ob'. split; [exact Hob'|].
    destruct (Hb eq_refl) as [_ Hp]. destruct (Hp 12 _ eq_refl ltac:(vm_compute; reflexivity)) as [Hl _].
    vm_compute in Hob'. injection Hob' as <-. split; [vm_compute; reflexivity|]. split; [vm_compute; reflexivity|exact Hl].
Defined.
End ExecutableProofs.
