(* ===== verification/DynamicProofs.v ===== *)
(** Theorems about dynamic objects (Executable.v, Dynamic.v): symbol versions, library paths, compatibility of new
    versions, and what updates do to relocations. *)
From Stdlib Require Import Ascii.
From S2P Require Import Prelude Platform Segment Symbol Tls World Object Identity Gdb Loader Helper Executable Dynamic Samples WorldProofs FrameProofs.

Module DynamicProofs.
Import World Object WorldProofs FrameProofs Samples Dynamic.

(** * Symbol versions *)

Section versions.
Context `{ElfTables} `{Symbol.StringOps} `{!Symbol.StringOpsSpec}.
Context (o : Z).

(** What the linker promises of the version tables of an object: definitions come with exactly one base
    definition, which names the file; indices are unique, versions of a file have different names. *)
Record versions_wf : Prop := {
  wf_base : version_definition o <> [] -> exists b, filter (fun d => vd_base d = true) (version_definition o) = [b];
  wf_files : forall b f, b ∈ version_definition o -> vd_base b = true -> f ∈ version_needed o -> vn_file f <> vd_name b;
  wf_defs : forall d e, d ∈ version_definition o -> e ∈ version_definition o -> vd_base d = false -> vd_base e = false ->
    vd_name d = vd_name e -> d = e;
  wf_needs : forall f a g b, f ∈ version_needed o -> a ∈ vn_aux f -> g ∈ version_needed o -> b ∈ vn_aux g ->
    vn_file f = vn_file g -> va_name a = va_name b -> va_index a = va_index b;
}.

(** The indices the tables define *)
Definition version_indices : list Z :=
  (va_index ∘ snd <$> needed_entries o)
  ++ (vd_index <$> filter (fun d => vd_base d = false) (version_definition o)).

Lemma find_Some {A} (f : A -> bool) l x : find f l = Some x -> x ∈ l /\ f x = true.
Proof. intros [Hin Hf]%find_some. split; [by apply list_elem_of_In|done]. Qed.
Lemma find_None {A} (f : A -> bool) l x : find f l = None -> x ∈ l -> f x = false.
Proof. intros Hn Hin. eapply find_none; [exact Hn|]. by apply list_elem_of_In. Qed.
Lemma find_is_Some {A} (f : A -> bool) l x : x ∈ l -> f x = true -> exists y, find f l = Some y.
Proof.
  intros Hin Hf. destruct (find f l) eqn:Hn; [by eexists|]. apply (find_None _ _ x) in Hn; [congruence|done].
Qed.

Lemma elem_of_needed_entries x :
  x ∈ needed_entries o <-> exists f, f ∈ version_needed o /\ x.1 = vn_file f /\ x.2 ∈ vn_aux f.
Proof.
  unfold needed_entries. rewrite elem_of_concat. setoid_rewrite list_elem_of_fmap. split.
  - intros (l & (f & -> & Hf) & Hx). apply list_elem_of_fmap in Hx as (a & -> & Ha). eauto.
  - intros (f & Hf & Hx1 & Hx2). eexists. split; [exists f; split; [reflexivity|done]|].
    apply list_elem_of_fmap. exists x.2. split; [by destruct x; cbn in *; subst|done].
Qed.

Lemma same_string_eq (a b : string) : Symbol.same_string (Some a) (Some b) = true <-> a = b.
Proof. apply Symbol.same_string_some. Qed.
Lemma strcmp_eq_true a b : strcmp_eq a b = true <-> a = b.
Proof. unfold strcmp_eq. rewrite Z.eqb_eq. apply Symbol.str_compare_eq. Qed.

Lemma version_index_needed f a :
  versions_wf -> f ∈ version_needed o -> a ∈ vn_aux f ->
  version_index o (Symbol.mk_version_file (Some (va_name a)) (va_hash a) (va_weak a) (Some (vn_file f))) = va_index a.
Proof.
  intros Hwf Hf Ha. unfold version_index, Symbol.mk_version_file, Symbol.mk_version_filehash. cbn.
  assert (find vd_base (version_definition o) = None /\ version_definition o = [] \/
          exists b, find vd_base (version_definition o) = Some b /\ strcmp_eq (vd_name b) (vn_file f) = false) as Hskip.
  { destruct (version_definition o) as [|d ds] eqn:Hds; [by left|right]. rewrite <- Hds.
    destruct (wf_base Hwf) as [b Hb]; [by rewrite Hds|].
    destruct (find_is_Some vd_base (version_definition o) b) as [c Hc].
    { assert (b ∈ filter (fun d => vd_base d = true) (version_definition o)) as Hbin by (rewrite Hb; by left).
      by apply list_elem_of_filter in Hbin as [_ ?]. }
    { assert (b ∈ filter (fun d => vd_base d = true) (version_definition o)) as Hbin by (rewrite Hb; by left).
      by apply list_elem_of_filter in Hbin as [? _]. }
    exists c. split; [done|]. apply find_Some in Hc as [Hc Hcb]. destruct (strcmp_eq _ _) eqn:He; [|done].
    apply strcmp_eq_true in He. exfalso. by apply (wf_files Hwf c f). }
  match goal with |- match ?m with _ => _ end = _ => assert (m = None) as -> end.
  { destruct Hskip as [[-> ->]|(b & -> & ->)]; [done|]. by rewrite orb_true_r. }
  match goal with |- match find ?p ?l with _ => _ end = _ => destruct (find_is_Some p l a) as [x Hx] end.
  { apply elem_of_concat. exists (vn_aux f). split; [|done]. apply list_elem_of_fmap. exists f. split; [done|].
    apply list_elem_of_filter. split; [by apply strcmp_eq_true|done]. }
  { rewrite Z.eqb_refl. by apply same_string_eq. }
  rewrite Hx. apply find_Some in Hx as [Hx Hs]. apply andb_true_iff in Hs as [_ Hs%same_string_eq].
  apply elem_of_concat in Hx as (l & Hl & Hx). apply list_elem_of_fmap in Hl as (g & -> & Hg).
  apply list_elem_of_filter in Hg as [Hg%strcmp_eq_true Hgin]. by apply (wf_needs Hwf g x f a).
Qed.

Lemma version_index_defined d :
  versions_wf -> d ∈ version_definition o -> vd_base d = false ->
  let base := last (filter (fun d => vd_base d = true) (version_definition o)) in
  version_index o (Symbol.mk_version_filehash (Some (vd_name d)) (vd_hash d) (vd_weak d) (vd_name <$> base)
                     (match base with Some b => vd_hash b | None => 0 end)) = vd_index d.
Proof.
  intros Hwf Hd Hb. destruct (wf_base Hwf) as [b Hbase]; [by intros Hnil; rewrite Hnil in Hd; apply not_elem_of_nil in Hd|].
  rewrite Hbase. cbn. unfold version_index. cbn.
  assert (b ∈ version_definition o /\ vd_base b = true) as [Hbin Hbt].
  { assert (b ∈ filter (fun d => vd_base d = true) (version_definition o)) as Hin by (rewrite Hbase; by left).
    by apply list_elem_of_filter in Hin as [? ?]. }
  destruct (find_is_Some vd_base (version_definition o) b Hbin Hbt) as [c Hc]. rewrite Hc.
  apply find_Some in Hc as [Hcin Hct].
  assert (c = b) as ->.
  { assert (c ∈ filter (fun d => vd_base d = true) (version_definition o)) as Hin by (by apply list_elem_of_filter).
    rewrite Hbase in Hin. by apply list_elem_of_singleton in Hin. }
  rewrite Z.eqb_refl. assert (strcmp_eq (vd_name b) (vd_name b) = true) as -> by (by apply strcmp_eq_true). cbn.
  match goal with |- match find ?p ?l with _ => _ end = _ => destruct (find_is_Some p l d) as [x Hx]; [done| |] end.
  { rewrite Z.eqb_refl, Hb. by apply same_string_eq. }
  rewrite Hx. apply find_Some in Hx as [Hx Hs]. rewrite !andb_true_iff in Hs. destruct Hs as [[_ Hxb%negb_true_iff] Hs%same_string_eq].
  by rewrite (wf_defs Hwf x d).
Qed.

(** C35: Symbol versions survive the round trip: the version a version index stands for (get_version) is found
    again under this very index (version_index), for every index the tables of the object define. *)
Theorem version_index_roundtrip index :
  versions_wf -> index ∈ version_indices -> index <> VER_NDX_GLOBAL ->
  version_index o (get_version o index) = index.
Proof.
  intros Hwf Hin Hg. unfold get_version. destruct (Z.eqb_spec index VER_NDX_GLOBAL) as [|_]; [done|].
  destruct (find (fun x => va_index x.2 =? index) (needed_entries o)) as [[file a]|] eqn:Hn.
  - apply find_Some in Hn as [Hn Hi]. cbn in Hi. apply Z.eqb_eq in Hi. apply elem_of_needed_entries in Hn as (f & Hf & Hfile & Ha).
    cbn in Ha, Hfile. subst file index. by apply version_index_needed.
  - destruct (find _ (version_definition o)) as [d|] eqn:Hd.
    + apply find_Some in Hd as [Hd Hi]. apply andb_true_iff in Hi as [Hi Hb]. apply Z.eqb_eq in Hi.
      apply negb_true_iff in Hb. subst index. by apply version_index_defined.
    + exfalso. apply elem_of_app in Hin as [Hin|Hin]; apply list_elem_of_fmap in Hin as (x & -> & Hx).
      * apply (find_None _ _ x) in Hn; [|done]. cbn in Hn. by rewrite Z.eqb_refl in Hn.
      * apply list_elem_of_filter in Hx as [Hb Hx]. apply (find_None _ _ x) in Hd; [|done].
        cbn in Hd. by rewrite Z.eqb_refl, Hb in Hd.
Qed.

End versions.

(** * Updates *)

(** The symbol a relocation was resolved to *)
Definition cached (r : relocation) (l : list (relocation * VersionedSymbol)) : option VersionedSymbol :=
  snd <$> find (fun x => bool_decide (x.1 = r)) l.
Definition relocations_of (w : world) (o : Z) : list (relocation * VersionedSymbol) :=
  match objects w !! o with Some ob => relocations (o_dyn ob) | None => [] end.
(** Object::is_latest_version *)
Definition latest_version (w : world) (o : Z) : bool :=
  match objects w !! o with
  | Some ob => match identities w !! o_file ob with Some i => bool_decide (current i = Some o) | None => false end
  | None => false
  end.

Section update.
Context `{DlhMath} (kernel : kernel_t) `{ObjectOps} `{Env} `{Symbol.StringOps} `{Executable.ElfSegments}
  `{ElfTables} `{RelocatorOps} `{DynEnv}.

(** HashMap::insert adds or replaces the value of a key. *)
Context (Hinsert : forall r s l, cached r (relocations_insert r s l) = Some s).
Context (Hinsert_other : forall r r' s l, r' <> r -> cached r' (relocations_insert r s l) = cached r' l).
(** Symbols an object returns are its own. *)
Context (Hown : forall w o n h g v s, v_resolve_symbol w o n h g v = Some s -> Symbol.sym_object s = o).

(** Current versions know their identity. *)
Definition chains_wf (w : world) : Prop :=
  forall i o, Loader.current_of w i = Some o -> exists ob, objects w !! o = Some ob /\ o_file ob = i.

Lemma latest_version_Ok o w b w' : is_latest_version o w = Ok (b, w') -> w' = w /\ latest_version w o = b.
Proof. unfold is_latest_version, latest_version. intros Hr. wsplit. rewrite Hob, Hid. done. Qed.

Lemma frame_latest w w' o : frame w w' -> latest_version w' o = latest_version w o.
Proof.
  intros Hf. unfold latest_version. pose proof (frame_object_field o_file _ _ o Hf ltac:(done)) as Ho.
  destruct (objects w' !! o) as [x|], (objects w !! o) as [y|]; try done. cbn in Ho. injection Ho as ->.
  pose proof (frame_identity_field current _ _ (o_file y) Hf ltac:(done)) as Hi.
  destruct (identities w' !! o_file y), (identities w !! o_file y); cbn in Hi; try done. by injection Hi as ->.
Qed.
Lemma frame_chains w w' : frame w w' -> chains_wf w -> chains_wf w'.
Proof.
  intros Hf Hw i o Hc. assert (Loader.current_of w i = Some o) as Hc'.
  { rewrite <- Hc. unfold Loader.current_of. pose proof (frame_identity_field current _ _ i Hf ltac:(done)) as Hi.
    destruct (identities w' !! i), (identities w !! i); cbn in Hi; try done. by injection Hi as ->. }
  destruct (Hw i o Hc') as (ob & Hob & Hfile). pose proof (frame_object_field o_file _ _ o Hf ltac:(done)) as Ho.
  rewrite Hob in Ho. destruct (objects w' !! o) as [ob'|]; [|done]. exists ob'. split; [done|]. cbn in Ho. by injection Ho as ->.
Qed.
Lemma chains_latest w i o : chains_wf w -> Loader.current_of w i = Some o -> latest_version w o = true.
Proof.
  intros Hw Hc. destruct (Hw i o Hc) as (ob & Hob & Hfile). unfold latest_version. rewrite Hob, Hfile.
  unfold Loader.current_of in Hc. destruct (identities w !! i); [|done]. by rewrite bool_decide_true.
Qed.

(** What the loader finds belongs to the current version of an identity. *)
Definition from_current (w : world) (r : option (bool * option VersionedSymbol)) : Prop :=
  match r with Some (_, Some s) => exists i, Loader.current_of w i = Some (Symbol.sym_object s) | _ => True end.

Lemma try_current w n h g v i r :
  from_current w r -> from_current w (Loader.try w n h g v (Loader.current_of w i) r).
Proof.
  unfold Loader.try. destruct r as [[[] best]|]; [done| |done]. intros Hbest.
  destruct (Loader.current_of w i) as [o|] eqn:Hc; [|done]. unfold has_symbol.
  destruct (v_resolve_symbol _ _ _ _ _ _) as [t|] eqn:Hv; [|done]. apply Hown in Hv. subst o.
  destruct (negb _); [done|]. case_bool_decide; [done|]. cbn zeta. destruct (_ || _); [|done]. by exists i.
Qed.
Lemma search_global_current w n h g v ns obj mode after ids r :
  from_current w r -> from_current w (Loader.search_global w n h g v ns obj mode after ids r).
Proof.
  revert after r. induction ids as [|i ids IH]; intros after r Hr; cbn; [done|].
  destruct (_ && _); [|by apply IH]. destruct after; [by apply IH|].
  destruct (_ || _); [|by apply IH]. apply IH. by apply try_current.
Qed.
Lemma search_dependencies_current w n h g v ns obj mode deps r :
  from_current w r -> from_current w (Loader.search_dependencies w n h g v ns obj mode deps r).
Proof.
  revert r. induction deps as [|i deps IH]; intros r Hr; cbn; [done|].
  destruct (_ && _); [by apply IH|]. destruct (_ || _); [|by apply IH]. apply IH. by apply try_current.
Qed.
Lemma resolve_symbol_current w n h g v ns obj mode s :
  Loader.resolve_symbol w n h g v ns obj mode = Some (Some s) ->
  exists i, Loader.current_of w i = Some (Symbol.sym_object s).
Proof.
  unfold Loader.resolve_symbol. destruct (_ && _); [done|]. cbn zeta.
  set (own := match obj with Some i => _ | None => None end).
  assert (forall r, from_current w r -> from_current w (Loader.try w n h g v own r)) as Hown'.
  { intros r Hr. unfold own. destruct obj as [i|]; [by apply try_current|].
    unfold Loader.try. destruct r as [[[] ?]|]; done. }
  set (r1 := if bool_decide (mode = _) then _ else _).
  assert (from_current w r1) as Hr1 by (unfold r1; destruct (bool_decide _); [by apply Hown'|done]).
  set (r2 := Loader.search_global _ _ _ _ _ _ _ _ _ _ _).
  assert (from_current w r2) as Hr2 by (by apply search_global_current). clearbody r2. clear r1 Hr1. clearbody own.
  set (r3 := match obj with None => _ | Some _ => _ end). assert (from_current w r3) as Hr3.
  { unfold r3. destruct obj as [i|]; [|done].
    assert (forall o, from_current w (Loader.search_dependencies w n h g v ns i mode
      match objects w !! o with Some ob => o_dependencies ob | None => [] end r2)) as Hd
      by (intros o; by apply search_dependencies_current).
    set (r4 := if bool_decide _ then r2 else _). assert (from_current w r4) as Hr4.
    { unfold r4. destruct (bool_decide (mode = Loader.RESOLVE_NO_DEPENDENCIES)); [done|]. destruct r2 as [[[] ?]|], own as [z|]; first [done|apply (Hd z)]. }
    destruct (bool_decide (mode = Loader.RESOLVE_OBJECT_FIRST)); [done|by apply Hown']. }
  destruct r3 as [[b [t|]]|]; intros [= ]; subst; done.
Qed.

(** ** One relocation *)

Lemma relocations_on_segment {A} o l p k (f : _ -> M _ A) :
  keeps (fun w => relocations_of w o = l) (on_segment p k f).
Proof.
  intros w a w' Hw Hr. unfold on_segment in Hr. destruct (objects w !! p) as [ob|] eqn:Hp; [|done].
  destruct (identities w !! o_file ob); [|done]. destruct (o_memory_map ob !! k); [|done].
  destruct (f _ _) as [[c t]| |]; [|done..]. apply Ok_inj in Hr as [_ <-]. unfold relocations_of in *. cbn.
  destruct (decide (o = p)) as [->|Hne]; [by rewrite lookup_insert_eq, Hp in *|by rewrite lookup_insert_ne].
Qed.
Lemma relocations_fix_value o l p r seg key value :
  keeps (fun w => relocations_of w o = l) (fix_value kernel p r seg key value).
Proof.
  unfold fix_value, write_base.
  repeat first [ apply relocations_on_segment
               | apply keeps_world_emit; intros; done | apply keeps_set_identity; intros; done
               | apply keeps_get_identity | apply keeps_get_object | keeps_step ].
Qed.

(** The symbol of a relocation is not found any more. *)
Definition unresolved (w : world) (o : Z) (r : relocation) : Prop :=
  exists ob id need, objects w !! o = Some ob /\ identities w !! o_file ob = Some id
    /\ relocate_symbol o ob id r w = Ok ((need, None), w).

Lemma relocate_symbol_Ok o ob id r w need found w' :
  relocate_symbol o ob id r w = Ok ((need, found), w') ->
  w' = w /\ forall s, found = Some s -> exists i, Loader.current_of w i = Some (Symbol.sym_object s).
Proof.
  unfold relocate_symbol. intros Hr. branch Hr; [|done]. branch Hr; [|done]. simplify_eq. split; [done|].
  intros s ->. by eapply resolve_symbol_current.
Qed.

(** *** Histories grow *)

Abbreviation grown l := (fun w => l `prefix_of` trace w).
Lemma grown_emit l e : keeps (grown l) (emit e).
Proof. apply keeps_modify. intros w Hw. by apply prefix_app_r. Qed.
Lemma grown_compose l o k : keeps (grown l) (on_segment o k (MemorySegment.compose hex kernel)).
Proof.
  assert (forall c, keeps (fun t : traced segment => l `prefix_of` t_trace t) (MemorySegment.compose hex kernel c)) as Hg.
  { intros c. unfold MemorySegment.compose, MemorySegment.map, MemorySegment.shmemfd.
    repeat first
      [ match goal with |- keeps _ (sys _ _) => intros t x t' Ht [_ <-]%Ok_inj; cbn; by apply prefix_app_r end
      | match goal with |- keeps _ (mem_copy _ _ _) => intros t x t' Ht [_ <-]%Ok_inj; cbn; by apply prefix_app_r end
      | match goal with |- keeps _ st => intros t x t' Ht [_ <-]%Ok_inj; exact Ht end
      | match goal with |- keeps _ (upd _) => intros t x t' Ht [_ <-]%Ok_inj; exact Ht end
      | keeps_step ]. }
  intros w a w' Hw Hr. unfold on_segment in Hr. destruct (objects w !! o) as [ob|]; [|done].
  destruct (identities w !! o_file ob) as [id|]; [|done]. destruct (o_memory_map ob !! k) as [s|]; [|done].
  destruct (MemorySegment.compose _ _ _ _) as [[c t]| |] eqn:Hc; [|done..]. apply Ok_inj in Hr as [_ <-].
  by apply Hg in Hc.
Qed.
Ltac grown_step :=
  first [ apply grown_emit | apply grown_compose | apply keeps_get_identity | apply keeps_get_object
        | apply keeps_set_identity; intros; done | apply keeps_set_object; intros; done | keeps_step ].
Lemma grown_fix_value l o r seg key v : keeps (grown l) (fix_value kernel o r seg key v).
Proof. unfold fix_value, write_base. repeat grown_step. Qed.
Lemma grown_relocate l o r f : keeps (grown l) (relocate kernel o r f).
Proof.
  unfold relocate, datarel_key, get_config, is_latest_version, relocate_value, relocate_symbol, set_dyn.
  repeat first [ apply grown_fix_value | grown_step ].
Qed.
Lemma grown_update_relocations l o rs : keeps (grown l) (update_relocations kernel o rs).
Proof.
  induction rs as [|[r s] rs IH]; cbn; [apply keeps_ret|]. unfold is_latest_version.
  repeat first [ apply grown_relocate | apply IH | grown_step ].
Qed.

(** *** What is written *)

(** The base with which a relocation is written in the state [w1]: the segment gets a back buffer for it. *)
Definition buffered (w1 w2 : world) (o : Z) (ob : Object) (r : relocation) (b : Z) : Prop :=
  match segment_of (o_memory_map ob) (reloc_address ob r) 0 with
  | None => w2 = w1 /\ b = o_base ob
  | Some (k, s) => exists c, on_segment o k (MemorySegment.compose hex kernel) w1 = Ok (c, w2)
                     /\ b = w64 (o_base ob + w64 (c - MemorySegment.address s))
  end.
(** Between the states [w] and [w'] the value of a relocation is written, unless it is there already or nothing is to be
    written ([fix_] is false). *)
Definition written (w w' : world) (o : Z) (r : relocation) (fix_ : bool) (v : Z) : Prop :=
  exists w1 ob, frame w w1 /\ grown (trace w) w1 /\ objects w1 !! o = Some ob
    /\ ((r_is_copy r = false /\ (fix_ = false \/ r_read (trace w1) r (global_offset_table (o_dyn ob)) (o_base ob) = v)
          /\ grown (trace w1) w')
        \/ exists w2 b, buffered w1 w2 o ob r b /\ grown (trace w2 ++ [Ev_fix r b v]) w').
Lemma written_later w0 w w' w'' o r f v :
  frame w0 w -> grown (trace w0) w -> grown (trace w') w'' -> written w w' o r f v -> written w0 w'' o r f v.
Proof.
  cbv beta. intros Hf Hg Hg' (w1 & ob & Hf1 & Hg1 & Hob & Hw). exists w1, ob. cbv beta in *. split; [by etransitivity|]. split; [by etransitivity|]. split; [done|].
  destruct Hw as [(Hc & Hn & Ht)|(w2 & b & Hb & Ht)]; [left; split_and!; [done..|by etransitivity]|right].
  exists w2, b. split; [done|]. by etransitivity.
Qed.

(** The value of a relocation to a symbol, and of one without a symbol *)
Definition reloc_value (w : world) (o : Z) (r : relocation) (s : VersionedSymbol) : option Z :=
  match objects w !! o, objects w !! Symbol.sym_object s with
  | Some ob, Some sob =>
      (fun sid => r_value_external r (global_offset_table (o_dyn ob)) (o_base ob) s (o_base sob) 0 (tls_module_id sid) (tls_offset sid))
      <$> identities w !! o_file sob
  | _, _ => None
  end.
Definition internal_value (w : world) (o : Z) (r : relocation) : option Z :=
  match objects w !! o with
  | Some ob => (fun id => r_value_internal r (global_offset_table (o_dyn ob)) (o_base ob) 0 (tls_module_id id) (tls_offset id))
               <$> identities w !! o_file ob
  | None => None
  end.
(** Whether the relocations of an object are written to memory (it was not opened with RTLD_BIND_NOT) *)
Definition fixes (w : world) (o : Z) : bool :=
  match objects w !! o with
  | Some ob => match identities w !! o_file ob with Some id => negb (bind_not (flags id)) | None => false end
  | None => false
  end.
Definition place (ob : Object) : Z * Z * Z := (o_file ob, o_base ob, global_offset_table (o_dyn ob)).
Lemma frame_values w w' :
  frame w w' -> (forall o r s, reloc_value w' o r s = reloc_value w o r s)
  /\ (forall o r, internal_value w' o r = internal_value w o r) /\ (forall o, fixes w' o = fixes w o).
Proof.
  intros Hf.
  assert (forall o, place <$> objects w' !! o = place <$> objects w !! o) as Hp by (intros o; by apply (frame_object_field place _ _ o Hf)).
  assert (forall i, (fun x => (tls_module_id x, tls_offset x, flags x)) <$> identities w' !! i = (fun x => (tls_module_id x, tls_offset x, flags x)) <$> identities w !! i) as Hi
    by (intros i; by apply (frame_identity_field (fun x => (tls_module_id x, tls_offset x, flags x)) _ _ i Hf)).
  split_and!; intros o; [intros r s|intros r|]; unfold reloc_value, internal_value, fixes; specialize (Hp o) as Ho.
  - specialize (Hp (Symbol.sym_object s)). destruct (objects w' !! o), (objects w !! o); try done.
    destruct (objects w' !! Symbol.sym_object s) as [x|], (objects w !! Symbol.sym_object s) as [y|]; try done. cbn in Hp, Ho.
    injection Hp as -> -> _. injection Ho as _ -> ->. specialize (Hi (o_file y)).
    destruct (identities w' !! o_file y), (identities w !! o_file y); try done. cbn in *. by injection Hi as -> -> _.
  - destruct (objects w' !! o) as [x|], (objects w !! o) as [y|]; try done. cbn in Ho. injection Ho as -> -> ->. specialize (Hi (o_file y)).
    destruct (identities w' !! o_file y), (identities w !! o_file y); try done. cbn in *. by injection Hi as -> -> _.
  - destruct (objects w' !! o) as [x|], (objects w !! o) as [y|]; try done. cbn in Ho. injection Ho as -> _ _. specialize (Hi (o_file y)).
    destruct (identities w' !! o_file y), (identities w !! o_file y); try done. cbn in *. by injection Hi as _ _ ->.
Qed.

Lemma fix_value_buffered o ob r seg key v w u w' :
  objects w !! o = Some ob -> seg = segment_of (o_memory_map ob) (reloc_address ob r) 0 ->
  fix_value kernel o r seg key v w = Ok (u, w') -> exists w2 b, buffered w w2 o ob r b /\ grown (trace w2 ++ [Ev_fix r b v]) w'.
Proof.
  intros Hob Hseg Hr. unfold fix_value in Hr. apply bind_Ok in Hr as (ob' & w1 & [Hob' ->]%get_object_Ok & Hr). simplify_eq.
  apply bind_Ok in Hr as (b & w2 & Hb & Hr). apply bind_Ok in Hr as ([] & w3 & [_ <-]%Ok_inj & Hr).
  exists w2, b. split.
  - unfold buffered. unfold write_base in Hb. destruct (segment_of _ _ _) as [[k s]|]; [|by apply Ok_inj in Hb as [<- <-]].
    apply bind_Ok in Hb as (c & w4 & Hc & [<- <-]%Ok_inj). by exists c.
  - eapply (keeps_run (grown (trace w2 ++ [Ev_fix r b v]))); [| |exact Hr]; [|by cbn]. repeat grown_step.
Qed.
Lemma needed_written o ob r f seg key v w u w' :
  objects w !! o = Some ob -> seg = segment_of (o_memory_map ob) (reloc_address ob r) 0 ->
  (if needs_fix (trace w) ob r f v then fix_value kernel o r seg key v else mret tt) w = Ok (u, w') -> written w w' o r f v.
Proof.
  intros Hob Hseg Hr. exists w, ob. split; [done|]. split; [done|]. split; [done|]. unfold needs_fix in Hr.
  destruct (r_is_copy r) eqn:Hcopy; cbn [orb] in Hr; [right; eapply fix_value_buffered; [exact Hob|exact Hseg|exact Hr]|].
  destruct f; cbn [andb] in Hr; [|apply Ok_inj in Hr as [_ <-]; left; by auto].
  destruct (Z.eqb_spec (r_read (trace w) r (global_offset_table (o_dyn ob)) (o_base ob)) v) as [He|He]; cbn [negb] in Hr.
  - apply Ok_inj in Hr as [_ <-]. left. auto.
  - right. eapply fix_value_buffered; [exact Hob|exact Hseg|exact Hr].
Qed.

(** *** The result *)

(** The memory a relocation is for was changed by the program, and such changes are to be kept. *)
Definition modified (w : world) (o : Z) (r : relocation) : Prop :=
  check_relocation_content (config (loader w)) = true /\ latest_version w o = true
  /\ exists ob id k s v, objects w !! o = Some ob /\ identities w !! o_file ob = Some id
       /\ segment_of (o_memory_map ob) (reloc_address ob r) 0 = Some (k, s)
       /\ datarel_content id !! (MemorySegment.fd s, reloc_address ob r - MemorySegment.address s) = Some v
       /\ read_word (trace w) (reloc_address ob r) <> v.

Definition relocated (w w' : world) (o : Z) (r : relocation) (f : bool) : Prop :=
  (forall r', r' <> r -> cached r' (relocations_of w' o) = cached r' (relocations_of w o))
  /\ ((relocations_of w' o = relocations_of w o
        /\ (unresolved w o r \/ modified w o r
            \/ (r_symbol r = 0 /\ exists v, internal_value w o r = Some v /\ written w w' o r f v)))
      \/ exists s v, cached r (relocations_of w' o) = Some s /\ latest_version w' (Symbol.sym_object s) = true
           /\ reloc_value w o r s = Some v /\ written w w' o r f v).

Lemma relocate_value_relocated o ob id r f seg key w x w' :
  chains_wf w -> objects w !! o = Some ob -> identities w !! o_file ob = Some id ->
  seg = segment_of (o_memory_map ob) (reloc_address ob r) 0 ->
  relocate_value kernel o ob id r f seg key w = Ok (x, w') -> relocated w w' o r f.
Proof.
  intros Hwf Hob Hid Hseg Hr.
  pose proof (keeps_run _ _ _ _ _ (framed_relocate_value kernel w o ob id r f seg key) (reflexivity w) Hr) as Hframe.
  unfold relocate_value in Hr. destruct (Z.eqb_spec (r_symbol r) 0) as [Hz|Hz].
  - assert (relocations_of w' o = relocations_of w o) as Heq.
    { revert Hr. apply (keeps_run (fun v => relocations_of v o = relocations_of w o)); [|done].
      repeat (apply relocations_fix_value || keeps_step). }
    split; [by intros r' _; rewrite Heq|]. left. split; [done|]. do 2 right. split; [done|].
    cbv zeta in Hr. apply bind_Ok in Hr as (tr & w1 & [<- <-]%Ok_inj & Hr). apply bind_Ok in Hr as ([] & w1 & Hw & [_ <-]%Ok_inj).
    eexists. split; [by unfold internal_value; rewrite Hob, Hid|]. by eapply needed_written.
  - apply bind_Ok in Hr as ([need found] & w1 & Hs & Hr). pose proof Hs as Hs0.
    apply relocate_symbol_Ok in Hs as [-> Hcur]. destruct found as [sym|].
    2: { apply Ok_inj in Hr as [_ <-]. split; [done|]. left. split; [done|left]. by exists ob, id, need. }
    destruct (Hcur sym eq_refl) as [i Hi]. apply bind_Ok in Hr as ([] & w1 & Hset & Hr).
    assert (relocations_of w1 o = relocations_insert r sym (relocations_of w o)) as Heq1.
    { injection Hset as <-. unfold relocations_of. cbn. by rewrite lookup_alter_eq, Hob. }
    assert (relocations_of w' o = relocations_insert r sym (relocations_of w o)) as Heq.
    { revert Hr. apply (keeps_run (fun v => relocations_of v o = relocations_insert r sym (relocations_of w o))); [|done].
      repeat (apply relocations_fix_value || apply keeps_get_object || apply keeps_get_identity || keeps_step). }
    split; [intros r' Hne; by rewrite Heq, Hinsert_other|]. right. exists sym.
    assert (frame w w1) as Hf1 by (eapply keeps_run; [|reflexivity|exact Hset]; by apply framed_set_object).
    assert (trace w1 = trace w) as Ht1 by (by apply Ok_inj in Hset as [_ <-]).
    assert (objects w1 !! o = Some (ob <| o_dyn ::= fun d => d <| relocations ::= relocations_insert r sym |> |>)) as Hob1.
    { apply Ok_inj in Hset as [_ <-]. cbn. by rewrite lookup_alter_eq, Hob. }
    apply bind_Ok in Hr as (sob & w2 & [Hsob ->]%get_object_Ok & Hr). apply bind_Ok in Hr as (sid & w2 & [Hsid ->]%get_identity_Ok & Hr).
    cbv zeta in Hr. apply bind_Ok in Hr as (tr & w2 & [<- <-]%Ok_inj & Hr). apply bind_Ok in Hr as ([] & w2 & Hw & [_ <-]%Ok_inj).
    eexists. rewrite Heq. split; [apply Hinsert|]. split; [rewrite (frame_latest w _ _ Hframe); by eapply chains_latest|].
    split; [rewrite <- (proj1 (frame_values _ _ Hf1)); unfold reloc_value; rewrite Hob1, Hsob, Hsid; reflexivity|].
    eapply (written_later w w1 w2); [done|by rewrite Ht1|done|]. eapply needed_written; [exact Hob1| |exact Hw]. exact Hseg.
Qed.

Lemma relocate_relocated o r f w x w' :
  chains_wf w -> relocate kernel o r f w = Ok (x, w') -> relocated w w' o r f.
Proof.
  intros Hwf Hr. unfold relocate in Hr.
  apply bind_Ok in Hr as (ob & w1 & [Hob ->]%get_object_Ok & Hr).
  apply bind_Ok in Hr as (id & w1 & [Hid ->]%get_identity_Ok & Hr). cbn zeta in Hr.
  apply bind_Ok in Hr as (key & w1 & Hk & Hr).
  assert (w1 = w /\ forall k, key = Some k -> check_relocation_content (config (loader w)) = true /\ latest_version w o = true
    /\ exists i s, segment_of (o_memory_map ob) (reloc_address ob r) 0 = Some (i, s)
         /\ k = (MemorySegment.fd s, reloc_address ob r - MemorySegment.address s)) as [-> Hkey].
  { unfold datarel_key in Hk. apply bind_Ok in Hk as (c & w2 & [<- <-]%Ok_inj & Hk).
    apply bind_Ok in Hk as (b & w2 & [-> Hl]%latest_version_Ok & Hk).
    destruct (segment_of _ _ _) as [[i s]|]; [|by apply Ok_inj in Hk as [<- <-]].
    destruct (check_relocation_content _ && b) eqn:Hc; [|by apply Ok_inj in Hk as [<- <-]]. apply andb_true_iff in Hc as [Hc ->].
    apply bind_Ok in Hk as ([] & w2 & Ha & Hk). unfold assert in Ha. destruct (_ <=? _); [|done]. apply Ok_inj in Ha as [_ <-].
    apply Ok_inj in Hk as [<- <-]. split; [done|]. intros k [= <-]. split; [done|]. split; [done|]. by exists i, s. }
  apply bind_Ok in Hr as (tr & w1 & [<- <-]%Ok_inj & Hr).
  destruct key as [k|]; [|by eapply relocate_value_relocated].
  destruct (datarel_content id !! k) as [c|] eqn:Hcontent; [|by eapply relocate_value_relocated].
  destruct (Z.eqb_spec (read_word (trace w) (reloc_address ob r)) c) as [|Hne]; [by eapply relocate_value_relocated|].
  apply Ok_inj in Hr as [_ <-]. split; [done|]. left. split; [done|]. right. left.
  destruct (Hkey k eq_refl) as (Hc & Hl & i & s & Hs & ->). split; [done|]. split; [done|]. by exists ob, id, i, s, c.
Qed.

(** ** The loop *)

Definition in_data_of (w : world) (o : Z) (r : relocation) : bool :=
  match objects w !! o with Some ob => in_data ob r | None => false end.

Lemma segment_of_erase l a k :
  segment_of (erase_segment <$> l) a k = (fun x => (x.1, erase_segment x.2)) <$> segment_of l a k.
Proof.
  revert k. induction l as [|s l IH]; intros k; cbn; [done|].
  change (MemorySegment.contains (erase_segment s) a) with (MemorySegment.contains s a). by destruct (MemorySegment.contains s a).
Qed.
Lemma in_data_erase ob r : in_data (erase_object ob) r = in_data ob r.
Proof.
  unfold in_data, reloc_address. cbn. rewrite segment_of_erase. by destruct (segment_of _ _ _) as [[k s]|].
Qed.
Lemma frame_in_data w w' o r : frame w w' -> in_data_of w' o r = in_data_of w o r.
Proof.
  intros Hf. unfold in_data_of. pose proof (frame_object_field (fun ob => in_data ob r) _ _ o Hf ltac:(intros; apply in_data_erase)) as Ho.
  destruct (objects w' !! o), (objects w !! o); cbn in Ho; try done. by injection Ho.
Qed.

(** What an update from [w] to [w'] does for a relocation that was resolved to [sym]. *)
Definition carried (w w' : world) (o : Z) (r : relocation) (sym : VersionedSymbol) : Prop :=
  (* it remains: it is to the latest version, or in shared data of an outdated one, or not found any more, or kept *)
  (cached r (relocations_of w' o) = Some sym
   /\ (latest_version w (Symbol.sym_object sym) = true
       \/ (latest_version w o = false /\ in_data_of w o r = true)
       \/ exists w1, frame w w1 /\ (unresolved w1 o r \/ modified w1 o r)))
  (* it has no symbol *)
  \/ (r_symbol r = 0 /\ exists v, internal_value w o r = Some v /\ written w w' o r (fixes w o) v)
  (* it is to the latest version now *)
  \/ exists s v, cached r (relocations_of w' o) = Some s /\ latest_version w' (Symbol.sym_object s) = true
       /\ reloc_value w o r s = Some v /\ written w w' o r (fixes w o) v.

Lemma carried_later w0 w w' w'' o r sym :
  frame w0 w -> grown (trace w0) w -> frame w' w'' -> grown (trace w') w'' ->
  cached r (relocations_of w'' o) = cached r (relocations_of w' o) -> carried w w' o r sym -> carried w0 w'' o r sym.
Proof.
  intros Hf Hg Hf' Hg' Hc. destruct (frame_values _ _ Hf) as (Hv & Hi & Hx). unfold carried. rewrite Hc.
  rewrite (frame_latest _ _ _ Hf), (frame_latest _ _ _ Hf), (frame_in_data _ _ _ _ Hf), Hi, Hx.
  intros [(Hs & [?|[?|(w1 & Hw1 & Hu)]])|[(Hz & v & Hval & Hw)|(s & v & Hs & Hl & Hval & Hw)]]; [by auto..| | |].
  - left. split; [done|]. do 2 right. exists w1. split; [by etransitivity|done].
  - right. left. split; [done|]. exists v. split; [done|]. exact (written_later _ _ _ _ _ _ _ _ Hf Hg Hg' Hw).
  - do 2 right. exists s, v. rewrite Hv in Hval. rewrite (frame_latest _ _ _ Hf'). split_and!; [done..|]. exact (written_later _ _ _ _ _ _ _ _ Hf Hg Hg' Hw).
Qed.
Lemma relocated_carried w w' o r sym :
  cached r (relocations_of w o) = Some sym -> relocated w w' o r (fixes w o) -> carried w w' o r sym.
Proof.
  intros Hs [_ [[Heq [Hu|[Hm|(Hz & v & Hval & Hw)]]]|(s & v & Hnew & Hl & Hval & Hw)]].
  - left. rewrite Heq. split; [done|]. do 2 right. exists w. split; [done|by left].
  - left. rewrite Heq. split; [done|]. do 2 right. exists w. split; [done|by right].
  - right. left. eauto.
  - do 2 right. eauto 6.
Qed.

Lemma update_relocations_carry o rs w w' :
  chains_wf w -> NoDup rs.*1 -> (forall r s, (r, s) ∈ rs -> cached r (relocations_of w o) = Some s) ->
  update_relocations kernel o rs w = Ok (tt, w') ->
  (forall r, r ∉ rs.*1 -> cached r (relocations_of w' o) = cached r (relocations_of w o))
  /\ forall r s, (r, s) ∈ rs -> carried w w' o r s.
Proof.
  revert w. induction rs as [|[r sym] rs IH]; intros w Hwf Hnd Hin Hr.
  { injection Hr as <-. split; [done|]. intros r s Hr. by apply not_elem_of_nil in Hr. }
  apply NoDup_cons in Hnd as [Hnew Hnd]. cbn [update_relocations] in Hr.
  apply bind_Ok in Hr as (target & w1 & [-> Ht]%latest_version_Ok & Hr).
  apply bind_Ok in Hr as (own & w1 & [-> Hown']%latest_version_Ok & Hr).
  apply bind_Ok in Hr as (ob & w1 & [Hob ->]%get_object_Ok & Hr).
  apply bind_Ok in Hr as (id & w1 & [Hid ->]%get_identity_Ok & Hr).
  apply bind_Ok in Hr as ([] & w1 & Hstep & Hr).
  assert (frame w w1 /\ grown (trace w) w1 /\ (forall r', r' <> r -> cached r' (relocations_of w1 o) = cached r' (relocations_of w o))
          /\ carried w w1 o r sym) as (Hf & Hg & Hother & Hset).
  { destruct (negb target && (own || negb (in_data ob r))) eqn:Hb.
    - apply bind_Ok in Hstep as (x & w2 & Hrel & [_ <-]%Ok_inj).
      split; [eapply keeps_run; [apply framed_relocate|reflexivity|exact Hrel]|].
      split; [by apply (keeps_run _ _ _ _ _ (grown_relocate (trace w) o r _)) in Hrel|].
      apply relocate_relocated in Hrel; [|done]. split; [apply Hrel|]. apply relocated_carried; [apply Hin; left|].
      unfold fixes. by rewrite Hob, Hid.
    - apply Ok_inj in Hstep as [_ <-]. split; [done|]. split; [done|]. split; [done|]. left. split; [apply Hin; left|].
      rewrite Ht, Hown'. unfold in_data_of. rewrite Hob. destruct target; [by left|]. right; left. destruct own; [done|]. by destruct (in_data ob r). }
  assert (forall r' s, (r', s) ∈ rs -> r' <> r) as Hne.
  { intros r' s Hrs ->. apply Hnew. apply list_elem_of_fmap. by exists (r, s). }
  destruct (IH w1) as [IH1 IH2]; [by eapply frame_chains|done| |done|].
  { intros r' s Hrs. rewrite Hother by (by eapply Hne). apply Hin. by right. }
  assert (frame w1 w') as Hf' by (eapply keeps_run; [apply framed_update_relocations|reflexivity|exact Hr]).
  assert (grown (trace w1) w') as Hg' by (by apply (keeps_run _ _ _ _ _ (grown_update_relocations (trace w1) o rs)) in Hr).
  split.
  - intros r' Hr'. cbn in Hr'. apply not_elem_of_cons in Hr' as [Hn1 Hn2]. rewrite IH1 by done. by apply Hother.
  - intros r' s [[= -> ->]|Hr']%elem_of_cons.
    + eapply (carried_later w w w1 w'); [done..|by apply IH1|exact Hset].
    + eapply (carried_later w w1 w' w'); [done..|by apply IH2].
Qed.

End update.

(** * Compatible versions *)

Section patchable.
Context `{ObjectOps} `{Env} `{Symbol.StringOps} `{ElfTables} `{RelocatorOps} `{DynEnv}.

(** C16: No reference is lost by an update: when patchable accepts a new version, every symbol of the replaced
    version that any loaded version of any identity has a relocation to is found by its name in the new
    version, as a symbol of the new version that is defined and not local.  Accepting changes nothing,
    and only versions for the same machine are accepted. *)
Theorem patchable_keeps_references o w w' :
  patchable o w = Ok (true, w') ->
  w' = w
  /\ exists ob id p, objects w !! o = Some ob /\ identities w !! o_file ob = Some id
       /\ current id = Some p /\ elf_identification p = elf_identification o
       /\ forall i id' q r s, i ∈ lookup (loader w) -> identities w !! i = Some id' -> q ∈ versions id' ->
            (r, s) ∈ relocations_of w q -> Symbol.sym_object s = p ->
            exists s', resolve_by_name o (Symbol.sym_name s) = Some s'
                       /\ Symbol.sym_object s' = o /\ Symbol.sym_bind s' <> Symbol.STB_LOCAL.
Proof.
  unfold patchable. intros Hr.
  apply bind_Ok in Hr as (ob & w1 & [Hob ->]%get_object_Ok & Hr).
  apply bind_Ok in Hr as (id & w1 & [Hid ->]%get_identity_Ok & Hr).
  destruct (Executable.previous id o) as [p|] eqn:Hp; [|done].
  destruct (bool_decide (elf_identification p = _)) eqn:He; [|done]. apply bool_decide_eq_true in He. cbn [negb] in Hr.
  apply bind_Ok in Hr as (pob & w1 & [Hpob ->]%get_object_Ok & Hr). wsplit.
  branch Hr; [done|]. assert (provides_references w o p = true) as Href by congruence. simplify_eq. split; [done|].
  exists ob, id, p. split_and!; try done.
  { by eapply bool_decide_eq_true. }
  intros i id' q r s Hi Hid' Hq Hrs <-. unfold provides_references in Href. rewrite forallb_forall in Href.
  assert (q ∈ Loader.all_versions w (lookup (loader w))) as Hall.
  { unfold Loader.all_versions. apply elem_of_concat. exists (versions id'). split; [|done].
    apply list_elem_of_fmap. exists i. by rewrite Hid'. }
  apply list_elem_of_In, Href in Hall. unfold relocations_of in Hrs. destruct (objects w !! q) as [qob|]; [|by apply not_elem_of_nil in Hrs].
  rewrite forallb_forall in Hall. apply list_elem_of_In, Hall in Hrs. cbn in Hrs. rewrite Z.eqb_refl in Hrs. cbn in Hrs.
  apply bool_decide_eq_true in Hrs as [s' Hs']. exists s'. split; [done|].
  unfold resolve_by_name, resolve_symbol in Hs'. destruct (_ =? STN_UNDEF); [done|]. destruct (symbol_at _ _) as [es|]; [|done].
  destruct (negb (es_undefined es) && _ && _) eqn:Hv; [|done]. injection Hs' as <-. split; [done|]. cbn.
  rewrite !andb_true_iff in Hv. destruct Hv as [[_ Hv%negb_true_iff%bool_decide_eq_false] _]. done.
Qed.
End patchable.

(** * Library paths *)

Section paths.
Context `{Env} `{DynEnv}.

Lemma mapM_const {A B} (b : B) (l : list A) : mapM (fun _ => Some b) l = Some (replicate (length l) b).
Proof. induction l as [|a l IH]; [done|]. cbn. by rewrite IH. Qed.
Lemma mapM_Some_id {A} (l : list A) : mapM Some l = Some l.
Proof. induction l as [|a l IH]; [done|]. cbn. by rewrite IH. Qed.

(** The paths of DT_RPATH and DT_RUNPATH: without a token the entries between the colons are added; with a
    token anywhere every one of the entries is replaced by the expansion of the whole string with all
    its colons (and the code crashes if the name that came from DT_SONAME is not shorter than the path
    of the file).  So a path list with a token never has its single entries searched. *)
Theorem addpath_expands_whole_string id str :
  addpath id str =
    if has_char "$"%char str then
      match split_colon str, origin id with
      | [], _ => Some []
      | l, Some org => Some (replicate (length l) (expand str org))
      | _, None => None
      end
    else Some (split_colon str).
Proof.
  unfold addpath. destruct (has_char _ str); [|apply mapM_Some_id].
  destruct (split_colon str) as [|x l]; [done|]. destruct (origin id); [|done]. apply mapM_const.
Qed.
End paths.

(** For instance "$ORIGIN/a:/b" of "/lib/main" *)
Example addpath_example :
  @addpath (ex_env [] [] false) ex_dyn (ex_identity "main" no_flags [11]) "$ORIGIN/a:/b"
  = Some ["/lib/a:/b"; "/lib/a:/b"]%string.
Proof. vm_compute. reflexivity. Qed.

(** ** Example: the only relocation of object 11 is to the outdated version 22 of "libx.so" *)

Definition ex_dynamic_ops : ObjectOps := {|
  v_construct _ := mret tt; v_preload _ := mret true; v_fix _ := mret true; v_preprepare _ := mret tt;
  v_prepare _ := mret true; v_update _ := mret true; v_patchable _ := mret true; v_initialize _ _ := mret true;
  v_resolve_symbol _ o n h g v :=
    @resolve_symbol Symbol.ex_strings ex_tables o n h g v;
  v_resolve_address _ _ _ := None; v_dynamic_address _ _ := 0;
|}.
Definition ex_update : M world bool :=
  @update dlh_4k ex_kernel ex_dynamic_ops (ex_env [] [] false) Symbol.ex_strings ex_tables ex_relocator ex_dyn 11.
Definition ex_updated : world := after (ex_update ex_outdated) ex_outdated.

Lemma ex_insert (r : relocation) (s : VersionedSymbol) l : cached r (relocations_insert (DynEnv := ex_dyn) r s l) = Some s.
Proof. unfold cached. cbn. by rewrite bool_decide_true. Qed.
Lemma ex_insert_other (r r' : relocation) (s : VersionedSymbol) l :
  r' <> r -> cached r' (relocations_insert (DynEnv := ex_dyn) r s l) = cached r' l.
Proof.
  intros Hne. unfold cached.
  change (relocations_insert (DynEnv := ex_dyn) r s l) with ((r, s) :: filter (fun x => x.1 <> r) l).
  cbn [find fst]. rewrite bool_decide_false by done. f_equal.
  induction l as [|[q t] l IH]; [done|]. destruct (decide (q = r)) as [->|Hq].
  - rewrite filter_cons_False by naive_solver. cbn [find fst]. by rewrite bool_decide_false.
  - rewrite filter_cons_True by done. cbn [find fst]. by rewrite IH.
Qed.
Lemma ex_own (w : world) o n h g v s :
  v_resolve_symbol (ObjectOps := ex_dynamic_ops) w o n h g v = Some s -> Symbol.sym_object s = o.
Proof.
  cbn. unfold resolve_symbol. destruct (_ =? _); [done|]. destruct (symbol_at _ _); [|done]. destruct (_ && _ && _); [|done].
  by intros [= <-].
Qed.
Lemma ex_outdated_chains : chains_wf ex_outdated.
Proof.
  intros i o Hc. unfold Loader.current_of in Hc. destruct (identities ex_outdated !! i) as [id|] eqn:Hi; [|done].
  apply elem_of_map_to_list, list_elem_of_In in Hi. vm_compute in Hi.
  destruct Hi as [[= <- <-]|[[= <- <-]|[]]]; vm_compute in Hc; injection Hc as <-; (eexists; split; [vm_compute; reflexivity|reflexivity]).
Qed.

#[local] Existing Instances ex_dynamic_ops Symbol.ex_strings ex_tables ex_relocator.


(** Object 11 of the sample tables defines V1 under the index 2 and needs V1 and V2 of "libx.so". *)
Lemma ex_versions_wf : @versions_wf ex_tables 11.
Proof.
  split.
  - intros _. eexists. vm_compute. reflexivity.
  - intros b f Hb%list_elem_of_In Hbase Hf%list_elem_of_In. vm_compute in Hb, Hf.
    destruct Hf as [<-|[]], Hb as [<-|[<-|[]]]; done.
  - intros d e Hd%list_elem_of_In He%list_elem_of_In Hbd Hbe _. vm_compute in Hd, He.
    destruct Hd as [<-|[<-|[]]], He as [<-|[<-|[]]]; done.
  - intros f a g b Hf%list_elem_of_In Ha%list_elem_of_In Hg%list_elem_of_In Hb%list_elem_of_In _ Hn.
    vm_compute in Hf, Hg. destruct Hf as [<-|[]], Hg as [<-|[]]. vm_compute in Ha, Hb.
    destruct Ha as [<-|[<-|[]]], Hb as [<-|[<-|[]]]; done.
Qed.
Lemma version_index_roundtrip_witness :
  version_index 11 (get_version 11 2) = 2 /\ version_index 11 (get_version 11 4) = 4
  /\ Symbol.v_name (get_version 11 4) = Some "V2"%string.
Proof.
  split; [|split].
  - apply (@version_index_roundtrip ex_tables Symbol.ex_strings Symbol.ex_strings_spec 11 2); [exact ex_versions_wf| |done].
    vm_compute. repeat constructor.
  - apply (@version_index_roundtrip ex_tables Symbol.ex_strings Symbol.ex_strings_spec 11 4); [exact ex_versions_wf| |done].
    vm_compute. repeat constructor.
  - vm_compute. reflexivity.
Defined.

(** Object 50 as a new version of "libx.so", to whose current version 12 object 11 has a relocation *)
Definition ex_referenced : world :=
  (ex_world ex_config) <| objects ::= fun m => <[50 := ex_object 2 [] []]> (alter (fun ob => ob <| o_dyn ::= fun d =>
    d <| relocations := [(Reloc 0x400100 1 6 0, ex_symbol 12 0x10 Symbol.STB_GLOBAL "f")] |> |>) 11 m) |>.

Lemma patchable_keeps_references_witness :
  @patchable Symbol.ex_strings ex_tables ex_dyn 50 ex_referenced = Ok (true, ex_referenced)
  /\ exists s', @resolve_by_name Symbol.ex_strings ex_tables 50 "f" = Some s' /\ Symbol.sym_object s' = 50.
Proof.
  split; [vm_compute; reflexivity|].
  destruct (@patchable_keeps_references Symbol.ex_strings ex_tables ex_dyn 50 ex_referenced ex_referenced
    ltac:(vm_compute; reflexivity)) as (_ & ob & id & p & Hob & Hid & Hp & _ & Hall).
  vm_compute in Hob. injection Hob as <-. vm_compute in Hid. injection Hid as <-. injection Hp as <-.
  destruct (Hall 1 _ 11 (Reloc 0x400100 1 6 0) (ex_symbol 12 0x10 Symbol.STB_GLOBAL "f") ltac:(left) ltac:(vm_compute; reflexivity)
    ltac:(left) ltac:(left) eq_refl) as (s' & Hs & Ho & _).
  exists s'. split; [exact Hs|exact Ho].
Defined.
End DynamicProofs.
