(* ===== verification/RelocatableProofs.v ===== *)
(** Theorems about relocatable objects (Relocatable.v): direct accesses instead of the global offset table, and the
    order in which relocations are performed. *)
From S2P Require Import Prelude Platform X86 Segment Symbol Tls World Object Identity Gdb Loader Helper Executable Dynamic Relocatable Samples WorldProofs.

Module RelocatableProofs.
Import World Object WorldProofs Samples Relocatable.

(** * Direct accesses *)

(** The memory after an instruction at [a] was changed by [relax] and the relocation at [a + 2] was performed:
    the displacement is the value of the relocation, S + A - P with the addend -4. *)
Definition relaxed (m : memory) (a target : Z) (bs : list Z) : memory :=
  wr (wr m a bs) (a + 2) (le_bytes 4 (w32 (target + -4 - (a + 2)))).

Lemma relaxed_effective m a target bs :
  0 <= target < 2^64 -> - 2^31 <= target - (a + 6) < 2^31 -> X86.effective (rd (relaxed m a target bs)) a = target.
Proof.
  intros Ht Hr. unfold X86.effective, X86.sext32.
  rewrite (X86.load_le_32 _ (a + 2) (w32 (target + -4 - (a + 2)))) by apply X86.reads_wr.
  rewrite !X86.s32_w32, s32_small by lia. rewrite w64_small by (unfold is_u64; lia). lia.
Qed.
Lemma relaxed_head m a target bs k :
  (k < 2)%nat -> rd (relaxed m a target bs) (a + Z.of_nat k) = rd (wr m a bs) (a + Z.of_nat k).
Proof. intros Hk. unfold relaxed. apply rd_wr_out. lia. Qed.
Lemma relaxed_byte m a target bs k b :
  (k < 2)%nat -> bs !! k = Some b -> rd (relaxed m a target bs) (a + Z.of_nat k) = b.
Proof. intros Hk Hb. rewrite relaxed_head by done. by apply X86.reads_wr. Qed.

(** C8: Relaxing keeps the meaning of a program: when an instruction goes through a slot of the global offset
    table that holds the address of a symbol (a load, a call or a jump), the rewritten instruction with
    the relocated displacement has the same effect -- the same register gets the same value, or the same
    target is reached with the same return address -- for every target within 2 GB. *)
Theorem relax_equivalent m a b0 b1 disp target bs :
  relax b0 b1 = Some bs ->
  X86.reads (rd m) a ([b0; b1] ++ le_bytes 4 disp) ->
  (b0 = 0x8b -> X86.rip_relative b1 = true) ->
  X86.word m (X86.effective (rd m) a) = target ->
  0 <= a -> 0 <= target < 2^64 -> - 2^31 <= target - (a + 6) < 2^31 ->
  X86.access (rd (relaxed m a target bs)) a = X86.access (rd m) a /\ X86.access (rd m) a <> None.
Proof.
  intros Hrelax [Hb0 [Hb1 Hd]%X86.reads_cons]%X86.reads_cons Hmodrm Hslot Ha Ht Hr.
  pose proof (relaxed_effective m a target bs Ht Hr) as Heff.
  pose proof (fun k b => relaxed_byte m a target bs k b) as Hnew.
  unfold X86.word in Hslot. unfold relax in Hrelax. unfold X86.access. rewrite Hb0, Hb1.
  destruct (Z.eqb_spec b0 0x8b) as [->|H8b]; [injection Hrelax as <-|destruct ((b0 =? 0xff) && (b1 =? 0x15)) eqn:Hcall;
    [injection Hrelax as <-|destruct ((b0 =? 0xff) && (b1 =? 0x25)) eqn:Hjmp; [injection Hrelax as <-|done]]].
  - specialize (Hmodrm eq_refl). specialize (Hnew 0%nat _ ltac:(lia) eq_refl). rewrite Z.add_0_r in Hnew.
    pose proof (relaxed_head m a target [0x8d] 1 ltac:(lia)) as H1'. change (Z.of_nat 1) with 1 in H1'.
    rewrite rd_wr_out in H1' by (cbn; lia). rewrite Hnew, H1', Hb1, Heff, Hmodrm. rewrite Hslot. done.
  - apply andb_true_iff in Hcall as [->%Z.eqb_eq ->%Z.eqb_eq].
    pose proof (Hnew 0%nat _ ltac:(lia) eq_refl) as H0'. pose proof (Hnew 1%nat _ ltac:(lia) eq_refl) as H1'.
    rewrite Z.add_0_r in H0'. change (Z.of_nat 1) with 1 in H1'. rewrite H0', H1', Heff. rewrite Hslot. done.
  - apply andb_true_iff in Hjmp as [->%Z.eqb_eq ->%Z.eqb_eq].
    pose proof (Hnew 0%nat _ ltac:(lia) eq_refl) as H0'. pose proof (Hnew 1%nat _ ltac:(lia) eq_refl) as H1'.
    rewrite Z.add_0_r in H0'. change (Z.of_nat 1) with 1 in H1'. rewrite H0', H1', Heff. rewrite Hslot. done.
Qed.

(** For instance a call through the slot at 0x1016, which holds 0x2000 *)
Definition ex_code : memory := wr (wr ∅ 0x1000 ([0xff; 0x15] ++ le_bytes 4 0x10)) 0x1016 (le_bytes 8 0x2000).
Lemma relax_equivalent_witness :
  relax 0xff 0x15 = Some [0x90; 0xe8]
  /\ X86.access (rd (relaxed ex_code 0x1000 0x2000 [0x90; 0xe8])) 0x1000 = Some (X86.Jump 0x2000 (Some 0x1006)).
Proof.
  split; [reflexivity|].
  destruct (relax_equivalent ex_code 0x1000 0xff 0x15 0x10 0x2000 [0x90; 0xe8] eq_refl) as [He _].
  - unfold ex_code. apply X86.reads_wr_out; [left; cbn; lia|]. apply X86.reads_wr.
  - done.
  - vm_compute. reflexivity.
  - lia.
  - lia.
  - lia.
  - etransitivity; [exact He|]. vm_compute. reflexivity.
Defined.

(** * The order of relocations *)

(** What happened that matters, in its order: a relocation was performed, a function was called. *)
Definition marks (tr : list event) : list (relocation + Z) :=
  omap (fun e => match e with Ev_fix r _ _ => Some (inl r) | Ev_call p _ => Some (inr p) | _ => None end) tr.
Definition fixes (l : list (relocation + Z)) : list relocation := omap (fun x => match x with inl r => Some r | inr _ => None end) l.
Lemma marks_app t1 t2 : marks (t1 ++ t2) = marks t1 ++ marks t2.
Proof. apply omap_app. Qed.
Lemma fixes_app l1 l2 : fixes (l1 ++ l2) = fixes l1 ++ fixes l2.
Proof. apply omap_app. Qed.
Lemma fixes_inl l : fixes (inl <$> l) = l.
Proof. induction l as [|r l IH]; [done|]. cbn. by f_equal. Qed.

Section prepare.
Context `{DlhMath} `{ObjectOps} `{Env} `{Symbol.StringOps} `{Dynamic.ElfTables} `{Dynamic.RelocatorOps}
  `{Dynamic.DynEnv} `{RelEnv}.

Abbreviation fixed l := (fun w => marks (trace w) = l).

(** Writing a trampoline performs no relocation and calls no function. *)
Context (Htrampoline : forall s l, keeps (fixed l) (trampoline_set s)).

Lemma fixed_emit l e : marks [e] = [] -> keeps (fixed l) (emit e).
Proof. intros He. apply keeps_modify. intros w Hw. cbn. by rewrite marks_app, He, app_nil_r. Qed.

Ltac fixed_step :=
  first
    [ apply keeps_get_identity | apply keeps_get_object | apply fixed_emit; done | apply Htrampoline
    | apply keeps_set_identity; intros; done | apply keeps_set_object; intros; done | keeps_step ].

Lemma fixed_store_all l a bs : keeps (fixed l) (store_all a bs).
Proof. revert a. induction bs as [|b bs IH]; intros a; cbn; repeat (apply IH || fixed_step). Qed.
Lemma fixed_relax l base r : keeps (fixed l) (relax_instruction base r).
Proof. unfold relax_instruction. repeat (apply fixed_store_all || fixed_step). Qed.
Lemma fixed_external l base r s b m f : keeps (fixed l) (external_value base r s b m f).
Proof. unfold external_value. repeat fixed_step. Qed.
Lemma fixed_insert l o r s : keeps (fixed l) (insert_relocation o r s).
Proof. unfold insert_relocation, Dynamic.set_dyn. repeat fixed_step. Qed.
Lemma fixed_ifunc l p w v w' : fixed l w -> call_ifunc p w = Ok (v, w') -> fixed (l ++ [inr p]) w'.
Proof.
  intros Hw Hr. unfold call_ifunc in Hr. apply bind_Ok in Hr as ([] & w1 & Ha & Hr).
  apply (keeps_run (fixed l)) in Ha; [|apply keeps_assert|exact Hw]. apply bind_Ok in Hr as ([] & w2 & [_ <-]%Ok_inj & Hr).
  apply bind_Ok in Hr as (? & ? & [_ <-]%Ok_inj & [_ <-]%Ok_inj). cbn. by rewrite marks_app, Ha.
Qed.

Lemma fix_reloc_Ok l r base v w x w' :
  fixed l w -> fix_reloc r base v w = Ok (x, w') -> fixed (l ++ [inl r]) w'.
Proof. unfold fix_reloc. intros <- Hr. injection Hr as _ <-. apply marks_app. Qed.

Lemma relocate_local_Ok l o ob id r s p w v w' :
  fixed l w -> relocate_local o ob id r s p w = Ok (v, w') -> fixed (l ++ [inl r]) w'.
Proof.
  intros Hw Hr. unfold relocate_local in Hr. apply bind_Ok in Hr as (latest & w1 & Hl & Hr).
  apply (keeps_run (fixed l)) in Hl; [|unfold is_latest_version; repeat fixed_step|done].
  apply bind_Ok in Hr as (w2 & w3 & [<- <-]%Ok_inj & Hr). cbn zeta in Hr.
  destruct (match current id with Some _ => _ | None => None end) as [[cur x]|].
  - apply bind_Ok in Hr as ([] & w2 & Hi & Hr). apply (keeps_run (fixed l)) in Hi; [|apply fixed_insert|done].
    apply bind_Ok in Hr as (cob & w3 & [_ ->]%get_object_Ok & Hr). by eapply fix_reloc_Ok.
  - apply bind_Ok in Hr as ([] & w2 & Hi & Hr). apply (keeps_run (fixed l)) in Hi; [|apply fixed_insert|done].
    by eapply fix_reloc_Ok.
Qed.

(** The symbol of a relocation is an indirect function: of this object, or where the loader finds it. *)
Definition indirect (w : world) (o : Z) (r : relocation) : Prop :=
  r_symbol r <> 0
  /\ exists ob id s, objects w !! o = Some ob /\ identities w !! o_file ob = Some id /\ reloc_symbol (o_rel ob) r = Some s
     /\ if es_undefined s
        then exists sym, Loader.resolve w (es_name s) None (ns id) (Some (o_file ob)) (Dynamic.resolve_mode id r) = Some (Some sym)
                         /\ Symbol.sym_type sym = STT_GNU_IFUNC
        else es_type s = STT_GNU_IFUNC.

Lemma keeps_relax_objects w0 base r :
  keeps (fun w => objects w = objects w0 /\ identities w = identities w0) (relax_instruction base r).
Proof.
  assert (forall a bs, keeps (fun w => objects w = objects w0 /\ identities w = identities w0) (store_all a bs)) as Hs.
  { intros a bs. revert a. induction bs as [|b bs IH]; intros a; cbn; [apply keeps_ret|].
    apply keeps_bind; [by apply keeps_world_emit|intros; apply IH]. }
  unfold relax_instruction. repeat (apply Hs || keeps_step).
Qed.

(** The state in which the symbol of a relocation is examined *)
Definition examined (o : Z) (r : relocation) (w w1 : world) : Prop :=
  exists ob, objects w !! o = Some ob /\ relax_instruction (o_base ob) r w = Ok (tt, w1).
(** The indirect function of the object itself that a relocation calls *)
Definition own_function (w : world) (o : Z) (r : relocation) : option Z :=
  match objects w !! o with
  | Some ob => match reloc_symbol (o_rel ob) r with
               | Some s => if es_undefined s then None else Some (w64 (o_base ob + es_value s))
               | None => None
               end
  | None => None
  end.

(** The two passes, with the states they go through.  In the first one every relocation is performed when it is looked
    at, unless its symbol is an indirect function in that state; no function is called. *)
Inductive first_pass (o : Z) : world -> list relocation -> list relocation -> list relocation -> world -> Prop :=
| first_done w : first_pass o w [] [] [] w
| first_direct r rs direct later v w w1 w2 w3 :
    examined o r w w1 -> ~ indirect w1 o r ->
    relocate o r true w = Ok ((v, false), w2) -> marks (trace w2) = marks (trace w) ++ [inl r] ->
    first_pass o w2 rs direct later w3 -> first_pass o w (r :: rs) (r :: direct) later w3
| first_later r rs direct later v w w1 w2 w3 :
    examined o r w w1 -> indirect w1 o r ->
    relocate o r true w = Ok ((v, true), w2) -> marks (trace w2) = marks (trace w) ->
    first_pass o w2 rs direct later w3 -> first_pass o w (r :: rs) direct (r :: later) w3.
(** In the second one the functions of the object are called just before the relocation is performed. *)
Inductive second_pass (o : Z) : world -> list relocation -> world -> Prop :=
| second_done w : second_pass o w [] w
| second_step r rs v w w1 w2 w3 :
    examined o r w w1 ->
    relocate o r false w = Ok ((v, false), w2) ->
    (indirect w1 o r -> marks (trace w2) = marks (trace w) ++ (inr <$> option_list (own_function w1 o r)) ++ [inl r]) ->
    fixes (marks (trace w2)) = fixes (marks (trace w)) ++ [r] ->
    second_pass o w2 rs w3 -> second_pass o w (r :: rs) w3.

Lemma first_pass_marks o w rs direct later w' :
  first_pass o w rs direct later w' ->
  marks (trace w') = marks (trace w) ++ (inl <$> direct)
  /\ direct `sublist_of` rs /\ later `sublist_of` rs /\ direct ++ later ≡ₚ rs.
Proof.
  induction 1 as [w|r rs d l v w w1 w2 w3 _ _ _ Hm _ (IHm & IHd & IHl & IHp)|r rs d l v w w1 w2 w3 _ _ _ Hm _ (IHm & IHd & IHl & IHp)].
  - rewrite app_nil_r. by split_and!; try constructor.
  - rewrite IHm, Hm, <- app_assoc. split_and!; [done|by constructor..|]. cbn. by rewrite IHp.
  - rewrite IHm, Hm. split_and!; [done|by constructor..|]. by rewrite <- Permutation_middle, IHp.
Qed.
Lemma second_pass_fixes o w rs w' : second_pass o w rs w' -> fixes (marks (trace w')) = fixes (marks (trace w)) ++ rs.
Proof. induction 1 as [w|r rs v w w1 w2 w3 _ _ _ Hm _ IH]; [by rewrite app_nil_r|]. by rewrite IH, Hm, <- app_assoc. Qed.

(** One relocation: what happens, and whether it was put off *)
Lemma relocate_Ok o r p w v post w' :
  relocate o r p w = Ok ((v, post), w') ->
  exists w1, examined o r w w1
  /\ (post = true -> v = 0 /\ p = true /\ marks (trace w') = marks (trace w) /\ indirect w1 o r)
  /\ (post = false -> v <> 0 ->
       if p then marks (trace w') = marks (trace w) ++ [inl r] /\ ~ indirect w1 o r
       else (indirect w1 o r -> marks (trace w') = marks (trace w) ++ (inr <$> option_list (own_function w1 o r)) ++ [inl r])
            /\ fixes (marks (trace w')) = fixes (marks (trace w)) ++ [r]).
Proof.
  intros Hr. unfold relocate in Hr.
  apply bind_Ok in Hr as (ob & w1 & [Hob ->]%get_object_Ok & Hr).
  apply bind_Ok in Hr as (id & w1 & [Hid ->]%get_identity_Ok & Hr).
  apply bind_Ok in Hr as ([] & w1 & Hrelax & Hr). exists w1. split; [by exists ob|].
  apply (keeps_run _ _ _ _ _ (keeps_relax_objects w (o_base ob) r)) in Hrelax as Hsame; [|done].
  apply (keeps_run _ _ _ _ _ (fixed_relax (marks (trace w)) (o_base ob) r)) in Hrelax; [|done]. destruct Hsame as [Ho1 Hi1].
  rewrite <- Ho1 in Hob. rewrite <- Hi1 in Hid. revert Hrelax. generalize (marks (trace w)). intros l Hw.
  assert (forall x, marks (trace w') = l ++ [inl x] -> fixes (marks (trace w')) = fixes l ++ [x]) as Hfix by (intros x ->; apply fixes_app).
  destruct (Z.eqb_spec (r_symbol r) 0) as [Hz|Hz].
  { apply bind_Ok in Hr as (x & w2 & Hf & [= <- <- <-]). split; [done|]. intros _ _. apply (fix_reloc_Ok _ _ _ _ _ _ _ Hw) in Hf.
    destruct p; [split; [done|by intros []]|]. split; [by intros []|by apply Hfix]. }
  destruct (reloc_symbol (o_rel ob) r) as [s|] eqn:Hs; [|done]. cbn zeta in Hr.
  assert (own_function w1 o r = if es_undefined s then None else Some (w64 (o_base ob + es_value s))) as Hown.
  { unfold own_function. by rewrite Hob, Hs. }
  destruct (es_undefined s) eqn:Hundef; cbn [negb] in Hr.
  - apply bind_Ok in Hr as (w2 & w3 & [<- <-]%Ok_inj & Hr).
    destruct (Loader.resolve _ _ _ _ _ _) as [[sym|]|] eqn:Hres; [|by apply Ok_inj in Hr as [[= <- <-] _]|done].
    apply bind_Ok in Hr as ([] & w2 & Hi & Hr). apply (keeps_run _ _ _ _ _ (fixed_insert l o r sym)) in Hi; [|done].
    destruct (p && bool_decide (Symbol.sym_type sym = STT_GNU_IFUNC)) eqn:Hp.
    + apply andb_true_iff in Hp as [-> Ht%bool_decide_eq_true]. apply Ok_inj in Hr as [[= <- <-] <-]. split; [|done].
      intros _. split_and!; [done..|]. split; [done|]. exists ob, id, s. rewrite Hundef. eauto 10.
    + apply bind_Ok in Hr as (sob & w3 & [_ ->]%get_object_Ok & Hr).
      apply bind_Ok in Hr as (value & w3 & Hv & Hr).
      apply (keeps_run _ _ _ _ _ (fixed_external l _ r sym _ _ _)) in Hv; [|done].
      apply bind_Ok in Hr as (x & w4 & Hf & [= <- <- <-]). split; [done|]. intros _ _. apply (fix_reloc_Ok _ _ _ _ _ _ _ Hv) in Hf.
      destruct p; [split; [done|]|by rewrite Hown; split; [|apply Hfix]].
      intros (_ & ob' & id' & s' & Hob' & Hid' & Hs' & Hu'). simplify_eq. rewrite Hundef in Hu'.
      destruct Hu' as (sym' & Hres' & Ht). rewrite Hres in Hres'. injection Hres' as <-. by rewrite bool_decide_true in Hp.
  - destruct (bool_decide (es_type s = STT_GNU_IFUNC)) eqn:Ht; [destruct p|].
    + apply bool_decide_eq_true in Ht. apply Ok_inj in Hr as [[= <- <-] <-]. split; [|done]. intros _. split_and!; [done..|].
      split; [done|]. exists ob, id, s. by rewrite Hundef.
    + apply bind_Ok in Hr as (x & w2 & Hf & Hr). apply (fixed_ifunc _ _ _ _ _ Hw) in Hf.
      apply bind_Ok in Hr as (y & w3 & Hl & [= <- <- <-]). split; [done|]. intros _ _. apply (relocate_local_Ok _ _ _ _ _ _ _ _ _ _ Hf) in Hl.
      rewrite Hown, Hl. cbn. rewrite <- app_assoc. split; [done|]. by rewrite fixes_app.
    + apply bind_Ok in Hr as (y & w3 & Hl & [= <- <- <-]). split; [done|]. intros _ _.
      apply (relocate_local_Ok _ _ _ _ _ _ _ _ _ _ Hw) in Hl.
      assert (~ indirect w1 o r) as Hno.
      { intros (_ & ob' & id' & s' & Hob' & Hid' & Hs' & Hu'). simplify_eq. rewrite Hundef in Hu'. by rewrite bool_decide_true in Ht. }
      destruct p; [done|]. split; [done|by apply Hfix].
Qed.

Lemma relocate_first_Ok o rs w postponed w' :
  relocate_first o rs w = Ok ((postponed, true), w') -> exists direct, first_pass o w rs direct postponed w'.
Proof.
  revert w postponed. induction rs as [|r rs IH]; intros w postponed Hr.
  { injection Hr as <- <-. exists []. constructor. }
  cbn [relocate_first] in Hr. apply bind_Ok in Hr as ([v post] & w1 & H1' & Hr).
  apply bind_Ok in Hr as ([l' ok] & w2 & H2' & Hr). apply Ok_inj in Hr as [[= <- Hok] <-].
  destruct (relocate_Ok _ _ _ _ _ _ _ H1') as (wx & Hx & Hpost & Hnow).
  apply andb_true_iff in Hok as [Hv ->]. apply IH in H2' as [direct Hd]. destruct post.
  - destruct (Hpost eq_refl) as (_ & _ & Hm & Hind). exists direct. by eapply first_later.
  - cbn [orb] in Hv. apply negb_true_iff, Z.eqb_neq in Hv. destruct (Hnow eq_refl Hv) as [Hm Hind]. exists (r :: direct).
    by eapply first_direct.
Qed.

Lemma relocate_postponed_Ok o rs w w' : relocate_postponed o rs w = Ok (true, w') -> second_pass o w rs w'.
Proof.
  revert w. induction rs as [|r rs IH]; intros w Hr; [apply Ok_inj in Hr as [_ <-]; constructor|].
  cbn [relocate_postponed] in Hr. apply bind_Ok in Hr as ([v post] & w1 & H1' & Hr).
  apply bind_Ok in Hr as (ok & w2 & H2' & Hr). apply Ok_inj in Hr as [[Hv%negb_true_iff%Z.eqb_neq ->]%andb_true_iff <-].
  destruct (relocate_Ok _ _ _ _ _ _ _ H1') as (wx & Hx & Hpost & Hnow). destruct post; [by destruct (Hpost eq_refl) as (_ & ? & _)|].
  destruct (Hnow eq_refl Hv) as [Hm Hf]. econstructor; [exact Hx|exact H1'|exact Hm|exact Hf|by apply IH].
Qed.

(** C9: A successful preparation performs every relocation of a relocatable object exactly once, and those of
    indirect functions last.  In a first pass exactly the relocations whose symbol is not an indirect function at the
    time it is looked at are performed, in the order of the tables, and no function is called; then
    the others follow in their order, and an indirect function of the object itself is called just before its
    relocation is performed. *)
Theorem indirect_relocations_last o ob w w' :
  objects w !! o = Some ob -> prepare o w = Ok (true, w') ->
  exists direct postponed w1 w2,
    first_pass o w (all_relocations (o_rel ob)) direct postponed w1
    /\ marks (trace w1) = marks (trace w) ++ (inl <$> direct)
    /\ second_pass o w1 postponed w2
    /\ marks (trace w') = marks (trace w2)
    /\ fixes (marks (trace w')) = fixes (marks (trace w)) ++ direct ++ postponed
    /\ direct ++ postponed ≡ₚ all_relocations (o_rel ob)
    /\ direct `sublist_of` all_relocations (o_rel ob) /\ postponed `sublist_of` all_relocations (o_rel ob).
Proof.
  intros Hob Hr. unfold prepare, get_rel in Hr.
  apply bind_Ok in Hr as (rel & w1 & Hrel & Hr).
  apply bind_Ok in Hrel as (ob' & w2 & [Hob' ->]%get_object_Ok & [<- <-]%Ok_inj). assert (ob' = ob) as -> by congruence.
  apply bind_Ok in Hr as ([postponed ok] & w1 & H1' & Hr).
  apply bind_Ok in Hr as (ok' & w2 & H2' & Hr).
  assert (ok = true /\ ok' = true /\ marks (trace w') = marks (trace w2)) as (-> & -> & Htr).
  { apply bind_Ok in Hr as ([] & w3 & Heh & Hr).
    apply (keeps_run (fixed (marks (trace w2)))) in Heh; [| |done].
    2: { destruct (eh_section _); [|apply keeps_ret]. unfold write_eh_header, Dynamic.set_dyn.
         repeat (apply fixed_store_all || fixed_step). }
    apply bind_Ok in Hr as (ob2 & w4 & [_ ->]%get_object_Ok & Hr).
    apply bind_Ok in Hr as ([] & w4 & Hret & Hr).
    apply (keeps_run (fixed (marks (trace w2)))) in Hret; [|repeat fixed_step|done].
    apply Ok_inj in Hr as [[-> ->]%andb_true_iff <-]. done. }
  apply relocate_first_Ok in H1' as [direct Hf]. apply relocate_postponed_Ok in H2'.
  destruct (first_pass_marks _ _ _ _ _ _ Hf) as (Hm & Hs1 & Hs2 & Hp). pose proof (second_pass_fixes _ _ _ _ H2') as Hx.
  exists direct, postponed, w1, w2. split_and!; try done. by rewrite Htr, Hx, Hm, fixes_app, fixes_inl, <- app_assoc.
Qed.
End prepare.

(** The relocation to the indirect function "g" comes first in the table and is performed last. *)
Definition ex_files : world := (ex_world ex_config) <| objects ::= <[60 := ex_object_file]> |>.
Definition ex_prepare : M world bool :=
  @prepare (ex_ops [] true false) Symbol.ex_strings ex_relocator ex_dyn ex_rel 60.
Definition ex_files_prepared : world := after (ex_prepare ex_files) ex_files.

Lemma indirect_relocations_last_witness :
  exists direct postponed w1,
    marks (trace w1) = inl <$> direct /\ fixes (marks (trace ex_files_prepared)) = direct ++ postponed
    /\ direct ++ postponed ≡ₚ [Reloc 0x10 1 1 0; Reloc 0x20 2 1 0]
    /\ marks (trace ex_files_prepared) = [inl (Reloc 0x20 2 1 0); inr 0x10100; inl (Reloc 0x10 1 1 0)].
Proof.
  destruct (@indirect_relocations_last (ex_ops [] true false) Symbol.ex_strings ex_relocator ex_dyn ex_rel
    ltac:(intros s l w a w' Hw [_ <-]%Ok_inj; exact Hw) 60 ex_object_file ex_files ex_files_prepared)
    as (direct & postponed & w1 & w2 & _ & Hm & _ & _ & Hf & Hp & _).
  - vm_compute. reflexivity.
  - vm_compute. reflexivity.
  - exists direct, postponed, w1. split; [exact Hm|]. split; [exact Hf|]. split; [exact Hp|]. vm_compute. reflexivity.
Defined.
End RelocatableProofs.
