(* ===== verification/DlResolveProofs.v ===== *)
(** Theorems about lazy resolution (DlResolve.v): the assembler hides the resolution from the program. *)
From S2P Require Import Prelude Platform X86 Segment Symbol World Object Process Loader Executable Dynamic Relocatable Objects DlResolve Samples.

Module DlResolveProofs.
Import X86 World Object Process Objects DlResolve Samples.

Lemma w64_small' a b : a = b -> 0 <= b < 2^64 -> w64 a = b.
Proof. intros ->. by apply w64_small. Qed.

(** * Memory *)

Definition same_mem (P : Z -> Prop) (c c' : cpu) : Prop := forall a, P a -> rd (mem c') a = rd (mem c) a.

Lemma word_ext m m' a : (forall x, a <= x < a + 8 -> rd m' x = rd m x) -> word m' a = word m a.
Proof. intros Hm. unfold word, load_le. f_equal. apply list_fmap_ext. intros k i [-> Hi]%lookup_seq. apply Hm. lia. Qed.
Lemma load_same P c c' a : same_mem P c c' -> (forall x, a <= x < a + 8 -> P x) -> load a c' = load a c.
Proof. intros Hs HP. apply word_ext. auto. Qed.
Lemma load_store a v c : load a (store a v c) = w64 v.
Proof. apply load_le_64, reads_wr. Qed.
Lemma store_same a v c : same_mem (fun x => x < a \/ a + 8 <= x) c (store a v c).
Proof. intros x Hx. apply rd_wr_out. by rewrite le_bytes_length. Qed.

(** * Saving and restoring registers *)

Lemma run_app l1 l2 c : run (l1 ++ l2) c = run l2 (run l1 c).
Proof. apply foldl_app. Qed.

Lemma load_set_reg a r v c : load a (set_reg r v c) = load a c.
Proof. done. Qed.
Lemma get_set_same r v c : regs (set_reg r v c) r = v.
Proof. apply decide_True. done. Qed.
Lemma get_set_other r v c x : x <> r -> regs (set_reg r v c) x = regs c x.
Proof. intros Hx. by apply decide_False. Qed.

Lemma push_spec v c :
  8 <= regs c RSP < 2^64 ->
  regs (push v c) RSP = regs c RSP - 8 /\ (forall x, x <> RSP -> regs (push v c) x = regs c x)
  /\ same_mem (fun a => a < regs c RSP - 8 \/ regs c RSP <= a) c (push v c)
  /\ load (regs c RSP - 8) (push v c) = w64 v /\ fp (push v c) = fp c /\ state (push v c) = state c.
Proof.
  intros Hs. assert (w64 (regs c RSP - 8) = regs c RSP - 8) as Hw by (apply w64_small'; lia).
  unfold push. rewrite Hw. split_and!; [apply get_set_same|intros x Hx; by apply get_set_other| |apply load_store|done..].
  intros a Ha. rewrite (store_same (regs c RSP - 8) v (set_reg RSP (regs c RSP - 8) c) a); [done|lia].
Qed.

(** [c'] after pushing the registers [l]: the stack holds their values, nothing else has changed. *)
Record pushed (l : list reg) (c c' : cpu) : Prop := {
  pu_sp : regs c' RSP = regs c RSP - 8 * Z.of_nat (length l);
  pu_regs r : r <> RSP -> regs c' r = regs c r;
  pu_mem : same_mem (fun a => a < regs c' RSP \/ regs c RSP <= a) c c';
  pu_slots k r : l !! k = Some r -> load (regs c RSP - 8 * Z.of_nat (S k)) c' = w64 (regs c r);
  pu_fp : fp c' = fp c;
  pu_state : state c' = state c;
}.
Lemma run_pushes l c :
  RSP ∉ l -> 8 * Z.of_nat (length l) <= regs c RSP < 2^64 -> pushed l c (run (PUSH <$> l) c).
Proof.
  revert c; induction l as [|r l IH]; intros c Hl Hs; cbn [fmap list_fmap run foldl].
  { split; try done. cbn. lia. }
  apply not_elem_of_cons in Hl as [Hr Hl]. cbn [length] in Hs. set (c1 := exec (PUSH r) c).
  destruct (push_spec (regs c r) c) as (Hs1 & Hr1 & Hm1 & Hl1 & Hf1 & Hst1); [lia|].
  change (push (regs c r) c) with c1 in *. clearbody c1.
  destruct (IH c1) as [Hsp Hregs Hmem Hslots Hfp Hst]; [done|lia|].
  change (foldl _ _ _) with (run (PUSH <$> l) c1). set (c2 := run (PUSH <$> l) c1) in *.
  split; try congruence.
  - cbn [length]. lia.
  - intros x Hx. rewrite Hregs by done. by apply Hr1.
  - intros a Ha. rewrite Hmem by lia. apply Hm1. lia.
  - intros [|k] x Hx; simplify_eq/=.
    + change (8 * Z.of_nat 1) with 8. rewrite (load_same _ c1 c2 _ Hmem) by (intros; rewrite Hs1; lia). done.
    + rewrite <- (Hr1 x) by (intros ->; by apply list_elem_of_lookup_2 in Hx). rewrite <- (Hslots k x Hx). f_equal. lia.
Qed.

(** [c'] after popping the registers [l] *)
Record popped (l : list reg) (c c' : cpu) : Prop := {
  po_sp : regs c' RSP = regs c RSP + 8 * Z.of_nat (length l);
  po_regs r : r <> RSP -> r ∉ l -> regs c' r = regs c r;
  po_slots k r : l !! k = Some r -> regs c' r = load (regs c RSP + 8 * Z.of_nat k) c;
  po_mem : mem c' = mem c;
  po_fp : fp c' = fp c;
  po_state : state c' = state c;
}.
Lemma run_pops l c :
  RSP ∉ l -> NoDup l -> 0 <= regs c RSP -> regs c RSP + 8 * Z.of_nat (length l) < 2^64 -> popped l c (run (POP <$> l) c).
Proof.
  revert c; induction l as [|r l IH]; intros c Hl Hnd Hs Ht; cbn [fmap list_fmap run foldl].
  { split; try done. cbn. lia. }
  apply not_elem_of_cons in Hl as [Hr Hl]. apply NoDup_cons in Hnd as [Hnr Hnd]. cbn [length] in Ht. set (c1 := exec (POP r) c).
  assert (regs c1 RSP = regs c RSP + 8) as Hs1.
  { cbn. rewrite decide_False by done. cbn. apply w64_small. unfold is_u64. lia. }
  destruct (IH c1) as [Hsp Hregs Hslots Hmem Hfp Hst]; [done|done|lia|lia|].
  change (foldl _ _ _) with (run (POP <$> l) c1). set (c2 := run (POP <$> l) c1) in *.
  split; try done.
  - cbn [length]. lia.
  - intros x Hx [Hxr Hxl]%not_elem_of_cons. rewrite Hregs by done. cbn. by rewrite !decide_False.
  - intros [|k] x Hx; [injection Hx as <-|cbn [lookup list_lookup] in Hx].
    + rewrite Hregs by done. trans (load (regs c RSP) c); [|f_equal; lia].
      unfold c1. cbn [exec pop set_reg regs]. by rewrite decide_True.
    + rewrite (Hslots k x Hx), Hs1. unfold load. change (mem c1) with (mem c). f_equal. lia.
Qed.

(** * The assembler *)

Section resolve.
Context `{DlhMath}.
Context (kernel : kernel_t) `{ObjectOps} `{Env} `{Symbol.StringOps} `{Executable.ElfSegments} `{Dynamic.ElfTables} `{Dynamic.RelocatorOps}
  `{Dynamic.DynEnv}.
Context (supports_xsave : bool) (clobber : cpu -> cpu) (return_address : Z).

(** What the compiler guarantees for a function (System V ABI): the stack pointer and the base pointer are
    restored, the memory of the callers, from the return address on, is left alone. *)
Class Abi : Prop := {
  abi_sp c : regs (clobber c) RSP = regs c RSP;
  abi_bp c : regs (clobber c) RBP = regs c RBP;
  abi_mem c : same_mem (fun a => regs c RSP <= a) c (clobber c);
}.
Context `{!Abi}.

Abbreviation kept := [RAX; RBX; RCX; RDX; RBP; RSI; RDI; R8; R9; R10; R11; R12; R13; R14; R15].
Abbreviation saved_mask := (if supports_xsave then mask_low else fx_mask).

Lemma saved_rsp : RSP ∉ saved_registers.
Proof. apply (bool_decide_eq_false_1 _). vm_compute. reflexivity. Qed.
Lemma saved_rbp : RBP ∉ saved_registers.
Proof. apply (bool_decide_eq_false_1 _). vm_compute. reflexivity. Qed.
Lemma saved_nodup : NoDup saved_registers.
Proof. apply (bool_decide_eq_true_1 _). vm_compute. reflexivity. Qed.

(** At the entry the stack holds the two parameters and the return address of the program. *)
Record entry (c : cpu) : Prop := {
  en_regs r : 0 <= regs c r < 2^64;
  en_stack : 128 <= regs c RSP;
  en_top : regs c RSP + 24 <= 2^64;
}.

(** After the prologue *)
Record prepared (c c' : cpu) : Prop := {
  pr_bp : regs c' RBP = regs c RSP - 8;
  pr_sp : regs c' RSP = regs c RSP - 120;
  pr_object : regs c' RDI = load (regs c RSP) c;
  pr_index : regs c' RSI = load (regs c RSP + 8) c;
  pr_slots k r : (RBP :: saved_registers) !! k = Some r -> load (regs c RSP - 8 * Z.of_nat (S k)) c' = regs c r;
  pr_mem : same_mem (fun a => regs c RSP <= a) c c';
  pr_fp : fp c' = fp c;
  pr_state : state c' = state c;
}.
Lemma run_enter c : run [ENDBR64; PUSH RBP; MOV RSP RBP] c = set_reg RBP (regs (push (regs c RBP) c) RSP) (push (regs c RBP) c).
Proof. reflexivity. Qed.
Lemma run_parameters s c :
  regs c RBP = s - 8 -> 0 <= s -> s + 8 < 2^64 ->
  run [LOAD 8 RBP RDI; LOAD 16 RBP RSI] c = set_reg RSI (load (s + 8) c) (set_reg RDI (load s c) c).
Proof.
  intros Hbp Hs Ht. change (exec (LOAD 16 RBP RSI) (exec (LOAD 8 RBP RDI) c) = set_reg RSI (load (s + 8) c) (set_reg RDI (load s c) c)).
  unfold exec. rewrite get_set_other, Hbp, load_set_reg by done.
  rewrite (w64_small' (s - 8 + 8) s), (w64_small' (s - 8 + 16) (s + 8)) by lia. done.
Qed.
(** After the base pointer is set up *)
Definition entered (c c1 : cpu) : Prop :=
  regs c1 RSP = regs c RSP - 8 /\ regs c1 RBP = regs c RSP - 8
  /\ (forall r, r <> RSP -> r <> RBP -> regs c1 r = regs c r)
  /\ same_mem (fun a => a < regs c RSP - 8 \/ regs c RSP <= a) c c1
  /\ load (regs c RSP - 8) c1 = regs c RBP /\ fp c1 = fp c /\ state c1 = state c.
Lemma run_enter_spec c : entry c -> entered c (run [ENDBR64; PUSH RBP; MOV RSP RBP] c).
Proof.
  intros [Hregs Hs Ht]. rewrite run_enter. unfold entered.
  destruct (push_spec (regs c RBP) c) as (Hsp0 & Hr0 & Hm0 & Hl0 & Hf0 & Hst0); [lia|].
  revert Hsp0 Hr0 Hm0 Hl0 Hf0 Hst0. generalize (push (regs c RBP) c). intros c0 Hsp0 Hr0 Hm0 Hl0 Hf0 Hst0.
  rewrite w64_small in Hl0 by apply Hregs. split_and!.
  - by rewrite get_set_other.
  - by rewrite get_set_same.
  - intros r Hx Hy. rewrite get_set_other by done. by apply Hr0.
  - exact Hm0.
  - by rewrite load_set_reg.
  - exact Hf0.
  - exact Hst0.
Qed.
Lemma prologue_composes c c1 c2 :
  entry c -> entered c c1 -> pushed saved_registers c1 c2 -> prepared c (run [LOAD 8 RBP RDI; LOAD 16 RBP RSI] c2).
Proof.
  intros [Hregs Hs Ht] (Hsp1 & Hbp1 & Hr1 & Hm1 & Hl1 & Hf1 & Hst1) [Hsp Hr Hm Hslots Hfp Hst].
  change (length saved_registers) with 14%nat in Hsp.
  assert (same_mem (fun a => regs c RSP <= a) c c2) as Hm2 by (intros a Ha; rewrite Hm, Hm1 by lia; done).
  assert (regs c2 RBP = regs c RSP - 8) as Hbp2 by (by rewrite Hr).
  rewrite (run_parameters (regs c RSP) c2) by (done || lia). split.
  - by rewrite !get_set_other.
  - rewrite !get_set_other by done. lia.
  - rewrite get_set_other, get_set_same by done. apply (load_same _ c c2 _ Hm2). lia.
  - rewrite get_set_same. apply (load_same _ c c2 _ Hm2). lia.
  - intros [|k] r Hk; rewrite !load_set_reg.
    + injection Hk as <-. rewrite <- Hl1. change (8 * Z.of_nat 1) with 8. apply (load_same _ c1 c2 _ Hm). lia.
    + change (saved_registers !! k = Some r) in Hk.
      replace (regs c RSP - 8 * Z.of_nat (S (S k))) with (regs c1 RSP - 8 * Z.of_nat (S k)) by lia.
      rewrite (Hslots k r Hk). rewrite Hr1; [apply w64_small, Hregs|..].
      all: intros ->; apply list_elem_of_lookup_2 in Hk; by apply saved_rsp in Hk || apply saved_rbp in Hk.
  - exact Hm2.
  - change (fp c2 = fp c). congruence.
  - change (state c2 = state c). congruence.
Qed.
Lemma run_prologue c : entry c -> prepared c (run prologue c).
Proof.
  intros Hc. unfold prologue. rewrite !run_app. pose proof (run_enter_spec c Hc) as He.
  eapply prologue_composes; [exact Hc|exact He|]. apply run_pushes; [exact saved_rsp|].
  destruct He as [-> _], Hc as [_ Hs Ht]. change (length saved_registers) with 14%nat. lia.
Qed.

Abbreviation all_saved := (RBP :: saved_registers).
Lemma all_saved_spec : RSP ∉ rev all_saved /\ NoDup (rev all_saved) /\ length (rev all_saved) = 15%nat.
Proof.
  split; [apply (bool_decide_eq_false_1 _); vm_compute; reflexivity|]. split; [|reflexivity].
  apply (bool_decide_eq_true_1 _). vm_compute. reflexivity.
Qed.
Lemma rev_all_saved k r : all_saved !! k = Some r -> rev all_saved !! (14 - k)%nat = Some r /\ (k <= 14)%nat.
Proof. do 15 (destruct k as [|k]; [intros [= <-]; split; [reflexivity|lia]|]). done. Qed.

(** After the epilogue: the result is on top of the stack. *)
Lemma run_epilogue s c c' v :
  regs c RSP = s - 120 -> regs c RBP = s - 8 -> regs c RAX = v -> 0 <= v < 2^64 ->
  128 <= s -> s + 24 <= 2^64 -> c' = run epilogue c ->
  regs c' RSP = s + 8 /\ load (s + 8) c' = v
  /\ (forall k r, all_saved !! k = Some r -> regs c' r = load (s - 8 * Z.of_nat (S k)) c)
  /\ same_mem (fun a => a < s + 8 \/ s + 16 <= a) c c' /\ fp c' = fp c /\ state c' = state c.
Proof.
  intros Hsp Hbp Hax Hv Hs Ht ->.
  assert (w64 (s - 8 + 16) = s + 8) as Hw by (apply w64_small'; lia).
  assert (epilogue = [STORE RAX 16 RBP] ++ (POP <$> rev all_saved) ++ [ADD 8 RSP]) as -> by reflexivity.
  rewrite !run_app. set (c1 := run [STORE RAX 16 RBP] c).
  assert (c1 = store (s + 8) v c) as Hc1.
  { unfold c1. cbn [run foldl exec]. by rewrite Hbp, Hw, Hax. }
  assert (regs c1 = regs c) as Hr1 by (by rewrite Hc1).
  assert (same_mem (fun a => a < s + 8 \/ s + 16 <= a) c c1) as Hm1.
  { rewrite Hc1. intros a Ha. apply store_same. lia. }
  assert (load (s + 8) c1 = v) as Hl1 by (rewrite Hc1, load_store; by apply w64_small).
  assert (fp c1 = fp c /\ state c1 = state c) as [Hf1 Hst1] by (by rewrite Hc1).
  clearbody c1. destruct all_saved_spec as (Hnsp & Hnd & Hlen).
  destruct (run_pops (rev all_saved) c1) as [Hsp2 Hr2 Hslots Hm2 Hf2 Hst2]; [done|done|rewrite Hr1; lia|rewrite Hlen, Hr1; lia|].
  set (c2 := run (POP <$> rev all_saved) c1) in *. clearbody c2. rewrite Hlen, Hr1, Hsp in Hsp2.
  assert (run [ADD 8 RSP] c2 = set_reg RSP (s + 8) c2) as ->.
  { cbn [run foldl exec]. f_equal. apply w64_small'; lia. }
  split_and!.
  - reflexivity.
  - rewrite <- Hl1. change (word (mem c2) (s + 8) = load (s + 8) c1). by rewrite Hm2.
  - intros k r [Hk Hle]%rev_all_saved.
    trans (regs c2 r). { cbn [set_reg regs]. rewrite decide_False; [done|]. intros ->. by apply list_elem_of_lookup_2 in Hk. }
    rewrite (Hslots _ _ Hk), Hr1, Hsp.
    replace (s - 120 + 8 * Z.of_nat (14 - k)) with (s - 8 * Z.of_nat (S k)) by lia.
    apply (load_same _ c c1 _ Hm1). lia.
  - intros a Ha. change (rd (mem c2) a = rd (mem c) a). rewrite Hm2. by apply Hm1.
  - change (fp c2 = fp c). congruence.
  - change (state c2 = state c). congruence.
Qed.
(** The call of the resolver, from the saved registers on *)
Lemma call_spec c1 v w' :
  128 <= regs c1 RSP + 120 < 2^64 -> resolve kernel (regs c1 RDI) (regs c1 RSI) (state c1) = Ok (v, w') ->
  exists c2, call return_address (__dlresolve kernel supports_xsave clobber) c1 = Ok (tt, c2)
    /\ regs c2 RSP = regs c1 RSP /\ regs c2 RBP = regs c1 RBP /\ regs c2 RAX = v
    /\ same_mem (fun a => regs c1 RSP <= a) c1 c2
    /\ (forall k, in_mask saved_mask k = true -> fp c2 k = fp c1 k) /\ state c2 = w'.
Proof.
  intros Hs Hr. destruct (push_spec return_address c1) as (Hsp & Hregs & Hm & _ & Hf & Hst); [lia|].
  unfold call. set (c0 := push return_address c1) in *.
  assert (modify (push return_address) c1 = Ok (tt, c0)) as Hpush by done. clearbody c0.
  rewrite <- (Hregs RDI), <- (Hregs RSI), <- Hst in Hr by done.
  set (c3 := restore saved_mask (fp c0)
               (set_reg RAX v (MkCpu (regs (clobber c0)) (mem (clobber c0)) (fp (clobber c0)) w'))).
  exists (set_reg RSP (w64 (regs c3 RSP + 8)) c3). split_and!.
  - unfold mbind, M_bind. rewrite Hpush. unfold __dlresolve, call_resolve, mbind, M_bind, gets, modify. by rewrite Hr.
  - rewrite get_set_same. change (regs c3 RSP) with (regs (clobber c0) RSP). rewrite abi_sp, Hsp.
    apply w64_small'; lia.
  - rewrite get_set_other by done. change (regs c3 RBP) with (regs (clobber c0) RBP). rewrite abi_bp. by apply Hregs.
  - rewrite get_set_other by done. apply get_set_same.
  - intros a Ha. change (rd (mem (clobber c0)) a = rd (mem c1) a). rewrite abi_mem by lia. apply Hm. lia.
  - intros k Hk. change ((if in_mask saved_mask k then fp c0 k else fp (clobber c0) k) = fp c1 k). by rewrite Hk, Hf.
  - done.
Qed.

(** C12: Lazy resolution is invisible to the program.  Whatever the resolver does with the registers and the floating point
    state, the assembler ends with a jump to the function [resolve] found for the object and the index
    the linkage table pushed; the stack pointer is back at the return address of the program, all other
    general purpose registers -- among them the arguments of the function -- and the memory of the
    callers are as before, and so are the vector and floating point registers; the resolver is called with
    the stack alignment it may rely on. *)
Theorem dlresolve_transparent c v w' (sp := regs c RSP) :
  entry c -> resolve kernel (load sp c) (load (sp + 8) c) (state c) = Ok (v, w') -> 0 <= v < 2^64 ->
  exists c', _dlresolve kernel supports_xsave clobber return_address c = Ok (v, c')
    /\ regs c' RSP = sp + 16 /\ (forall r, r ∈ kept -> regs c' r = regs c r)
    /\ same_mem (fun a => sp + 16 <= a) c c'
    /\ (forall k, in_mask saved_mask k = true -> fp c' k = fp c k)
    /\ state c' = w'
    /\ (sp mod 16 = 8 -> regs (run prologue c) RSP mod 16 = 0).
Proof.
  intros Hc Hr Hv. pose proof (run_prologue c Hc) as [Hbp1 Hsp1 Hdi Hsi Hslots Hm1 Hf1 Hst1].
  destruct Hc as [Hregs Hs Ht]. fold sp in Hs, Ht, Hbp1, Hsp1, Hdi, Hsi, Hslots, Hm1.
  unfold _dlresolve. set (c1 := run prologue c) in *.
  assert (modify (run prologue) c = Ok (tt, c1)) as Hrun by done. clearbody c1.
  rewrite <- Hdi, <- Hsi, <- Hst1 in Hr.
  destruct (call_spec c1 v w') as (c2 & Hcall & Hsp2 & Hbp2 & Hax2 & Hm2 & Hf2 & Hst2); [lia|done|].
  destruct (run_epilogue sp c2 (run epilogue c2) v) as (Hsp3 & Hl3 & Hslots3 & Hm3 & Hf3 & Hst3); [lia|lia|done..|].
  set (c3 := run epilogue c2) in *.
  assert (modify (run epilogue) c2 = Ok (tt, c3)) as Hrun3 by done. clearbody c3.
  exists (set_reg RSP (w64 (regs c3 RSP + 8)) c3). split_and!.
  - unfold mbind, M_bind. rewrite Hrun, Hcall, Hrun3. unfold get, modify, mret, M_ret. by rewrite Hsp3, Hl3.
  - rewrite get_set_same, Hsp3. apply w64_small'; lia.
  - intros r Hk. rewrite get_set_other by (intros ->; revert Hk; apply (bool_decide_eq_false_1 _); by vm_compute).
    assert (r ∈ all_saved) as [k Hr']%list_elem_of_lookup.
    { repeat (apply elem_of_cons in Hk as [->|Hk]; [apply (bool_decide_eq_true_1 _); by vm_compute|]).
      by apply not_elem_of_nil in Hk. }
    rewrite (Hslots3 k r Hr'), <- (Hslots k r Hr'). apply (load_same _ c1 c2 _ Hm2).
    apply rev_all_saved in Hr' as [_ Hle]. lia.
  - intros a Ha. change (rd (mem c3) a = rd (mem c) a). by rewrite Hm3, Hm2, Hm1 by lia.
  - intros k Hk. change (fp c3 k = fp c k). rewrite Hf3, Hf2 by done. by rewrite Hf1.
  - change (state c3 = w'). congruence.
  - intros Hmod. rewrite Hsp1. replace (sp - 120) with (sp - 8 + (-7) * 16) by lia.
    rewrite Z.mod_add by lia. rewrite Zminus_mod, Hmod. done.
Qed.
End resolve.

(** * An example: the first call of "f" in object 11 *)

Definition ex_plt_tables : Dynamic.ElfTables := {|
  Dynamic.dynamic_table := @Dynamic.dynamic_table ex_tables; Dynamic.get_soname := @Dynamic.get_soname ex_tables;
  Dynamic.virt_offset := @Dynamic.virt_offset ex_tables; Dynamic.dynamic_relocations := @Dynamic.dynamic_relocations ex_tables;
  Dynamic.dynamic_relocations_plt o := if o =? 11 then [Reloc 0x400100 1 7 0] else [];
  Dynamic.relative_relocations := @Dynamic.relative_relocations ex_tables; Dynamic.version_needed := @Dynamic.version_needed ex_tables;
  Dynamic.version_definition := @Dynamic.version_definition ex_tables; Dynamic.dynamic_symbols := @Dynamic.dynamic_symbols ex_tables;
  Dynamic.symbol_index := @Dynamic.symbol_index ex_tables; Dynamic.symbol_version := @Dynamic.symbol_version ex_tables;
  Dynamic.elf_identification := @Dynamic.elf_identification ex_tables;
|}.
Definition ex_dynamic_objects : ObjectOps :=
  object_ops (H := dlh_4k) ex_kernel (H0 := ex_env [] [] false) (H1 := Symbol.ex_strings) (H2 := {| Executable.elf_segments _ := [] |})
    (H3 := ex_plt_tables) (H4 := ex_relocator) (H5 := ex_dyn) (H6 := ex_rel) 1.
(** Every register and every component of the floating point unit in use; a compiler that uses all registers it may *)
Definition ex_cpu : cpu :=
  MkCpu (fun r => if decide (r = RSP) then 0x7fff0fe8 else 0x1234) (wr ∅ 0x7fff0fe8 (le_bytes 8 11 ++ le_bytes 8 0))
    (fun k => k + 100) (ex_world ex_config).
Definition ex_clobber (c : cpu) : cpu :=
  MkCpu (fun r => if decide (r ∈ [RSP; RBP]) then regs c r else 0x5555) (mem c) (fun _ => 0) (state c).
Lemma ex_abi : Abi ex_clobber.
Proof. split; intros c; [done|done|by intros a _]. Qed.
Lemma ex_entry : entry ex_cpu.
Proof. split; unfold ex_cpu; cbn [regs]; [intros r; case_decide; lia|rewrite decide_True by done; lia..]. Qed.
Definition ex_resolve : res (Z * world) :=
  resolve (H := dlh_4k) ex_kernel (H0 := ex_dynamic_objects) (H1 := ex_env [] [] false) (H2 := Symbol.ex_strings)
    (H4 := ex_plt_tables) (H5 := ex_relocator) (H6 := ex_dyn) 11 0 (ex_world ex_config).

(** With and without xsave: the vector registers (component 2) survive if there are any. *)
Definition ex_dlresolve (xsave : bool) : res (Z * cpu) :=
  _dlresolve (H := dlh_4k) ex_kernel (H0 := ex_dynamic_objects) (H1 := ex_env [] [] false) (H2 := Symbol.ex_strings)
    (H4 := ex_plt_tables) (H5 := ex_relocator) (H6 := ex_dyn) xsave ex_clobber 0x9999 ex_cpu.

Lemma dlresolve_transparent_witness :
  exists c', ex_dlresolve true = Ok (16, c')
    /\ regs c' RSP = 0x7fff0ff8 /\ regs c' RDI = 0x1234 /\ fp c' 2 = 102
    /\ regs (run prologue ex_cpu) RSP mod 16 = 0.
Proof.
  destruct (@dlresolve_transparent dlh_4k ex_kernel ex_dynamic_objects (ex_env [] [] false) Symbol.ex_strings
    ex_plt_tables ex_relocator ex_dyn true ex_clobber 0x9999 ex_abi ex_cpu 16 (after ex_resolve (ex_world ex_config)) ex_entry)
    as (c' & Hrun & Hsp & Hregs & _ & Hfp & _ & Ha).
  - vm_compute. reflexivity.
  - lia.
  - exists c'. split; [exact Hrun|]. split; [exact Hsp|]. split; [|split].
    + apply Hregs. apply (bool_decide_eq_true_1 _). vm_compute. reflexivity.
    + apply Hfp. vm_compute. reflexivity.
    + apply Ha. vm_compute. reflexivity.
Defined.
End DlResolveProofs.
