(* ===== verification/RtldProofs.v ===== *)
(** Theorems about the rest of the runtime linker's interface (Rtld.v): profiling a function does not disturb it. *)
From S2P Require Import Prelude Platform X86 Segment World Object Process DlResolve Samples DlResolveProofs Rtld.

Module RtldProofs.
Import World Process(reg(..)) DlResolve DlResolveProofs Rtld Samples.

Section mcount.
Context (clobber : cpu -> cpu) (return_address : Z) `{!Abi clobber}.

(** A compiled function that is called leaves the stack of its callers alone. *)
Lemma call_compiled c :
  8 <= regs c RSP < 2^64 ->
  exists c', call return_address (modify clobber) c = Ok (tt, c')
    /\ regs c' RSP = regs c RSP /\ regs c' RBP = regs c RBP
    /\ same_mem (fun a => regs c RSP <= a) c c'.
Proof.
  intros Hs. destruct (push_spec return_address c Hs) as (Hsp & Hr & Hm & _). set (c0 := push return_address c) in *.
  exists (set_reg RSP (w64 (regs (clobber c0) RSP + 8)) (clobber c0)). split_and!; [done|..].
  - rewrite get_set_same, (@abi_sp _ Abi0), Hsp. apply w64_small'; lia.
  - rewrite get_set_other by done. rewrite (@abi_bp _ Abi0). by apply Hr.
  - intros a Ha. change (rd (mem (clobber c0)) a = rd (mem c) a). rewrite (@abi_mem _ Abi0) by lia. apply Hm. lia.
Qed.

Lemma rev_reverse {A} (l : list A) : rev l = reverse l.
Proof. apply rev_alt. Qed.
(** What is pushed and popped in the opposite order around a piece of code is as before. *)
Lemma saved_around l c c1 c2 c3 :
  RSP ∉ l -> NoDup l -> (forall r, 0 <= regs c r < 2^64) -> 8 * Z.of_nat (length l) <= regs c RSP ->
  pushed l c c1 -> regs c2 RSP = regs c1 RSP -> same_mem (fun a => regs c1 RSP <= a) c1 c2 -> popped (rev l) c2 c3 ->
  regs c3 RSP = regs c RSP /\ (forall r, r ∈ l -> regs c3 r = regs c r) /\ same_mem (fun a => regs c RSP <= a) c c3.
Proof.
  intros Hl Hnd Hregs Hs [Hsp1 Hr1 Hm1 Hslots1 _ _] Hsp2 Hm2 [Hsp3 Hr3 Hslots3 Hm3 _ _]. rewrite length_rev in *. split_and!; [lia| |].
  - intros r [k Hk]%list_elem_of_lookup. pose proof (lookup_lt_Some _ _ _ Hk) as Hlt.
    assert (rev l !! (length l - S k)%nat = Some r) as Hk'.
    { rewrite <- Hk, rev_reverse, reverse_lookup by lia. f_equal. lia. }
    rewrite (Hslots3 _ _ Hk'), Hsp2, Hsp1.
    replace (regs c RSP - 8 * Z.of_nat (length l) + 8 * Z.of_nat (length l - S k)) with (regs c RSP - 8 * Z.of_nat (S k)) by lia.
    transitivity (load (regs c RSP - 8 * Z.of_nat (S k)) c1); [|rewrite (Hslots1 _ _ Hk); apply w64_small, Hregs].
    apply (load_same _ c1 c2 _ Hm2). lia.
  - intros a Ha. rewrite Hm3, Hm2 by lia. apply Hm1. lia.
Qed.

Lemma mcount_rsp : RSP ∉ mcount_registers.
Proof. apply (bool_decide_eq_false_1 _). vm_compute. reflexivity. Qed.
Lemma mcount_nodup : NoDup mcount_registers.
Proof. apply (bool_decide_eq_true_1 _). vm_compute. reflexivity. Qed.

(** Profiling does not disturb the profiled function.  Whatever the compiled function does with the registers, the call returns
    behind itself, and finds the registers that hold the parameters of the profiled function, the frame pointer and the
    stack of the callers as they were; and the compiled function is called with the alignment it may rely on. *)
Theorem mcount_transparent c (sp := regs c RSP) :
  (forall r, 0 <= regs c r < 2^64) -> 64 <= sp -> sp + 8 < 2^64 ->
  exists c', _dl_mcount clobber return_address c = Ok (load sp c, c')
    /\ regs c' RSP = sp + 8 /\ regs c' RBP = regs c RBP
    /\ (forall r, r ∈ mcount_registers -> regs c' r = regs c r)
    /\ same_mem (fun a => sp <= a) c c'
    /\ (sp mod 16 = 8 -> regs (run mcount_prologue c) RSP mod 16 = 0).
Proof.
  intros Hregs Hs Ht. pose proof (run_pushes mcount_registers c mcount_rsp ltac:(cbn; fold sp; lia)) as P1.
  change (run (PUSH <$> mcount_registers) c) with (run mcount_prologue c) in P1. unfold _dl_mcount.
  assert (modify (run mcount_prologue) c = Ok (tt, run mcount_prologue c)) as Hrun1 by done. set (c1 := run mcount_prologue c) in *. clearbody c1.
  pose proof (pu_sp _ _ _ P1) as Hsp1. change (8 * Z.of_nat (length mcount_registers)) with 56 in Hsp1. fold sp in Hsp1.
  destruct (call_compiled c1 ltac:(lia)) as (c2 & Hcall & Hsp2 & Hbp2 & Hm2).
  pose proof (run_pops (rev mcount_registers) c2) as P3. rewrite length_rev in P3. change (8 * Z.of_nat (length mcount_registers)) with 56 in P3.
  specialize (P3 ltac:(rewrite rev_reverse, elem_of_reverse; exact mcount_rsp) ltac:(apply NoDup_ListNoDup, List.NoDup_rev, NoDup_ListNoDup, mcount_nodup) ltac:(lia) ltac:(lia)).
  assert (modify (run mcount_epilogue) c2 = Ok (tt, run mcount_epilogue c2)) as Hrun3 by done.
  change (run (POP <$> rev mcount_registers) c2) with (run mcount_epilogue c2) in P3. set (c3 := run mcount_epilogue c2) in *. clearbody c3.
  destruct (saved_around mcount_registers c c1 c2 c3 mcount_rsp mcount_nodup Hregs ltac:(cbn; fold sp; lia) P1 Hsp2 Hm2 P3) as (Hsp3 & Hr3 & Hm3).
  fold sp in Hsp3, Hm3. exists (set_reg RSP (w64 (regs c3 RSP + 8)) c3). split_and!.
  - unfold mbind, M_bind. rewrite Hrun1. unfold __dl_mcount. rewrite Hcall, Hrun3. unfold get, modify, mret, M_ret. rewrite Hsp3.
    do 2 f_equal. apply (load_same _ c c3 _ Hm3). lia.
  - rewrite get_set_same, Hsp3. apply w64_small'; lia.
  - rewrite get_set_other by done. rewrite (po_regs _ _ _ P3), Hbp2 by (done || apply (bool_decide_eq_false_1 _); by vm_compute).
    by apply (pu_regs _ _ _ P1).
  - intros r Hr. rewrite get_set_other by (intros ->; by apply mcount_rsp). by apply Hr3.
  - done.
  - intros Hmod. rewrite Hsp1. replace (sp - 56) with (sp - 8 + (-3) * 16) by lia. rewrite Z.mod_add by lia. rewrite Zminus_mod, Hmod. done.
Qed.
End mcount.

(** The caller of _dl_catch_error may free the message: none was allocated. *)
Lemma catch_error_empty operate args : _dl_catch_error operate args = MkCaught 0 0 true 0.
Proof. done. Qed.

Lemma mcount_transparent_witness :
  exists c', _dl_mcount ex_clobber 0x9999 ex_cpu = Ok (load (regs ex_cpu RSP) ex_cpu, c') /\ regs c' RDI = 0x1234
    /\ regs c' RSP = regs ex_cpu RSP + 8.
Proof.
  destruct (@mcount_transparent ex_clobber 0x9999 ex_abi ex_cpu) as (c' & Hrun & Hsp & _ & Hr & _).
  - apply ex_entry.
  - vm_compute. congruence.
  - vm_compute. reflexivity.
  - exists c'. split; [exact Hrun|]. split; [|exact Hsp]. apply Hr. apply (bool_decide_eq_true_1 _). vm_compute. reflexivity.
Defined.
End RtldProofs.
