(* ===== verification/IdentityProofs.v ===== *)
(** Theorems about object identities (Identity.v): loading a version puts it in front of the others or leaves everything
    there was as it was, although libraries are opened -- and taken back -- meanwhile. *)
From S2P Require Import Prelude Platform Segment Symbol Tls World Object Identity Gdb Loader Helper Executable Dynamic Relocatable Objects Samples WorldProofs FrameProofs WellFormedProofs ObjectsProofs.

Module IdentityProofs.
Import World Object Identity Loader Objects WorldProofs FrameProofs WellFormedProofs ObjectsProofs Samples.

(** * What was there before *)

Definition versions_of (w : world) (i : Z) : option (list Z) := versions <$> identities w !! i.
Definition file_of (w : world) (o : Z) : option Z := o_file <$> objects w !! o.

(** Compared with the state [w0], in which the numbers below [B] were in use and [L] was (the beginning of) the list of libraries:
    nothing that has such a number has been changed or removed. *)
Record kept (B : Z) (L : list Z) (w0 w : world) : Prop := {
  kept_lookup : exists new, lookup (loader w) = L ++ new /\ Forall (fun i => B <= i) new;
  kept_versions i : i < B -> versions_of w i = versions_of w0 i;
  kept_objects o : o < B -> file_of w o = file_of w0 o;
  kept_new i id : B <= i -> identities w !! i = Some id -> Forall (fun v => B <= v) (versions id);
  kept_next : B <= next_id w;
}.
Definition closed (B : Z) (w : world) : Prop := forall i vs, i < B -> versions_of w i = Some vs -> Forall (fun v => v < B) vs.

#[export] Instance kept_stable B L w0 : Stable (kept B L w0).
Proof.
  intros w w' (Hi & Ho & Hn & Hl) [Hlk Hv Hob Hnew Hnx]. split.
  - by rewrite Hl.
  - intros i Hib. rewrite <- Hv by done. apply Hi.
  - intros o Hob'. rewrite <- Hob by done. apply Ho.
  - intros i id Hib Hid. specialize (Hi i). rewrite Hid in Hi. destruct (identities w !! i) as [id0|] eqn:Hid0; [|done].
    injection Hi as ->. by eapply Hnew.
  - by rewrite Hn.
Qed.
#[export] Instance same_shape_stable w0 : Stable (same_shape w0).
Proof.
  intros w w' (Hi & Ho & Hn & Hl) (Hi0 & Ho0 & Hn0 & Hl0). split_and!; [intros i; by rewrite Hi|intros o; by rewrite Ho|congruence|congruence].
Qed.

Lemma filter_absent (o : Z) (vs : list Z) : o ∉ vs -> filter (fun v => v <> o) vs = vs.
Proof.
  intros Ho. induction vs as [|x vs IH]; [done|]. apply not_elem_of_cons in Ho as [? ?].
  rewrite filter_cons_True by auto. f_equal. auto.
Qed.
Lemma new_filter (B o : Z) (vs : list Z) : Forall (fun v => B <= v) vs -> Forall (fun v => B <= v) (filter (fun v => v <> o) vs).
Proof. rewrite !Forall_forall. intros Hvs x [_ Hx]%list_elem_of_filter. by apply Hvs. Qed.
Lemma hoare_pure {A} (phi : Prop) (P : world -> Prop) (m : M world A) Q : (phi -> hoare P m Q) -> hoare (fun w => phi /\ P w) m Q.
Proof. intros Hm w r w' [Hp Hw]. by apply Hm. Qed.

(** The functions of the objects that run while a version is loaded *)
Class KeepsOld (ops : ObjectOps) : Prop := {
  ko_construct o P `{!Stable P} : keeps P (v_construct o);
  ko_patchable o P `{!Stable P} : keeps P (v_patchable o);
  ko_fix o P `{!Stable P} : keeps P (v_fix o);
  ko_preprepare o P `{!Stable P} : keeps P (v_preprepare o);
  ko_prepare o P `{!Stable P} : keeps P (v_prepare o);
  ko_preload o B L w0 : closed B w0 -> keeps (kept B L w0) (v_preload o);
}.

(** * Loading and opening other files meanwhile *)

Section load.
Context `{DlhMath} (kernel : kernel_t) {ops : ObjectOps} `{!KeepsOld ops} `{Env} `{Symbol.StringOps}.

Ltac old_step :=
  first
    [ lazymatch goal with |- keeps _ (let _ := _ in _) => cbv zeta end
    | apply ko_construct; apply _ | apply ko_patchable; apply _ | apply ko_fix; apply _ | apply ko_preprepare; apply _
    | apply ko_prepare; apply _ | stable_step ].
Ltac old := repeat old_step.

(** Most of it changes no list at all. *)
Section stable.
Context (P : world -> Prop) `{!Stable P}.
Lemma open_stable i addr type : keeps P (Identity.open kernel i addr type).
Proof. unfold Identity.open, open_file, debug_memfd, get_config. old. Qed.
Lemma compatible_stable i o : keeps P (compatible kernel i o).
Proof. unfold compatible, load_debug_symbols, query_debug_hash, patchable, get_config. old. Qed.
Lemma install_stable i o type first : keeps P (install i o type first).
Proof. unfold install, fix_, preprepare, Object.prepare. old. Qed.
Lemma map_stable o : keeps P (Object.map kernel o).
Proof. unfold Object.map, segment_indices. old. Qed.
Lemma load_end_stable i o (info : Info) :
  keeps P (status kernel i info ;; id ← get_identity i;
           (if bool_decide (hook_object (hook id) = None) then hook_refresh i else mret tt) ;; mret (o : option Z)).
Proof. unfold status, hook_refresh, get_loader. old. Qed.
Lemma release_stable i (data : Data) (object : option Z) (info : Info) :
  keeps P (id ← get_identity i;
     if bool_decide (object = None) && negb (d_fd data =? -1) then
       (if premapped (flags id) then mret tt else syscall_ kernel (Sys_munmap (d_addr data) (d_size data)) ;; mret tt) ;;
       syscall_ kernel (Sys_close (d_fd data)) ;;
       mret (object, info)
     else
       b ← watch kernel i (executed_binary (flags id)) (executed_binary (flags id));
       mret (object, if b : bool then info else INFO_ERROR_INOTIFY)).
Proof. unfold watch, get_loader. old. Qed.
Lemma notify_stable s : keeps P (GDB.notify s).
Proof. unfold GDB.notify. old. Qed.
Lemma refresh_stable : keeps P GDB.refresh.
Proof. unfold GDB.refresh. old. Qed.
Lemma preload_emit o : keeps P (emit (Ev_virtual V_preload o)).
Proof. old. Qed.
End stable.

Section kept.
Context (B : Z) (w0 : world) (Hclosed : closed B w0).

Lemma set_new_kept L i f :
  B <= i -> (forall x, Forall (fun v => B <= v) (versions x) -> Forall (fun v => B <= v) (versions (f x))) ->
  keeps (kept B L w0) (set_identity i f).
Proof.
  intros Hi Hf. apply keeps_modify. intros w [Hlk Hv Hob Hnew Hnx]. split; cbn; try done.
  - intros j Hj. unfold versions_of. cbn. rewrite lookup_alter_ne by lia. by apply Hv.
  - intros j id Hj Hid. destruct (decide (j = i)) as [->|Hne]; [|rewrite lookup_alter_ne in Hid by done; eauto].
    rewrite lookup_alter_eq in Hid. destruct (identities w !! i) as [id0|] eqn:Hid0; [|done]. injection Hid as <-. eauto.
Qed.
Lemma preload_kept L o : keeps (kept B L w0) (Object.preload o).
Proof.
  unfold Object.preload. apply keeps_bind; [apply preload_emit; apply _|]. intros ?. by apply ko_preload.
Qed.

(** Only new objects are destroyed. *)
Lemma destroy_kept L o : B <= o -> keeps (kept B L w0) (Object.destroy kernel reset_address o).
Proof.
  intros Ho. unfold Object.destroy, reset_address, segment_indices.
  apply keeps_bind; [apply keeps_get_object|intros ob]. apply keeps_bind; [old|intros _].
  apply keeps_bind; [|intros _; repeat first [ stable_step | apply keeps_modify; intros w [Hlk Hv Hob Hnew Hnx] ]].
  - apply keeps_modify. intros w [Hlk Hv Hob Hnew Hnx]. split; cbn; try done.
    + intros j Hj. rewrite <- (Hv j Hj). unfold versions_of. cbn.
      destruct (decide (j = o_file ob)) as [->|Hne]; [|by rewrite lookup_alter_ne].
      rewrite lookup_alter_eq. destruct (identities w !! o_file ob) as [id|] eqn:Hid; [|done]. cbn. f_equal.
      assert (versions_of w0 (o_file ob) = Some (versions id)) as Hvs by (rewrite <- (Hv _ Hj); unfold versions_of; by rewrite Hid).
      apply Hclosed in Hvs; [|done]. apply filter_absent. intros Hin. rewrite Forall_forall in Hvs. specialize (Hvs _ Hin). lia.
    + intros j id Hj Hid. destruct (decide (j = o_file ob)) as [->|Hne]; [|rewrite lookup_alter_ne in Hid by done; eauto].
      rewrite lookup_alter_eq in Hid. destruct (identities w !! o_file ob) as [id0|] eqn:Hid0; [|done]. injection Hid as <-.
      cbn. apply new_filter. eauto.
  - split; cbn; try done. intros x Hx. unfold file_of. cbn. rewrite lookup_delete_ne by lia. by apply Hob.
Qed.
Lemma discard_kept L i o : B <= i -> B <= o -> keeps (kept B L w0) (discard kernel reset_address i o).
Proof.
  intros Hi Ho. unfold discard. apply keeps_bind; [|intros _; by apply destroy_kept].
  apply set_new_kept; [done|]. intros x Hx. cbn. by apply new_filter.
Qed.

Lemma new_kept L i k data : hoare (kept B L w0) (new i k data) (fun o w => B <= o /\ kept B L w0 w).
Proof.
  intros w o w' Hw Hr. unfold new in Hr. apply bind_Ok in Hr as (id & w1 & [_ ->]%get_identity_Ok & Hr).
  apply bind_Ok in Hr as ([] & w1 & Ha & Hr). apply (keeps_run (kept B L w0)) in Ha; [|apply keeps_assert|exact Hw].
  apply bind_Ok in Hr as (tr & w2 & [_ <-]%Ok_inj & Hr). apply bind_Ok in Hr as (o' & w2 & [<- <-]%Ok_inj & Hr).
  apply bind_Ok in Hr as ([] & w2 & [_ <-]%Ok_inj & Hr). apply bind_Ok in Hr as ([] & w3 & Hc & [<- <-]%Ok_inj).
  destruct Ha as [Hlk Hv Hob Hnew Hnx]. split; [done|]. apply (keeps_run (kept B L w0)) in Hc; [exact Hc|apply ko_construct; apply _|].
  split; cbn; try done; [|lia]. intros x Hx. unfold file_of. cbn. rewrite lookup_insert_ne by lia. by apply Hob.
Qed.
Lemma create_kept L i data type : B <= i -> keeps (kept B L w0) (create kernel reset_address i data type).
Proof.
  intros Hi. unfold create. repeat first [ apply keeps_bind; [apply keeps_get_identity || apply keeps_gets || apply keeps_get|intros ?] ].
  destruct (_ && existsb _ _); [apply keeps_ret|]. destruct (object_kind _ _ _) as [k|]; [|apply keeps_ret].
  destruct (new_object _ _); [|apply keeps_ret]. eapply hoare_bind; [apply new_kept|]. intros o. cbn [negb].
  apply hoare_pure. intros Ho. lazymatch goal with |- hoare _ ?m _ => change (keeps (kept B L w0) m) end.
  repeat first
    [ apply compatible_stable; apply _ | by apply destroy_kept | by apply discard_kept | apply preload_kept | apply map_stable; apply _
    | apply install_stable; apply _ | apply set_new_kept; [exact Hi|intros x Hx; cbn; by constructor] | old_step ].
Qed.
Lemma load_kept L i addr type : B <= i -> keeps (kept B L w0) (load kernel reset_address i addr type).
Proof.
  intros Hi. unfold load. apply keeps_bind; [apply open_stable; apply _|]. intros [[info d] ty].
  apply keeps_bind; [|intros [o inf]; apply load_end_stable; apply _].
  destruct (decide _); [|apply keeps_ret]. apply keeps_bind; [by apply create_kept|]. intros [o inf]. apply release_stable; apply _.
Qed.

(** ** Opening *)

Lemma construct_kept L f p n alt : hoare (kept B L w0) (Identity.construct kernel f p n alt) (fun i w => B <= i /\ kept B L w0 w).
Proof.
  intros w i w' Hw Hr. unfold Identity.construct in Hr.
  apply bind_Ok in Hr as ([] & w1 & Ha & Hr). apply (keeps_run (kept B L w0)) in Ha; [|apply keeps_assert|exact Hw].
  apply bind_Ok in Hr as (c & w2 & [_ <-]%Ok_inj & Hr). apply bind_Ok in Hr as (i' & w2 & [<- <-]%Ok_inj & Hr).
  assert (forall id, versions id = [] -> kept B L w0 (w1 <| next_id ::= Z.succ |> <| identities ::= <[next_id w1 := id]> |>)) as Hk.
  { intros id Hid. destruct Ha as [Hlk Hv Hob Hnew Hnx]. split; cbn; try done; [| |lia].
    - intros j Hj. unfold versions_of. cbn. rewrite lookup_insert_ne by lia. by apply Hv.
    - intros j id' Hj Hid'. destruct (decide (j = next_id w1)) as [->|Hne]; [|rewrite lookup_insert_ne in Hid' by done; eauto].
      rewrite lookup_insert_eq in Hid'. injection Hid' as <-. by rewrite Hid. }
  pose proof (kept_next _ _ _ _ Ha) as Hnx. destruct (initial_flags c f) as [f'|]; [|by apply bind_Ok in Hr as (? & ? & ? & _)].
  apply bind_Ok in Hr as (tr & w2 & [_ <-]%Ok_inj & Hr). destruct p as [p|]; cbv zeta in Hr; apply bind_Ok in Hr as ([] & w2 & [_ <-]%Ok_inj & Hr).
  - apply bind_Ok in Hr as ([] & w3 & Hl & [<- <-]%Ok_inj). split; [done|].
    eapply (keeps_run (kept B L w0)); [| |exact Hl]; [old|by apply Hk].
  - apply Ok_inj in Hr as [<- <-]. split; [done|by apply Hk].
Qed.

(** The library at the end of a list that has grown is a new one. *)
Lemma pop_back_kept L X :
  X <> [] -> Forall (fun i => B <= i) X -> hoare (kept B (L ++ X) w0) (pop_back kernel) (fun _ => kept B L w0).
Proof.
  intros Hne HX w r w' [(new & Hlk & Hnew) Hv Hob Hn Hnx] Hr. unfold pop_back in Hr. apply bind_Ok in Hr as (l & w1 & [<- <-]%Ok_inj & Hr).
  assert (Forall (fun i => B <= i) (X ++ new)) as Hall by (by apply Forall_app).
  assert (X ++ new <> []) as Hne' by (by destruct X).
  destruct (exists_last Hne') as (Y & y & HY). rewrite <- app_assoc, HY in Hlk. rewrite HY in Hall. apply Forall_app in Hall as [HallY Hy].
  inversion Hy as [|? ? Hy' _]; subst. clear Hy. rename Hy' into Hy. assert (last (lookup (loader w)) = Some y) as Hlast by (by rewrite Hlk, app_assoc, last_snoc).
  rewrite Hlast in Hr. apply bind_Ok in Hr as ([] & w1 & [_ <-]%Ok_inj & Hr).
  set (w1 := w <| loader ::= _ |>) in Hr. assert (kept B L w0 w1) as Hw1.
  { split; cbn; try done. exists Y. split; [|done]. rewrite Hlk, app_assoc, removelast_last. done. }
  clearbody w1. clear -Hw1 Hr Hy Hclosed KeepsOld0. unfold Identity.destroy in Hr. apply bind_Ok in Hr as (id & w2 & [Hid ->]%get_identity_Ok & Hr).
  pose proof (kept_new _ _ _ _ Hw1 _ _ Hy Hid) as Hvs.
  apply bind_Ok in Hr as (c & w2 & [_ <-]%Ok_inj & Hr). apply bind_Ok in Hr as (l & w2 & [_ <-]%Ok_inj & Hr).
  apply bind_Ok in Hr as ([] & w2 & Hr1 & Hr). apply (keeps_run (kept B L w0)) in Hr1; [|old|exact Hw1].
  apply bind_Ok in Hr as ([] & w3 & Hr2 & [_ <-]%Ok_inj).
  assert (kept B L w0 w3) as [Hlk Hv Hob Hn Hnx].
  { revert w2 Hr1 Hr2. clear Hid. induction (versions id) as [|v vs IH]; intros w2 Hw2 Hr2; cbn [mfor] in Hr2; [by apply Ok_inj in Hr2 as [_ <-]|].
    apply Forall_cons in Hvs as [Hv Hvs]. apply bind_Ok in Hr2 as ([] & w4 & Hd & Hr2). apply (destroy_kept L v Hv) in Hd; [|exact Hw2].
    by eapply IH. }
  split; cbn; try done.
  - intros j Hj. unfold versions_of. cbn. rewrite lookup_delete_ne by lia. by apply Hv.
  - intros j id' Hj [_ Hid']%lookup_delete_Some. eauto.
Qed.

Lemma open_elf_kept L f filepath n alt addr type :
  keeps (kept B L w0)
    (GDB.notify RT_ADD ;;
     l ← get_loader;
     i ← Identity.construct kernel f (Some filepath) n alt;
     emplace None i ;;
     (if negb false && bool_decide (dependencies l = None) then set_loader (fun l => l <| dependencies := Some i |>) else mret tt) ;;
     o ← load kernel reset_address i addr type;
     GDB.refresh ;;
     GDB.notify RT_CONSISTENT ;;
     match o with
     | Some _ => mret (Some i)
     | None => pop_back kernel ;; mret None
     end).
Proof.
  apply keeps_bind; [apply notify_stable; apply _|intros _]. apply keeps_bind; [apply keeps_gets|intros l].
  eapply hoare_bind; [apply construct_kept|]. intros i. apply hoare_pure. intros Hi w r w' [(new & Hlk & Hnew) Hv Hob Hn Hnx] Hr.
  apply bind_Ok in Hr as ([] & w1 & He & Hr). unfold emplace in He. apply bind_Ok in He as (l' & w2 & [<- <-]%Ok_inj & [_ <-]%Ok_inj).
  set (w1 := w <| loader ::= _ |>) in Hr. set (X := new ++ [i]).
  assert (Forall (fun i => B <= i) X) as HX by (apply Forall_app; split; [done|by apply Forall_singleton]).
  assert (X <> []) as HXn by (unfold X; by destruct new).
  assert (kept B (L ++ X) w0 w1) as Hw1.
  { split; cbn; try done. exists []. rewrite app_nil_r, Hlk. split; [unfold X; by rewrite app_assoc|constructor]. }
  clearbody w1 X. clear -Hw1 Hr Hi HX HXn Hclosed KeepsOld0.
  apply bind_Ok in Hr as ([] & w2 & H2' & Hr). apply (keeps_run (kept B (L ++ X) w0)) in H2'; [|old|exact Hw1].
  apply bind_Ok in Hr as (o & w3 & H3' & Hr). apply (load_kept (L ++ X) i addr type Hi) in H3'; [|exact H2'].
  apply bind_Ok in Hr as ([] & w4 & H4' & Hr). apply (keeps_run (kept B (L ++ X) w0)) in H4'; [|apply refresh_stable; apply _|exact H3'].
  apply bind_Ok in Hr as ([] & w5 & H5' & Hr). apply (keeps_run (kept B (L ++ X) w0)) in H5'; [|apply notify_stable; apply _|exact H4'].
  destruct o as [o|].
  - apply Ok_inj in Hr as [_ <-]. destruct H5' as [(nw & Hlk & Hnw) Hv Hob Hn Hnx]. split; try done.
    exists (X ++ nw). split; [by rewrite Hlk, app_assoc|by apply Forall_app].
  - apply bind_Ok in Hr as ([] & w6 & H6' & [_ <-]%Ok_inj). eapply pop_back_kept; [exact HXn|exact HX|exact H5'|exact H6'].
Qed.
Lemma loader_open_kept L fuel filepath f n addr type alt :
  keeps (kept B L w0) (Loader.open kernel fuel filepath f false n addr type alt).
Proof.
  revert filepath f n addr type alt; induction fuel as [|fuel IH]; intros; cbn [Loader.open]; [apply keeps_no_fuel|].
  apply keeps_bind; [apply keeps_gets|intros tr]. destruct (_ || _); [|apply keeps_ret].
  apply keeps_bind; [unfold get_loader; old|]. intros m. cbv zeta. destruct (if negb _ then _ else _).
  - apply open_elf_kept.
  - destruct (archive tr filepath) as [entries|]; [|apply keeps_ret].
    generalize (None : option Z). induction entries as [|e l IHl]; intros obj; [apply keeps_ret|].
    destruct (is_regular e); [|apply IHl].
    repeat first [ apply IH | apply IHl | old_step ].
  - apply keeps_ret.
Qed.
Lemma library_kept L fuel filename f rpath runpath n do_load :
  keeps (kept B L w0) (library kernel fuel filename f false rpath runpath n do_load).
Proof.
  unfold library. apply keeps_bind; [apply keeps_get|intros w]. cbv zeta.
  assert (forall dirs, keeps (kept B L w0) (search kernel fuel filename dirs f false n)) as Hs.
  { induction dirs as [|d dirs IHd]; cbn; [apply keeps_ret|]. unfold open_in.
    apply keeps_bind; [apply loader_open_kept|]. intros [i|]; [apply keeps_ret|exact IHd]. }
  repeat first [ apply Hs | apply loader_open_kept | keeps_step ].
Qed.
End kept.

(** * Loading a version *)

(** What loading a version of [i], which has the versions [vs], gives *)
Definition atomic (w : world) (i : Z) (vs : list Z) (r : option Z) (w' : world) : Prop :=
  versions_of w' i = Some (match r with Some o => o :: vs | None => vs end)
  /\ (forall o, r = Some o -> o = next_id w)
  /\ (forall j, j < next_id w -> j <> i -> versions_of w' j = versions_of w j)
  /\ (forall o, o < next_id w -> file_of w' o = file_of w o)
  /\ exists new, lookup (loader w') = lookup (loader w) ++ new /\ Forall (fun j => next_id w <= j) new.
#[export] Instance atomic_stable w i vs r : Stable (atomic w i vs r).
Proof.
  intros v v' (Hi & Ho & _ & Hl) (H1' & H2' & H3' & H4' & H5'). split; [by rewrite <- H1'; apply Hi|]. split; [done|].
  split; [intros j Hj Hne; rewrite <- H3' by done; apply Hi|]. split; [intros o Hlt; rewrite <- H4' by done; apply Ho|by rewrite Hl].
Qed.

Lemma kept_same B w0 w :
  same_shape w0 w -> (forall i, B <= i -> identities w0 !! i = None) -> B <= next_id w0 -> kept B (lookup (loader w0)) w0 w.
Proof.
  intros (Hi & Ho & Hn & Hl) Hnone Hnx. split.
  - exists []. by rewrite app_nil_r.
  - intros i _. apply Hi.
  - intros o _. apply Ho.
  - intros i id HB Hid. specialize (Hi i). by rewrite Hid, (Hnone i HB) in Hi.
  - by rewrite Hn.
Qed.
Lemma kept_atomic w i id w' :
  identities w !! i = Some id -> i < next_id w -> kept (next_id w) (lookup (loader w)) w w' -> atomic w i (versions id) None w'.
Proof.
  intros Hid Hi [Hlk Hv Hob _ _]. split; [rewrite Hv by done; unfold versions_of; by rewrite Hid|]. split; [done|]. split; [auto|]. by split.
Qed.

(** Numbers of a well-formed world *)
Lemma wf_closed w : wf w -> closed (next_id w) w.
Proof.
  intros Hw i vs _ Hvs. unfold versions_of in Hvs. destruct (identities w !! i) as [id|] eqn:Hid; [|done]. injection Hvs as <-.
  apply Forall_forall. intros v Hv. destruct (wf_version _ _ Hw _ _ _ Hid Hv) as (ob & Hob & _). apply (wf_next_object _ _ Hw). by rewrite Hob.
Qed.
Lemma wf_fresh_identity w i : wf w -> next_id w <= i -> identities w !! i = None.
Proof. intros Hw Hi. apply eq_None_not_Some. intros Hs. apply (wf_next_identity _ _ Hw) in Hs. lia. Qed.

(** The world with a new object, and with this object as the newest version of its identity *)
Definition with_object (w : world) (ob : Object) : world := w <| next_id ::= Z.succ |> <| objects ::= <[next_id w := ob]> |>.
Definition with_version (w : world) (i : Z) (ob : Object) : world :=
  (with_object w ob) <| identities ::= alter (fun x => x <| versions ::= cons (next_id w) |>) i |>.

Lemma new_shape w w1 i k data o w2 :
  same_shape w w1 -> new i k data w1 = Ok (o, w2) -> o = next_id w /\ exists ob, same_shape (with_object w ob) w2.
Proof.
  intros (Hi & Ho & Hn & Hl) Hr. unfold new in Hr. apply bind_Ok in Hr as (id & w3 & [_ ->]%get_identity_Ok & Hr).
  apply bind_Ok in Hr as ([] & w3 & Ha & Hr). unfold assert in Ha. destruct (negb _); [|done]. apply Ok_inj in Ha as [_ <-].
  apply bind_Ok in Hr as (tr & w4 & [_ <-]%Ok_inj & Hr). apply bind_Ok in Hr as (o' & w4 & [<- <-]%Ok_inj & Hr).
  apply bind_Ok in Hr as ([] & w4 & [_ <-]%Ok_inj & Hr). apply bind_Ok in Hr as ([] & w5 & Hc & [<- <-]%Ok_inj).
  split; [done|]. eexists. eapply (keeps_run (same_shape _)); [apply ko_construct; apply _| |exact Hc].
  split; [exact Hi|]. split; [|by cbn; rewrite Hn]. intros x. cbn. rewrite Hn.
  destruct (decide (x = next_id w)) as [->|Hne]; [by rewrite !lookup_insert_eq|by rewrite !lookup_insert_ne].
Qed.
Lemma push_shape w i ob w2 u w3 :
  same_shape (with_object w ob) w2 -> set_identity i (fun x => x <| versions ::= cons (next_id w) |>) w2 = Ok (u, w3) ->
  same_shape (with_version w i ob) w3.
Proof.
  intros (Hi & Ho & Hn & Hl) [_ <-]%Ok_inj. split; [|split; [exact Ho|by split]]. intros j. cbn. specialize (Hi j). cbn in Hi.
  destruct (decide (j = i)) as [->|Hne]; [|by rewrite !lookup_alter_ne].
  rewrite !lookup_alter_eq. destruct (identities w2 !! i), (identities w !! i); cbn in *; try done. by injection Hi as ->.
Qed.

Section version.
Context (w : world) (i : Z) (id : ObjectIdentity) (Hw : wf w) (Hid : identities w !! i = Some id) (ob : Object).
Abbreviation B := (next_id w).
Abbreviation w3 := (with_version w i ob).

Lemma below_next : i < B.
Proof. apply (wf_next_identity _ _ Hw). by rewrite Hid. Qed.
Lemma with_object_kept w2 : same_shape (with_object w ob) w2 -> kept B (lookup (loader w)) w w2.
Proof.
  intros Hs. eapply stable; [exact Hs|]. destruct (kept_same B w w) as [Hlk Hv Hob Hnew Hnx]; [done|intros; by apply wf_fresh_identity|done|].
  split; cbn; try done; [|lia]. intros x Hx. unfold file_of. cbn. by rewrite lookup_insert_ne by lia.
Qed.
Lemma with_version_closed : closed (B + 1) w3.
Proof.
  intros j vs _ Hvs. unfold versions_of in Hvs. cbn in Hvs.
  assert (forall y ws, versions_of w y = Some ws -> Forall (fun v => v < B + 1) ws) as Hold.
  { intros y ws Hws. destruct (decide (y < B)) as [Hy|Hy].
    - eapply Forall_impl; [by eapply wf_closed|]. cbn. lia.
    - unfold versions_of in Hws. by rewrite wf_fresh_identity in Hws by (done || lia). }
  destruct (decide (j = i)) as [->|Hne]; [|rewrite lookup_alter_ne in Hvs by done; by eapply Hold].
  rewrite lookup_alter_eq, Hid in Hvs. injection Hvs as <-. cbn. constructor; [lia|]. apply (Hold i). unfold versions_of. by rewrite Hid.
Qed.
Lemma with_version_kept v : same_shape w3 v -> kept (B + 1) (lookup (loader w)) w3 v.
Proof.
  intros Hs. apply (kept_same (B + 1) w3); [done| |cbn; lia]. intros j Hj. cbn.
  rewrite lookup_alter_ne; [apply wf_fresh_identity; [done|lia]|]. pose proof below_next. lia.
Qed.
Lemma with_version_atomic v : kept (B + 1) (lookup (loader w)) w3 v -> atomic w i (versions id) (Some B) v.
Proof.
  pose proof below_next as Hi. intros [(new & Hlk & Hnew) Hv Hob _ _]. split; [|split; [|split; [|split]]].
  - rewrite Hv by lia. unfold versions_of. cbn. by rewrite lookup_alter_eq, Hid.
  - by intros o [= <-].
  - intros j Hj Hne. rewrite Hv by lia. unfold versions_of. cbn. by rewrite lookup_alter_ne.
  - intros o Ho. rewrite Hob by lia. unfold file_of. cbn. by rewrite lookup_insert_ne by lia.
  - exists new. split; [done|]. eapply Forall_impl; [exact Hnew|]. cbn. lia.
Qed.

(** Taking the version back *)
Lemma discard_atomic v r v' :
  kept (B + 1) (lookup (loader w)) w3 v -> discard kernel reset_address i B v = Ok (r, v') -> kept B (lookup (loader w)) w v'.
Proof.
  pose proof below_next as Hi. intros [(new & Hlk & Hnew) Hv Hob Hn Hnx] Hr. unfold discard in Hr.
  apply bind_Ok in Hr as ([] & v1 & [_ <-]%Ok_inj & Hr).
  eapply destroy_kept; [by apply wf_closed|reflexivity| |exact Hr]. split; cbn.
  - exists new. split; [done|]. eapply Forall_impl; [exact Hnew|]. cbn. lia.
  - intros j Hj. specialize (Hv j ltac:(lia)). unfold versions_of in *. cbn in *.
    destruct (decide (j = i)) as [->|Hne]; [|by rewrite lookup_alter_ne, Hv, lookup_alter_ne].
    rewrite lookup_alter_eq in Hv |- *. rewrite Hid in *. destruct (identities v !! i) as [idv|]; [|done]. cbn in *. injection Hv as ->.
    rewrite filter_cons_False by auto. f_equal. apply filter_absent. intros Hin.
    assert (Forall (fun v => v < B) (versions id)) as Hall by (eapply wf_closed; [exact Hw|exact Hi|unfold versions_of; by rewrite Hid]).
    rewrite Forall_forall in Hall. specialize (Hall _ Hin). lia.
  - intros o Ho. transitivity (file_of v o); [done|]. rewrite (Hob o) by lia. unfold file_of. cbn. by rewrite lookup_insert_ne by lia.
  - intros j idj Hj Hidj. rewrite lookup_alter_ne in Hidj by lia. destruct (decide (j = B)) as [->|Hne].
    + specialize (Hv B ltac:(lia)). unfold versions_of in Hv. cbn in Hv. rewrite Hidj, lookup_alter_ne in Hv by lia.
      by rewrite wf_fresh_identity in Hv by done.
    + eapply Forall_impl; [apply (Hn j); [lia|done]|]. cbn. lia.
  - lia.
Qed.
End version.

Lemma create_atomic i data type w w1 id r w' :
  wf w -> identities w !! i = Some id -> same_shape w w1 ->
  create kernel reset_address i data type w1 = Ok (r, w') -> atomic w i (versions id) r.1 w'.
Proof.
  intros Hw Hid Hs Hr. pose proof (below_next w i id Hw Hid) as Hi.
  assert (forall v, same_shape w v -> atomic w i (versions id) None v) as Hnone.
  { intros v Hv. eapply kept_atomic; [done..|]. apply kept_same; [done|intros; by apply wf_fresh_identity|done]. }
  unfold create in Hr. apply bind_Ok in Hr as (id1 & w2 & [_ ->]%get_identity_Ok & Hr).
  apply bind_Ok in Hr as (tr & w2 & [<- <-]%Ok_inj & Hr). apply bind_Ok in Hr as (? & w2 & [<- <-]%Ok_inj & Hr). cbv zeta in Hr.
  destruct (_ && existsb _ _); [apply Ok_inj in Hr as [<- <-]; by apply Hnone|].
  destruct (object_kind _ _ _) as [k|]; [|apply Ok_inj in Hr as [<- <-]; by apply Hnone].
  destruct (negb (new_object _ _)); [apply Ok_inj in Hr as [<- <-]; by apply Hnone|].
  apply bind_Ok in Hr as (o & w2 & Hnew & Hr). apply (new_shape w) in Hnew as [-> [ob Hs2]]; [|done].
  apply bind_Ok in Hr as (id2 & w4 & [_ ->]%get_identity_Ok & Hr). apply bind_Ok in Hr as (tr & w4 & [_ <-]%Ok_inj & Hr).
  apply bind_Ok in Hr as ([] & w4 & Ha & Hr). apply (keeps_run (same_shape (with_object w ob))) in Ha; [|apply keeps_assert|done].
  apply bind_Ok in Hr as (ok & w5 & Hc & Hr).
  apply (keeps_run (same_shape (with_object w ob))) in Hc; [|destruct (_ && _); [apply compatible_stable; apply _|apply keeps_ret]|done].
  destruct ok; cbn [negb] in Hr.
  2: { apply bind_Ok in Hr as ([] & w6 & Hd & [<- <-]%Ok_inj). apply kept_atomic; [done..|].
       eapply destroy_kept; [by apply wf_closed|reflexivity| |exact Hd]. by eapply with_object_kept. }
  apply bind_Ok in Hr as ([] & w6 & Hpush & Hr). apply (push_shape w i ob) in Hpush; [|done]. apply with_version_kept with (id := id) in Hpush; [|done..].
  apply bind_Ok in Hr as (p & w7 & Hp & Hr).
  apply (keeps_run (kept (next_id w + 1) (lookup (loader w)) (with_version w i ob))) in Hp; [|by eapply preload_kept, with_version_closed|done].
  destruct p; cbn [negb] in Hr.
  2: { apply bind_Ok in Hr as ([] & w8 & Hd & [<- <-]%Ok_inj). apply kept_atomic; [done..|]. by eapply discard_atomic. }
  apply bind_Ok in Hr as (id3 & w8 & [_ ->]%get_identity_Ok & Hr). apply bind_Ok in Hr as (m & w8 & Hm & Hr).
  apply (keeps_run (kept (next_id w + 1) (lookup (loader w)) (with_version w i ob))) in Hm;
    [|destruct (premapped _); [apply keeps_ret|apply map_stable; apply _]|done].
  destruct m; cbn [negb] in Hr.
  2: { apply bind_Ok in Hr as ([] & w9 & Hd & [<- <-]%Ok_inj). apply kept_atomic; [done..|]. by eapply discard_atomic. }
  apply bind_Ok in Hr as ([] & w9 & Hin & [<- <-]%Ok_inj).
  apply (keeps_run (kept (next_id w + 1) (lookup (loader w)) (with_version w i ob))) in Hin; [|apply install_stable; apply _|done].
  by eapply with_version_atomic.
Qed.

Lemma load_atomic i addr type w id r w' :
  wf w -> identities w !! i = Some id ->
  load kernel reset_address i addr type w = Ok (r, w') -> atomic w i (versions id) r w'.
Proof.
  intros Hw Hid Hr. unfold load in Hr. apply bind_Ok in Hr as ([[info data] ty] & w1 & Ho & Hr).
  apply (keeps_run (same_shape w)) in Ho; [|apply open_stable; apply _|done].
  apply bind_Ok in Hr as ([ob info'] & w2 & Hc & Hr).
  assert (atomic w i (versions id) ob w2) as Hw2.
  { destruct (decide (info = INFO_CONTINUE_LOAD)) as [_|_].
    - apply bind_Ok in Hc as ([ob' info''] & w3 & Hc & Hrel). apply (create_atomic _ _ _ w w1 id) in Hc; [|done..]. cbn [fst] in Hc.
      apply (keeps_run (atomic w i (versions id) ob')) in Hrel as Hw3; [|apply release_stable; apply _|done].
      apply bind_Ok in Hrel as (id' & w4 & _ & Hrel). enough (ob = ob') as -> by done. revert Hrel. clear.
      destruct (_ && _); intros Hrel; wsplit; by simplify_eq.
    - apply Ok_inj in Hc as [[= <- <-] <-]. apply kept_atomic; [done|by eapply below_next|].
      apply kept_same; [done|intros; by apply wf_fresh_identity|done]. }
  apply (keeps_run (atomic w i (versions id) ob)) in Hr as Hw'; [|apply load_end_stable; apply _|done].
  enough (r = ob) as -> by done. apply bind_Ok in Hr as (? & ? & _ & Hr). apply bind_Ok in Hr as (? & ? & _ & Hr).
  by apply bind_Ok in Hr as (? & ? & _ & [<- _]%Ok_inj).
Qed.
End load.

(** * The objects of the loader *)

Section objects.
Context `{DlhMath} (kernel : kernel_t) `{Env} `{Symbol.StringOps} `{Executable.ElfSegments}
  `{Dynamic.ElfTables} `{Dynamic.RelocatorOps} `{Dynamic.DynEnv} `{Relocatable.RelEnv} `{!QuietParts} `{!TypedParts}.

Lemma dyn_preload_kept {sub : ObjectOps} `{!KeepsOld sub} B L w0 fuel o :
  closed B w0 -> keeps (kept B L w0) (Dynamic.preload kernel fuel o).
Proof.
  intros Hc.
  assert (forall p f, keeps (kept B L w0) (Dynamic.add_paths o p f)) as Hp.
  { intros p f. unfold Dynamic.add_paths, Dynamic.addpath, Dynamic.set_dyn. solve_stable. }
  assert (forall ds, keeps (kept B L w0) (Dynamic.preload_entries o ds)) as He.
  { induction ds as [|d ds IH]; cbn; [apply keeps_ret|]. unfold Dynamic.preload_entry, Dynamic.set_dyn.
    repeat first [ lazymatch goal with |- keeps _ (let _ := _ in _) => cbv zeta end | apply Hp | apply IH | stable_step ]. }
  assert (forall libs f b, keeps (kept B L w0) (Dynamic.load_libraries kernel fuel o f libs b)) as Hl.
  { induction libs as [|lib libs IH]; intros f b; cbn; [apply keeps_ret|]. unfold get_loader.
    repeat first [ by apply library_kept | apply IH | stable_step ]. }
  unfold Dynamic.preload, Dynamic.preload_libraries, Dynamic.compatibility_setup, get_config.
  repeat first [ apply typed_preload_segments; apply _ | apply He | apply Hl | apply typed_glibc_init; apply _ | stable_step ].
Qed.

#[export] Instance objects_keep_old n : KeepsOld (object_ops kernel n).
Proof.
  induction n as [|n IH]; [split; intros; apply keeps_no_fuel|].
  split; intros; cbn; apply keeps_by_kind; try (intros; apply keeps_ret).
  - intros b. apply typed_dyn_construct; apply _.
  - apply typed_rel_construct; apply _.
  - intros _. unfold Dynamic.patchable, get_config. solve_stable.
  - unfold Relocatable.patchable. solve_stable.
  - intros _. unfold Dynamic.fix_. repeat first [ apply typed_glibc_patch; apply _ | stable_step ].
  - apply typed_rel_preprepare; apply _.
  - intros _. apply framed_stable; [apply _|]. intros w. apply framed_prepare.
  - apply framed_stable; [apply _|]. intros w. apply framed_rel_prepare. intros. apply framed_trampoline_set.
  - intros _. by apply dyn_preload_kept.
  - apply typed_preload_segments; apply _.
  - apply typed_rel_preload; apply _.
Qed.

(** C10: An update is atomic.  Load either returns an object that is new and has become the current version, in
    front of all versions there were before, or returns nothing, and then the chain of versions -- and
    with it the current version -- is the same as before, whatever failed.  In either case, and although libraries
    that are needed are opened meanwhile and taken back if that fails, nothing else that was
    there has changed: every other identity has its versions, every object exists and belongs to its identity,
    and the list of libraries only has new ones at its end. *)
Theorem load_is_atomic n i addr type w id r w' :
  wf w -> identities w !! i = Some id ->
  load (H0 := object_ops kernel n) kernel reset_address i addr type w = Ok (r, w') ->
  versions_of w' i = Some (match r with Some o => o :: versions id | None => versions id end)
  /\ (forall o, r = Some o -> objects w !! o = None)
  /\ (forall j, is_Some (identities w !! j) -> j <> i -> versions_of w' j = versions_of w j)
  /\ (forall o, is_Some (objects w !! o) -> file_of w' o = file_of w o)
  /\ exists new, lookup (loader w') = lookup (loader w) ++ new /\ Forall (fun j => identities w !! j = None) new.
Proof.
  intros Hw Hid Hr. destruct (load_atomic kernel i addr type w id r w' Hw Hid Hr) as (Hv & Hnew & Hother & Hobj & new & Hlk & Hn).
  split; [done|]. split; [|split; [|split]].
  - intros o ->. rewrite (Hnew o eq_refl). apply eq_None_not_Some. intros Hs. apply (wf_next_object _ _ Hw) in Hs. lia.
  - intros j Hj Hne. apply Hother; [by apply (wf_next_identity _ _ Hw)|done].
  - intros o Ho. apply Hobj. by apply (wf_next_object _ _ Hw).
  - exists new. split; [done|]. eapply Forall_impl; [exact Hn|]. cbn. intros j Hj. by apply wf_fresh_identity.
Qed.
End objects.

(** ** An update that succeeds and one that fails *)
(** "libw.so" needs two libraries: "libx.so", which is loaded, and "liby.so", which exists but may not be opened. *)
Definition ex_needing (libs : list string) : Dynamic.ElfTables := {|
  Dynamic.dynamic_table o := if o =? 100 then (fun n => Dynamic.DynEntry 1 0 n 0) <$> libs else [];
  Dynamic.get_soname := @Dynamic.get_soname ex_tables; Dynamic.virt_offset := @Dynamic.virt_offset ex_tables;
  Dynamic.dynamic_relocations _ := []; Dynamic.dynamic_relocations_plt _ := []; Dynamic.relative_relocations _ := [];
  Dynamic.version_needed := @Dynamic.version_needed ex_tables; Dynamic.version_definition := @Dynamic.version_definition ex_tables;
  Dynamic.dynamic_symbols := @Dynamic.dynamic_symbols ex_tables; Dynamic.symbol_index := @Dynamic.symbol_index ex_tables;
  Dynamic.symbol_version := @Dynamic.symbol_version ex_tables; Dynamic.elf_identification := @Dynamic.elf_identification ex_tables;
|}.
Definition ex_denying : kernel_t := fun tr c =>
  match c with Sys_open p _ => if String.eqb p "/lib/liby.so" then Failure 13 else ex_placing tr c | _ => ex_placing tr c end.
Definition ex_files_env : Env := ex_env ["/lib/libw.so"; "/lib/liby.so"]%string [] false.
Definition ex_code_segment : Executable.ElfSegments :=
  {| Executable.elf_segments o := if o =? 100 then [(Executable.PT_LOAD, MemorySegment.Build_elf_segment 0 0x800 0 0x800 0x1000 true false false false)] else [] |}.
Definition ex_waiting : world :=
  (ex_world ex_config) <| loader ::= fun l => l <| lookup ::= fun k => k ++ [3] |> |> <| identities ::= <[3 := ex_identity "libw.so" no_flags []]> |>.
Abbreviation ex_needing_ops libs := (@object_ops dlh_4k ex_denying ex_files_env Symbol.ex_strings ex_code_segment (ex_needing libs) ex_relocator ex_dyn ex_rel 2).
Definition ex_load (libs : list string) : res (option Z * world) :=
  load (H := dlh_4k) ex_denying (H0 := ex_needing_ops libs) (H1 := ex_files_env) (H2 := Symbol.ex_strings) (reset_address (H := dlh_4k)) 3 0 ET_NONE ex_waiting.

Lemma ex_waiting_wf : wf ex_waiting.
Proof.
  destruct (ex_world_wf ex_config) as [Hv Hnd Hobj Hx Hno Hni Hlk Hlnd]. 
  assert (identities ex_waiting = <[3 := ex_identity "libw.so" no_flags []]> (identities (ex_world ex_config))) as Hids by reflexivity. split.
  - intros j id o Hid Hin. rewrite Hids in Hid. destruct (decide (j = 3)) as [->|Hne].
    + rewrite lookup_insert_eq in Hid. injection Hid as <-. by apply not_elem_of_nil in Hin.
    + rewrite lookup_insert_ne in Hid by done. exact (Hv j id o Hid Hin).
  - intros j id Hid. rewrite Hids in Hid. destruct (decide (j = 3)) as [->|Hne].
    + rewrite lookup_insert_eq in Hid. injection Hid as <-. constructor.
    + rewrite lookup_insert_ne in Hid by done. by eapply Hnd.
  - intros o ob Hob. destruct (Hobj o ob Hob) as (id & Hid & Hin). exists id. split; [|exact Hin]. rewrite Hids.
    rewrite lookup_insert_ne; [exact Hid|]. intros Heq. rewrite <- Heq in Hid. discriminate Hid.
  - done.
  - exact Hno.
  - intros j [id Hid]. rewrite Hids in Hid. destruct (decide (j = 3)) as [->|Hne]; [cbn; lia|].
    rewrite lookup_insert_ne in Hid by done. apply Hni. by exists id.
  - intros j Hin. cbn in Hin. rewrite Hids. repeat (apply elem_of_cons in Hin as [->|Hin]; [by eexists|]). by apply not_elem_of_nil in Hin.
  - apply (bool_decide_eq_true_1 _). vm_compute. reflexivity.
Qed.

Lemma load_is_atomic_witness :
  versions_of (after (ex_load ["libx.so"; "liby.so"]%string) ex_waiting) 3 = Some []
  /\ (exists new, lookup (loader (after (ex_load ["libx.so"; "liby.so"]%string) ex_waiting)) = [1; 2; 3] ++ new)
  /\ next_id (after (ex_load ["libx.so"; "liby.so"]%string) ex_waiting) = 102
  /\ versions_of (after (ex_load ["libx.so"]%string) ex_waiting) 3 = Some [100].
Proof.
  pose proof ex_quiet_parts as Hq. pose proof ex_typed_parts as Ht.
  destruct (@load_is_atomic dlh_4k ex_denying ex_files_env Symbol.ex_strings ex_code_segment (ex_needing ["libx.so"; "liby.so"]%string) ex_relocator ex_dyn ex_rel
    Hq Ht 2 3 0 ET_NONE ex_waiting (ex_identity "libw.so" no_flags []) None (after (ex_load ["libx.so"; "liby.so"]%string) ex_waiting)
    ex_waiting_wf eq_refl ltac:(vm_compute; reflexivity)) as (Hv & _ & _ & _ & new & Hl & _).
  destruct (@load_is_atomic dlh_4k ex_denying ex_files_env Symbol.ex_strings ex_code_segment (ex_needing ["libx.so"]%string) ex_relocator ex_dyn ex_rel
    Hq Ht 2 3 0 ET_NONE ex_waiting (ex_identity "libw.so" no_flags []) (Some 100) (after (ex_load ["libx.so"]%string) ex_waiting)
    ex_waiting_wf eq_refl ltac:(vm_compute; reflexivity)) as (Hv' & _).
  split; [exact Hv|]. split; [exists new; exact Hl|]. split; [vm_compute; reflexivity|exact Hv'].
Defined.
End IdentityProofs.
