(* ===== verification/LoaderProofs.v ===== *)
(** Theorems about the loader (Loader.v). *)
From S2P Require Import Prelude Platform Segment Symbol World Object Identity Gdb Process Loader Helper Samples WorldProofs WellFormedProofs.

Module LoaderProofs.
Import World Object Identity Loader Samples WorldProofs WellFormedProofs.

(** * Symbol lookup *)

Section resolve.
Context `{ObjectOps} `{Symbol.StringOps}.
Context (w : world) (name : string) (hash gnu_hash : Z) (v : Version).

(** What the objects promise: a symbol they return is valid and not local. *)
Context (Hvalid : forall o s, v_resolve_symbol w o name hash gnu_hash v = Some s ->
                              Symbol.sym_valid s = true /\ Symbol.sym_bind s <> Symbol.STB_LOCAL).

(** ** Specification *)

Lemma older_in i l x : x ∈ older i l -> x ∈ l.
Proof. induction l as [|y l IH]; cbn; [done|]. case_decide; set_solver. Qed.

(** Weak symbols are only second choice when dynamic weak definitions are supported. *)
Definition strong (s : VersionedSymbol) : bool :=
  negb (bool_decide (Symbol.sym_bind s = Symbol.STB_WEAK)) || negb (dynamic_weak (config (loader w))).
Definition definition_in (o : Z) : option VersionedSymbol := v_resolve_symbol w o name hash gnu_hash v.

(** The first strong definition in a list of objects, or else the first one. *)
Definition best_definition (os : list Z) : option VersionedSymbol :=
  match find strong (omap definition_in os) with
  | Some s => Some s
  | None => head (omap definition_in os)
  end.

(** The order in which the objects are asked *)
Definition global_scope (n : Z) : list Z :=
  filter (fun i => global_in w n i && bool_decide (is_Some (current_of w i)) = true) (lookup (loader w)).
Definition visible (mode : ResolveSymbolMode) (obj : option Z) (l : list Z) : list Z :=
  match mode, obj with
  | RESOLVE_AFTER_OBJECT, Some i => older i l
  | RESOLVE_AFTER_OBJECT, None => []
  | RESOLVE_EXCEPT_OBJECT, Some i => filter (fun x => x <> i) l
  | _, _ => l
  end.
Definition dependencies_of (i : Z) : list Z :=
  match current_of w i with
  | Some o => match objects w !! o with Some ob => o_dependencies ob | None => [] end
  | None => []
  end.
Definition dependency_scope (n : Z) (mode : ResolveSymbolMode) (i : Z) : list Z :=
  match mode with
  | RESOLVE_NO_DEPENDENCIES => []
  | RESOLVE_AFTER_OBJECT => dependencies_of i
  | RESOLVE_EXCEPT_OBJECT => filter (fun x => global_in w n x = false /\ x <> i) (dependencies_of i)
  | _ => filter (fun x => global_in w n x = false) (dependencies_of i)
  end.
Definition search_ids (n : Z) (obj : option Z) (mode : ResolveSymbolMode) : list Z :=
  match obj, mode with Some i, RESOLVE_OBJECT_FIRST => [i] | _, _ => [] end
  ++ visible mode obj (global_scope n)
  ++ match obj with Some i => dependency_scope n mode i | None => [] end
  ++ match obj, mode with Some i, RESOLVE_OBJECT_FIRST => [] | Some i, _ => [i] | None, _ => [] end.
Definition search_order (n : Z) (obj : option Z) (mode : ResolveSymbolMode) : list Z :=
  omap (current_of w) (search_ids n obj mode).

(** ** The search is a fold over the objects *)

Abbreviation found := (option (bool * option VersionedSymbol)).
Abbreviation step := (try w name hash gnu_hash v).
Definition fold_try (ids : list Z) (r : found) : found := foldl (fun r i => step (current_of w i) r) r ids.

Lemma fold_try_app l1 l2 r : fold_try (l1 ++ l2) r = fold_try l2 (fold_try l1 r).
Proof. unfold fold_try. by rewrite foldl_app. Qed.

Lemma search_global_fold n obj mode after ids r :
  search_global w name hash gnu_hash v n obj mode after ids r
  = fold_try (let l := filter (fun i => global_in w n i && bool_decide (is_Some (current_of w i)) = true) ids in
              let l := if after then match obj with Some i => older i l | None => [] end else l in
              match mode, obj with
              | RESOLVE_EXCEPT_OBJECT, Some i => filter (fun x => x <> i) l
              | _, _ => l
              end) r.
Proof.
  revert after r; induction ids as [|i ids IH]; intros after r; cbn [search_global].
  { destruct after, obj, mode; done. }
  destruct (global_in w n i && bool_decide (is_Some (current_of w i))) eqn:Hg.
  2: { rewrite filter_cons_False by (by rewrite Hg). apply IH. }
  rewrite filter_cons_True by (by rewrite Hg). cbn zeta. destruct after.
  - rewrite IH. cbn zeta. destruct obj as [j|]; cbn [older].
    + destruct (decide (i = j)) as [->|Hne].
      * rewrite bool_decide_true by done. done.
      * rewrite bool_decide_false by (by intros [= ->]). done.
    + done.
  - destruct (bool_decide (mode = RESOLVE_EXCEPT_OBJECT)) eqn:Hm; cbn [negb orb].
    + apply bool_decide_eq_true in Hm as ->. destruct obj as [j|].
      * destruct (decide (i = j)) as [->|Hne].
        -- rewrite bool_decide_true by done. cbn [negb]. rewrite IH. rewrite filter_cons_False by naive_solver. done.
        -- rewrite bool_decide_false by (by intros [= ->]). cbn [negb]. rewrite IH. rewrite filter_cons_True by done. done.
      * cbn [negb]. rewrite bool_decide_false by done. cbn [negb]. rewrite IH. done.
    + rewrite IH. apply bool_decide_eq_false in Hm. destruct mode, obj; try done.
Qed.

Lemma search_dependencies_fold n i mode deps r :
  search_dependencies w name hash gnu_hash v n i mode deps r
  = fold_try (match mode with
              | RESOLVE_AFTER_OBJECT => deps
              | RESOLVE_EXCEPT_OBJECT => filter (fun x => global_in w n x = false /\ x <> i) deps
              | _ => filter (fun x => global_in w n x = false) deps
              end) r.
Proof.
  revert r; induction deps as [|j deps IH]; intros r; cbn [search_dependencies]; [by destruct mode|].
  destruct (global_in w n j) eqn:Hg.
  - destruct (decide (mode = RESOLVE_AFTER_OBJECT)) as [->|Hm].
    + rewrite bool_decide_true by done. cbn [negb andb].
      rewrite (bool_decide_false (RESOLVE_AFTER_OBJECT = RESOLVE_EXCEPT_OBJECT)) by done. cbn [negb orb]. by rewrite IH.
    + rewrite (bool_decide_false (mode = RESOLVE_AFTER_OBJECT)) by done. cbn [negb andb]. rewrite IH.
      destruct mode; try done; rewrite filter_cons_False; try done; rewrite Hg; intuition congruence.
  - rewrite andb_false_r. destruct (bool_decide (mode = RESOLVE_EXCEPT_OBJECT)) eqn:Hm; cbn [negb orb].
    + apply bool_decide_eq_true in Hm as ->. destruct (decide (i = j)) as [->|Hne].
      * rewrite bool_decide_true by done. cbn [negb]. rewrite IH, filter_cons_False by naive_solver. done.
      * rewrite bool_decide_false by done. cbn [negb]. rewrite IH, filter_cons_True by naive_solver. done.
    + rewrite IH. apply bool_decide_eq_false in Hm. destruct mode; try done; rewrite filter_cons_True by done; done.
Qed.

(** ** What the fold finds *)

Lemma step_some best o :
  step (Some o) (Some (false, best))
  = match definition_in o with
    | None => Some (false, best)
    | Some s => if strong s then Some (true, Some s)
                else Some (false, match best with Some b => Some b | None => Some s end)
    end.
Proof.
  unfold try, has_symbol, definition_in. destruct (v_resolve_symbol _ _ _ _ _ _) as [s|] eqn:Hs; [|done].
  apply Hvalid in Hs as [-> Hl]. rewrite (bool_decide_false (Symbol.sym_bind s = _)) by done. cbn [negb].
  fold (strong s). destruct (strong s); cbn [orb]; [done|].
  by destruct best.
Qed.

Lemma fold_try_done ids s : fold_try ids (Some (true, s)) = Some (true, s).
Proof. induction ids as [|i ids IH]; [done|]. exact IH. Qed.

Lemma fold_try_spec ids best :
  Forall (fun i => is_Some (current_of w i)) ids ->
  fold_try ids (Some (false, best))
  = let ss := omap definition_in (omap (current_of w) ids) in
    match find strong ss with
    | Some s => Some (true, Some s)
    | None => Some (false, match best with Some b => Some b | None => head ss end)
    end.
Proof.
  revert best; induction ids as [|i ids IH]; intros best Hi; [by destruct best|].
  apply Forall_cons in Hi as [[o Ho] Hi]. change (fold_try (i :: ids)) with (fun r => fold_try ids (step (current_of w i) r)).
  cbn beta. cbn [omap list_omap]. rewrite Ho, step_some. cbn [omap list_omap]. destruct (definition_in o) as [s|] eqn:Hs.
  - cbn [find head]. destruct (strong s) eqn:Hst; [apply fold_try_done|]. rewrite IH by done. cbn zeta.
    destruct (find _ _); [done|]. by destruct best.
  - apply IH, Hi.
Qed.

Lemma resolve_symbol_fold n obj mode :
  (obj = None -> mode = RESOLVE_DEFAULT) ->
  (forall i, obj = Some i -> is_Some (current_of w i)) ->
  resolve_symbol w name hash gnu_hash v n obj mode
  = match fold_try (search_ids n obj mode) (Some (false, None)) with Some (_, best) => Some best | None => None end.
Proof.
  intros Hmode Hobj. unfold resolve_symbol, search_ids. rewrite !fold_try_app. cbn zeta.
  rewrite search_global_fold. destruct obj as [i|].
  2: { rewrite (Hmode eq_refl). repeat first [rewrite bool_decide_true by done | rewrite bool_decide_false by done]. done. }
  destruct (Hobj i eq_refl) as [o Ho]. rewrite (bool_decide_false (Some i = None)) by done. cbn [andb].
  unfold dependency_scope, dependencies_of. rewrite Ho.
  assert (forall (r : found) (x : found), match r with Some (false, _) => x | _ => x end = x) as Hx.
  { intros [[[] ?]|] x; done. }
  destruct mode; repeat first [rewrite bool_decide_true by done | rewrite bool_decide_false by done];
    rewrite ?Hx, ?search_dependencies_fold; unfold fold_try; cbn [foldl visible app]; by rewrite ?Ho.
Qed.

(** C23: resolve_symbol returns the first strong definition in its search order, or else the first weak one:
    first the object itself in mode OBJECT_FIRST, then the global scope of the namespace in load order
    (restricted as the mode says), then the dependencies that are not in the global scope, finally the
    object itself. *)
Theorem resolve_symbol_order n obj mode :
  (obj = None -> mode = RESOLVE_DEFAULT) ->
  (forall i, obj = Some i -> is_Some (current_of w i)
                             /\ Forall (fun d => is_Some (current_of w d)) (dependencies_of i)) ->
  resolve_symbol w name hash gnu_hash v n obj mode = Some (best_definition (search_order n obj mode)).
Proof.
  intros Hmode Hobj. rewrite resolve_symbol_fold; [|done|by intros i ->; apply Hobj].
  rewrite fold_try_spec. 
  - unfold best_definition, search_order. cbn zeta. by destruct (find _ _).
  - unfold search_ids. rewrite !Forall_app. split_and!.
    + destruct obj as [i|], mode; repeat constructor; by apply Hobj.
    + apply (Forall_impl (fun i => i ∈ global_scope n)).
      * apply Forall_forall. intros x. unfold visible.
        destruct mode, obj as [i|]; try done; [apply older_in|by intros Hx%not_elem_of_nil|rewrite list_elem_of_filter; by intros []].
      * intros x. unfold global_scope. rewrite list_elem_of_filter, andb_true_iff, bool_decide_eq_true. naive_solver.
    + destruct obj as [i|]; [|constructor]. destruct (Hobj i eq_refl) as [_ Hd]. unfold dependency_scope.
      destruct mode; try done; try constructor; try (apply Forall_forall; intros x [_ Hx]%list_elem_of_filter; by eapply Forall_forall in Hd).
    + destruct obj as [i|], mode; repeat constructor; by apply Hobj.
Qed.
End resolve.

(** The weak definition in object 11 comes first, the strong one of 12 is found all the same when weak
    definitions are dynamic. *)
Definition ex_symbols : list VersionedSymbol :=
  [ex_symbol 11 0x10 Symbol.STB_WEAK "f"; ex_symbol 12 0x20 Symbol.STB_GLOBAL "f"].
Definition ex_lookup_ops : ObjectOps := ex_ops ex_symbols true false.

Lemma ex_symbols_valid w o name hash gnu_hash v s :
  v_resolve_symbol (ObjectOps := ex_lookup_ops) w o name hash gnu_hash v = Some s ->
  Symbol.sym_valid s = true /\ Symbol.sym_bind s <> Symbol.STB_LOCAL.
Proof.
  by intros [[<-|[<-|[]]] _]%find_some.
Qed.

Lemma resolve_symbol_order_witness :
  let weak := ex_config <| dynamic_weak := true |> in
  resolve_symbol (H0 := ex_lookup_ops) (ex_world ex_config) "f" 0 0 no_version 0 (Some 2) RESOLVE_DEFAULT
    = Some (Some (ex_symbol 11 0x10 Symbol.STB_WEAK "f"))
  /\ resolve_symbol (H0 := ex_lookup_ops) (ex_world weak) "f" 0 0 no_version 0 (Some 2) RESOLVE_DEFAULT
    = Some (Some (ex_symbol 12 0x20 Symbol.STB_GLOBAL "f")).
Proof.
  split.
  - etransitivity; [apply (resolve_symbol_order (H := ex_lookup_ops) (ex_world ex_config) "f" 0 0 no_version (fun o => ex_symbols_valid _ o _ _ _ _) 0)|].
    + done.
    + intros i [= <-]. split; [by eexists|]. repeat constructor. by eexists.
    + vm_compute. reflexivity.
  - etransitivity; [apply (resolve_symbol_order (H := ex_lookup_ops) (ex_world (ex_config <| dynamic_weak := true |>)) "f" 0 0 no_version (fun o => ex_symbols_valid _ o _ _ _ _) 0)|].
    + done.
    + intros i [= <-]. split; [by eexists|]. repeat constructor. by eexists.
    + vm_compute. reflexivity.
Defined.

(** * Addresses for new objects *)

Section addresses.
Context `{DlhMathSpec}.
Existing Instance H.

Definition bump (objs : gmap Z Object) (next o : Z) : Z :=
  match objs !! o with
  | Some ob =>
      match memory_range ob with
      | Some (_, e) => if (next <? e) && ((BASEADDRESS <? LIBADDRESS) || (e <? BASEADDRESS)) then e else next
      | None => next
      end
  | None => next
  end.

Lemma bump_ge objs next o : next <= bump objs next o.
Proof.
  unfold bump. destruct (objs !! o) as [ob|]; [|lia]. destruct (memory_range ob) as [[s e]|]; [|lia].
  destruct (Z.ltb_spec next e); cbn [andb]; [destruct (_ || _)|]; lia.
Qed.
Lemma bump_end objs next o ob s e :
  objs !! o = Some ob -> memory_range ob = Some (s, e) -> e < BASEADDRESS -> e <= bump objs next o.
Proof.
  intros Ho Hr He. unfold bump. rewrite Ho, Hr. destruct (Z.ltb_spec next e), (Z.ltb_spec e BASEADDRESS); cbn [andb]; rewrite ?orb_true_r; lia.
Qed.

Lemma bumps_ge objs os next :
  next <= foldl (bump objs) next os
  /\ forall o ob s e, o ∈ os -> objs !! o = Some ob -> memory_range ob = Some (s, e) -> e < BASEADDRESS ->
                      e <= foldl (bump objs) next os.
Proof.
  revert next; induction os as [|o os IH]; intros next; cbn [foldl].
  { split; [done|]. intros o ob s e Ho. by apply not_elem_of_nil in Ho. }
  destruct (IH (bump objs next o)) as [IH1 IH2]. pose proof (bump_ge objs next o). split; [lia|].
  intros o' ob s e [->|Hin]%elem_of_cons Ho Hr He; [|eauto].
  pose proof (bump_end objs next o ob s e Ho Hr He). lia.
Qed.

(** C36: next_address returns a page aligned address that lies behind every loaded object that ends below
    BASEADDRESS (where Luci itself is linked) and behind everything that was handed out before, and reserves the requested size:
    what is handed out next lies behind it.  As long as the space ends below BASEADDRESS, it overlaps no loaded object, be it
    below that address or, as Luci itself, from there on. *)
Theorem next_address_fresh size w a w' :
  next_address size w = Ok (a, w') ->
  0 <= next_library_address (loader w) -> 0 <= size -> a + size < 2^64 ->
  (PAGE_SIZE | a)
  /\ next_library_address (loader w) <= a
  /\ (forall o ob s e, o ∈ all_versions w (lookup (loader w)) -> objects w !! o = Some ob ->
        memory_range ob = Some (s, e) ->
        (e < BASEADDRESS -> e <= a)
        /\ (e < BASEADDRESS \/ BASEADDRESS <= s -> a + size <= BASEADDRESS -> e <= a \/ a + size <= s))
  /\ a + size <= next_library_address (loader w')
  /\ (PAGE_SIZE | next_library_address (loader w'))
  /\ objects w' = objects w /\ identities w' = identities w /\ lookup (loader w') = lookup (loader w).
Proof.
  intros Hn H0n Hs Hlt. unfold next_address in Hn. wsplit. cbn in *.
  destruct (bumps_ge (objects w) (all_versions w (lookup (loader w))) (next_library_address (loader w))) as [Hge Hall].
  change (foldl (bump (objects w)) (next_library_address (loader w)) (all_versions w (lookup (loader w)))) with (next_free w) in *.
  set (nf := next_free w) in *. clearbody nf.
  set (nx := if nf =? 0 then _ else nf) in *.
  assert (nf <= nx /\ 0 <= nx) as [Hnx1 Hnx2].
  { unfold nx. destruct (Z.eqb_spec nf 0) as [Hz|]; [|lia].
    destruct (position_independent _); unfold LIBADDRESS, PDCADDRESS; lia. }
  pose proof page_size_pos. pose proof (align_up_ge nx PAGE_SIZE Hnx2 page_size_pos).
  rewrite w64_small by (unfold is_u64; lia).
  assert (align_up nx PAGE_SIZE + size <= align_up (align_up nx PAGE_SIZE + size) PAGE_SIZE)
    by (apply align_up_ge; [lia|apply page_size_pos]).
  split_and!; try done; try lia.
  - by apply align_up_div.
  - intros o ob s e Ho Hob Hr. assert (e < BASEADDRESS -> e <= align_up nx PAGE_SIZE) as Hbelow.
    { intros He. specialize (Hall o ob s e Ho Hob Hr He). lia. }
    split; [done|]. intros [He|Hs'] Hend; [left; by apply Hbelow|right; lia].
  - apply align_up_div; lia.
Qed.
End addresses.

(** A new object of 0x5000 bytes, with libx.so at 0x600000000000 (and an older version behind it) and Luci at BASEADDRESS *)
Definition ex_with_luci : world :=
  (ex_world ex_config) <| loader ::= fun l => l <| lookup := [1; 2; 3] |> |>
    <| identities ::= <[3 := ex_identity "ld-luci.so" no_flags [13]]> |>
    <| objects ::= <[13 := ex_object 3 [] [ex_segment BASEADDRESS 0x40000]]> |>.
Lemma next_address_fresh_witness :
  let w := ex_with_luci in
  let w' := after (@next_address dlh_4k 0x5000 w) w in
  (4096 | 0x600000006000) /\ 0x600000006000 + 0x5000 <= next_library_address (loader w')
  /\ (BASEADDRESS + 0x40000 <= 0x600000006000 \/ 0x600000006000 + 0x5000 <= BASEADDRESS).
Proof.
  destruct (@next_address_fresh dlh_4k dlh_4k_spec 0x5000 ex_with_luci 0x600000006000
    (after (@next_address dlh_4k 0x5000 ex_with_luci) ex_with_luci)) as (Hd & _ & Hf & Hn & _).
  - vm_compute. reflexivity.
  - cbn. lia.
  - lia.
  - lia.
  - split; [exact Hd|]. split; [exact Hn|].
    apply (Hf 13 (ex_object 3 [] [ex_segment BASEADDRESS 0x40000]) BASEADDRESS (BASEADDRESS + 0x40000)).
    + apply (bool_decide_eq_true_1 _). vm_compute. reflexivity.
    + vm_compute. reflexivity.
    + vm_compute. reflexivity.
    + right. lia.
    + vm_compute. congruence.
Defined.

(** * The environment of a program *)

Section reorder.
Context {A : Type} (is_empty : A -> bool).

Lemma empty_at_Some l k x : l !! k = Some x -> empty_at is_empty l k = is_empty x.
Proof. intros Hk. unfold empty_at. by rewrite Hk. Qed.

Lemma swap_Permutation (l : list A) i j : swap l i j ≡ₚ l.
Proof.
  unfold swap. destruct (l !! i) as [x|] eqn:Hi; [|done]. destruct (l !! j) as [y|] eqn:Hj; [|done].
  destruct (decide (i = j)) as [->|Hne].
  - assert (x = y) as -> by congruence. rewrite (list_insert_id l j y) by done. by rewrite list_insert_id.
  - apply Permutation_inj. rewrite !length_insert. split; [done|].
    exists (fun k => if decide (k = i) then j else if decide (k = j) then i else k). split.
    + intros a b. repeat case_decide; congruence.
    + intros k. destruct (decide (k = i)) as [->|Hki].
      * rewrite list_lookup_insert_eq by (rewrite length_insert; by eapply lookup_lt_Some). done.
      * rewrite list_lookup_insert_ne by done. case_decide as Hkj.
        -- subst k. rewrite list_lookup_insert_eq by (by eapply lookup_lt_Some). done.
        -- by rewrite list_lookup_insert_ne.
Qed.
Lemma swap_lookup (l : list A) i j k :
  (i < length l)%nat -> (j < length l)%nat ->
  swap l i j !! k = l !! (if decide (k = i) then j else if decide (k = j) then i else k).
Proof.
  intros Hi Hj. unfold swap. destruct (lookup_lt_is_Some_2 l i Hi) as [x Hx]. destruct (lookup_lt_is_Some_2 l j Hj) as [y Hy].
  rewrite Hx, Hy. destruct (decide (k = i)) as [->|Hki].
  - by rewrite list_lookup_insert_eq by (by rewrite length_insert).
  - rewrite list_lookup_insert_ne by done. case_decide as Hkj.
    + subst k. by rewrite list_lookup_insert_eq.
    + by rewrite list_lookup_insert_ne.
Qed.

(** The inner loop finds the last entry that is not empty, or stops at [curr]. *)
Lemma skip_empty_spec l envc curr :
  (curr < envc)%nat ->
  let e := skip_empty is_empty l envc curr in
  (curr <= e < envc)%nat /\ (forall k, (e < k < envc)%nat -> empty_at is_empty l k = true)
  /\ (e = curr \/ empty_at is_empty l e = false).
Proof.
  induction envc as [|envc IH]; intros Hc; [lia|]. cbn zeta. cbn [skip_empty].
  destruct (empty_at is_empty l envc) eqn:He; cbn [andb].
  - destruct (Nat.ltb_spec curr envc) as [Hlt|Hge].
    + destruct (IH Hlt) as (Hr & Hk & Hor). split; [lia|]. split; [|done]. intros k Hk'.
      destruct (decide (k = envc)) as [->|]; [done|]. apply Hk. lia.
    + split; [lia|]. split; [intros; lia|]. left. lia.
  - split; [lia|]. split; [intros; lia|]. by right.
Qed.

(** Entries in front of [curr] are not empty, those from [envc] on are. *)
Definition sorted_out (l : list A) (curr envc : nat) : Prop :=
  (forall k, (k < curr)%nat -> empty_at is_empty l k = false)
  /\ (forall k x, (envc <= k)%nat -> l !! k = Some x -> is_empty x = true).

Lemma reorder_from_spec fuel l curr envc :
  (envc - curr <= fuel)%nat -> (curr <= envc <= length l)%nat -> sorted_out l curr envc ->
  reorder_from is_empty fuel l curr envc ≡ₚ l /\ exists k, (k <= length l)%nat /\ sorted_out (reorder_from is_empty fuel l curr envc) k k.
Proof.
  revert l curr envc; induction fuel as [|fuel IH]; intros l curr envc Hf Hr [H1 H2]; cbn [reorder_from].
  { assert (curr = envc) as -> by lia. split; [done|]. exists envc. by split; [lia|]. }
  destruct (Nat.ltb_spec curr envc) as [Hlt|Hge].
  2: { assert (curr = envc) as -> by lia. split; [done|]. exists envc. by split; [lia|]. }
  destruct (empty_at is_empty l curr) eqn:He.
  - destruct (skip_empty_spec l envc curr Hlt) as (Hrange & Hempty & Hor). set (e := skip_empty is_empty l envc curr) in *.
    assert (forall k x, (e < k)%nat -> l !! k = Some x -> is_empty x = true) as Hbehind.
    { intros k x Hk Hx. destruct (decide (envc <= k)%nat); [by eapply H2|].
      rewrite <- (empty_at_Some l k x Hx). apply Hempty. lia. }
    assert (sorted_out (swap l e curr) (if decide (e = curr) then curr else S curr) e) as Hnext.
    { split.
      - intros k Hk. unfold empty_at. rewrite swap_lookup by lia. case_decide as Hek.
        + rewrite decide_False by lia. rewrite decide_False by lia. by apply H1.
        + destruct (decide (k = curr)) as [->|Hkc].
          * rewrite decide_False by lia. destruct Hor as [|Hor]; [done|]. exact Hor.
          * rewrite decide_False by lia. apply H1. lia.
      - intros k x Hk Hx. rewrite swap_lookup in Hx by lia. destruct (decide (k = e)) as [->|Hke].
        + by rewrite <- (empty_at_Some l curr x Hx).
        + rewrite decide_False in Hx by lia. apply (Hbehind k); [lia|done]. }
    destruct (decide (e = curr)) as [Hec|Hec].
    + rewrite Hec in *. assert (reorder_from is_empty fuel (swap l curr curr) (S curr) curr = swap l curr curr) as ->.
      { destruct fuel; cbn [reorder_from]; [done|]. by destruct (Nat.ltb_spec (S curr) curr); [lia|]. }
      split; [apply swap_Permutation|]. exists curr. split; [lia|exact Hnext].
    + destruct (IH (swap l e curr) (S curr) e) as [Hp (k & Hk & Hs)].
      * lia.
      * rewrite (Permutation_length (swap_Permutation l e curr)). lia.
      * exact Hnext.
      * split; [by rewrite Hp, swap_Permutation|]. exists k. split; [|exact Hs].
        by rewrite (Permutation_length (swap_Permutation l e curr)) in Hk.
  - apply IH; [lia|lia|]. split; [|exact H2]. intros k Hk. destruct (decide (k = curr)) as [->|]; [done|]. apply H1. lia.
Qed.

(** Consumed variables of the environment (their strings are empty) are moved to the end: the environment the
    program gets is a permutation of the one Luci was started with, and no empty entry -- at which
    glibc's getenv stops to look -- is in front of one that is not. *)
Theorem reorder_moves_empty_last l :
  reorder is_empty l ≡ₚ l
  /\ exists used consumed, reorder is_empty l = used ++ consumed
     /\ Forall (fun x => is_empty x = false) used /\ Forall (fun x => is_empty x = true) consumed.
Proof.
  destruct (reorder_from_spec (length l) l 0 (length l)) as [Hp (k & Hk & H1 & H2)]; [lia|lia| |].
  { split; [intros; lia|]. intros k x Hk Hx. apply lookup_lt_Some in Hx. lia. }
  split; [exact Hp|]. exists (take k (reorder is_empty l)), (drop k (reorder is_empty l)).
  split; [by rewrite take_drop|]. split; apply Forall_lookup_2; intros i x Hi.
  - apply lookup_take_Some in Hi as [Hi Hlt]. rewrite <- (empty_at_Some _ _ _ Hi). by apply H1.
  - rewrite lookup_drop in Hi. apply (H2 (k + i)%nat); [lia|exact Hi].
Qed.
End reorder.
(** * A library that cannot be opened *)

Section failed.
Context `{DlhMath} (kernel : kernel_t) `{ObjectOps} `{Env} `{Symbol.StringOps}.

(** The list of libraries, and an identity without versions *)
Definition pending (l : list Z) (i : Z) (w : world) : Prop :=
  lookup (loader w) = l /\ versions <$> identities w !! i = Some [].
#[export] Instance pending_stable l i : Stable (pending l i).
Proof. intros w w' (Hi & _ & _ & Hl) [<- Hv]. split; [done|]. by rewrite Hi. Qed.

(** Loading identity [i] in the state [v] ends before there is an object: the file cannot be opened, examined or mapped,
    its header is not supported, its type has no class of objects, or there is no memory for the object. *)
Definition refused (i addr : Z) (type : ehdr_type) (v : world) : Prop :=
  forall info d ty v', Identity.open kernel i addr type v = Ok ((info, d, ty), v') ->
  info <> INFO_CONTINUE_LOAD
  \/ match object_kind (trace v') ty (d_addr d) with None => True | Some k => new_object (trace v') k = false end.

(** The states in which [i] is an identity of the file *)
Definition identity_of (i : Z) (p : string) (v : world) : Prop :=
  exists tr id, identities v !! i = Some id /\ path id = initial_path tr p.
Definition unloadable (p : string) (addr : Z) (type : ehdr_type) : Prop :=
  forall i v, identity_of i p v -> refused i addr type v.

Lemma keeps_open P `{!Stable P} i addr type : keeps P (Identity.open kernel i addr type).
Proof. unfold Identity.open, open_file, debug_memfd, get_config. solve_stable. Qed.

Lemma load_refused P `{!Stable P} i addr type w r w' :
  P w -> refused i addr type w -> load kernel reset_address i addr type w = Ok (r, w') -> r = None /\ P w'.
Proof.
  intros Hw Href Hr. unfold load in Hr. apply bind_Ok in Hr as ([[info d] ty] & w1 & Ho & Hr).
  pose proof (Href _ _ _ _ Ho) as Hno. apply (keeps_run P) in Ho; [|by apply keeps_open|exact Hw].
  apply bind_Ok in Hr as ([ob info'] & w2 & Hc & Hr).
  assert (ob = None /\ P w2) as [-> Hw2].
  { case_decide as Hinfo; [|by apply Ok_inj in Hc as [[= <- _] <-]]. destruct Hno as [Hno|Hno]; [done|].
    apply bind_Ok in Hc as ([ob1 info1] & w3 & Hn & Hc).
    assert (ob1 = None /\ w3 = w1) as [-> ->].
    { unfold create in Hn. apply bind_Ok in Hn as (id & w4 & [_ ->]%get_identity_Ok & Hn).
      apply bind_Ok in Hn as (? & w4 & [<- <-]%Ok_inj & Hn). apply bind_Ok in Hn as (? & w4 & [<- <-]%Ok_inj & Hn). cbv zeta in Hn.
      assert (forall m : kind -> M world (option Z * Info), (match object_kind (trace w1) ty (d_addr d) with
        | None => mret (None, INFO_ERROR_ELF) | Some k => if negb (new_object (trace w1) k) then mret (None, INFO_ERROR_CREATE) else m k end) w1
        = Ok ((ob1, info1), w3) -> ob1 = None /\ w3 = w1) as Hend.
      { intros m Hm. destruct (object_kind (trace w1) ty (d_addr d)) as [k|]; cbn in Hno; [rewrite Hno in Hm|]; by apply Ok_inj in Hm as [[= <- _] <-]. }
      destruct (updatable (flags id) && skip_identical (flags id)); cbn [andb] in Hn; [|by eapply (Hend (fun k => _))].
      destruct (existsb _ _); [by apply Ok_inj in Hn as [[= <- _] <-]|by eapply (Hend (fun k => _))]. }
    apply bind_Ok in Hc as (id & w4 & [_ ->]%get_identity_Ok & Hc). split.
    - rewrite bool_decide_true in Hc by done. destruct (negb _); cbn [andb] in Hc.
      + apply bind_Ok in Hc as (? & ? & _ & Hc). by apply bind_Ok in Hc as (? & ? & _ & [[= <- _] _]%Ok_inj).
      + by apply bind_Ok in Hc as (? & ? & _ & [[= <- _] _]%Ok_inj).
    - eapply (keeps_run P); [|exact Ho|exact Hc]. unfold watch. solve_stable. }
  apply bind_Ok in Hr as ([] & w3 & Hs & Hr). apply (keeps_run P) in Hs; [|unfold status, get_loader; solve_stable|exact Hw2].
  apply bind_Ok in Hr as (id & w4 & [_ ->]%get_identity_Ok & Hr). apply bind_Ok in Hr as ([] & w4 & Hh & [<- <-]%Ok_inj).
  split; [done|]. eapply (keeps_run P); [|exact Hs|exact Hh]. unfold hook_refresh. solve_stable.
Qed.

(** A file the kernel does not open *)
Lemma not_opened p type : (forall tr t, exists e, kernel tr (Sys_open (initial_path t p) 0) = Failure e) -> unloadable p 0 type.
Proof.
  intros Hno i v (t & id & Hid & Hp) info d ty v' Ho. left. unfold Identity.open in Ho.
  apply bind_Ok in Ho as (id' & w2 & [Hid' ->]%get_identity_Ok & Ho). rewrite Hid in Hid'. injection Hid' as <-.
  destruct (negb _ && _); [by apply Ok_inj in Ho as [[= <- _ _] _]|].
  apply bind_Ok in Ho as (x & w2 & Hf & Ho). cbn [Z.eqb] in Hf. unfold open_file in Hf.
  apply bind_Ok in Hf as (id' & w3 & [Hid' ->]%get_identity_Ok & Hf). rewrite Hid in Hid'. injection Hid' as <-.
  apply bind_Ok in Hf as (c & w3 & [_ <-]%Ok_inj & Hf). apply bind_Ok in Hf as (? & w4 & _ & Hf). apply bind_Ok in Hf as (? & w5 & _ & Hf).
  apply bind_Ok in Hf as (s & w6 & Hs & Hf). rewrite Hp in Hs. destruct (Hno (trace w5) t) as [e He].
  assert (s = Failure e) as -> by (unfold syscall_ in Hs; apply Ok_inj in Hs as [<- _]; exact He).
  apply Ok_inj in Hf as [<- _]. by apply Ok_inj in Ho as [[= <- _ _] _].
Qed.

(** An image in memory whose header is not supported *)
Lemma not_supported p addr type : addr <> 0 -> (forall tr, supported (header_at tr addr) = false) -> unloadable p addr type.
Proof.
  intros Ha Hno i v _ info d ty v' Ho. left. unfold Identity.open in Ho. apply bind_Ok in Ho as (id' & w2 & [_ ->]%get_identity_Ok & Ho).
  destruct (negb _ && _); [by apply Ok_inj in Ho as [[= <- _ _] _]|].
  rewrite (proj2 (Z.eqb_neq addr 0) Ha) in Ho. apply bind_Ok in Ho as (x & w2 & Hf & Ho).
  apply bind_Ok in Hf as (? & ? & [<- <-]%Ok_inj & [<- <-]%Ok_inj). apply bind_Ok in Ho as (? & w3 & [<- <-]%Ok_inj & Ho). cbv zeta in Ho.
  cbn [d_addr] in Ho. change (d_addr (no_data <| d_addr := addr |> <| d_size := elf_size (trace v) addr |>)) with addr in Ho.
  rewrite Hno, orb_true_r in Ho. apply bind_Ok in Ho as (? & ? & _ & Ho). by apply bind_Ok in Ho as (? & ? & _ & [[= <- _ _] _]%Ok_inj).
Qed.

(** Destroying another identity *)
Lemma pending_object_destroy l i o : keeps (pending l i) (Object.destroy kernel reset_address o).
Proof.
  unfold Object.destroy, reset_address, segment_indices.
  apply keeps_bind; [apply keeps_get_object|intros ob]. apply keeps_bind; [solve_stable|intros _].
  apply keeps_bind; [|intros _].
  - apply keeps_modify. intros w [Hl Hv]. split; [done|]. cbn. destruct (decide (i = o_file ob)) as [->|Hne]; [|by rewrite lookup_alter_ne].
    rewrite lookup_alter_eq. destruct (identities w !! o_file ob) as [id|]; [|done]. cbn in *. injection Hv as ->. done.
  - repeat first [ stable_step | apply keeps_modify; intros w Hw; exact Hw ].
Qed.

(** The new identity: its path, no versions *)
Definition created (L : list Z) (k : Z) (p : string) (v : world) : Prop :=
  lookup (loader v) = L /\ exists tr id, identities v !! k = Some id /\ path id = initial_path tr p /\ versions id = [].
Lemma created_pending L k p v : created L k p v -> pending L k v.
Proof. intros [Hl (tr & id & Hid & _ & Hv)]. split; [done|]. rewrite Hid. cbn. by rewrite Hv. Qed.
Lemma created_identity L k p v : created L k p v -> identity_of k p v.
Proof. intros [_ (tr & id & Hid & Hp & _)]. by exists tr, id. Qed.

Lemma construct_created L dep k f p alt n :
  hoare (fun v => (lookup (loader v) = L /\ dependencies (loader v) = dep) /\ next_id v = k) (Identity.construct kernel f (Some p) n alt)
    (fun i v => i = k /\ created L k p v /\ dependencies (loader v) = dep).
Proof.
  intros w i w' [[Hw Hdep] Hk] Hr. unfold Identity.construct in Hr.
  apply bind_Ok in Hr as (? & w0 & Ha & Hr). assert (w0 = w) as -> by (unfold assert in Ha; by destruct (negb _); [injection Ha|]).
  apply bind_Ok in Hr as (c & w0 & [_ <-]%Ok_inj & Hr). apply bind_Ok in Hr as (i' & w0 & [<- <-]%Ok_inj & Hr).
  destruct (initial_flags c f) as [f'|]; [|done]. apply bind_Ok in Hr as (tr & w0 & [_ <-]%Ok_inj & Hr).
  cbv zeta in Hr. apply bind_Ok in Hr as (? & w1 & [_ <-]%Ok_inj & Hr).
  apply bind_Ok in Hr as (? & w2 & Hr2 & [<- <-]%Ok_inj). split; [done|].
  eapply (keeps_run (fun v => created L k p v /\ dependencies (loader v) = dep)); [| |exact Hr2].
  - assert (forall g, keeps (fun v => created L k p v /\ dependencies (loader v) = dep) (set_identity (next_id w) (fun x => x <| flags ::= g |>))) as Hs.
    { intros g. apply keeps_modify. intros v [[Hv1 (t & id & Hid & Hp & Hv)] Hd]. split; [|done]. split; [done|]. cbn. exists t.
      destruct (decide (k = next_id w)) as [->|Hne].
      - rewrite lookup_alter_eq, Hid. by eexists.
      - rewrite lookup_alter_ne by done. by exists id. }
    repeat first [ apply Hs | apply keeps_syscall; intros; done | keeps_step ].
  - split; [|done]. split; [done|]. eexists tr, _. cbn. rewrite <- Hk, lookup_insert_eq. done.
Qed.

(** Where the new library is put *)
Definition placed (dep : option Z) (priority : bool) (i : Z) (l : list Z) : list Z :=
  match (if priority then dep else None) with Some d => insert_before d i l | None => l ++ [i] end.
Lemma emplace_created L dep (priority : bool) k p v r v' :
  created L k p v -> emplace (if priority then dep else None) k v = Ok (r, v') -> created (placed dep priority k L) k p v'.
Proof.
  intros [Hl Hid] Hr. unfold emplace in Hr. apply bind_Ok in Hr as (ld & w3 & [<- <-]%Ok_inj & Hr). unfold placed.
  destruct (if priority then dep else None) as [d|].
  - apply bind_Ok in Hr as ([] & w3 & Ha & [_ <-]%Ok_inj). unfold assert in Ha. case_bool_decide; [|done]. apply Ok_inj in Ha as [_ <-].
    split; [|exact Hid]. cbn. by rewrite Hl.
  - apply Ok_inj in Hr as [_ <-]. split; [|exact Hid]. cbn. by rewrite Hl.
Qed.

(** The last of the list is destroyed, whatever it is; an identity without versions that is not the last one stays. *)
Lemma pop_back_last l y i w r w' :
  pending (l ++ [y]) i w -> pop_back kernel w = Ok (r, w') ->
  lookup (loader w') = l /\ identities w' !! y = None /\ (y <> i -> pending l i w').
Proof.
  intros [Hl Hv] Hr. unfold pop_back in Hr. apply bind_Ok in Hr as (ld & w0 & [<- <-]%Ok_inj & Hr).
  rewrite Hl, last_snoc in Hr. apply bind_Ok in Hr as ([] & w1 & [_ <-]%Ok_inj & Hr).
  assert (pending l i (w <| loader ::= fun l => l <| lookup ::= @removelast Z |> |>)) as Hp.
  { split; [|exact Hv]. cbn. by rewrite Hl, removelast_last. }
  revert Hp Hr. generalize (w <| loader ::= fun l => l <| lookup ::= @removelast Z |> |>). clear Hl Hv w. intros w Hp Hr.
  unfold Identity.destroy in Hr. apply bind_Ok in Hr as (id & w0 & [Hid ->]%get_identity_Ok & Hr).
  apply bind_Ok in Hr as (c & w0 & [_ <-]%Ok_inj & Hr). apply bind_Ok in Hr as (ld & w0 & [_ <-]%Ok_inj & Hr).
  apply bind_Ok in Hr as (? & w1 & Hr1 & Hr). apply (keeps_run (pending l i)) in Hr1; [|solve_stable|exact Hp].
  apply bind_Ok in Hr as (? & w2 & Hr2 & [_ <-]%Ok_inj).
  apply (keeps_run (pending l i)) in Hr2; [|apply keeps_mfor; intros; apply pending_object_destroy|exact Hr1].
  destruct Hr2 as [Hl2 Hv2]. split; [exact Hl2|]. split; [by cbn; rewrite lookup_delete_eq|].
  intros Hy. split; [exact Hl2|]. cbn. by rewrite lookup_delete_ne.
Qed.
Lemma placed_nil dep priority i l : placed dep priority i l <> [].
Proof.
  unfold placed. destruct (if priority then dep else None) as [d|]; [|by destruct l].
  destruct l as [|x l]; cbn; [done|by case_decide].
Qed.

(** C25: When a file turns out to be unloadable before there is an object of it, the list of libraries is left as if the
    library at its end were the one that failed: that library, whichever it is, is destroyed and taken off the list.
    A library that was to be put at the end is taken back, and the list is as before.  A library that was opened
    with priority, in front of the dependencies, stays in the list without a version, while the library at
    the end, which was loaded long before, is destroyed. *)
Theorem failed_open_destroys_last fuel filepath f (priority : bool) n addr type alt w r w' (i := next_id w)
  (l := placed (dependencies (loader w)) priority i (lookup (loader w))) :
  (addr <> 0 \/ file_exists (trace w) filepath = true) ->
  (type <> ET_NONE \/ (if addr =? 0 then file_format (trace w) filepath else mem_format (trace w) addr) = FORMAT_ELF) ->
  unloadable filepath addr type ->
  Loader.open kernel (S fuel) filepath f priority n addr type alt w = Ok (r, w') ->
  r = None
  /\ lookup (loader w') = removelast l
  /\ exists y, last l = Some y
       /\ identities w' !! y = None
       /\ (y <> i -> versions <$> identities w' !! i = Some []).
Proof.
  intros Hex Hfmt Hun Hr. cbn [Loader.open] in Hr.
  apply bind_Ok in Hr as (tr & w0 & [<- <-]%Ok_inj & Hr).
  assert (negb (addr =? 0) || file_exists (trace w) filepath = true) as Hb.
  { destruct Hex as [Ha| ->]; [by rewrite (proj2 (Z.eqb_neq addr 0) Ha)|apply orb_true_r]. }
  rewrite Hb in Hr. apply bind_Ok in Hr as (n' & w0 & Hn' & Hr).
  assert ((lookup (loader w0) = lookup (loader w) /\ dependencies (loader w0) = dependencies (loader w)) /\ next_id w0 = i) as Hw0.
  { destruct (n =? NAMESPACE_NEW); [|by apply Ok_inj in Hn' as [_ <-]].
    apply bind_Ok in Hn' as (? & ? & [<- <-]%Ok_inj & Hn'). by apply bind_Ok in Hn' as (? & ? & [_ <-]%Ok_inj & [_ <-]%Ok_inj). }
  clear Hn'. cbv zeta in Hr.
  assert ((if negb (bool_decide (type = ET_NONE)) then FORMAT_ELF
           else if negb (addr =? 0) then mem_format (trace w) addr else file_format (trace w) filepath) = FORMAT_ELF) as Hf.
  { case_bool_decide as Ht; [|done]. destruct Hfmt as [|Hfmt]; [done|]. by destruct (addr =? 0). }
  rewrite Hf in Hr. clear Hf Hb Hex Hfmt. apply bind_Ok in Hr as ([] & w1 & Hnot & Hr).
  apply (keeps_run (fun v => (lookup (loader v) = lookup (loader w) /\ dependencies (loader v) = dependencies (loader w)) /\ next_id v = i)) in Hnot;
    [|unfold GDB.notify; wkeeps|exact Hw0].
  apply bind_Ok in Hr as (ld & w2 & [<- <-]%Ok_inj & Hr). pose proof (proj2 (proj1 Hnot)) as Hdep.
  apply bind_Ok in Hr as (i' & w2 & (-> & Hc & _)%(construct_created _ _ _ _ _ _ _ _ _ _ Hnot) & Hr). rewrite Hdep in Hr.
  apply bind_Ok in Hr as ([] & w3 & Hem%(emplace_created _ _ _ _ _ _ _ _ Hc) & Hr). fold l in Hem.
  apply bind_Ok in Hr as ([] & w4 & Hdeps & Hr).
  assert (created l i filepath w4) as Hc4.
  { destruct (_ && _); apply Ok_inj in Hdeps as [_ <-]; exact Hem. }
  apply bind_Ok in Hr as (o & w5 & Hload & Hr).
  apply (load_refused (pending l i)) in Hload as [-> Hp5]; [|by eapply created_pending|apply Hun; by eapply created_identity].
  apply bind_Ok in Hr as ([] & w6 & H6 & Hr). apply (keeps_run (pending l i)) in H6; [|unfold GDB.refresh; solve_stable|exact Hp5].
  apply bind_Ok in Hr as ([] & w7 & H7 & Hr). apply (keeps_run (pending l i)) in H7; [|unfold GDB.notify; solve_stable|exact H6].
  apply bind_Ok in Hr as ([] & w8 & H8 & [<- <-]%Ok_inj). split; [done|].
  destruct (exists_last (placed_nil _ _ _ _ : l <> [])) as (l' & y & Hl). rewrite Hl in *. rewrite removelast_last, last_snoc.
  destruct (pop_back_last _ _ _ _ _ _ H7 H8) as (Hl8 & Hy8 & Hi8). split; [exact Hl8|]. exists y. split; [done|].
  split; [exact Hy8|]. intros Hy. apply (Hi8 Hy).
Qed.
End failed.

Definition ex_refusing : kernel_t := fun tr c => match c with Sys_open p _ => if String.eqb p "/lib/libz.so" then Failure 13 else ex_kernel tr c | _ => ex_kernel tr c end.
Definition ex_depending : world := (ex_world ex_config) <| loader ::= fun l => l <| dependencies := Some 1 |> |>.
Definition ex_failed : res (option Z * world) :=
  Loader.open (H := dlh_4k) ex_refusing (H0 := ex_ops [] true true) (H1 := ex_env ["/lib/libz.so"%string] [] false) (H2 := Symbol.ex_strings)
    1 "/lib/libz.so" no_flags true NAMESPACE_BASE 0 ET_NONE None ex_depending.

(** Of the libraries 1 and 2 the second one is lost; the list holds the identity 100 of the missing file. *)
Lemma failed_open_destroys_last_witness :
  ex_failed = Ok (None, after ex_failed ex_depending)
  /\ lookup (loader (after ex_failed ex_depending)) = [100; 1] /\ identities (after ex_failed ex_depending) !! 2 = None.
Proof.
  destruct (@failed_open_destroys_last dlh_4k ex_refusing (ex_ops [] true true) (ex_env ["/lib/libz.so"%string] [] false) Symbol.ex_strings
    0 "/lib/libz.so" no_flags true NAMESPACE_BASE 0 ET_NONE None ex_depending None (after ex_failed ex_depending))
    as (_ & Hl & y & Hlast & Hy & _).
  - by right.
  - by right.
  - apply not_opened. intros tr t. exists 13. reflexivity.
  - vm_compute. reflexivity.
  - split; [vm_compute; reflexivity|]. split; [rewrite Hl; vm_compute; reflexivity|].
    assert (y = 2) as -> by (vm_compute in Hlast; congruence). exact Hy.
Defined.
End LoaderProofs.
