(* ===== verification/HelperProofs.v ===== *)
(** Theorems about the helper thread (Helper.v). *)
From Stdlib Require Import Sorting.Sorted.
From S2P Require Import Prelude Platform Segment Symbol World Object Identity Gdb Loader Helper Samples WorldProofs.

Module HelperProofs.
Import World Object Identity Loader Helper WorldProofs Samples.

(** * Work lists *)

Definition before (a b : Z * Z) : Prop := pair_ltb a b = true.

Lemma before_spec a b : before a b <-> a.1 < b.1 \/ a.1 = b.1 /\ a.2 < b.2.
Proof. unfold before, pair_ltb. rewrite orb_true_iff, andb_true_iff, !Z.ltb_lt, Z.eqb_eq. done. Qed.
Lemma not_before a b : pair_ltb a b = false -> a <> b -> before b a.
Proof.
  intros Hb Hne. apply before_spec. unfold pair_ltb in Hb. apply orb_false_iff in Hb as [H1 H2].
  rewrite Z.ltb_ge in H1. apply andb_false_iff in H2. rewrite Z.eqb_neq, Z.ltb_ge in H2.
  destruct a as [a1 a2], b as [b1 b2]. cbn in *. destruct (decide (a1 = b1)) as [->|]; [|left; lia].
  right. split; [done|]. assert (a2 <> b2) by congruence. lia.
Qed.

(** A work list is a set in ascending order. *)
Definition in_order (l : worklist) : Prop := StronglySorted before l.

Lemma elem_of_tree_insert x y l : y ∈ tree_insert x l <-> y = x \/ y ∈ l.
Proof.
  induction l as [|z l IH]; cbn [tree_insert]; [by rewrite list_elem_of_singleton; set_solver|].
  destruct (pair_ltb x z); [by rewrite elem_of_cons|]. case_bool_decide as Heq; [subst; set_solver|].
  rewrite !elem_of_cons, IH. tauto.
Qed.
Lemma before_trans a b c : before a b -> before b c -> before a c.
Proof. rewrite !before_spec. lia. Qed.
Lemma tree_insert_in_order x l : in_order l -> in_order (tree_insert x l).
Proof.
  induction 1 as [|y l Hl IH Hy]; cbn [tree_insert]; [repeat constructor|].
  destruct (pair_ltb x y) eqn:Hxy.
  - constructor; [by constructor|]. constructor; [done|]. eapply Forall_impl; [exact Hy|]. intros z. by apply before_trans.
  - case_bool_decide as Heq; [by constructor|]. constructor; [exact IH|]. apply Forall_forall.
    intros z [->|Hz]%elem_of_tree_insert; [by apply not_before|]. rewrite Forall_forall in Hy. by apply Hy.
Qed.
Lemma tree_erase_in_order x l : in_order l -> in_order (tree_erase x l).
Proof.
  induction 1 as [|y l Hl IH Hy]; [constructor|]. unfold tree_erase. rewrite filter_cons. case_decide; [|exact IH].
  constructor; [exact IH|]. apply Forall_forall. intros z [_ Hz]%list_elem_of_filter. rewrite Forall_forall in Hy. by apply Hy.
Qed.
Lemma elem_of_tree_erase x y l : y ∈ tree_erase x l <-> y <> x /\ y ∈ l.
Proof. unfold tree_erase. by rewrite list_elem_of_filter. Qed.

(** An identity is in the list at most once. *)
Definition unique (l : worklist) : Prop := forall s t i, (s, i) ∈ l -> (t, i) ∈ l -> s = t.

(** [wl'] is [wl] with all identities of [l] due at [due]. *)
Record rescheduled (due : Z) (l : list Z) (wl wl' : worklist) : Prop := {
  rs_in_order : in_order wl';
  rs_unique : unique wl';
  rs_entries t j : (t, j) ∈ wl' <-> if decide (j ∈ l) then t = due else (t, j) ∈ wl;
}.
Lemma rescheduled_refl due wl : in_order wl -> unique wl -> rescheduled due [] wl wl.
Proof. intros Ho Hu. split; [done|done|]. intros t j. by rewrite decide_False by apply not_elem_of_nil. Qed.
Lemma rescheduled_trans due l1 l2 wl1 wl2 wl3 :
  rescheduled due l1 wl1 wl2 -> rescheduled due l2 wl2 wl3 -> rescheduled due (l1 ++ l2) wl1 wl3.
Proof.
  intros R1 R2. split; [apply R2|apply R2|]. intros t j. rewrite (rs_entries _ _ _ _ R2). destruct (decide (j ∈ l2)) as [H2|H2].
  - by rewrite decide_True by (apply elem_of_app; by right).
  - rewrite (rs_entries _ _ _ _ R1). destruct (decide (j ∈ l1)) as [H1|H1].
    + by rewrite decide_True by (apply elem_of_app; by left).
    + by rewrite decide_False by (rewrite elem_of_app; tauto).
Qed.

(** What the loop does to the entry of one identity *)
Definition reschedule (due i : Z) (wl : worklist) : worklist :=
  match find (fun x => bool_decide (x.2 = i)) wl with
  | Some x => if x.1 =? due then wl else tree_insert (due, i) (tree_erase x wl)
  | None => tree_insert (due, i) wl
  end.
Lemma reschedule_spec due i wl : in_order wl -> unique wl -> rescheduled due [i] wl (reschedule due i wl).
Proof.
  intros Ho Hu.
  assert (forall t j, (t, j) ∈ reschedule due i wl <-> if decide (j ∈ [i]) then t = due else (t, j) ∈ wl) as He.
  { intros t j. unfold reschedule. destruct (find _ wl) as [[s k]|] eqn:Hf.
    - apply find_some in Hf as [Hin Hk]. apply bool_decide_eq_true in Hk. cbn in Hk. subst k. apply list_elem_of_In in Hin.
      cbn [fst]. destruct (Z.eqb_spec s due) as [Hs|Hs].
      + subst s. case_decide as Hj; [|done]. apply list_elem_of_singleton in Hj as ->. split; [intros Ht; exact (Hu _ _ _ Ht Hin)|by intros ->].
      + rewrite elem_of_tree_insert, elem_of_tree_erase. case_decide as Hj.
        * apply list_elem_of_singleton in Hj as ->. split; [|by intros ->; left].
          intros [[= ->]|[Hne Ht]]; [done|]. exfalso. apply Hne. f_equal. exact (Hu _ _ _ Ht Hin).
        * rewrite list_elem_of_singleton in Hj. naive_solver.
    - assert (forall s, (s, i) ∉ wl) as Hno.
      { intros s Hin%list_elem_of_In. apply (find_none _ _ Hf) in Hin. by apply bool_decide_eq_false in Hin. }
      rewrite elem_of_tree_insert. case_decide as Hj.
      + apply list_elem_of_singleton in Hj as ->. split; [intros [[= ->]|Ht]; [done|by apply Hno in Ht]|by intros ->; left].
      + rewrite list_elem_of_singleton in Hj. naive_solver. }
  split; [| |exact He].
  - unfold reschedule. repeat case_match; [done|apply tree_insert_in_order, tree_erase_in_order, Ho|by apply tree_insert_in_order].
  - intros s t j. rewrite !He. case_decide; [by intros -> ->|apply Hu].
Qed.

(** * Noticing and loading *)

Section helper.
Context `{DlhMath} (kernel : kernel_t) `{ObjectOps} `{Env} `{Symbol.StringOps} `{Boot} `{HelperEnv}.

(** A modification of a file: no lost watch, no overflow, no directory *)
Definition modification (e : inotify_event) : Prop :=
  has_flag (ev_mask e) IN_ISDIR = false /\ has_flag (ev_mask e) IN_IGNORED = false /\ has_flag (ev_mask e) IN_Q_OVERFLOW = false.

(** The identities an event is about *)
Definition concerned (w : world) (e : inotify_event) : list Z :=
  if ev_wd e =? -1 then []
  else filter (fun i => (ev_wd e =? default (-1) (wd <$> identities w !! i)) = true) (lookup (loader w)).

Lemma notice_all_spec w now e ids wl :
  modification e -> (forall i, i ∈ ids -> is_Some (identities w !! i)) -> in_order wl -> unique wl ->
  exists wl', notice_all kernel now false e ids wl w = Ok (wl', w)
    /\ rescheduled (w64 (now + SECOND_NS)) (filter (fun i => (ev_wd e =? default (-1) (wd <$> identities w !! i)) = true) ids) wl wl'.
Proof.
  intros (_ & Hig & _). revert wl; induction ids as [|i ids IH]; intros wl Hids Ho Hu; cbn [notice_all].
  { exists wl. split; [done|]. by apply rescheduled_refl. }
  destruct (Hids i ltac:(left)) as [id Hid].
  set (wl1 := if ev_wd e =? wd id then reschedule (w64 (now + SECOND_NS)) i wl else wl).
  assert (notice kernel now false e i wl w = Ok (wl1, w)) as Hn.
  { unfold notice, mbind, M_bind, get_identity. rewrite Hid. unfold wl1, reschedule. cbv zeta.
    destruct (ev_wd e =? wd id); [|done]. rewrite Hig. repeat case_match; done. }
  rewrite filter_cons, Hid. change (default (-1) (wd <$> Some id)) with (wd id).
  assert (rescheduled (w64 (now + SECOND_NS)) (if ev_wd e =? wd id then [i] else []) wl wl1) as R1.
  { unfold wl1. destruct (ev_wd e =? wd id); [by apply reschedule_spec|by apply rescheduled_refl]. }
  destruct (IH wl1) as (wl' & Hr & R2); [intros j Hj; apply Hids; by right|apply R1|apply R1|].
  exists wl'. split.
  - unfold mbind, M_bind. by rewrite Hn.
  - pose proof (rescheduled_trans _ _ _ _ _ _ R1 R2) as R.
    destruct (ev_wd e =? wd id); [rewrite decide_True by done|rewrite decide_False by done]; exact R.
Qed.

Lemma notice_events_spec w now es wl :
  Forall modification es -> (forall i, i ∈ lookup (loader w) -> is_Some (identities w !! i)) -> in_order wl -> unique wl ->
  exists wl', notice_events kernel now es wl w = Ok (wl', w)
    /\ rescheduled (w64 (now + SECOND_NS)) (concat (concerned w <$> es)) wl wl'.
Proof.
  intros Hes Hids. revert wl; induction Hes as [|e es He Hes IH]; intros wl Ho Hu; cbn [notice_events fmap list_fmap concat].
  { exists wl. split; [done|]. by apply rescheduled_refl. }
  assert (exists wl1, (if ev_wd e =? -1 then mret wl else (l ← get_loader; notice_all kernel now false e (lookup l) wl)) w = Ok (wl1, w)
    /\ rescheduled (w64 (now + SECOND_NS)) (concerned w e) wl wl1) as (wl1 & Hr1 & R1).
  { unfold concerned. destruct (ev_wd e =? -1); [exists wl; split; [done|by apply rescheduled_refl]|]. by apply notice_all_spec. }
  destruct (IH wl1) as (wl' & Hr & R2); [apply R1|apply R1|]. exists wl'. split; [|by eapply rescheduled_trans].
  destruct He as (Hd & _ & Hq). unfold assert, mbind, M_bind in *. rewrite Hd, Hq. cbn [negb]. cbv zeta. by rewrite Hr1.
Qed.

(** The loop over the entries that are due takes exactly those. *)
Lemma load_due_rest fuel now wl protect upd w wl' protect' upd' w' :
  in_order wl -> load_due kernel fuel now wl protect upd w = Ok ((wl', protect', upd'), w') ->
  wl' = filter (fun x => now < x.1) wl.
Proof.
  intros Ho. revert protect upd w; induction Ho as [|x wl Ho IH Hx]; intros protect upd w Hr; cbn [load_due] in Hr.
  { apply Ok_inj in Hr as [[= <- _ _] _]. done. }
  rewrite filter_cons. destruct (Z.leb_spec x.1 now) as [Hle|Hgt].
  - rewrite decide_False by lia. apply bind_Ok in Hr as (b & w1 & _ & Hr). apply bind_Ok in Hr as (c & w2 & _ & Hr).
    apply bind_Ok in Hr as (p & w3 & _ & Hr). by eapply IH.
  - apply Ok_inj in Hr as [[= <- _ _] _]. rewrite decide_True by lia. f_equal.
    clear IH Ho. induction Hx as [|y wl Hy Hx IH]; [done|]. rewrite filter_cons. apply before_spec in Hy.
    rewrite decide_True by lia. by f_equal.
Qed.

(** C24: Modifications are debounced.  Whatever files change, in whatever order and how often, every identity has at most one entry
    in the work list, which stays in ascending order; the identities concerned are due one second after the
    last notice, the others when they were due before.  A round of loading at a time takes exactly the
    entries that are due then out of the list: a file that keeps changing is not loaded. *)
Theorem modifications_debounced now es wl w :
  Forall modification es -> (forall i, i ∈ lookup (loader w) -> is_Some (identities w !! i)) -> in_order wl -> unique wl ->
  exists wl', notice_events kernel now es wl w = Ok (wl', w)
    /\ in_order wl' /\ unique wl'
    /\ (forall t i, (t, i) ∈ wl' <-> if decide (i ∈ concat (concerned w <$> es)) then t = w64 (now + SECOND_NS) else (t, i) ∈ wl)
    /\ (forall fuel time protect upd w1 rest protect' upd' w2,
          load_due kernel fuel time wl' protect upd w1 = Ok ((rest, protect', upd'), w2) ->
          rest = filter (fun x => time < x.1) wl').
Proof.
  intros Hes Hids Ho Hu. destruct (notice_events_spec w now es wl Hes Hids Ho Hu) as (wl' & Hr & R).
  exists wl'. split; [exact Hr|]. split; [apply R|]. split; [apply R|]. split; [apply R|].
  intros. by eapply load_due_rest; [apply R|].
Qed.
End helper.

(** Two modifications of "libx.so", which was due already, and one of a file that is not loaded any more *)
Definition ex_watched : world :=
  (ex_world (ex_config <| dynamic_update := true |>)) <| identities ::= alter (fun x => x <| wd := 7 |>) 2 |>.
Definition ex_events : list inotify_event := [InotifyEvent 7 2; InotifyEvent 9 2; InotifyEvent 7 2].

Lemma modifications_debounced_witness :
  exists wl', notice_events ex_kernel 5000 ex_events [(6000, 1); (7000, 2)] ex_watched = Ok (wl', ex_watched)
    /\ in_order wl' /\ unique wl' /\ (1000005000, 2) ∈ wl' /\ (6000, 1) ∈ wl' /\ (7000, 2) ∉ wl'.
Proof.
  destruct (@modifications_debounced dlh_4k ex_kernel (ex_ops [] true true) (ex_env [] [] false) Symbol.ex_strings
    5000 ex_events [(6000, 1); (7000, 2)] ex_watched) as (wl' & Hr & Ho & Hu & He & _).
  - repeat constructor.
  - intros i Hi. cbn in Hi. repeat (apply elem_of_cons in Hi as [->|Hi]; [by eexists|]). by apply not_elem_of_nil in Hi.
  - repeat constructor.
  - intros s t i Hs Ht. rewrite !elem_of_cons in Hs, Ht. pose proof (not_elem_of_nil (s, i)). pose proof (not_elem_of_nil (t, i)).
    naive_solver congruence.
  - assert (2 ∈ concat (concerned ex_watched <$> ex_events)) as H2 by (apply (bool_decide_eq_true_1 _); vm_compute; reflexivity).
    assert (1 ∉ concat (concerned ex_watched <$> ex_events)) as H1 by (apply (bool_decide_eq_false_1 _); vm_compute; reflexivity).
    exists wl'. split; [exact Hr|]. split; [exact Ho|]. split; [exact Hu|]. split; [|split].
    + apply He. rewrite decide_True by exact H2. reflexivity.
    + apply He. rewrite decide_False by exact H1. left.
    + rewrite He, decide_True by exact H2. vm_compute. congruence.
Defined.
End HelperProofs.
