(* ===== verification/LayoutProofs.v ===== *)
(** Theorems about the layout of structures (Layout.v): members do not overlap, are aligned and lie within the
    size of the structure. *)
From S2P Require Import Prelude Layout.

Module LayoutProofs.
Import Layout.

(** * Alignments *)

Definition aligned (a : Z) : Prop := a ∈ [1; 2; 4; 8; 16].

Lemma power_of_2_aligned a : power_of_2 a = true <-> aligned a.
Proof. apply bool_decide_eq_true. Qed.
Lemma aligned_cases a : aligned a -> a = 1 \/ a = 2 \/ a = 4 \/ a = 8 \/ a = 16.
Proof. unfold aligned. rewrite !elem_of_cons, elem_of_nil. tauto. Qed.
Lemma aligned_pos a : aligned a -> 0 < a.
Proof. intros Ha%aligned_cases. lia. Qed.
Lemma aligned_max a b : aligned a -> aligned b -> aligned (Z.max a b) /\ (a | Z.max a b) /\ (b | Z.max a b).
Proof.
  intros Ha%aligned_cases Hb%aligned_cases.
  assert (Z.max a b ∈ [1; 2; 4; 8; 16]) as Hm.
  { rewrite !elem_of_cons. lia. }
  split; [exact Hm|]. split; apply Z.mod_divide; try lia.
  all: destruct (Z.max_spec a b) as [[Hlt ->]|[Hle ->]].
  all: repeat destruct Ha as [->| Ha]; repeat destruct Hb as [->| Hb]; subst; try reflexivity; lia.
Qed.
Lemma aligned_foldr {A} (f : A -> Z) l :
  Forall (fun x => aligned (f x)) l ->
  aligned (foldr (fun x a => Z.max (f x) a) 1 l) /\ Forall (fun x => (f x | foldr (fun x a => Z.max (f x) a) 1 l)) l.
Proof.
  induction 1 as [|x l Hx Hl [IH1 IH2]]; cbn; [split; [by left|constructor]|].
  destruct (aligned_max _ _ Hx IH1) as (Ha & Hd1 & Hd2). split; [done|]. constructor; [done|].
  eapply Forall_impl; [exact IH2|]. intros y Hy. cbn in Hy. exact (Z.divide_trans _ _ _ Hy Hd2).
Qed.

Lemma round_up_spec x a : 0 < a -> x <= round_up x a /\ (a | round_up x a).
Proof.
  intros Ha. unfold round_up. pose proof (Z.div_mod (x + a - 1) a ltac:(lia)).
  pose proof (Z.mod_pos_bound (x + a - 1) a Ha). split; [nia|]. by exists ((x + a - 1) / a).
Qed.

(** * Places *)

Record item_ok (i : item) : Prop := {
  ok_align : 0 < i_align i;
  ok_bits : 0 <= i_bits i;
  ok_field : i_bitfield i = true -> 0 < i_bits i <= i_align i;
}.
(** A field is aligned, a bit-field lies within one storage unit. *)
Record place_ok (p : place) : Prop := {
  in_unit : i_bitfield (p_item p) = true ->
    p_offset p / i_align (p_item p) = (p_offset p + i_bits (p_item p) - 1) / i_align (p_item p);
  at_align : i_bitfield (p_item p) = false -> (i_align (p_item p) | p_offset p);
}.
Definition p_end (p : place) : Z := p_offset p + i_bits (p_item p).
(** In ascending order, without overlaps *)
Definition in_sequence (from to : Z) (l : list place) : Prop :=
  (forall p, p ∈ l -> from <= p_offset p /\ p_end p <= to)
  /\ forall i j p q, (i < j)%nat -> l !! i = Some p -> l !! j = Some q -> p_end p <= p_offset q.

Lemma position_ok i bit : item_ok i -> bit <= position i bit /\ place_ok (Place i (position i bit)).
Proof.
  intros [Ha Hb Hf]. unfold position. destruct (round_up_spec bit (i_align i) Ha) as [Hge Hdiv].
  destruct (i_bitfield i) eqn:Hbf; cbn [andb].
  - destruct (Z.eqb_spec (bit / i_align i) ((bit + i_bits i - 1) / i_align i)) as [He|He].
    + split; [lia|]. split; cbn; [done|congruence].
    + split; [done|]. split; cbn; [|congruence]. intros _. specialize (Hf eq_refl). destruct Hdiv as [k ->].
      rewrite Z.div_mul by lia. apply (Z.div_unique _ _ _ (i_bits i - 1)); lia.
  - split; [done|]. split; cbn; [congruence|done].
Qed.

Lemma places_ok l bit :
  Forall item_ok l ->
  bit <= extent l bit /\ Forall place_ok (places l bit) /\ in_sequence bit (extent l bit) (places l bit).
Proof.
  intros Hl. revert bit; induction Hl as [|i l Hi Hl IH]; intros bit; cbn [places extent].
  { split; [lia|]. split; [constructor|]. split; [intros p Hp; by apply not_elem_of_nil in Hp|done]. }
  destruct (position_ok i bit Hi) as [Hge Hok]. destruct Hi as [_ Hb _]. set (p := position i bit) in *.
  destruct (IH (p + i_bits i)) as (He & Hoks & Hin & Hord). split; [lia|]. split; [by constructor|]. split.
  - intros q [->|Hq]%elem_of_cons; [unfold p_end; cbn; lia|]. apply Hin in Hq. lia.
  - intros [|m] [|n] q r Hlt Hq Hr; [lia| |lia|]; cbn [lookup list_lookup] in *.
    + injection Hq as <-. apply list_elem_of_lookup_2, Hin in Hr as [Hr _]. unfold p_end. cbn. lia.
    + apply (Hord m n q r); [lia|done|done].
Qed.

(** * Structures *)

Definition member_ind (P : ctype -> Prop) (m : member ctype) : Prop := match m with Field _ t => P t | _ => True end.
Lemma ctype_strong_ind (P : ctype -> Prop) :
  (forall s, P (Scalar s)) -> (forall t n, P t -> P (Array t n)) ->
  (forall ms, Forall (member_ind P) ms -> P (Struct ms)) -> (forall ts, Forall P ts -> P (Union ts)) -> forall t, P t.
Proof.
  intros Hs Ha Hst Hu. fix IH 1. intros [s|t n|ms|ts]; [apply Hs|apply Ha, IH|apply Hst|apply Hu].
  - induction ms as [|[name t|name s w] ms IHms]; constructor; cbn; auto.
  - induction ts as [|t ts IHts]; constructor; auto.
Qed.

Definition member_align (m : member ctype) : Z := match m with Field _ t => alignof t | Bits _ s _ => s end.
Lemma alignof_struct ms : alignof (Struct ms) = foldr (fun m a => Z.max (member_align m) a) 1 ms.
Proof. done. Qed.
Lemma sizeof_struct ms : sizeof (Struct ms) = round_up (extent (item_of <$> ms) 0) (8 * alignof (Struct ms)) / 8.
Proof. done. Qed.

Definition sound (t : ctype) : Prop := aligned (alignof t) /\ 0 <= sizeof t /\ (alignof t | sizeof t).

Lemma well_formed_struct ms : well_formed (Struct ms) = true ->
  Forall (fun m => match m with Field _ t => well_formed t = true | Bits _ s w => aligned s /\ 0 < w <= 8 * s end) ms.
Proof.
  cbn. rewrite forallb_forall. intros Hf. apply Forall_forall. intros [n t|n s w] Hm%list_elem_of_In; apply Hf in Hm; [done|].
  apply andb_true_iff in Hm as [[Hp Hw]%andb_true_iff Hs]. apply power_of_2_aligned in Hp. split; [exact Hp|lia].
Qed.

Lemma struct_sound ms :
  Forall (fun m => aligned (member_align m)) ms -> Forall item_ok (item_of <$> ms) ->
  sound (Struct ms) /\ extent (item_of <$> ms) 0 <= 8 * sizeof (Struct ms).
Proof.
  intros Ha Hi. unfold sound. rewrite sizeof_struct. set (a := alignof (Struct ms)).
  assert (aligned a) as Haa by (by apply (aligned_foldr member_align)). apply aligned_pos in Haa as Hpos.
  destruct (places_ok _ 0 Hi) as [He _]. destruct (round_up_spec (extent (item_of <$> ms) 0) (8 * a) ltac:(lia)) as [Hge [k Hk]].
  assert (round_up (extent (item_of <$> ms) 0) (8 * a) / 8 = k * a) as ->.
  { rewrite Hk. replace (k * (8 * a)) with (k * a * 8) by lia. apply Z.div_mul. lia. }
  split; [split; [done|]; split; [nia|by exists k]|lia].
Qed.

Lemma members_ok ms :
  Forall (member_ind (fun t => well_formed t = true -> sound t)) ms -> well_formed (Struct ms) = true ->
  Forall (fun m => aligned (member_align m)) ms /\ Forall item_ok (item_of <$> ms).
Proof.
  intros Hs Hwf%well_formed_struct.
  assert (forall m, m ∈ ms -> aligned (member_align m) /\ item_ok (item_of m)) as Hall.
  { intros m Hm. rewrite Forall_forall in Hs, Hwf. specialize (Hs m Hm). specialize (Hwf m Hm). destruct m as [n t|n s w]; cbn in *.
    - destruct (Hs Hwf) as (Ha & Hsz & _). apply aligned_pos in Ha as Hpos. split; [done|]. split; cbn; [lia|lia|done].
    - destruct Hwf as [Ha Hw]. apply aligned_pos in Ha as Hpos. split; [done|]. split; cbn; lia. }
  rewrite Forall_fmap, !Forall_forall. split; intros m Hm; by apply Hall.
Qed.

Lemma well_formed_sound t : well_formed t = true -> sound t.
Proof.
  induction t as [s|t n IH|ms IH|ts IH] using ctype_strong_ind; intros Hwf.
  - apply power_of_2_aligned in Hwf as Ha. apply aligned_pos in Ha as Hpos. split; [done|]. split; cbn; [lia|done].
  - destruct (IH Hwf) as (Ha & Hs & Hd). split; [done|]. split; cbn; [lia|]. by apply Z.divide_mul_r.
  - destruct (members_ok ms IH Hwf) as [Ha Hi]. by apply struct_sound.
  - cbn in Hwf. rewrite forallb_forall in Hwf.
    assert (Forall (fun t => aligned (alignof t)) ts) as Ha.
    { rewrite Forall_forall in *. intros t Ht. apply IH; [done|]. by apply Hwf, list_elem_of_In. }
    apply (aligned_foldr alignof) in Ha as [Ha _]. apply aligned_pos in Ha as Hpos.
    assert (0 <= foldr (fun t a => Z.max (sizeof t) a) 0 ts) as Hn by (clear; induction ts; cbn; lia).
    destruct (round_up_spec (foldr (fun t a => Z.max (sizeof t) a) 0 ts) _ Hpos) as [Hge Hd]. split; [exact Ha|].
    split; cbn; [lia|exact Hd].
Qed.

(** The members of a structure: placed as the ABI demands, in order, without overlaps, within its size *)
Record fits (t : ctype) : Prop := {
  fits_places : Forall place_ok (layout t);
  fits_sequence : in_sequence 0 (8 * sizeof t) (layout t);
  fits_array : (alignof t | sizeof t);   (* elements of arrays are aligned *)
}.
Lemma struct_fits ms : well_formed (Struct ms) = true -> fits (Struct ms).
Proof.
  intros Hwf. destruct (members_ok ms) as [Ha Hi]; [|done|].
  { apply Forall_forall. intros [n t|] _; cbn; [apply well_formed_sound|done]. }
  destruct (struct_sound ms Ha Hi) as [(_ & _ & Hd) He]. destruct (places_ok _ 0 Hi) as (_ & Hp & Hin & Hord).
  split; [exact Hp| |exact Hd]. split; [|exact Hord]. intros p Hp'. apply Hin in Hp'. lia.
Qed.
End LayoutProofs.
