(* ===== verification/GlibcProofs.v ===== *)
(** Theorems about the copies of GLIBC's structures (Glibc.v) and its tunables (Tunables.v), for all platforms
    (Version.v). *)
From Stdlib Require Import Ascii.
From Stdlib Require String.
From S2P Require Import Prelude Layout Version Tunables Glibc LayoutProofs.

Module GlibcProofs.
Import Layout Version Tunables Glibc LayoutProofs.

Lemma platforms_complete p : p ∈ platforms.
Proof. destruct p; apply (bool_decide_eq_true_1 _); vm_compute; reflexivity. Qed.

(** Facts about all platforms are computed. *)
Lemma for_all_platforms (f : platform -> bool) p : forallb f platforms = true -> f p = true.
Proof. rewrite forallb_forall. intros Hf. apply Hf, list_elem_of_In, platforms_complete. Qed.
Ltac by_platform f := apply (for_all_platforms f); vm_compute; reflexivity.

(** * Structures *)

Definition structures (p : platform) : list ctype := [link_map p; Global p; GlobalRO p; cpu_features p; link_namespaces p; tunable_type p].
Lemma structures_well_formed p : forallb well_formed (structures p) = true.
Proof. by_platform (fun p => forallb well_formed (structures p)). Qed.

(** What the static assertions of version.cpp and tunable.cpp say *)
Definition assertions (p : platform) : Prop :=
  let d := defined p in
  sizeof (link_map p) = GLIBC_LINK_MAP_SIZE d
  /\ sizeof (Global p) = GLIBC_RTLD_GLOBAL_SIZE d
  /\ sizeof (GlobalRO p) = GLIBC_RTLD_GLOBAL_RO_SIZE d
  /\ Z.of_nat (length (tunables p)) = GLIBC_TUNABLE_COUNT d
  /\ Z.of_nat (length (tunables p)) * sizeof (tunable_type p) = GLIBC_TUNABLE_SIZE d.
Lemma assertions_hold p : assertions p.
Proof. destruct p; repeat split; vm_compute; reflexivity. Qed.

(** The part of a link_map a debugger knows (struct link_map of <link.h>) *)
Definition debugger_prefix : list (string * Z) :=
  [("l_addr", 0); ("l_name", 8); ("l_ld", 16); ("l_next", 24); ("l_prev", 32)].
Lemma prefix_offsets p : Forall (fun f => offsetof (link_map p) f.1 = Some f.2) debugger_prefix.
Proof. destruct p; repeat constructor; vm_compute; reflexivity. Qed.

(** C31: The copies of GLIBC's structures have the layout programs expect.  On every supported platform the
    members of each structure are aligned as the ABI demands, follow each other without overlaps and lie within the structure;
    bit-fields do not cross the storage unit of their type; the sizes of link_map, _rtld_global, _rtld_global_ro and the list of
    tunables are those of the version of GLIBC; and the first members of link_map are where debuggers look for them. *)
Theorem glibc_structures_fit p :
  Forall fits (structures p) /\ assertions p
  /\ Forall (fun f => offsetof (link_map p) f.1 = Some f.2) debugger_prefix.
Proof.
  split; [|split; [apply assertions_hold|apply prefix_offsets]].
  pose proof (structures_well_formed p) as Hwf. rewrite forallb_forall in Hwf.
  apply Forall_forall. intros t Ht. specialize (Hwf t ltac:(by apply list_elem_of_In)).
  repeat (apply elem_of_cons in Ht as [->|Ht]; [by apply struct_fits|]). by apply not_elem_of_nil in Ht.
Qed.

(** * Tunables *)

Lemma tunables_known p : forallb (fun t => negb (initialized t)) (tunables p) = true.
Proof. by_platform (fun p => forallb (fun t => negb (initialized t)) (tunables p)). Qed.
Lemma tunable_not_initialized p id t : tunables p !! id = Some t -> initialized t = false.
Proof.
  intros Ht. pose proof (tunables_known p) as Hk. rewrite forallb_forall in Hk.
  apply negb_true_iff, Hk, list_elem_of_In, list_elem_of_lookup_2 with id, Ht.
Qed.

(** The names of the tunables, and that they are terminated where they are arrays of the structure *)
Definition names_ok (p : platform) : bool :=
  bool_decide (NoDup (name <$> tunables p))
  && forallb (fun t =>
       let whole n s := bool_decide (copy_chars n (String.list_ascii_of_string s) = String.list_ascii_of_string s ++ [zero]) in
       whole name_size (name t) && match env_alias t with Some s => whole alias_size s | None => true end) (tunables p).
Lemma tunable_names p : names_ok p = true.
Proof. by_platform names_ok. Qed.

(** The bytes the code stores for a tunable *)
Definition width (t : Tunable) : nat := match type_code t with TUNABLE_TYPE_INT_32 => 4 | _ => 8 end.

Lemma get_val_Ok p id t valp callback m :
  tunables p !! id = Some t ->
  get_val p id valp callback m = Ok (None, wr m valp (le_bytes (width t) (if decide (width t = 4%nat) then s32 (val t) else w64 (val t)))).
Proof.
  intros Ht. unfold get_val. rewrite Ht. unfold mbind, M_bind, modify, mret, M_ret. rewrite (tunable_not_initialized _ _ _ Ht).
  unfold width. by destruct (type_code t).
Qed.

(** GLIBC reads the defaults of its tunables.  For an identifier of the enumeration, __tunable_get_val stores the default value in
    the width of the tunable's type, changes no other byte, and never calls the callback (no tunable is
    initialized from the environment); other identifiers fail the assertion.  The names are distinct, and
    complete with their terminator where they are part of the structure. *)
Theorem tunable_get_val p id valp callback m :
  names_ok p = true
  /\ match tunables p !! id with
     | None => get_val p id valp callback m = AssertFailed
     | Some t => exists m', get_val p id valp callback m = Ok (None, m')
         /\ le_combine (rds m' valp (width t)) = val t mod 2 ^ (8 * Z.of_nat (width t))
         /\ (forall a, a < valp \/ valp + Z.of_nat (width t) <= a -> rd m' a = rd m a)
     end.
Proof.
  split; [apply tunable_names|]. destruct (tunables p !! id) as [t|] eqn:Ht.
  2: { unfold get_val. by rewrite Ht. }
  eexists. split; [by apply get_val_Ok|]. split.
  - set (bs := le_bytes _ _). assert (length bs = width t) as Hl by apply le_bytes_length. rewrite <- Hl at 1. rewrite rds_wr.
    unfold bs. rewrite le_combine_bytes. unfold width, w64. destruct (type_code t).
    2-4: rewrite decide_False by done; change (8 * Z.of_nat 8) with 64; by apply Z.mod_mod.
    rewrite decide_True by done. destruct (s32_cong (val t)) as [k ->]. change (8 * Z.of_nat 4) with 32. by rewrite Z.mod_add.
  - intros a Ha. apply rd_wr_out. by rewrite le_bytes_length.
Qed.
End GlibcProofs.
