(* ===== verification/PatchProofs.v ===== *)
(** Theorems about the patches of GLIBC's code (Patch.v): what the processor does at a patched function, and that
    nothing else is changed. *)
From S2P Require Import Prelude Platform X86 Symbol CodeStore Version Patch RedirectProofs.

Module PatchProofs.
Import X86 Version Patch.

(** * The processor *)

(** Execution from a function's entry through no-operations to a jump; [n] is the number of instructions at most. *)
Fixpoint slide (n : nat) (f : Z -> Z) (rip : Z) : option Z :=
  match n with
  | O => None
  | Datatypes.S n => if f rip =? 0x90 then slide n f (rip + 1) else exec_jump f rip
  end.
Definition enter (n : nat) (f : Z -> Z) (rip : Z) : option Z :=
  if is_endbr64 f rip then slide n f (rip + 4) else slide n f rip.

(** movabs imm, %rax; callq *%rax: the target of the call and the return address *)
Definition call_rax (f : Z -> Z) (rip : Z) : option (Z * Z) :=
  if (f rip =? 0x48) && (f (rip + 1) =? 0xb8) && (f (rip + 10) =? 0xff) && (f (rip + 11) =? 0xd0) then
    Some (load_le f (rip + 2) 8, rip + 12)
  else None.
(** A no-operation of seven bytes: nopl disp32(%rax) *)
Definition long_nop (f : Z -> Z) (rip : Z) : bool := (f rip =? 0x0f) && (f (rip + 1) =? 0x1f) && (f (rip + 2) =? 0x80).

Lemma slide_nops n k f rip :
  (forall i, (i < n)%nat -> f (rip + Z.of_nat i) = 0x90) -> slide (n + k) f rip = slide k f (rip + Z.of_nat n).
Proof.
  revert rip; induction n as [|n IH]; intros rip Hn; cbn [slide Nat.add]; [by rewrite Z.add_0_r|].
  pose proof (Hn 0%nat ltac:(lia)) as H0. rewrite Z.add_0_r in H0. rewrite H0, Z.eqb_refl, IH.
  - f_equal. lia.
  - intros i Hi. replace (rip + 1 + Z.of_nat i) with (rip + Z.of_nat (Datatypes.S i)) by lia. apply Hn. lia.
Qed.

Lemma slide_no_endbr n f rip t : slide n f rip = Some t -> is_endbr64 f rip = false.
Proof.
  destruct n as [|n]; cbn [slide]; [done|]. unfold is_endbr64, exec_jump. intros Hs.
  destruct (Z.eqb_spec (f rip) 0xf3) as [He|]; [|done]. rewrite He in Hs. done.
Qed.

(** * Searching *)

Definition code_at (f : Z -> Z) (a : Z) (code : list Z) : bool :=
  forallb (fun i => f (a + Z.of_nat i) =? nth i code 0) (seq 0 (length code)).
Fixpoint search (f : Z -> Z) (code : list Z) (n : nat) (a : Z) : option Z :=
  match n with
  | O => None
  | Datatypes.S n => if code_at f a code then Some a else search f code n (a + 1)
  end.

Lemma code_at_reads f a code : code_at f a code = true <-> reads f a code.
Proof.
  unfold code_at, reads. rewrite forallb_forall. split.
  - intros Hf i b Hi. apply lookup_lt_Some in Hi as Hl. specialize (Hf i). rewrite in_seq in Hf. specialize (Hf ltac:(lia)).
    apply Z.eqb_eq in Hf. rewrite Hf. by apply nth_lookup_Some with (d := 0) in Hi.
  - intros Hr i Hi%in_seq. apply Z.eqb_eq. destruct (lookup_lt_is_Some_2 code i ltac:(lia)) as [b Hb].
    rewrite (Hr i b Hb). symmetry. by apply nth_lookup_Some with (d := 0) in Hb.
Qed.
Lemma code_at_ext f g a b code :
  (forall i, (i < length code)%nat -> f (a + Z.of_nat i) = g (b + Z.of_nat i)) -> code_at f a code = code_at g b code.
Proof.
  intros He. unfold code_at. apply eq_iff_eq_true. rewrite !forallb_forall. split; intros Hf i Hi; specialize (Hf i Hi);
    apply in_seq in Hi; [rewrite <- He by lia|rewrite He by lia]; exact Hf.
Qed.
Lemma search_ext f g code n a b :
  (forall i, (i < n + length code)%nat -> f (a + Z.of_nat i) = g (b + Z.of_nat i)) ->
  search f code n a = (fun x => x - b + a) <$> search g code n b.
Proof.
  revert a b; induction n as [|n IH]; intros a b He; cbn [search]; [done|].
  rewrite (code_at_ext f g a b code) by (intros i Hi; apply He; lia). destruct (code_at g b code); cbn; [f_equal; lia|].
  rewrite (IH (a + 1) (b + 1)).
  - destruct (search g code n (b + 1)); cbn; [f_equal; lia|done].
  - intros i Hi. rewrite <- !Z.add_assoc. replace (1 + Z.of_nat i) with (Z.of_nat (Datatypes.S i)) by lia. apply He. lia.
Qed.
(** The first place *)
Definition first_place (f : Z -> Z) (code : list Z) (n : nat) (a b : Z) : Prop :=
  a <= b < a + Z.of_nat n /\ reads f b code /\ forall c, a <= c < b -> ~ reads f c code.
Lemma search_spec f code n a :
  match search f code n a with
  | Some b => first_place f code n a b
  | None => forall c, a <= c < a + Z.of_nat n -> ~ reads f c code
  end.
Proof.
  revert a; induction n as [|n IH]; intros a; cbn [search]; [intros; lia|].
  destruct (code_at f a code) eqn:Hc.
  - split; [lia|]. split; [by apply code_at_reads|intros; lia].
  - assert (~ reads f a code) as Hn by (intros Hr%code_at_reads; congruence).
    specialize (IH (a + 1)). destruct (search f code n (a + 1)) as [b|].
    + destruct IH as (Hb & Hr & Hf). split; [lia|]. split; [done|]. intros c Hc'.
      destruct (decide (c = a)) as [->|]; [done|]. apply Hf. lia.
    + intros c Hc'. destruct (decide (c = a)) as [->|]; [done|]. apply IH. lia.
Qed.

(** * The code written *)

Lemma jump_code_length arg : length (jump_code arg) = 14%nat.
Proof. unfold jump_code. by rewrite length_app, le_bytes_length. Qed.
Lemma jump_code_exec f a arg : is_u64 arg -> 0 <= a -> a + 14 < 2^64 -> reads f a (jump_code arg) -> exec_jump f a = Some arg /\ f a <> 0x90.
Proof.
  intros Harg Ha Hb. unfold jump_code. change ([0xff; 0x25; 0; 0; 0; 0] ++ le_bytes 8 arg) with (jmp_mem 0 ++ le_bytes 8 arg).
  intros [Hj Hl]%reads_app. change (Z.of_nat (length (jmp_mem 0))) with 6 in Hl. apply load_le_64 in Hl.
  apply exec_jump_mem in Hj as [H0 ->]. split; [|by rewrite H0]. change (s32 0) with 0.
  rewrite Z.add_0_r, (w64_small (a + 6)) by (unfold is_u64; lia). rewrite Hl. by rewrite w64_small.
Qed.
Lemma call_code_length glibc arg : length (call_code glibc arg) = length (fork_syscall glibc).
Proof. unfold call_code, fork_syscall. rewrite !length_app, le_bytes_length. by destruct (GLIBC_2_34 <=? glibc). Qed.
(** The call, and that execution continues behind the code it replaced *)
Definition calls (glibc : Z) (f : Z -> Z) (a target : Z) : Prop :=
  exists ret, call_rax f a = Some (target, ret)
    /\ if GLIBC_2_34 <=? glibc then long_nop f ret = true /\ ret + 7 = a + Z.of_nat (length (fork_syscall glibc))
       else ret = a + Z.of_nat (length (fork_syscall glibc)).
Lemma call_code_exec glibc f a arg : is_u64 arg -> reads f a (call_code glibc arg) -> calls glibc f a arg.
Proof.
  intros Harg. unfold call_code. intros [H1 [H2 [H3 H4]%reads_app]%reads_app]%reads_app.
  change (Z.of_nat (length [0x48; 0xb8])) with 2 in *. rewrite le_bytes_length in *. change (Z.of_nat 8) with 8 in *.
  change (Z.of_nat (length [0xff; 0xd0])) with 2 in *. apply load_le_64 in H2. rewrite (w64_small arg Harg) in H2.
  apply reads_cons in H1 as [H10 [H11 _]%reads_cons]. apply reads_cons in H3 as [H30 [H31 _]%reads_cons].
  replace (a + 2 + 8) with (a + 10) in * by lia. replace (a + 10 + 1) with (a + 11) in * by lia.
  replace (a + 10 + 2) with (a + 12) in * by lia.
  exists (a + 12). split; [unfold call_rax; by rewrite H10, H11, H30, H31, H2|].
  unfold fork_syscall. destruct (GLIBC_2_34 <=? glibc); [|cbn; lia].
  apply reads_cons in H4 as [H40 [H41 [H42 _]%reads_cons]%reads_cons].
  replace (a + 12 + 1 + 1) with (a + 12 + 2) in * by lia. unfold long_nop. rewrite H40, H41, H42. cbn. split; [done|lia].
Qed.

(** * Patches in the code of an object *)

Section patch.
Context {S : Type} `{CodeStoreSpec S} `{Symbol.StringOps}.
Context (glibc : Z).

(** The [n] bytes from an address on are in one segment of the object, if the address is. *)
Definition within (s : S) (object a : Z) (n : nat) : Prop :=
  forall g, in_segment s object g a -> forall i, (i < n)%nat -> in_segment s object g (a + Z.of_nat i).

(** Storing bytes at a distance from the composed address *)
Lemma store_at s o g a p k bs s' :
  store_ok s -> composed s o g a p -> 0 <= k -> within s o a (Z.to_nat k + length bs) -> in_segment s o g a ->
  s' = store_bytes (p + k) bs s ->
  store_ok s' /\ composed s' o g a p
  /\ (forall x, pending s' x = if decide (a + k <= x < a + k + Z.of_nat (length bs))
                               then nth (Z.to_nat (x - (a + k))) bs 0 else pending s x)
  /\ (forall o' g' x, in_segment s' o' g' x <-> in_segment s o' g' x).
Proof.
  intros Hok Hc Hk Hw Hin ->. apply store_bytes_spec_from; [done..|]. intros i Hi.
  replace (a + k + Z.of_nat i) with (a + Z.of_nat (Z.to_nat k + i)) by lia. apply Hw; [done|lia].
Qed.
Lemma pending_reads s s' a k bs :
  (forall x, pending s' x = if decide (a + k <= x < a + k + Z.of_nat (length bs)) then nth (Z.to_nat (x - (a + k))) bs 0 else pending s x) ->
  reads (pending s') (a + k) bs.
Proof.
  intros Hp i b Hi. apply lookup_lt_Some in Hi as Hl. rewrite Hp, decide_True by lia.
  replace (Z.to_nat (a + k + Z.of_nat i - (a + k))) with i by lia. by apply nth_lookup_Some with (d := 0) in Hi.
Qed.

(** The entry Patch::apply looks at: where the code after an endbr64 starts *)
Definition skip (f : Z -> Z) (a : Z) : Z := if code_at f a endbr64 then 4 else 0.

Lemma skip_endbr f a : is_endbr64 f a = code_at f a endbr64.
Proof.
  unfold is_endbr64, code_at, endbr64. cbn. rewrite Z.add_0_r, andb_true_r. by rewrite !andb_assoc.
Qed.

(** What is common to all patches: [apply] composes the code and calls the function behind an endbr64. *)
Lemma apply_inv (p : Patch) o base address size s r s' (a := w64 (base + address)) :
  store_ok s -> apply p o base address size s = Ok (r, s') -> within s o a 4 -> is_u64 size ->
  (r = false /\ (forall x, pending s' x = pending s x)
   /\ (valid p = true -> exists s2, compose_pointer o a s = Ok (None, s2)))
  \/ exists s1 g q, store_ok s1 /\ composed s1 o g a q /\ in_segment s1 o g a
       /\ (forall x, pending s1 x = pending s x) /\ (forall o' g' x, in_segment s1 o' g' x <-> in_segment s o' g' x)
       /\ func p (q + skip (pending s) a) (w64 (size - skip (pending s) a)) (arg p) s1 = Ok (r, s').
Proof.
  intros Hok Hr Hw Hsize. unfold apply in Hr. destruct (valid p); cbn [negb] in Hr.
  2: { apply Ok_inj in Hr as [<- <-]. by left. }
  apply bind_Ok in Hr as (c & s1 & Hc & Hr). destruct (compose_pointer_spec _ _ _ _ _ Hok Hc) as (Hok1 & Hp1 & Hi1 & Hcomp).
  destruct c as [[q g]|]. 2: { apply Ok_inj in Hr as [<- <-]. left. split_and!; eauto. }
  destruct Hcomp as [Hcomp Hin]. right. exists s1, g, q. split_and!; [done..|]. apply bind_Ok in Hr as (? & ? & Hg & Hr).
  apply Ok_inj in Hg as [<- <-].
  assert (matches s1 q endbr64 = code_at (pending s) a endbr64) as Hm.
  { apply code_at_ext. intros i Hi. rewrite <- Hp1. apply (composed_load s1 o g a q); [done|done|lia|]. apply Hi1, Hw; [|exact Hi].
    by apply Hi1. }
  rewrite Hm in Hr. unfold skip in *. destruct (code_at (pending s) a endbr64); [exact Hr|].
  by rewrite Z.add_0_r, Z.sub_0_r, w64_small.
Qed.

Lemma within_same (s s' : S) o a n n' :
  (forall o' g' x, in_segment s' o' g' x <-> in_segment s o' g' x) -> within s o a n -> (n' <= n)%nat -> within s' o a n'.
Proof. intros Hi Hw Hn g Hg i Hl. apply Hi, Hw; [by apply Hi|lia]. Qed.

(** [s'] has the code [bs] at a distance [k] from [a] *)
Definition changed (s s' : S) (from to : Z) : Prop := forall x, ~ (from <= x < to) -> pending s' x = pending s x.

Lemma nops_jmp_spec s1 s' o g a q k size arg r :
  store_ok s1 -> composed s1 o g a q -> in_segment s1 o g a -> 0 <= k <= size ->
  within s1 o a (Z.to_nat size) -> nops_jmp (q + k) (size - k) arg s1 = Ok (r, s') ->
  changed s1 s' (a + k) (a + size)
  /\ if r then 14 <= size - k /\ (forall i, (i < Z.to_nat (size - k - 14))%nat -> pending s' (a + k + Z.of_nat i) = 0x90)
               /\ reads (pending s') (a + (size - 14)) (jump_code arg)
     else forall x, pending s' x = pending s1 x.
Proof.
  intros Hok Hc Hin Hk Hw Hr. unfold nops_jmp in Hr. destruct (Z.ltb_spec (size - k) 14) as [Hlt|Hge].
  { apply Ok_inj in Hr as [<- <-]. by split. }
  set (nops := replicate (Z.to_nat (size - k - 14)) 0x90) in Hr. assert (length nops = Z.to_nat (size - k - 14)) as Hln by apply length_replicate.
  apply bind_Ok in Hr as ([] & s2 & H2 & Hr). apply Ok_inv in H2 as [_ H2].
  apply bind_Ok in Hr as ([] & s3 & H3 & Hr). apply Ok_inv in H3 as [_ H3]. apply Ok_inj in Hr as [<- <-].
  destruct (store_at _ _ _ _ _ k nops _ Hok Hc ltac:(lia) ltac:(eapply within_same; [done|exact Hw|lia]) Hin H2) as (Hok2 & Hc2 & Hp2 & Hi2).
  pose proof (jump_code_length arg) as Hlj.
  replace (q + k + (size - k - 14)) with (q + (size - 14)) in H3 by lia.
  destruct (store_at _ _ _ _ _ (size - 14) (jump_code arg) _ Hok2 Hc2 ltac:(lia) ltac:(eapply within_same; [exact Hi2|exact Hw|lia])
              ltac:(by apply Hi2) H3) as (Hok3 & Hc3 & Hp3 & Hi3).
  split; [|split; [lia|split]].
  - intros x Hx. rewrite Hp3, Hlj, decide_False, Hp2, Hln, decide_False by lia. done.
  - intros i Hi. rewrite Hp3, Hlj, decide_False, Hp2, Hln, decide_True by lia.
    replace (Z.to_nat (a + k + Z.of_nat i - (a + k))) with i by lia. by apply nth_lookup_Some, lookup_replicate_2.
  - exact (pending_reads _ _ _ _ _ Hp3).
Qed.

(** C14: A function of GLIBC that is patched is the loader's function.  When applying a patch to a function of [size] bytes succeeds, the
    processor that enters the function reaches the replacement, through the endbr64 of the function if it has one and
    no-operations; a patch that does not fit leaves the code alone; in either case no byte outside
    of the function, nor its endbr64, is changed.  The exception are sizes below that of the endbr64 the
    code begins with: the rest of the function then counts as 2^64 - 4 + size bytes, which the patch considers
    large enough, and it reports success after overwriting as many. *)
Theorem nops_patch_redirects (p : Patch) o base address size s r s' (a := w64 (base + address)) :
  store_ok s -> func p = nops_jmp -> is_u64 (arg p) -> is_u64 size -> a + size + 14 < 2^64 ->
  within s o a (Nat.max 4 (Z.to_nat size)) -> apply p o base address size s = Ok (r, s') ->
  if decide (skip (pending s) a <= size) then
    changed s s' (a + skip (pending s) a) (a + size)
    /\ if r then enter (Z.to_nat size) (pending s') a = Some (arg p) else forall x, pending s' x = pending s x
  else
    (r = false /\ forall x, pending s' x = pending s x)
    \/ exists s1 g q, composed s1 o g a q /\ (forall x, pending s1 x = pending s x)
         /\ nops_jmp (q + 4) (2^64 - 4 + size) (arg p) s1 = Ok (r, s') /\ r = true.
Proof.
  intros Hok Hf Harg Hu Htop Hw Hr. pose proof (w64_range (base + address)) as Ha. change (is_u64 a) in Ha. unfold is_u64 in Ha, Hu.
  set (k := skip (pending s) a) in *. assert (k = 0 \/ k = 4) as Hk4 by (unfold k, skip; destruct (code_at _ _ _); auto).
  assert (0 <= k <= 4) as Hk by lia.
  destruct (apply_inv p o base address size s r s' Hok Hr) as [(-> & Hs & _)|(s1 & g & q & Hok1 & Hc1 & Hin1 & Hp1 & Hi1 & Hr1)].
  { eapply within_same; [done|exact Hw|lia]. }
  { exact Hu. }
  { case_decide; [|by left]. split; [intros x _; apply Hs|exact Hs]. }
  change (func p (q + k) (w64 (size - k)) (arg p) s1 = Ok (r, s')) in Hr1. rewrite Hf in Hr1. fold a in Hc1, Hin1.
  case_decide as Hsize.
  2: { right. exists s1, g, q. split; [done|]. split; [done|]. assert (k = 4) as Hk' by lia. rewrite Hk' in *.
       assert (w64 (size - 4) = 2^64 - 4 + size) as Hwrap.
       { unfold w64. rewrite <- (Z.mod_small (2^64 - 4 + size) (2^64)) by lia. rewrite <- (Z_mod_plus_full (size - 4) 1). f_equal. lia. }
       rewrite Hwrap in Hr1. split; [exact Hr1|]. unfold nops_jmp in Hr1. rewrite (proj2 (Z.ltb_ge _ _)) in Hr1 by lia.
       apply bind_Ok in Hr1 as (? & ? & _ & Hr1). by apply bind_Ok in Hr1 as (? & ? & _ & [<- _]%Ok_inj). }
  rewrite w64_small in Hr1 by (unfold is_u64; lia).
  destruct (nops_jmp_spec s1 s' o g a q k size (arg p) r Hok1 Hc1 Hin1 ltac:(lia)
              ltac:(eapply within_same; [exact Hi1|exact Hw|lia]) Hr1) as [Hch Hres].
  split; [intros x Hx; rewrite (Hch x Hx); apply Hp1|]. destruct r; [|intros x; by rewrite Hres].
  destruct Hres as (Hge & Hn & Hj). apply jump_code_exec in Hj as [Hj Hne]; [|done|lia|lia].
  assert (slide (Z.to_nat size) (pending s') (a + k) = Some (arg p)) as Hsl.
  { replace (Z.to_nat size) with (Z.to_nat (size - k - 14) + Datatypes.S (Z.to_nat (k + 13)))%nat by lia.
    rewrite slide_nops by exact Hn. replace (a + k + Z.of_nat (Z.to_nat (size - k - 14))) with (a + (size - 14)) by lia.
    cbn [slide]. by rewrite (proj2 (Z.eqb_neq _ _) Hne). }
  unfold enter. rewrite skip_endbr. unfold k, skip in *.
  destruct (code_at (pending s) a endbr64) eqn:He.
  - assert (code_at (pending s') a endbr64 = true) as ->; [|exact Hsl].
    rewrite <- He. apply code_at_ext. intros i Hi. change (length endbr64) with 4%nat in Hi.
    rewrite (Hch (a + Z.of_nat i)) by lia. apply Hp1.
  - rewrite Z.add_0_r in Hsl. rewrite <- skip_endbr, (slide_no_endbr _ _ _ _ Hsl). exact Hsl.
Qed.

Lemma find_code_search (s : S) code n a : find_code s code n a = search (load s) code n a.
Proof. revert a; induction n as [|n IH]; intros a; [done|]. cbn [find_code search]. by rewrite IH. Qed.
Lemma redirect_fork_spec s1 s' o g a q k size arg r :
  store_ok s1 -> composed s1 o g a q -> in_segment s1 o g a -> 0 <= k <= size ->
  within s1 o a (Z.to_nat size + length (fork_syscall glibc)) -> redirect_fork_syscall glibc (q + k) (size - k) arg s1 = Ok (r, s') ->
  match search (pending s1) (fork_syscall glibc) (Z.to_nat (size - k)) (a + k) with
  | Some b => r = true /\ changed s1 s' b (b + Z.of_nat (length (fork_syscall glibc))) /\ reads (pending s') b (call_code glibc arg)
  | None => r = false /\ s' = s1
  end.
Proof.
  intros Hok Hc Hin Hk Hw Hr. unfold redirect_fork_syscall in Hr. apply bind_Ok in Hr as (s & s0 & Hg & Hr). apply Ok_inj in Hg as [<- <-].
  rewrite find_code_search, (search_ext (load s1) (pending s1) (fork_syscall glibc) _ (q + k) (a + k)) in Hr.
  2: { intros i Hi. rewrite <- !Z.add_assoc. apply (composed_load s1 o g a q); [done|done|lia|].
       replace (a + (k + Z.of_nat i)) with (a + Z.of_nat (Z.to_nat k + i)) by lia. apply Hw; [done|lia]. }
  pose proof (search_spec (pending s1) (fork_syscall glibc) (Z.to_nat (size - k)) (a + k)) as Hs.
  destruct (search (pending s1) _ _ _) as [b|]; cbn in Hr; [|by apply Ok_inj in Hr as [<- <-]].
  destruct Hs as (Hb & _ & _). apply bind_Ok in Hr as ([] & s2 & H2 & Hr). apply Ok_inv in H2 as [_ H2]. apply Ok_inj in Hr as [<- <-].
  replace (b - (a + k) + (q + k)) with (q + (b - a)) in H2 by lia. pose proof (call_code_length glibc arg) as Hl.
  destruct (store_at _ _ _ _ _ (b - a) (call_code glibc arg) _ Hok Hc ltac:(lia)
              ltac:(eapply within_same; [done|exact Hw|lia]) Hin H2) as (_ & _ & Hp & _).
  replace (a + (b - a)) with b in Hp by lia. split; [done|]. split.
  - intros x Hx. rewrite Hp, Hl, decide_False by lia. done.
  - replace b with (b + 0) by lia. apply (pending_reads s1 s2 b 0). by rewrite Z.add_0_r.
Qed.

(** C13: The fork system call of GLIBC becomes a call of the loader.  When the patch succeeds, exactly the first place in the function where
    the instructions of the system call stand is replaced, by a call of the replacement that continues behind them;
    when it does not, the code is as before, and the function has no such place (unless its code could not be
    composed). *)
Theorem fork_patch_redirects (p : Patch) o base address size s r s' (a := w64 (base + address)) (k := skip (pending s) a) :
  store_ok s -> func p = redirect_fork_syscall glibc -> valid p = true -> is_u64 (arg p) -> k <= size < 2^64 ->
  within s o a (Nat.max 4 (Z.to_nat size + length (fork_syscall glibc))) -> apply p o base address size s = Ok (r, s') ->
  if r then
    exists b, first_place (pending s) (fork_syscall glibc) (Z.to_nat (size - k)) (a + k) b
      /\ changed s s' b (b + Z.of_nat (length (fork_syscall glibc))) /\ calls glibc (pending s') b (arg p)
  else
    (forall x, pending s' x = pending s x)
    /\ ((exists s2, compose_pointer o a s = Ok (None, s2))
        \/ forall c, a + k <= c < a + size -> ~ reads (pending s) c (fork_syscall glibc)).
Proof.
  intros Hok Hf Hv Harg Hsize Hw Hr. assert (0 <= k <= 4) as Hk by (unfold k, skip; destruct (code_at _ _ _); lia).
  destruct (apply_inv p o base address size s r s' Hok Hr) as [(-> & Hs & Hn)|(s1 & g & q & Hok1 & Hc1 & Hin1 & Hp1 & Hi1 & Hr1)];
    [eapply within_same; [done|exact Hw|lia]|unfold is_u64; lia|split; [exact Hs|left; by apply Hn]|].
  change (func p (q + k) (w64 (size - k)) (arg p) s1 = Ok (r, s')) in Hr1.
  rewrite w64_small in Hr1 by (unfold is_u64; lia). rewrite Hf in Hr1. fold a in Hc1, Hin1.
  pose proof (redirect_fork_spec s1 s' o g a q k size (arg p) r Hok1 Hc1 Hin1 ltac:(lia)
                ltac:(eapply within_same; [exact Hi1|exact Hw|lia]) Hr1) as Hres.
  pose proof (search_spec (pending s1) (fork_syscall glibc) (Z.to_nat (size - k)) (a + k)) as Hs.
  destruct (search (pending s1) _ _ _) as [b|].
  - destruct Hres as (-> & Hch & Hrd), Hs as (Hb & Hrb & Hfirst). exists b. split_and!.
    + split; [exact Hb|]. split; [intros i x Hi; rewrite <- Hp1; by apply Hrb|].
      intros c Hc Hrc. apply (Hfirst c Hc). intros i x Hi. rewrite Hp1. by apply Hrc.
    + intros x Hx. rewrite (Hch x Hx). apply Hp1.
    + by apply call_code_exec.
  - destruct Hres as [-> ->]. split; [exact Hp1|]. right. intros c Hc Hrc. apply (Hs c); [lia|]. intros i x Hi. rewrite Hp1. by apply Hrc.
Qed.
End patch.
(** * Examples: a function with an endbr64, and one with the fork system call, in an object at 0x1000 *)

Definition ex_function : memory := wr ∅ 0x1000 (endbr64 ++ replicate 20 0xc3).
Definition ex_dl_addr : @Patch memory := MkPatch (Some "_dl_addr"%string) (@nops_jmp memory RedirectProofs.flat_store) 0x5000.
Definition ex_patched : memory := match @apply _ RedirectProofs.flat_store ex_dl_addr 1 0x1000 0 24 ex_function with Ok (_, m) => m | _ => ∅ end.
Lemma nops_patch_redirects_witness :
  enter 24 (fun x => rd ex_patched x) 0x1000 = Some 0x5000 /\ rd ex_patched 0x1000 = 0xf3.
Proof.
  pose proof (@nops_patch_redirects memory RedirectProofs.flat_store RedirectProofs.flat_store_spec ex_dl_addr 1 0x1000 0 24 ex_function true ex_patched
    I eq_refl ltac:(vm_compute; split; congruence) ltac:(vm_compute; split; congruence) ltac:(vm_compute; reflexivity)
    ltac:(intros g _ i _; exact I) ltac:(vm_compute; reflexivity)) as Hp.
  rewrite decide_True in Hp by (vm_compute; congruence). destruct Hp as [Hc He].
  split; [exact He|]. etransitivity; [apply (Hc 0x1000)|reflexivity]. vm_compute. intros [Hx _]. by apply Hx.
Defined.

Definition ex_fork : memory := wr ∅ 0x1000 ([0x90; 0x90] ++ fork_syscall 236 ++ [0xc3]).
Definition ex_fork_patch : @Patch memory := MkPatch (Some "_Fork"%string) (@redirect_fork_syscall memory RedirectProofs.flat_store 236) 0x5000.
Definition ex_fork_patched : memory := match @apply _ RedirectProofs.flat_store ex_fork_patch 1 0x1000 0 22 ex_fork with Ok (_, m) => m | _ => ∅ end.
Lemma fork_patch_redirects_witness : exists b, calls 236 (fun x => rd ex_fork_patched x) b 0x5000.
Proof.
  destruct (@fork_patch_redirects memory RedirectProofs.flat_store RedirectProofs.flat_store_spec 236 ex_fork_patch 1 0x1000 0 22 ex_fork true ex_fork_patched) as (b & _ & _ & Hc).
  - exact I.
  - reflexivity.
  - reflexivity.
  - vm_compute. split; congruence.
  - vm_compute. split; congruence.
  - intros g _ i _. exact I.
  - vm_compute. reflexivity.
  - exists b. exact Hc.
Defined.
End PatchProofs.
