(* ===== verification/ForkProofs.v ===== *)
(** Theorems about forking (Fork.v): parent and child do not share the memory files of data segments, and the
    assembler keeps the registers of the caller. *)
From S2P Require Import Prelude Platform X86 Segment Symbol World Object Process Identity Loader DlResolve Fork Samples SegmentProofs WorldProofs FrameProofs DlResolveProofs.

Module ForkProofs.
Import World Object Loader Fork WorldProofs FrameProofs.

(** * File descriptors of memory files *)

(** The memory files a history leaves open *)
Definition live_fds (tr : list event) : gset Z :=
  foldl (fun fds e =>
    match e with
    | Ev_sys (Sys_memfd_create _ _) (Success v) => {[v]} ∪ fds
    | Ev_sys (Sys_close fd) _ => fds ∖ {[fd]}
    | _ => fds
    end) ∅ tr.
(** The kernel gives new files a descriptor that is not in use. *)
Definition memfd_fresh (kernel : kernel_t) : Prop :=
  forall tr n f v, kernel tr (Sys_memfd_create n f) = Success v -> v ∉ live_fds tr.

Lemma live_fds_app tr e : live_fds (tr ++ [e]) =
  match e with
  | Ev_sys (Sys_memfd_create _ _) (Success v) => {[v]} ∪ live_fds tr
  | Ev_sys (Sys_close fd) _ => live_fds tr ∖ {[fd]}
  | _ => live_fds tr
  end.
Proof. unfold live_fds. by rewrite foldl_app. Qed.

(** * Operations of a segment *)

Section segment.
Context `{DlhMath} (hex : Z -> string) (kernel : kernel_t).

(** A computation that neither changes the segment nor opens or closes memory files *)
Definition silent {A} (m : M (traced segment) A) : Prop :=
  forall t a t', m t = Ok (a, t') -> t_state t' = t_state t /\ live_fds (t_trace t') = live_fds (t_trace t).
Lemma silent_bind {A B} (m : M (traced segment) A) (f : A -> M (traced segment) B) :
  silent m -> (forall a, silent (f a)) -> silent (m ≫= f).
Proof. intros Hm Hf t b t'' (a & t' & [H1 H2]%Hm & [H3 H4]%Hf)%bind_Ok. split; congruence. Qed.
Lemma silent_ret {A} (a : A) : silent (mret a).
Proof. by intros t b t' [_ <-]%Ok_inj. Qed.
Lemma silent_sys c :
  match c with Sys_memfd_create _ _ | Sys_close _ => False | _ => True end -> silent (sys kernel c).
Proof. intros Hc t r t' [_ <-]%Ok_inj. cbn. rewrite live_fds_app. by destruct c. Qed.
Lemma silent_copy dst src len : silent (mem_copy dst src len).
Proof. intros t r t' [_ <-]%Ok_inj. cbn. by rewrite live_fds_app. Qed.
Lemma silent_copy_ranges fuel from to len : silent (MemorySegment.copy_ranges kernel fuel from to len).
Proof.
  revert len; induction fuel as [|fuel IH]; intros len; cbn [MemorySegment.copy_ranges]; [by intros t a t'|].
  apply silent_bind; [by apply silent_sys|]. intros []; [|apply silent_ret].
  case_match; [|apply IH]. apply silent_bind; [by apply silent_sys|intros; apply silent_ret].
Qed.

(** A successful duplication leaves the segment alone and opens one new file. *)
Lemma shmemdup_new fuel o s tr v t' :
  memfd_fresh kernel -> MemorySegment.shmemdup hex kernel fuel o (Traced s tr) = Ok (v, t') -> v <> -1 ->
  t_state t' = s /\ v ∉ live_fds tr /\ live_fds (t_trace t') = {[v]} ∪ live_fds tr.
Proof.
  intros Hfresh Hr Hv. unfold MemorySegment.shmemdup in Hr. apply bind_Ok in Hr as (s0 & t0 & Hst & Hr). apply Ok_inj in Hst as [<- <-].
  cbn [t_state] in Hr. destruct (bool_decide (MemorySegment.status s = MemorySegment.MEMSEG_MAPPED)) eqn:Hm; cbn [negb] in Hr.
  2: { by apply Ok_inj in Hr as [<- _]. }
  apply bind_Ok in Hr as (f & t1 & Hf & Hr). unfold MemorySegment.shmemfd in Hf.
  apply bind_Ok in Hf as (s1 & t2 & Hst & Hf). apply Ok_inj in Hst as [<- <-]. cbv zeta in Hf.
  apply bind_Ok in Hf as (r & t3 & Hs & Hf). apply Ok_inj in Hs as [Hs <-].
  destruct (f =? -1) eqn:Hf1; [by apply Ok_inj in Hr as [<- _]|].
  destruct r as [fd|]; apply Ok_inj in Hf as [<- <-]; [|done]. cbn [t_state t_trace] in *.
  assert (fd ∉ live_fds tr) as Hnew by (by eapply Hfresh).
  set (t1 := Traced s _) in Hr. assert (t_state t1 = s /\ live_fds (t_trace t1) = {[fd]} ∪ live_fds tr) as [Hs1 Hl1].
  { cbn. rewrite live_fds_app. by rewrite Hs. }
  clearbody t1. apply bind_Ok in Hr as ([] & t4 & Ha & Hr). unfold assert in Ha. destruct (_ && _); [|done].
  apply Ok_inj in Ha as [_ <-]. apply bind_Ok in Hr as (fast & t5 & [H5 H5']%silent_copy_ranges & Hr).
  destruct fast; [by apply Ok_inj in Hr as [<- <-]; split_and!; [congruence|done|congruence]|].
  apply bind_Ok in Hr as (r & t6 & [H6 H6']%silent_sys & Hr); [|done].
  apply bind_Ok in Hr as (c & t7 & Hc & Hr).
  assert (t_state t7 = t_state t6 /\ live_fds (t_trace t7) = live_fds (t_trace t6)) as [H7 H7'].
  { revert Hc. match goal with |- ?m t6 = _ -> _ => enough (silent m) as Hq by (apply Hq) end.
    destruct (success r); [|apply silent_ret]. apply silent_bind; [by apply silent_sys|intros _].
    apply silent_bind; [by apply silent_sys|]. intros [|]; [|apply silent_ret].
    apply silent_bind; [apply silent_copy|intros _]. apply silent_bind; [by apply silent_sys|intros; apply silent_ret]. }
  destruct c.
  - apply Ok_inj in Hr as [<- <-]. split_and!; [congruence|done|congruence].
  - apply bind_Ok in Hr as (? & t8 & _ & Hr). by apply Ok_inj in Hr as [<- _].
Qed.

(** Mapping, unmapping and finalizing keep the place of a segment and its memory file, if it has one, and
    neither open nor close memory files. *)
Section placed.
Context (e : segment) (f : Z) (fds : gset Z).
Definition placed_fd (t : traced segment) : Prop :=
  erase_segment (t_state t) = e /\ MemorySegment.fd (t_state t) = f /\ live_fds (t_trace t) = fds.
Lemma placed_fd_sys c :
  match c with Sys_memfd_create _ _ | Sys_close _ => False | _ => True end -> keeps placed_fd (sys kernel c).
Proof.
  intros Hc t r t' (He & Hf & Hl). intros [_ <-]%Ok_inj. split_and!; [done..|]. cbn. rewrite live_fds_app. by destruct c.
Qed.
Lemma placed_fd_copy dst src len : keeps placed_fd (mem_copy dst src len).
Proof. intros t r t' (He & Hf & Hl). intros [_ <-]%Ok_inj. split_and!; [done..|]. cbn. by rewrite live_fds_app. Qed.
Lemma placed_fd_upd g :
  (forall s, erase_segment (g s) = erase_segment s /\ MemorySegment.fd (g s) = MemorySegment.fd s) -> keeps placed_fd (upd g).
Proof. intros Hg t r t' (He & Hf & Hl). intros [_ <-]%Ok_inj. destruct (Hg (t_state t)) as [H1 H2]. by split_and!; cbn; [rewrite H1|rewrite H2|]. Qed.
Lemma placed_fd_st : keeps placed_fd st.
Proof. intros t r t' Ht. by intros [_ <-]%Ok_inj. Qed.
Ltac fd_step :=
  first [ apply placed_fd_sys; done | apply placed_fd_copy | apply placed_fd_st | apply placed_fd_upd; intros; done | keeps_step ].

Lemma placed_fd_unmap o : keeps placed_fd (MemorySegment.unmap kernel o).
Proof. unfold MemorySegment.unmap. repeat fd_step. Qed.
Lemma placed_fd_finalize force : keeps placed_fd (MemorySegment.finalize kernel force).
Proof. unfold MemorySegment.finalize. repeat fd_step. Qed.
Lemma placed_fd_map o : f <> -1 -> keeps placed_fd (MemorySegment.map hex kernel o).
Proof.
  intros Hf t a t' Ht Hr. unfold MemorySegment.map in Hr. apply bind_Ok in Hr as (s & t1 & Hs & Hr). apply Ok_inj in Hs as [<- <-].
  destruct t as [s tr]. change (t_state (Traced s tr)) with s in Hr.
  rewrite (proj2 (Z.eqb_neq (MemorySegment.fd s) (-1))) in Hr by (destruct Ht as (_ & Hfd & _); cbn in Hfd; congruence).
  match type of Hr with ?m _ = _ => enough (keeps placed_fd m) as Hq by (by eapply Hq) end. clear Ht Hr.
  repeat fd_step.
Qed.
End placed.
End segment.

(** * The memory files of a world *)

Section world.
Context `{DlhMath} (kernel : kernel_t) `{Env}.
Context (fresh_fds : memfd_fresh kernel).
Abbreviation live w := (live_fds (trace w)).

(** The segment at a position *)
Definition segment_at (w : world) (p : Z * nat) : option segment := ob ← objects w !! p.1; o_memory_map ob !! p.2.

Lemma world_segment_Ok {A} o k (f : _ -> M (traced segment) A) w a w' : on_segment o k f w = Ok (a, w') ->
  exists c s t, segment_at w (o, k) = Some s /\ f c (Traced s (trace w)) = Ok (a, t)
    /\ segment_at w' (o, k) = Some (t_state t) /\ trace w' = t_trace t
    /\ (forall p, p <> (o, k) -> segment_at w' p = segment_at w p)
    /\ (t_state t = s -> objects w' = objects w) /\ loader w' = loader w /\ identities w' = identities w.
Proof.
  unfold on_segment, segment_at. cbn [fst snd]. intros Hr. destruct (objects w !! o) as [ob|] eqn:Ho; [|done].
  destruct (identities w !! o_file ob) as [id|]; [|done]. destruct (o_memory_map ob !! k) as [s|] eqn:Hs; [|done].
  destruct (f _ _) as [[b t]| |] eqn:Hf; [|done..]. apply Ok_inj in Hr as [-> <-]. eexists _, s, t. cbn.
  split_and!; [done|exact Hf| |done| | |done..].
  - rewrite lookup_insert_eq. cbn. apply list_lookup_insert_eq. by eapply lookup_lt_Some.
  - intros [o' k'] Hne. cbn. destruct (decide (o' = o)) as [->|?]; [|by rewrite lookup_insert_ne].
    rewrite lookup_insert_eq, Ho. cbn. apply list_lookup_insert_ne. congruence.
  - intros ->. apply map_eq. intros x. destruct (decide (x = o)) as [->|?]; [|by rewrite lookup_insert_ne].
    rewrite lookup_insert_eq, Ho. f_equal. destruct ob; cbn in *. f_equal. by apply list_insert_id.
Qed.
Lemma segment_fd_Ok o k w f w' : segment_fd o k w = Ok (f, w') ->
  exists s, segment_at w (o, k) = Some s /\ f = MemorySegment.fd s /\ objects w' = objects w /\ trace w' = trace w
    /\ loader w' = loader w /\ identities w' = identities w.
Proof.
  intros (c & s & t & Hs & Hf & _ & Ht & _ & Ho & Hl & Hi)%world_segment_Ok. exists s.
  apply bind_Ok in Hf as (s1 & t1 & Hst & Hf). apply Ok_inj in Hst as [<- <-]. apply Ok_inj in Hf as [<- <-].
  split_and!; [done..| |done|done|done]. by apply Ho.
Qed.
Lemma segment_at_objects w w' : objects w' = objects w -> segment_at w' = segment_at w.
Proof. unfold segment_at. by intros ->. Qed.

(** ** Duplicating *)

(** [dup] assigns memory files new ones that were not open before ([fds]); besides those nothing was opened. *)
Record duplicates (fds : gset Z) (dup : gmap Z Z) (w : world) : Prop := {
  dup_new : forall f n, dup !! f = Some n -> n ∉ fds /\ n <> -1;
  dup_inj : forall f g n, dup !! f = Some n -> dup !! g = Some n -> f = g;
  dup_live : live w = map_to_set (fun _ n => n) dup ∪ fds;
  dup_key : dup !! (-1) = None;
}.

Lemma duplicates_trace fds dup w w' : trace w' = trace w -> duplicates fds dup w -> duplicates fds dup w'.
Proof. intros Ht []. split; [done|done|by rewrite Ht|done]. Qed.
Lemma duplicate_step fuel fds dup p w dup' w' :
  duplicates fds dup w -> duplicate kernel fuel dup p w = Ok (dup', w') ->
  duplicates fds dup' w' /\ dup ⊆ dup' /\ objects w' = objects w /\ loader w' = loader w
  /\ exists s, segment_at w p = Some s /\ (MemorySegment.fd s <> -1 -> is_Some (dup' !! MemorySegment.fd s))
       /\ forall f, is_Some (dup' !! f) -> is_Some (dup !! f) \/ f = MemorySegment.fd s.
Proof.
  destruct p as [o k]. intros Hdup Hr. pose proof Hdup as [Hn Hi Hl Hk]. unfold duplicate in Hr. apply bind_Ok in Hr as (f & w1 & Hf & Hr).
  apply segment_fd_Ok in Hf as (s & Hs & -> & Ho & Ht & Hld & _). destruct (MemorySegment.fd s =? -1) eqn:E; cbn [negb andb] in Hr.
  { apply Ok_inj in Hr as [<- <-]. apply Z.eqb_eq in E. split_and!; [by apply (duplicates_trace _ _ w)|done..|].
    exists s. split_and!; [done|done|]. by left. }
  destruct (bool_decide _) eqn:Hd; cbn [negb] in Hr.
  { apply Ok_inj in Hr as [<- <-]. apply bool_decide_eq_true in Hd. split_and!; [by apply (duplicates_trace _ _ w)|done..|].
    exists s. split_and!; [done|done|]. by left. }
  apply bool_decide_eq_false in Hd. rewrite <- eq_None_not_Some in Hd. apply Z.eqb_neq in E.
  apply bind_Ok in Hr as (n & w2 & Hm & Hr). apply bind_Ok in Hr as ([] & w3 & Ha & Hr).
  unfold assert in Ha. destruct (n =? -1) eqn:En; [done|]. apply Ok_inj in Ha as [_ <-]. apply Ok_inj in Hr as [<- <-].
  apply Z.eqb_neq in En. apply world_segment_Ok in Hm as (c & s1 & t & Hs1 & Hm & _ & Ht2 & _ & Ho2 & Hld2 & _).
  eapply shmemdup_new in Hm as (Hst & Hnew & Hlive); [|done..]. rewrite Ht in *. 
  split_and!; [split| |by rewrite Ho2|by rewrite Hld2|exists s; split_and!; [done| |]].
  - intros g m [[<- <-]|[? Hg]]%lookup_insert_Some; [|by eapply Hn]. split; [set_solver|done].
  - assert (forall g, dup !! g = Some n -> False) as Hno.
    { intros g Hg. apply Hnew. rewrite Hl. apply elem_of_union_l, elem_of_map_to_set. eauto. }
    intros g h m [[<- <-]|[? Hg]]%lookup_insert_Some [[<- Hm]|[? Hh]]%lookup_insert_Some; [done|by destruct (Hno h)| |by eapply Hi].
    subst m. by destruct (Hno g).
  - rewrite Ht2, Hlive, Hl, map_to_set_insert_L by done. set_solver.
  - by rewrite lookup_insert_ne.
  - by apply insert_subseteq.
  - intros _. rewrite lookup_insert_eq. by eexists.
  - intros g. destruct (decide (MemorySegment.fd s = g)) as [<-|?]; [by right|]. rewrite lookup_insert_ne by done. by left.
Qed.
Lemma duplicate_all_spec fuel fds l dup w dup' w' :
  duplicates fds dup w -> duplicate_all kernel fuel dup l w = Ok (dup', w') ->
  duplicates fds dup' w' /\ dup ⊆ dup' /\ objects w' = objects w /\ loader w' = loader w
  /\ (forall p s, p ∈ l -> segment_at w p = Some s -> MemorySegment.fd s <> -1 -> is_Some (dup' !! MemorySegment.fd s))
  /\ forall f, is_Some (dup' !! f) -> is_Some (dup !! f) \/ exists p s, segment_at w p = Some s /\ f = MemorySegment.fd s.
Proof.
  revert dup w. induction l as [|p l IH]; intros dup w Hd Hr.
  { apply Ok_inj in Hr as [<- <-]. split_and!; [done..| |by left]. by intros ? ? ?%elem_of_nil. }
  apply bind_Ok in Hr as (dup1 & w1 & Hr1 & Hr). eapply duplicate_step in Hr1 as (Hd1 & S1 & Ho1 & Hl1 & s & Hs & Hin & Hdom); [|done].
  eapply IH in Hr as (Hd2 & S2 & Ho2 & Hl2 & Hall & Hdom2); [|done]. rewrite (segment_at_objects _ _ Ho1) in *.
  split_and!; [done|by etransitivity|congruence|congruence| |].
  - intros q s' [->|Hq]%elem_of_cons Hs' Hf; [|by eapply Hall]. simplify_eq. destruct (Hin Hf) as [n ?]. exists n. by eapply lookup_weaken.
  - intros f [[?|?]%Hdom|?]%Hdom2; [by left|right; by eexists _, _|by right].
Qed.

(** ** Mapping the duplicates *)

(** An operation of a segment keeps the other segments. *)
Lemma on_segment_placed {A} e f fds p (m : _ -> M (traced segment) A) w a w' :
  (forall c, keeps (placed_fd e f fds) (m c)) ->
  (exists s, segment_at w p = Some s /\ erase_segment s = e /\ MemorySegment.fd s = f) -> live w = fds ->
  on_segment p.1 p.2 m w = Ok (a, w') ->
  (exists s, segment_at w' p = Some s /\ erase_segment s = e /\ MemorySegment.fd s = f) /\ live w' = fds
  /\ (forall q, q <> p -> segment_at w' q = segment_at w q) /\ loader w' = loader w.
Proof.
  destruct p as [o k]. intros Hm (s & Hs & He & Hf) Hl (c & s1 & t & Hs1 & Hr & Hs' & Ht & Hoth & _ & Hld & _)%world_segment_Ok.
  cbn in Hs1. simplify_eq. apply Hm in Hr as (He' & Hf' & Hl'); [|done]. rewrite Ht. split_and!; [by eexists|done..].
Qed.

Lemma remap_step dup p w s dup' w' :
  segment_at w p = Some s -> (MemorySegment.fd s <> -1 -> exists n, dup !! MemorySegment.fd s = Some n /\ n <> -1) ->
  remap kernel dup p w = Ok (dup', w') ->
  dup' = dup /\ live w' = live w /\ loader w' = loader w /\ (forall q, q <> p -> segment_at w' q = segment_at w q)
  /\ exists s', segment_at w' p = Some s' /\ erase_segment s' = erase_segment s
       /\ MemorySegment.fd s' = (if MemorySegment.fd s =? -1 then -1 else default 0 (dup !! MemorySegment.fd s)).
Proof.
  destruct p as [o k]. intros Hs Hd Hr. unfold remap in Hr. apply bind_Ok in Hr as (f & w1 & Hf & Hr).
  apply segment_fd_Ok in Hf as (s1 & Hs1 & -> & Ho & Ht & Hl & _). simplify_eq.
  destruct (MemorySegment.fd s =? -1) eqn:E; cbn [negb] in Hr.
  { apply Ok_inj in Hr as [<- <-]. rewrite Ht, Hl, (segment_at_objects _ _ Ho). apply Z.eqb_eq in E. split_and!; [done..|]. by exists s. }
  apply Z.eqb_neq in E. destruct (Hd E) as (n & Hn & Hn1). rewrite Hn in Hr |- *. change (default 0 (Some n)) with n in *.
  apply bind_Ok in Hr as (u1 & w2 & H2 & Hr). apply bind_Ok in Hr as ([] & w3 & H3 & Hr).
  unfold assert in H3. rewrite (proj2 (Z.eqb_neq n (-1)) Hn1) in H3. apply Ok_inj in H3 as [_ <-].
  apply bind_Ok in Hr as (u2 & w4 & H4 & Hr). apply bind_Ok in Hr as (u3 & w5 & H5 & Hr).
  apply bind_Ok in Hr as (u4 & w6 & H6 & Hr). apply Ok_inj in Hr as [<- <-].
  apply (on_segment_placed (erase_segment s) (MemorySegment.fd s) (live w) (o, k)) in H2 as ((s2 & Hs2 & He2 & Hf2) & L2 & O2 & Hl2);
    [|intros; apply placed_fd_unmap| |by rewrite Ht].
  2: { exists s. by rewrite (segment_at_objects _ _ Ho). }
  apply world_segment_Ok in H4 as (c & s3 & t & Hs3 & Hu & Hs4 & Ht4 & O4 & _ & Hl4 & _). apply Ok_inj in Hu as [_ <-].
  rewrite Hs2 in Hs3. apply (inj Some) in Hs3 as <-.
  apply (on_segment_placed (erase_segment s) n (live w) (o, k)) in H5 as (X5 & L5 & O5 & Hl5);
    [|intros; by apply placed_fd_map| |rewrite Ht4; exact L2].
  2: { eexists. split; [exact Hs4|]. split; [exact He2|done]. }
  apply (on_segment_placed (erase_segment s) n (live w) (o, k)) in H6 as (X6 & L6 & O6 & Hl6);
    [|intros; apply placed_fd_finalize|done..].
  split_and!; [by apply insert_id|done|congruence| |done].
  intros q Hq. by rewrite O6, O5, O4, O2, (segment_at_objects _ _ Ho).
Qed.
Lemma remap_all_spec dup l w dup' w' :
  NoDup l -> (forall p, p ∈ l -> exists s, segment_at w p = Some s /\
    (MemorySegment.fd s <> -1 -> exists n, dup !! MemorySegment.fd s = Some n /\ n <> -1)) ->
  remap_all kernel dup l w = Ok (dup', w') ->
  dup' = dup /\ live w' = live w /\ loader w' = loader w /\ (forall q, q ∉ l -> segment_at w' q = segment_at w q)
  /\ forall p s, p ∈ l -> segment_at w p = Some s -> exists s', segment_at w' p = Some s' /\ erase_segment s' = erase_segment s
       /\ MemorySegment.fd s' = (if MemorySegment.fd s =? -1 then -1 else default 0 (dup !! MemorySegment.fd s)).
Proof.
  revert dup w. induction l as [|p l IH]; intros dup w Hnd Hd Hr.
  { apply Ok_inj in Hr as [<- <-]. split_and!; [done..|]. by intros ? ? ?%elem_of_nil. }
  apply NoDup_cons in Hnd as [Hp Hnd]. apply bind_Ok in Hr as (dup1 & w1 & Hr1 & Hr).
  destruct (Hd p) as (s & Hs & Hds); [by left|]. eapply remap_step in Hr1 as (-> & L1 & O1 & Hoth & Hnew); [|done..].
  apply IH in Hr as (-> & L2 & O2 & Hoth2 & Hnew2); [|done|].
  2: { intros q Hq. rewrite Hoth by congruence. apply Hd. by right. }
  split_and!; [done|congruence..| |].
  - intros q [Hqp Hql]%not_elem_of_cons. by rewrite Hoth2, Hoth.
  - intros q s' Hq Hs'. apply elem_of_cons in Hq as [Hq|Hq].
    { subst q. rewrite Hs in Hs'. apply (inj Some) in Hs' as <-. by rewrite Hoth2 by done. }
    apply Hnew2; [done|]. rewrite Hoth; [done|congruence].
Qed.

(** ** Closing files and starting the threads *)

Lemma close_all_spec l w u w' : close_all kernel l w = Ok (u, w') ->
  objects w' = objects w /\ loader w' = loader w /\ live w' = live w ∖ list_to_set l.
Proof.
  revert w. induction l as [|f l IH]; intros w Hr.
  { apply Ok_inj in Hr as [_ <-]. split_and!; [done..|]. cbn. set_solver. }
  apply bind_Ok in Hr as ([] & w1 & H1' & Hr). apply bind_Ok in H1' as (r & w2 & Hs & H1'). apply Ok_inj in H1' as [_ <-].
  apply Ok_inj in Hs as [_ <-]. apply IH in Hr as (Ho & Hl & Hlive). split_and!; [done..|].
  rewrite Hlive. cbn. rewrite live_fds_app. set_solver.
Qed.
(** The threads of the loader neither change the objects nor create memory files. *)
Definition threads_leave (obs : gmap Z Object) (f : Z) (w : world) : Prop := objects w = obs /\ f ∉ live w.
Lemma threads_leave_sys obs f c :
  match c with Sys_memfd_create _ _ => False | _ => True end -> keeps (threads_leave obs f) (syscall_ kernel c).
Proof.
  intros Hc w r w' [Ho Hf] [_ <-]%Ok_inj. split; [done|]. cbn. rewrite live_fds_app. destruct c; done || set_solver.
Qed.
Lemma threads_leave_start obs f : keeps (threads_leave obs f) (start_handler_threads kernel).
Proof.
  unfold start_handler_threads, start_userfault, start_inotify, close_if_open, Identity.watch, set_loader, get_loader.
  repeat first [ apply threads_leave_sys; done | apply keeps_modify; intros ? [? ?]; done | wkeeps_step ].
Qed.

(** ** The whole fork *)

Context (hash_entries : gmap Z Z -> list (Z * Z)) (entries : forall m, hash_entries m ≡ₚ map_to_list m).
Context (child_tid : list event -> Z) (self_tid : Z).

Lemma segments_nodup w : NoDup (all_versions w (lookup (loader w))) -> NoDup (all_segments w).
Proof.
  unfold all_segments. generalize (all_versions w (lookup (loader w))). induction l as [|o l IH]; intros Hnd; [apply NoDup_nil_2|].
  apply NoDup_cons in Hnd as [Ho Hnd]. cbn. apply NoDup_app. split_and!; [|intros p Hp Hq|by apply IH].
  - destruct (objects w !! o); [|apply NoDup_nil_2]. apply NoDup_fmap_2; [congruence|]. apply NoDup_seq.
  - apply elem_of_concat in Hq as (x & (o' & -> & Ho')%list_elem_of_fmap & Hx).
    assert (p.1 = o) as E1 by (destruct (objects w !! o); [by apply list_elem_of_fmap in Hp as (? & -> & _)|by apply elem_of_nil in Hp]).
    assert (p.1 = o') as E2 by (destruct (objects w !! o'); [by apply list_elem_of_fmap in Hx as (? & -> & _)|by apply elem_of_nil in Hx]).
    congruence.
Qed.
Lemma segments_at w p : p ∈ all_segments w -> exists s, segment_at w p = Some s.
Proof.
  unfold all_segments, segment_at. intros (x & (o & -> & _)%list_elem_of_fmap & Hx)%elem_of_concat.
  destruct (objects w !! o) as [ob|] eqn:Ho; [|by apply elem_of_nil in Hx].
  apply list_elem_of_fmap in Hx as (k & -> & [_ Hk]%elem_of_seq). cbn. rewrite Ho. cbn. by apply lookup_lt_is_Some_2.
Qed.
Lemma live_entries dup fds w : duplicates fds dup w -> live w ∖ list_to_set (snd <$> hash_entries dup) = fds.
Proof.
  intros [Hn _ Hl _]. rewrite Hl. apply set_eq. intros x. rewrite elem_of_difference, elem_of_union, elem_of_map_to_set, elem_of_list_to_set, list_elem_of_fmap.
  setoid_rewrite (entries dup). split.
  - intros [[(f & n & Hf & <-)|Hx] Hno]; [|done]. destruct Hno. exists (f, n). by rewrite elem_of_map_to_list.
  - intros Hx. split; [by right|]. intros ([f n] & -> & Hf%elem_of_map_to_list). by destruct (Hn f n Hf).
Qed.

(** C11: Forking separates the memory of parent and child.  Every memory file that holds the data of an object is duplicated once, in
    a file that was not open before.  In the child all segments keep their place and refer to the duplicate instead
    of the file of the parent, which is closed there; in the parent nothing has changed and, if the
    system call succeeded, no duplicate is left open. *)
Theorem fork_isolates_memory fuel w r w' :
  dynamic_update (config (loader w)) = true -> NoDup (all_versions w (lookup (loader w))) ->
  (forall p s, p ∈ all_segments w -> segment_at w p = Some s -> MemorySegment.fd s <> -1 -> MemorySegment.fd s ∈ live w) ->
  fork_process kernel hash_entries child_tid self_tid fuel w = Ok (r, w') ->
  exists dup : gmap Z Z,
    (forall f n, dup !! f = Some n -> n ∉ live w) /\ (forall f g n, dup !! f = Some n -> dup !! g = Some n -> f = g)
    /\ if r =? 0 then
         forall p s, p ∈ all_segments w -> segment_at w p = Some s ->
           exists s', segment_at w' p = Some s' /\ erase_segment s' = erase_segment s
             /\ if MemorySegment.fd s =? -1 then MemorySegment.fd s' = -1
                else dup !! MemorySegment.fd s = Some (MemorySegment.fd s') /\ MemorySegment.fd s ∉ live w'
       else objects w' = objects w /\ loader w' = loader w /\ (0 < r -> live w' = live w).
Proof.
  intros Hdyn Hnd Hfds Hr. unfold fork_process in Hr. apply bind_Ok in Hr as ([] & w1 & He & Hr). apply Ok_inj in He as [_ He].
  assert (objects w1 = objects w /\ identities w1 = identities w /\ loader w1 = loader w /\ live w1 = live w) as (Ho1 & Hi1 & Hl1 & Hlive1)
    by (subst w1; cbn; by rewrite live_fds_app). clear He.
  assert (all_segments w1 = all_segments w) as Hseg by (unfold all_segments, all_versions; by rewrite Ho1, Hi1, Hl1).
  apply bind_Ok in Hr as (w0 & w2 & Hg & Hr). apply Ok_inj in Hg as [<- <-]. cbv zeta in Hr. rewrite Hseg, Hl1, Hdyn in Hr.
  apply bind_Ok in Hr as (dup & w2 & Hdup & Hr). eapply (duplicate_all_spec fuel (live w)) in Hdup as (Hd & _ & Ho2 & Hl2 & Hall & Hkeys).
  2: { split; [done|done|by rewrite Hlive1; set_solver|done]. }
  rewrite (segment_at_objects _ _ Ho1) in *.
  apply bind_Ok in Hr as (cl & w3 & Hc & Hr). apply Ok_inj in Hc as [_ Hc]. 
  assert (objects w3 = objects w /\ loader w3 = loader w /\ duplicates (live w) dup w3) as (Ho3 & Hl3 & Hd3).
  { subst w3. cbn. split_and!; [congruence..|]. destruct Hd as [D1 D2 D3 D4]. split; [done|done| |done]. cbn. by rewrite live_fds_app. }
  clear Hc Hd. pose proof Hd3 as [Hn Hinj _ _]. exists dup. split; [intros f n ?; by eapply Hn|]. split; [done|].
  apply bind_Ok in Hr as (r' & w4 & Hr & Hu). apply bind_Ok in Hu as ([] & w5 & Hu & Hret). apply Ok_inj in Hret as [-> <-].
  apply Ok_inj in Hu as [_ Hu].
  assert (objects w5 = objects w4 /\ loader w5 = loader w4 /\ live w5 = live w4) as (Ho5 & Hl5 & Hlive5)
    by (subst w5; cbn; by rewrite live_fds_app). clear Hu.
  rewrite Ho5, Hl5, Hlive5, (segment_at_objects _ _ Ho5). clear w5 Ho5 Hl5 Hlive5.
  destruct cl as [v|e]; [|by apply Ok_inj in Hr as [<- <-]]. destruct (v =? 0) eqn:Ev.
  - apply bind_Ok in Hr as (dup' & w5 & Hm & Hr). apply remap_all_spec in Hm as (-> & L5 & _ & _ & Hnew); [|by apply segments_nodup|].
    2: { intros p Hp. destruct (segments_at w p Hp) as [s Hs]. exists s. rewrite (segment_at_objects _ _ Ho3). split; [done|].
         intros Hf. destruct (Hall p s Hp Hs Hf) as [n Hn']. exists n. split; [done|]. by eapply Hn. }
    apply bind_Ok in Hr as ([] & w6 & (Ho6 & _ & L6)%close_all_spec & Hr).
    apply bind_Ok in Hr as (tr & w7 & Hg & Hr). apply Ok_inj in Hg as [<- <-].
    apply bind_Ok in Hr as ([] & w7 & He & Hr). apply Ok_inj in He as [_ He].
    assert (objects w7 = objects w6 /\ live w7 = live w6) as [Ho7 Hlive7] by (subst w7; cbn; by rewrite live_fds_app). clear He.
    apply bind_Ok in Hr as (b & w8 & Hst & Hr). apply Ok_inj in Hr as [<- <-]. rewrite Ev.
    intros p s Hp Hs. destruct (Hnew p s Hp) as (s' & Hs' & He & Hf); [by rewrite (segment_at_objects _ _ Ho3)|].
    assert (forall f, f ∉ live w7 -> objects w8 = objects w5 /\ f ∉ live w8) as Hthreads.
    { intros f Hf'. apply (threads_leave_start (objects w5) f) in Hst as [? ?]; [done|]. split; [congruence|done]. }
    destruct (MemorySegment.fd s =? -1) eqn:E.
    + exists s'. destruct (exist_fresh (live w7)) as [f Hf']. apply Hthreads in Hf' as [Ho8 _].
      rewrite (segment_at_objects _ _ Ho8). done.
    + apply Z.eqb_neq in E. destruct (Hall p s Hp Hs E) as [n Hn']. rewrite Hn' in Hf. cbn in Hf.
      destruct (Hthreads (MemorySegment.fd s)) as [Ho8 Hout].
      { rewrite Hlive7, L6. intros [_ Hno]%elem_of_difference. destruct Hno. apply elem_of_list_to_set, list_elem_of_fmap.
        exists (MemorySegment.fd s, n). split; [done|]. by rewrite (entries dup), elem_of_map_to_list. }
      exists s'. rewrite (segment_at_objects _ _ Ho8). split_and!; [done..| |done]. congruence.
  - apply bind_Ok in Hr as ([] & w5 & (Ho5 & Hl5 & L5)%close_all_spec & Hr). apply Ok_inj in Hr as [<- <-]. rewrite Ev.
    split_and!; [congruence..|]. intros _. rewrite L5. by apply live_entries.
Qed.

(** * The assembler *)

Context (supports_xsave : bool) (clobber : DlResolve.cpu -> DlResolve.cpu) (rax_of : Z -> Z) (return_address : Z) (abi : DlResolveProofs.Abi clobber).
Import Process(reg(..)) DlResolve DlResolveProofs.
Abbreviation saved_mask := (if supports_xsave then mask_low else fx_mask).
Abbreviation fork := (fork_process kernel hash_entries child_tid self_tid).
Abbreviation kept := [RBX; RCX; RBP; R8; R9; R10; R11; R12; R13; R14; R15].

Lemma fork_rsp : RSP ∉ fork_registers.
Proof. apply (bool_decide_eq_false_1 _). vm_compute. reflexivity. Qed.
Lemma fork_nodup : NoDup (rev fork_registers).
Proof. apply (bool_decide_eq_true_1 _). vm_compute. reflexivity. Qed.
Lemma kept_register x : x ∈ kept -> exists k, fork_registers !! k = Some x.
Proof.
  intros Hx. assert (x ∈ fork_registers) as [k Hk]%list_elem_of_lookup; [|by exists k].
  repeat (apply elem_of_cons in Hx as [->|Hx]; [apply (bool_decide_eq_true_1 _); by vm_compute|]). by apply not_elem_of_nil in Hx.
Qed.

(** The call of the compiled function, from the saved registers on *)
Lemma call_fork_spec fuel c1 r w' :
  128 <= regs c1 RSP < 2^64 -> fork fuel (state c1) = Ok (r, w') ->
  exists c2, call return_address (__fork_syscall kernel hash_entries child_tid self_tid supports_xsave clobber rax_of fuel) c1 = Ok (tt, c2)
    /\ regs c2 RSP = regs c1 RSP /\ regs c2 RAX = rax_of r
    /\ same_mem (fun a => regs c1 RSP <= a) c1 c2
    /\ (forall k, in_mask saved_mask k = true -> fp c2 k = fp c1 k) /\ state c2 = w'.
Proof.
  intros Hs Hr. destruct (push_spec return_address c1) as (Hsp & _ & Hm & _ & Hf & Hst); [lia|].
  unfold call. set (c0 := push return_address c1) in *.
  assert (modify (push return_address) c1 = Ok (tt, c0)) as Hpush by done. clearbody c0. rewrite <- Hst in Hr.
  set (c3 := restore saved_mask (fp c0)
               (set_reg RAX (rax_of r) (MkCpu (regs (clobber c0)) (mem (clobber c0)) (fp (clobber c0)) w'))).
  exists (set_reg RSP (w64 (regs c3 RSP + 8)) c3). split_and!.
  - unfold mbind, M_bind. rewrite Hpush. unfold __fork_syscall, call_fork, mbind, M_bind, gets, modify. by rewrite Hr.
  - rewrite get_set_same. change (regs c3 RSP) with (regs (clobber c0) RSP). rewrite (@abi_sp _ abi), Hsp.
    apply w64_small'; lia.
  - rewrite get_set_other by done. apply get_set_same.
  - intros a Ha. change (rd (mem (clobber c0)) a = rd (mem c1) a). rewrite (@abi_mem _ abi) by lia. apply Hm. lia.
  - intros k Hk. change ((if in_mask saved_mask k then fp c0 k else fp (clobber c0) k) = fp c1 k). by rewrite Hk, Hf.
  - done.
Qed.

(** C15: The replaced system call looks like one.  Whatever the compiled function does with the registers, the call
    returns behind itself with the result in RAX and with the values in RDI, RSI and RDX the replaced instructions put
    there; all other general purpose registers, the stack of the callers and the vector and floating point registers are as
    before, and the compiled function is called with the stack alignment it may rely on. *)
Theorem fork_syscall_transparent fuel c r w' (sp := regs c RSP) :
  (forall r, 0 <= regs c r < 2^64) -> 256 <= sp -> sp + 8 < 2^64 -> fork fuel (state c) = Ok (r, w') ->
  exists c', _fork_syscall kernel hash_entries child_tid self_tid supports_xsave clobber rax_of return_address fuel c = Ok (load sp c, c')
    /\ regs c' RSP = sp + 8 /\ regs c' RAX = rax_of r
    /\ regs c' RDX = 0 /\ regs c' RSI = 0 /\ regs c' RDI = 0x1200011
    /\ (forall x, x ∈ kept -> regs c' x = regs c x)
    /\ same_mem (fun a => sp <= a) c c'
    /\ (forall k, in_mask saved_mask k = true -> fp c' k = fp c k)
    /\ state c' = w'
    /\ (sp mod 16 = 8 -> regs (run fork_prologue c) RSP mod 16 = 0).
Proof.
  intros Hregs Hs Ht Hr. unfold _fork_syscall.
  pose proof (run_pushes fork_registers c fork_rsp ltac:(cbn; fold sp; lia)) as [Hsp1 Hr1 Hm1 Hslots1 Hf1 Hst1].
  change (run (PUSH <$> fork_registers) c) with (run fork_prologue c) in *. fold sp in Hsp1, Hm1, Hslots1.
  change (8 * Z.of_nat (length fork_registers)) with 88 in Hsp1.
  set (c1 := run fork_prologue c) in *. assert (modify (run fork_prologue) c = Ok (tt, c1)) as Hrun by done. clearbody c1.
  rewrite <- Hst1 in Hr.
  destruct (call_fork_spec fuel c1 r w') as (c2 & Hcall & Hsp2 & Hax2 & Hm2 & Hf2 & Hst2); [lia|done|].
  set (c2' := run [MOVI 0 RDX; MOVI 0 RSI; MOVI 0x1200011 RDI] c2).
  assert (regs c2' RSP = sp - 88) as Hsp2' by (change (regs c2 RSP = sp - 88); cbn in Hsp1; lia).
  assert (run fork_epilogue c2 = run (POP <$> rev fork_registers) c2') as Hrun3 by (unfold fork_epilogue; by rewrite run_app).
  pose proof (run_pops (rev fork_registers) c2') as Hpop. rewrite length_rev in Hpop. change (Z.of_nat (length fork_registers)) with 11 in Hpop.
  destruct Hpop as [Hsp3 Hr3 Hslots3 Hm3 Hf3 Hst3];
    [apply (bool_decide_eq_false_1 _); by vm_compute|apply fork_nodup|lia|lia|].
  change (Z.of_nat (length (rev fork_registers))) with 11 in Hsp3. rewrite <- Hrun3 in *.
  assert (modify (run fork_epilogue) c2 = Ok (tt, run fork_epilogue c2)) as Hrun4 by done. set (c3 := run fork_epilogue c2) in *. clearbody c3.
  assert (regs c3 RSP = sp) as Hsp3' by lia.
  assert (load sp c3 = load sp c) as Hret.
  { apply (load_same (fun a => sp <= a)); [|lia]. intros a Ha. unfold same_mem in *. rewrite Hm3.
    change (rd (mem c2) a = rd (mem c) a). rewrite Hm2, Hm1 by lia. done. }
  exists (set_reg RSP (w64 (regs c3 RSP + 8)) c3).
  split_and!.
  - unfold mbind, M_bind. rewrite Hrun, Hcall, Hrun4. unfold get, modify, mret, M_ret. by rewrite Hsp3', Hret.
  - rewrite get_set_same, Hsp3'. apply w64_small'; lia.
  - rewrite get_set_other by done. rewrite Hr3 by (done || by apply (bool_decide_eq_false_1 _); vm_compute). exact Hax2.
  - rewrite get_set_other by done. rewrite Hr3 by (done || by apply (bool_decide_eq_false_1 _); vm_compute). done.
  - rewrite get_set_other by done. rewrite Hr3 by (done || by apply (bool_decide_eq_false_1 _); vm_compute). done.
  - rewrite get_set_other by done. rewrite Hr3 by (done || by apply (bool_decide_eq_false_1 _); vm_compute). done.
  - intros x Hx. rewrite get_set_other by (intros ->; revert Hx; apply (bool_decide_eq_false_1 _); by vm_compute). destruct (kept_register x Hx) as [k Hk].
    assert (k < 11)%nat as Hlt by (apply lookup_lt_Some in Hk; exact Hk).
    assert (rev fork_registers !! (10 - k)%nat = Some x) as Hk'.
    { rewrite <- Hk. clear -Hlt. do 11 (destruct k as [|k]; [done|]). lia. }
    rewrite (Hslots3 _ _ Hk'), Hsp2'. specialize (Hslots1 _ _ Hk).
    transitivity (load (sp - 8 * Z.of_nat (S k)) c1); [|rewrite Hslots1; apply w64_small; apply Hregs].
    replace (sp - 88 + 8 * Z.of_nat (10 - k)) with (sp - 8 * Z.of_nat (S k)) by lia.
    apply (load_same (fun a => sp - 88 <= a)); [|lia]. intros a Ha. change (rd (mem c2) a = rd (mem c1) a). apply Hm2. lia.
  - intros a Ha. change (rd (mem c3) a = rd (mem c) a). rewrite Hm3. change (rd (mem c2) a = rd (mem c) a). rewrite Hm2, Hm1 by lia. done.
  - intros k Hk. change (fp c3 k = fp c k). rewrite Hf3. change (fp c2 k = fp c k). rewrite Hf2 by done. by rewrite Hf1.
  - change (state c3 = w'). rewrite Hst3. exact Hst2.
  - intros Hmod. rewrite Hsp1. replace (sp - 88) with (sp - 8 + (-5) * 16) by lia.
    rewrite Z.mod_add by lia. rewrite Zminus_mod, Hmod. done.
Qed.
End world.

(** * An example: the library has its data in file 7; both versions share it. *)

Import Samples.
(** A kernel that gives new memory files the next number, and [child] to the caller of clone. *)
Definition above (fds : gset Z) : Z := 1 + foldr Z.max 9 (elements fds).
Definition ex_fork_kernel (child : sysret) : kernel_t := fun tr c =>
  match c with
  | Sys_memfd_create _ _ => Success (above (live_fds tr))
  | Sys_copy_file_range _ _ len => Success len
  | Sys_clone => child
  | _ => ex_kernel tr c
  end.
Lemma ex_fresh child : memfd_fresh (ex_fork_kernel child).
Proof.
  intros tr n f v [= <-] Hin. apply elem_of_elements in Hin. unfold above in Hin.
  assert (forall l x, x ∈ l -> x <= foldr Z.max 9 l) as Hmax.
  { induction l as [|y l IH]; intros x Hx; [by apply elem_of_nil in Hx|]. cbn. apply elem_of_cons in Hx as [->|Hx]; [lia|]. specialize (IH x Hx). lia. }
  specialize (Hmax _ _ Hin). lia.
Qed.
Definition ex_shared (start len : Z) : segment :=
  MemorySegment.Segment 0 len 0 start len (Z.lor PROT_READ PROT_WRITE) (Z.lor PROT_READ PROT_WRITE) 7 0 false MemorySegment.MEMSEG_MAPPED 0.
Definition ex_fork_world : world :=
  let c := ex_config <| dynamic_update := true |> in
  (ex_world c) <| objects := <[12 := ex_object 2 [1] [ex_segment 0x600000000000 0x3000; ex_shared 0x600000008000 0x1000]]>
                             (<[22 := ex_object 2 [] [ex_shared 0x600000008000 0x1000]]> (objects (ex_world c))) |>
             <| trace := [Ev_sys (Sys_memfd_create "libx.so" 0) (Success 7)] |>.
Definition ex_forked (child : sysret) : res (Z * world) :=
  fork_process (H := dlh_4k) (ex_fork_kernel child) (H0 := ex_env [] [] false) map_to_list (fun _ => 4711) 0x100 2 ex_fork_world.
(** The file of the segment at a position *)
Definition fd_at (w : world) (p : Z * nat) : option Z := MemorySegment.fd <$> segment_at w p.
Lemma ex_versions : NoDup (all_versions ex_fork_world (lookup (loader ex_fork_world))).
Proof. apply (bool_decide_eq_true_1 _). vm_compute. reflexivity. Qed.
Lemma ex_segment_files p s :
  p ∈ all_segments ex_fork_world -> segment_at ex_fork_world p = Some s -> MemorySegment.fd s <> -1 ->
  MemorySegment.fd s ∈ live_fds (trace ex_fork_world).
Proof.
  intros Hp Hs Hf. assert (live_fds (trace ex_fork_world) = {[7]}) as -> by (vm_compute; reflexivity).
  change (all_segments ex_fork_world) with [(11, 0%nat); (12, 0%nat); (12, 1%nat); (22, 0%nat)] in Hp.
  rewrite !elem_of_cons in Hp. destruct Hp as [->|[->|[->|[->|Hp]]]]; [..|by apply elem_of_nil in Hp];
    vm_compute in Hs; injection Hs as <-; cbn in *; set_solver.
Qed.

Lemma fork_isolates_memory_witness :
  (exists w f, ex_forked (Success 0) = Ok (0, w) /\ fd_at w (12, 1%nat) = Some f /\ f <> 7 /\ 7 ∉ live_fds (trace w))
  /\ exists w, ex_forked (Success 4711) = Ok (4711, w) /\ live_fds (trace w) = {[7]}.
Proof.
  assert (exists w f, ex_forked (Success 0) = Ok (0, w) /\ fd_at w (12, 1%nat) = Some f /\ f <> 7 /\ 7 ∉ live_fds (trace w)) as Hchild.
  { set (w := after (ex_forked (Success 0)) ex_fork_world).
    destruct (@fork_isolates_memory dlh_4k (ex_fork_kernel (Success 0)) (ex_env [] [] false) (ex_fresh _)
      map_to_list (fun _ => Permutation_refl _) (fun _ => 4711) 0x100 2 ex_fork_world 0 w) as (dup & Hnew & _ & Hall).
    - vm_compute. reflexivity.
    - exact ex_versions.
    - exact ex_segment_files.
    - vm_compute. reflexivity.
    - destruct (Hall (12, 1%nat) (ex_shared 0x600000008000 0x1000)) as (s' & Hs' & _ & Hd & Hl).
      + apply (bool_decide_eq_true_1 _). vm_compute. reflexivity.
      + vm_compute. reflexivity.
      + exists w, (MemorySegment.fd s'). split; [vm_compute; reflexivity|]. split; [by unfold fd_at; rewrite Hs'|]. split; [|exact Hl].
        intros E. apply (Hnew 7 7); [by rewrite <- E at 2|]. vm_compute. reflexivity. }
  split; [exact Hchild|]. set (w := after (ex_forked (Success 4711)) ex_fork_world).
  destruct (@fork_isolates_memory dlh_4k (ex_fork_kernel (Success 4711)) (ex_env [] [] false) (ex_fresh _)
    map_to_list (fun _ => Permutation_refl _) (fun _ => 4711) 0x100 2 ex_fork_world 4711 w) as (dup & _ & _ & _ & _ & Hl).
  - vm_compute. reflexivity.
  - exact ex_versions.
  - exact ex_segment_files.
  - vm_compute. reflexivity.
  - exists w. split; [vm_compute; reflexivity|]. rewrite Hl by lia. vm_compute. reflexivity.
Defined.

#[local] Existing Instance DlResolve.reg_eq_dec.
Definition ex_fork_cpu : DlResolve.cpu :=
  DlResolve.MkCpu (fun r => if decide (r = Process.RSP) then 0x7fff0fe8 else 0x1234) (wr ∅ 0x7fff0fe8 (le_bytes 8 0x401000))
    (fun k => k + 100) ex_fork_world.
Lemma fork_syscall_transparent_witness :
  exists c', _fork_syscall (H := dlh_4k) (ex_fork_kernel (Success 4711)) (H0 := ex_env [] [] false) map_to_list
      (fun _ => 4711) 0x100 true DlResolveProofs.ex_clobber id 0x9999 2 ex_fork_cpu = Ok (0x401000, c')
    /\ DlResolve.regs c' Process.RAX = 4711 /\ DlResolve.regs c' Process.RBX = 0x1234 /\ DlResolve.fp c' 2 = 102
    /\ DlResolve.regs (DlResolve.run fork_prologue ex_fork_cpu) Process.RSP mod 16 = 0.
Proof.
  destruct (@fork_syscall_transparent dlh_4k (ex_fork_kernel (Success 4711)) (ex_env [] [] false)
    map_to_list (fun _ => 4711) 0x100 true DlResolveProofs.ex_clobber id 0x9999 DlResolveProofs.ex_abi 2 ex_fork_cpu 4711
    (after (ex_forked (Success 4711)) ex_fork_world)) as (c' & Hrun & _ & Hax & _ & _ & _ & Hregs & _ & Hfp & _ & Ha).
  - intros r. unfold ex_fork_cpu. cbn [DlResolve.regs]. case_decide; lia.
  - vm_compute. congruence.
  - vm_compute. reflexivity.
  - vm_compute. reflexivity.
  - exists c'. split; [exact Hrun|]. split; [exact Hax|]. split; [|split].
    + apply Hregs. apply (bool_decide_eq_true_1 _). vm_compute. reflexivity.
    + apply Hfp. vm_compute. reflexivity.
    + apply Ha. vm_compute. reflexivity.
Defined.
End ForkProofs.
