(* ===== verification/GlibcInitProofs.v ===== *)
(** Theorems about the values of GLIBC's globals (GlibcInit.v). *)
From Stdlib Require Import Btauto.
From S2P Require Import Prelude Platform Segment Symbol Tls World Object Identity Loader Version Layout Glibc GlibcInit.

Module GlibcInitProofs.
Import Version Layout Glibc GlibcInit.

(** * Secure mode *)

Section secure.
Context (string_length : Z -> Z) (p : platform).
Abbreviation read := (read_entry string_length p).

(** The values of the entries of a type *)
Definition values (type : Z) (auxv : list (Z * Z)) : list Z := omap (fun kv => if kv.1 =? type then Some kv.2 else None) auxv.
Definition xor_all (l : list Z) : Z := foldr (fun v n => Z.lxor (s32 v) n) 0 l.
Definition flag (bit : Z) (l : list Z) : Z := match l with [] => 0 | _ => bit end.

Lemma values_app type l1 l2 : values type (l1 ++ l2) = values type l1 ++ values type l2.
Proof. apply omap_app. Qed.
Lemma xor_all_snoc l v : xor_all (l ++ [v]) = Z.lxor (xor_all l) (s32 v).
Proof.
  induction l as [|x l IH]; cbn; [by rewrite Z.lxor_0_r|]. fold (xor_all (l ++ [v])) (xor_all l). by rewrite IH, Z.lxor_assoc.
Qed.
Lemma flag_snoc bit l v : flag bit (l ++ [v]) = bit.
Proof. by destruct l. Qed.

(** The variables of the loop after a part of the vector without AT_SECURE *)
Definition ids_of (l : list (Z * Z)) : ids :=
  MkIds (Z.lxor (xor_all (values AT_UID l)) (xor_all (values AT_EUID l)))
        (Z.lxor (xor_all (values AT_GID l)) (xor_all (values AT_EGID l)))
        (Z.lor (Z.lor (flag 1 (values AT_UID l)) (flag 2 (values AT_EUID l)))
               (Z.lor (flag 4 (values AT_GID l)) (flag 8 (values AT_EGID l)))).

Ltac by_bits := apply Z.bits_inj'; intros; rewrite ?Z.lor_spec, ?Z.lxor_spec; btauto.
Lemma read_ids g i type value : type <> AT_SECURE ->
  __libc_enable_secure (read (g, i) (type, value)).1 = __libc_enable_secure g
  /\ (read (g, i) (type, value)).2 =
       (if type =? AT_UID then see_uid 1 value i else if type =? AT_EUID then see_uid 2 value i
        else if type =? AT_GID then see_gid 4 value i else if type =? AT_EGID then see_gid 8 value i else i).
Proof.
  intros Hn. cbn [read_entry].
  repeat match goal with |- context [if type =? ?k then _ else _] => destruct (Z.eqb_spec type k) as [->|] end; try done.
  destruct (_ && _) eqn:E; [|done]. apply andb_prop in E as [->%Z.eqb_eq _]. done.
Qed.

Lemma values_snoc type l k v : values type (l ++ [(k, v)]) = if k =? type then values type l ++ [v] else values type l.
Proof. rewrite values_app. cbn. destruct (k =? type); [done|by rewrite app_nil_r]. Qed.
Lemma fold_ids l : AT_SECURE ∉ l.*1 ->
  (foldl read (initial_aux, no_ids) l).2 = ids_of l /\ __libc_enable_secure (foldl read (initial_aux, no_ids) l).1 = 0.
Proof.
  induction l as [|[k v] l IH] using rev_ind; intros Hs; [done|]. rewrite fmap_app in Hs. apply not_elem_of_app in Hs as [Hs Hk].
  assert (k <> AT_SECURE) as Hk' by (intros ->; apply Hk; by left). destruct (IH Hs) as [Hi Hg]. rewrite foldl_app. cbn [foldl].
  destruct (foldl read _ l) as [g i]. cbn [fst snd] in Hi, Hg. destruct (read_ids g i k v Hk') as [-> ->]. split; [|done]. subst i.
  unfold ids_of, see_uid, see_gid. rewrite !values_snoc. cbn [uid gid seen].
  destruct (Z.eqb_spec k AT_UID) as [->|]; [|destruct (Z.eqb_spec k AT_EUID) as [->|]; [|destruct (Z.eqb_spec k AT_GID) as [->|];
    [|destruct (Z.eqb_spec k AT_EGID) as [->|]; [|done]]]]; cbn [Z.eqb Pos.eqb AT_UID AT_EUID AT_GID AT_EGID];
    rewrite xor_all_snoc, flag_snoc; f_equal; try by_bits.
  all: by destruct (values AT_UID l), (values AT_EUID l), (values AT_GID l), (values AT_EGID l).
Qed.

(** Once the kernel decided, the identifiers do not matter. *)
Lemma fold_after l g i : AT_SECURE ∉ l.*1 -> seen i = -1 ->
  seen (foldl read (g, i) l).2 = -1 /\ __libc_enable_secure (foldl read (g, i) l).1 = __libc_enable_secure g.
Proof.
  induction l as [|[k v] l IH] using rev_ind; intros Hs Hi; [done|]. rewrite fmap_app in Hs. apply not_elem_of_app in Hs as [Hs Hk].
  assert (k <> AT_SECURE) as Hk' by (intros ->; apply Hk; by left). destruct (IH Hs Hi) as [Hseen Hg]. rewrite foldl_app. cbn [foldl].
  destruct (foldl read _ l) as [g' i']. cbn [fst snd] in Hseen, Hg. destruct (read_ids g' i' k v Hk') as [-> ->]. split; [|done].
  repeat case_match; cbn [see_uid see_gid seen]; rewrite ?Hseen; done.
Qed.
Lemma flags_seen a b c d :
  Z.lor (Z.lor (flag 1 a) (flag 2 b)) (Z.lor (flag 4 c) (flag 8 d)) = 0xf <-> a <> [] /\ b <> [] /\ c <> [] /\ d <> [].
Proof. destruct a, b, c, d; cbn; split; intros; destruct_and?; done. Qed.
Lemma lxor_differ a b : (Z.lxor a b =? 0) = (a =? b).
Proof.
  apply eq_bool_prop_intro. rewrite !Is_true_true, !Z.eqb_eq. split; [apply Z.lxor_eq|intros ->; apply Z.lxor_nilpotent].
Qed.

(** C32: A program with elevated rights runs in secure mode.  If the kernel passes its decision, that is the mode.  Otherwise
    the mode is secure exactly if the real and the effective user or group differ; and without all four identifiers it is
    not secure. *)
Theorem secure_mode auxv (e := __libc_enable_secure (read_auxv string_length p auxv)) :
  (forall before v after, auxv = before ++ (AT_SECURE, v) :: after -> AT_SECURE ∉ after.*1 -> e = s32 v)
  /\ (AT_SECURE ∉ auxv.*1 ->
      (forall u eu g eg, values AT_UID auxv = [u] -> values AT_EUID auxv = [eu] -> values AT_GID auxv = [g] -> values AT_EGID auxv = [eg] ->
         e = if (s32 u =? s32 eu) && (s32 g =? s32 eg) then 0 else 1)
      /\ (values AT_UID auxv = [] \/ values AT_EUID auxv = [] \/ values AT_GID auxv = [] \/ values AT_EGID auxv = [] -> e = 0)).
Proof.
  unfold e, read_auxv. clear e. split.
  - intros before v after -> Ha. rewrite foldl_app. cbn [foldl]. destruct (foldl read _ before) as [g i].
    change (read (g, i) (AT_SECURE, v)) with (g <| __libc_enable_secure := s32 v |>, MkIds (uid i) (gid i) (-1)).
    destruct (fold_after after (g <| __libc_enable_secure := s32 v |>) (MkIds (uid i) (gid i) (-1)) Ha eq_refl) as [Hs Hg].
    destruct (foldl read _ after) as [g' i']. cbn [fst snd] in Hs, Hg. by rewrite Hs.
  - intros Hs. destruct (fold_ids auxv Hs) as [Hi Hg]. destruct (foldl read _ auxv) as [g i]. cbn [fst snd] in Hi, Hg. subst i. split.
    + intros u eu gi eg Hu Heu Hgi Heg. unfold ids_of. rewrite Hu, Heu, Hgi, Heg. cbn [seen uid gid flag xor_all foldr].
      change (Z.lor (Z.lor 1 2) (Z.lor 4 8) =? 0xf) with true. cbv iota.
      rewrite !Z.lxor_0_r, !lxor_differ. by destruct (s32 u =? s32 eu), (s32 gi =? s32 eg).
    + intros Hmissing. destruct (Z.eqb_spec (seen (ids_of auxv)) 0xf) as [Hf|]; [|done].
      unfold ids_of in Hf. cbn [seen] in Hf. apply flags_seen in Hf as (H1 & H2 & H3 & H4). naive_solver.
Qed.
End secure.

(** An example: a program that belongs to another user, and the kernel's decision *)
Definition ex_setuid : list (Z * Z) := [(AT_PAGESZ, 4096); (AT_UID, 1000); (AT_EUID, 0); (AT_GID, 1000); (AT_EGID, 1000)].
Lemma secure_mode_witness :
  __libc_enable_secure (read_auxv id DEBIAN_BOOKWORM ex_setuid) = 1
  /\ __libc_enable_secure (read_auxv id DEBIAN_BOOKWORM (ex_setuid ++ [(AT_SECURE, 0)])) = 0.
Proof.
  destruct (secure_mode id DEBIAN_BOOKWORM ex_setuid) as [_ Hids]. destruct (secure_mode id DEBIAN_BOOKWORM (ex_setuid ++ [(AT_SECURE, 0)])) as [Hk _].
  split.
  - destruct Hids as [Hd _]; [apply (bool_decide_eq_true_1 _); vm_compute; reflexivity|]. exact (Hd 1000 0 1000 1000 eq_refl eq_refl eq_refl eq_refl).
  - refine (Hk ex_setuid 0 [] eq_refl _). apply (bool_decide_eq_true_1 _). vm_compute. reflexivity.
Defined.

(** * Functions and lists of the structures *)

(** The members that global.hpp declares as pointers to functions *)
Definition function_members : list string :=
  ["_dl_error_catch_tsd"; "_dl_rtld_lock_recursive"; "_dl_rtld_unlock_recursive"; "_dl_make_stack_executable_hook"; "_dl_init_static_tls";
   "_dl_wait_lookup_done"; "_dl_debug_printf"; "_dl_catch_error"; "_dl_signal_error"; "_dl_mcount"; "_dl_lookup_symbol_x";
   "_dl_check_caller"; "_dl_open"; "_dl_close"; "_dl_error_free"; "_dl_tls_get_addr_soft"; "_dl_libc_freeres"; "_dl_find_object";
   "_dl_discover_osversion"]%string.
Definition members_of (t : ctype) : list (member ctype) := match t with Struct l => l | _ => [] end.
Definition member_name (m : member ctype) : string := match m with Field n _ => n | Bits n _ _ => n end.
Definition functions_in (t : ctype) : list string :=
  filter (fun n => n ∈ function_members) (member_name <$> members_of t).
(** The members of the type list_t *)
Definition is_list (m : member ctype) : bool := match m with Field _ (Struct [Field "next" _; Field "prev" _]%string) => true | _ => false end.
Definition lists_in (t : ctype) : list string := member_name <$> filter (fun m => is_list m = true) (members_of t).

Definition tables_complete (p : platform) : bool :=
  let complete assigned t :=
    bool_decide (NoDup assigned) && bool_decide (list_to_set assigned =@{gset string} list_to_set (functions_in t)) in
  complete (fst <$> global_functions p) (Global p) && complete (fst <$> global_ro_functions p) (GlobalRO p)
  && bool_decide (cleared_lists p = lists_in (Global p)).
Lemma same_elements (l l' : list string) : list_to_set l =@{gset string} list_to_set l' -> forall n, n ∈ l' <-> n ∈ l.
Proof. intros Hs n. by rewrite <- !(elem_of_list_to_set (C := gset string)), Hs. Qed.
(** No function is missing.  On every supported platform the functions that are entered into the two structures are exactly the members
    of the structures that are pointers to functions, each once, and the lists that are made empty are exactly those it has. *)
Theorem function_tables_complete p :
  (forall n, n ∈ functions_in (Global p) <-> n ∈ fst <$> global_functions p)
  /\ (forall n, n ∈ functions_in (GlobalRO p) <-> n ∈ fst <$> global_ro_functions p)
  /\ NoDup (fst <$> global_functions p) /\ NoDup (fst <$> global_ro_functions p) /\ cleared_lists p = lists_in (Global p).
Proof.
  assert (tables_complete p = true) as Hc by (destruct p; vm_compute; reflexivity). unfold tables_complete in Hc.
  rewrite !andb_true_iff, !bool_decide_eq_true in Hc. destruct Hc as [[[H1 H2] [H3 H4]] H5].
  split_and!; [by apply same_elements|by apply same_elements|done..].
Qed.
End GlibcInitProofs.
