(* ===== verification/StartProofs.v ===== *)
(** Theorems about starting object files (Start.v): the arguments GLIBC's start function and main get. *)
From S2P Require Import Prelude Platform X86 Segment Symbol World Object Process Identity Loader DlResolve Start Samples DlResolveProofs.

Module StartProofs.
Import Process(reg(..)) DlResolve Start DlResolveProofs.

(** Aligning the stack pointer *)
Lemma and_16 sp : 0 <= sp < 2^64 -> Z.land sp (w64 (-16)) = sp - sp mod 16.
Proof.
  intros Hs. change (w64 (-16)) with (Z.ldiff (Z.ones 64) (Z.ones 4)). 
  transitivity (Z.ldiff sp (Z.ones 4)).
  - apply Z.bits_inj'. intros n Hn. rewrite Z.land_spec, !Z.ldiff_spec. destruct (decide (n < 64)).
    + rewrite (Z.ones_spec_low 64) by lia. done.
    + rewrite (Z.bits_above_log2 sp n); [done|lia|]. destruct (decide (sp = 0)) as [->|]; [cbn; lia|]. apply Z.log2_lt_pow2; [lia|].
      apply (Z.lt_le_trans _ (2^64)); [lia|]. apply Z.pow_le_mono_r; lia.
  - rewrite Z.ldiff_ones_r by lia. rewrite Z.shiftr_div_pow2, Z.shiftl_mul_pow2 by lia. pose proof (Z.div_mod sp (2^4)). change (2^4) with 16 in *. lia.
Qed.

(** C33: GLIBC gets its program.  From the initial stack, whatever its alignment, the start code reaches the call of
    __libc_start_main with the function main, the number and the vector of arguments, no functions to initialize and finalize, the
    function to call at the end, and the end of the stack as arguments; the stack is aligned as the ABI asks for at a
    call, the frame pointer marks the outermost frame.  Only the number of arguments and the 24 bytes below it may be overwritten:
    the two pointers of Luci it reads may be anywhere else, below the stack (where Luci is linked) or above it. *)
Theorem libc_start_calls c main_at libc_at (sp := regs c RSP) (c' := run (libc_start main_at libc_at) c) :
  (forall r, 0 <= regs c r < 2^64) -> 64 <= sp -> sp + 8 < 2^64 ->
  0 <= main_at < 2^64 -> main_at + 8 <= sp - 24 \/ sp + 8 <= main_at ->
  0 <= libc_at < 2^64 -> libc_at + 8 <= sp - 24 \/ sp + 8 <= libc_at ->
  call_target c' = load libc_at c
  /\ regs c' RDI = load main_at c /\ regs c' RSI = load sp c /\ regs c' RDX = sp + 8
  /\ regs c' RCX = 0 /\ regs c' R8 = 0 /\ regs c' R9 = regs c RDX
  /\ load (regs c' RSP) c' = regs c' RSP + 8
  /\ regs c' RSP mod 16 = 0 /\ regs c' RBP = 0
  /\ same_mem (fun a => a < sp - 24 \/ sp + 8 <= a) c c'.
Proof.
  intros Hregs Hs Ht Hmain Hmain' Hlibc Hlibc'. set (c1 := run [ENDBR64; MOVI 0 RBP; MOV RDX R9; POP RSI; MOV RSP RDX; AND (-16) RSP] c).
  assert (w64 (sp + 8) = sp + 8) as Hw by (apply w64_small; unfold is_u64; lia).
  assert (regs c1 RSP = sp + 8 - (sp + 8) mod 16) as Hsp1.
  { change (regs c1 RSP) with (Z.land (w64 (sp + 8)) (w64 (-16))). rewrite Hw. apply and_16. lia. }
  assert (regs c1 RDX = sp + 8) as Hdx1 by exact Hw.
  assert (regs c1 RSI = load sp c /\ regs c1 R9 = regs c RDX /\ regs c1 RBP = 0) as (Hsi1 & H91 & Hbp1) by done.
  assert (mem c1 = mem c) as Hm1 by done.
  change c' with (run [MOVI 0 RCX; MOVI 0 R8; MOVI main_at R12; LOAD 0 R12 RDI; MOVI libc_at R12] (push (regs (push (regs c1 RAX) c1) RSP) (push (regs c1 RAX) c1))).
  clearbody c1. clear c'. pose proof (Z.mod_pos_bound (sp + 8) 16). pose proof (Z.div_mod (sp + 8) 16).
  destruct (push_spec (regs c1 RAX) c1) as (Hsp2 & Hr2 & Hm2 & _); [lia|]. set (c2 := push (regs c1 RAX) c1) in *. clearbody c2.
  destruct (push_spec (regs c2 RSP) c2) as (Hsp3 & Hr3 & Hm3 & Hl3 & _); [lia|]. set (c3 := push (regs c2 RSP) c2) in *. clearbody c3.
  set (c4 := run _ c3).
  assert (same_mem (fun a => a < sp - 24 \/ sp + 8 <= a) c c3) as Hm.
  { intros a Ha. rewrite Hm3, Hm2 by lia. by rewrite Hm1. }
  assert (forall a, a + 8 <= sp - 24 \/ sp + 8 <= a -> load a c3 = load a c) as Hload by (intros a Ha; apply (load_same _ _ _ _ Hm); lia).
  assert (w64 main_at = main_at /\ w64 libc_at = libc_at) as [Hwm Hwl] by (split; apply w64_small; unfold is_u64; lia).
  split_and!.
  - change (call_target c4) with (load (w64 libc_at) c3). rewrite Hwl. apply Hload. lia.
  - change (regs c4 RDI) with (load (w64 (w64 main_at + 0)) c3). rewrite Hwm, Z.add_0_r, Hwm. apply Hload. lia.
  - change (regs c4 RSI) with (regs c3 RSI). by rewrite Hr3, Hr2 by done.
  - change (regs c4 RDX) with (regs c3 RDX). by rewrite Hr3, Hr2 by done.
  - done.
  - done.
  - change (regs c4 R9) with (regs c3 R9). by rewrite Hr3, Hr2 by done.
  - change (regs c4 RSP) with (regs c3 RSP). change (load (regs c3 RSP) c4) with (load (regs c3 RSP) c3). rewrite Hsp3, Hl3, Z.sub_add.
    apply w64_small. unfold is_u64. lia.
  - change (regs c4 RSP) with (regs c3 RSP). rewrite Hsp3, Hsp2, Hsp1.
    replace (sp + 8 - (sp + 8) mod 16 - 8 - 8) with (((sp + 8) / 16 - 1) * 16) by lia. by rewrite Z.mod_mul.
  - change (regs c4 RBP) with (regs c3 RBP). by rewrite Hr3, Hr2 by done.
  - exact Hm.
Qed.

(** Without GLIBC, main gets its arguments.  The dummy start code calls main with the number and the vector of arguments on an
    aligned stack, and the result of main is the argument of the exit function. *)
Theorem luci_start_calls c main_at (sp := regs c RSP) (c' := run (luci_start main_at) c) :
  (forall r, 0 <= regs c r < 2^64) -> sp + 8 < 2^64 -> 0 <= main_at < 2^64 ->
  call_target c' = load main_at c
  /\ regs c' RDI = load sp c /\ regs c' RSI = sp + 8 /\ regs c' RBP = 0
  /\ regs c' RSP mod 16 = 0 /\ regs c' RSP <= sp + 8 /\ mem c' = mem c
  /\ (forall c2, regs (run luci_after_main c2) RDI = regs c2 RAX)
  /\ regs c' RDX = regs c RDX.
Proof.
  intros Hregs Ht Hmain. assert (w64 (sp + 8) = sp + 8) as Hw by (apply w64_small; unfold is_u64; specialize (Hregs RSP); fold sp in Hregs; lia).
  assert (regs c' RSP = sp + 8 - (sp + 8) mod 16) as Hsp.
  { change (regs c' RSP) with (Z.land (w64 (sp + 8)) (w64 (-16))). rewrite Hw. apply and_16. specialize (Hregs RSP). fold sp in Hregs. lia. }
  pose proof (Z.mod_pos_bound (sp + 8) 16). pose proof (Z.div_mod (sp + 8) 16). split_and!; try done.
  - change (call_target c') with (load (w64 main_at) c). by rewrite w64_small.
  - rewrite Hsp. replace (sp + 8 - (sp + 8) mod 16) with ((sp + 8) / 16 * 16) by lia. by rewrite Z.mod_mul.
  - rewrite Hsp. lia.
Qed.

(** * An example: three arguments, main at 0x401000; the pointers are in Luci, below the stack *)

#[local] Existing Instance reg_eq_dec.
Definition ex_start_cpu : cpu :=
  MkCpu (fun r => if decide (r = RSP) then 0x7fffffff0008 else 0x1234)
    (wr (wr ∅ 0x7fffffff0008 (le_bytes 8 3)) 0x6ffff0001000 (le_bytes 8 0x401000 ++ le_bytes 8 0x7f0000)) (fun _ => 0) (Samples.ex_world Samples.ex_config).
Lemma libc_start_calls_witness :
  let c := run (libc_start 0x6ffff0001000 0x6ffff0001008) ex_start_cpu in
  call_target c = 0x7f0000 /\ regs c RDI = 0x401000 /\ regs c RSI = 3 /\ regs c RDX = 0x7fffffff0010 /\ regs c RSP mod 16 = 0.
Proof.
  destruct (libc_start_calls ex_start_cpu 0x6ffff0001000 0x6ffff0001008) as (Ht & Hdi & Hsi & Hdx & _ & _ & _ & _ & Hsp & _).
  - intros r. unfold ex_start_cpu. cbn [regs]. case_decide; lia.
  - vm_compute. congruence.
  - vm_compute. reflexivity.
  - lia.
  - left. vm_compute. congruence.
  - lia.
  - left. vm_compute. congruence.
  - split; [etransitivity; [exact Ht|vm_compute; reflexivity]|]. split; [etransitivity; [exact Hdi|vm_compute; reflexivity]|].
    split; [etransitivity; [exact Hsi|vm_compute; reflexivity]|]. split; [exact Hdx|exact Hsp].
Defined.
End StartProofs.
