(* ===== verification/DlInterfaceProofs.v ===== *)
(** Theorems about the interface for programs (DlInterface.v): the search path written by dlinfo, and the objects found by
    addresses. *)
From S2P Require Import Prelude Platform X86 Segment Symbol Tls World Object Identity Process Loader DlInterface Samples.

Module DlInterfaceProofs.
Import X86 World Object Identity Loader DlInterface.

(** * Memory *)

Lemma load_le_out m a bs x n :
  x + Z.of_nat n <= a \/ a + Z.of_nat (length bs) <= x -> load_le (rd (wr m a bs)) x n = load_le (rd m) x n.
Proof.
  intros Hd. unfold load_le. f_equal. apply list_fmap_ext. intros i j [-> ?]%lookup_seq. apply rd_wr_out. lia.
Qed.
Lemma load_le_same m m' x n : (forall y, x <= y < x + Z.of_nat n -> rd m' y = rd m y) -> load_le (rd m') x n = load_le (rd m) x n.
Proof. intros Hm. unfold load_le. f_equal. apply list_fmap_ext. intros i j [-> ?]%lookup_seq. apply Hm. lia. Qed.
Lemma string_bytes_length s : Z.of_nat (length (string_bytes s)) = string_len s.
Proof.
  unfold string_bytes, string_len. rewrite length_fmap. f_equal. induction s as [|c s IH]; cbn; [done|]. by rewrite <- IH.
Qed.

(** The bytes the names take, with their terminators *)
Definition total (dirs : list string) : Z := foldr (fun d n => string_len d + 1 + n) 0 dirs.
Lemma total_nonneg dirs : 0 <= total dirs.
Proof.
  induction dirs as [|d dirs IH]; [done|]. change (0 <= string_len d + 1 + total dirs). unfold string_len. lia.
Qed.

Lemma count_dirs dirs n : 0 <= n -> n + Z.of_nat (length dirs) < 2^64 ->
  foldl (fun n (_ : string) => w64 (n + 1)) n dirs = n + Z.of_nat (length dirs).
Proof.
  revert n; induction dirs as [|d dirs IH]; intros n Hn Hl; cbn [foldl length] in *; [lia|].
  rewrite w64_small by (unfold is_u64; lia). rewrite IH; lia.
Qed.
Lemma sum_dirs dirs n : 0 <= n -> n + total dirs < 2^64 ->
  foldl (fun n d => w64 (n + string_len d + 1)) n dirs = n + total dirs.
Proof.
  revert n; induction dirs as [|d dirs IH]; intros n Hn Hl; cbn [foldl total foldr] in *; [lia|]. fold (total dirs) in *.
  pose proof (total_nonneg dirs). assert (0 <= string_len d) by (unfold string_len; lia).
  rewrite w64_small by (unfold is_u64; lia). rewrite IH; lia.
Qed.

(** * Filling in the search path *)

(** The entry of a directory: its name is at [p], within the buffer *)
Definition entry_at (m : memory) (info lib : Z) (dir : string) (lo hi : Z) : Prop :=
  let p := word m (dls_serpath info lib) in
  lo <= p /\ p + string_len dir + 1 <= hi /\ rds m p (S (length (string_bytes dir))) = string_bytes dir ++ [0]
  /\ load_le (rd m) (dls_serpath info lib + 8) 4 = 0.

Section fill.
Context (info cnt size : Z).
Hypothesis (Hinfo : 0 <= info) (Hcnt : 0 <= cnt < 2^32) (Hsize : 0 <= size) (Hend : info + size <= 2^64).
(** The header describes a buffer. *)
Definition header (m : memory) : Prop := dls_cnt m info = cnt /\ dls_size m info = size.
Definition strings : Z := sizeof_Serinfo + cnt * sizeof_Serpath.

Lemma header_same m m' : (forall x, info <= x < info + 16 -> rd m' x = rd m x) -> header m -> header m'.
Proof.
  intros Hm [Hc Hs]. split; [rewrite <- Hc|rewrite <- Hs]; apply load_le_same; intros; apply Hm; lia.
Qed.

(** What filling in the directories from the number [lib] on leaves, with the result [r] *)
Record filled (dirs : list string) (lib pos : Z) (r : Z) (d d' : dl) : Prop := {
  fl_world : d_world d' = d_world d;
  fl_mem x : x < dls_serpath info lib \/ info + size <= x \/ dls_serpath info cnt <= x < info + pos -> rd (d_mem d') x = rd (d_mem d) x;
  fl_result : r = 0 \/ r = -1 /\ error_msg d' <> None;
  fl_ok : r = 0 <-> dirs = [] \/ lib + Z.of_nat (length dirs) <= cnt /\ pos + total dirs <= size;
  fl_entries : r = 0 -> forall j dir, dirs !! j = Some dir -> entry_at (d_mem d') info (lib + Z.of_nat j) dir (info + pos) (info + size);
}.

Lemma serinfo_fill_spec dirs lib pos d :
  header (d_mem d) -> 0 <= lib -> lib + Z.of_nat (length dirs) < 2^64 -> strings <= pos -> pos + total dirs < 2^64 ->
  exists r d', serinfo_fill info dirs lib pos d = Ok (r, d') /\ filled dirs lib pos r d d'.
Proof.
  revert lib pos d. induction dirs as [|dir dirs IH]; intros lib pos d Hh Hlib Hlibs Hpos Htot.
  { exists 0, d. split; [done|]. split; auto; [split; auto|]. intros _ j dir' Hj. by rewrite lookup_nil in Hj. }
  change (total (dir :: dirs)) with (string_len dir + 1 + total dirs) in *. cbn [length] in Hlibs. pose proof (total_nonneg dirs) as Hnn.
  assert (0 <= string_len dir) as Hlen by (unfold string_len; lia).
  cbn [serinfo_fill]. unfold mbind, M_bind, gets. pose proof Hh as [Hc Hs]. rewrite Hc, Hs.
  unfold strings, sizeof_Serinfo, sizeof_Serpath in *.
  rewrite (w64_small (string_len dir + 1)) by (unfold is_u64; lia). rewrite (w64_small (pos + _)) by (unfold is_u64; lia).
  destruct (cnt <=? lib) eqn:E1.
  { apply Z.leb_le in E1. eexists _, _. split; [reflexivity|]. split; [done|done|by right|split; [lia|]|done]. intros [|[Hl Ht]]; [done|]. change (total (dir :: dirs)) with (string_len dir + 1 + total dirs) in Ht. cbn [length] in Hl. lia. }
  destruct (size <? pos + (string_len dir + 1)) eqn:E2.
  { apply Z.ltb_lt in E2. eexists _, _. split; [reflexivity|]. split; [done|done|by right|split; [lia|]|done]. intros [|[Hl Ht]]; [done|]. change (total (dir :: dirs)) with (string_len dir + 1 + total dirs) in Ht. cbn [length] in Hl. lia. }
  apply Z.leb_gt in E1. apply Z.ltb_ge in E2. unfold modify.
  rewrite (w64_small (info + pos)) by (unfold is_u64; lia). rewrite (w64_small (lib + 1)) by (unfold is_u64; lia).
  set (bs := string_bytes dir ++ [0]). assert (Z.of_nat (length bs) = string_len dir + 1) as Hbs.
  { unfold bs. rewrite length_app, Nat2Z.inj_add, string_bytes_length. done. }
  set (d1 := d <| d_mem ::= fun m => wr (wr (wr m (info + pos) bs) (dls_serpath info lib) (le_bytes 8 (info + pos)))
                                       (dls_serpath info lib + 8) (le_bytes 4 0) |>).
  assert (d_mem d1 = wr (wr (wr (d_mem d) (info + pos) bs) (dls_serpath info lib) (le_bytes 8 (info + pos))) (dls_serpath info lib + 8) (le_bytes 4 0)) as Hd1 by done.
  assert (forall x, x < dls_serpath info lib \/ info + size <= x \/ dls_serpath info (lib + 1) <= x < info + pos -> rd (d_mem d1) x = rd (d_mem d) x) as Hm1.
  { unfold dls_serpath, sizeof_Serinfo, sizeof_Serpath. intros x Hx. rewrite Hd1.
    rewrite !rd_wr_out; rewrite ?le_bytes_length, ?Hbs; unfold dls_serpath, sizeof_Serinfo, sizeof_Serpath; try done; lia. }
  destruct (IH (lib + 1) (pos + (string_len dir + 1)) d1) as (r & d' & Hr & [Hw Hm Hres Hok Hent]); try lia.
  { apply (header_same (d_mem d)); [|done]. intros x Hx. apply Hm1. unfold dls_serpath, sizeof_Serinfo, sizeof_Serpath. lia. }
  exists r, d'. split; [exact Hr|]. unfold dls_serpath, sizeof_Serinfo, sizeof_Serpath in *. split.
  - exact Hw.
  - intros x Hx. unfold dls_serpath, sizeof_Serinfo, sizeof_Serpath in Hx. rewrite Hm, Hm1; [done|lia|lia].
  - exact Hres.
  - assert (dirs = [] -> length dirs = 0%nat /\ total dirs = 0) as Hnil by (by intros ->).
    rewrite Hok. change (total (dir :: dirs)) with (string_len dir + 1 + total dirs). cbn [length]. split.
    + intros [[? ?]%Hnil|]; right; lia.
    + intros [|]; [done|]. right. lia.
  - intros Hr0 j dir' Hj. destruct j as [|j].
    2: { replace (lib + Z.of_nat (S j)) with (lib + 1 + Z.of_nat j) by lia. destruct (Hent Hr0 j dir' Hj) as (? & ? & ? & ?).
         split; [lia|done]. }
    injection Hj as <-. rewrite Z.add_0_r. unfold entry_at, dls_serpath, sizeof_Serinfo, sizeof_Serpath.
    assert (forall x n, info + 16 + lib * 16 <= x -> x + Z.of_nat n <= info + 16 + (lib + 1) * 16 -> load_le (rd (d_mem d')) x n = load_le (rd (d_mem d1)) x n) as Hl.
    { intros x n Hx1 Hx2. apply load_le_same. intros y Hy. apply Hm. lia. }
    assert (word (d_mem d') (info + 16 + lib * 16) = info + pos) as ->.
    { unfold word. rewrite Hl by lia. rewrite Hd1. rewrite load_le_out by (unfold dls_serpath, sizeof_Serinfo, sizeof_Serpath; lia).
      rewrite (load_le_64 _ _ (info + pos)) by apply reads_wr. apply w64_small. unfold is_u64; lia. }
    split_and!; [lia|lia| |].
    + fold bs. assert (S (length (string_bytes dir)) = length bs) as -> by (unfold bs; rewrite length_app; cbn [length]; lia).
      transitivity (rds (wr (d_mem d) (info + pos) bs) (info + pos) (length bs)); [|by rewrite rds_wr].
      apply rds_ext. intros x Hx. rewrite Hm by lia. rewrite Hd1.
      rewrite (rd_wr_out _ _ (le_bytes 4 0)), (rd_wr_out _ _ (le_bytes 8 _)) by (rewrite le_bytes_length; unfold dls_serpath, sizeof_Serinfo, sizeof_Serpath; lia). done.
    + rewrite Hl by lia. rewrite Hd1. rewrite (reads_load_le _ _ (le_bytes 4 0)); [done|]. apply reads_wr.
Qed.
End fill.

(** * dlinfo *)

Section dl.
Context `{DlhMath} `{ObjectOps} `{Env} `{Symbol.StringOps} (path_pointer : Z -> Z) (tls_data : Z -> M world Z).

(** Events only *)
Definition log (e : event) (d : dl) : dl := d <| d_world ::= fun w => w <| trace ::= fun t => t ++ [e] |> |>.
Lemma reading_Ok {A} (m : M dl A) d a d' : m (log Ev_read_lock d) = Ok (a, d') -> reading m d = Ok (a, log Ev_read_unlock d').
Proof. intros Hm. unfold reading, mbind, M_bind. change (on_world (emit Ev_read_lock) d) with (@Ok (unit * dl) (tt, log Ev_read_lock d)). cbv iota beta. by rewrite Hm. Qed.

(** The handle, and the search path of its current version *)
Record searched (d : dl) (i : Z) (dirs : list string) : Prop := {
  se_loaded : i ∈ lookup (loader (d_world d));
  se_dirs : exists id o ob, identities (d_world d) !! i = Some id /\ current id = Some o /\ objects (d_world d) !! o = Some ob
    /\ dirs = search_path (loader (d_world d)) (rpath (o_dyn ob)) (runpath (o_dyn ob));
}.
Lemma searched_log e d i dirs : searched d i dirs -> searched (log e d) i dirs.
Proof. intros [Hl Hd]. by split. Qed.
Lemma on_world_same {A} (m : M world A) d a : m (d_world d) = Ok (a, d_world d) -> on_world m d = Ok (a, d).
Proof. intros Hm. unfold on_world. rewrite Hm. by destruct d. Qed.
Lemma get_identity_same d i id : identities (d_world d) !! i = Some id -> on_world (get_identity i) d = Ok (id, d).
Proof. intros Hid. apply on_world_same. unfold get_identity. by rewrite Hid. Qed.
Lemma get_object_same d o ob : objects (d_world d) !! o = Some ob -> on_world (get_object o) d = Ok (ob, d).
Proof. intros Ho. apply on_world_same. unfold get_object. by rewrite Ho. Qed.
Lemma serinfo_dirs_Ok d i dirs : searched d i dirs -> serinfo_dirs i d = Ok (dirs, d).
Proof.
  intros [_ (id & o & ob & Hid & Hc & Ho & ->)]. unfold serinfo_dirs, mbind, M_bind.
  rewrite (get_identity_same _ _ _ Hid), Hc. cbv iota. rewrite (get_object_same _ _ _ Ho). done.
Qed.
(** The request reaches its function. *)
Lemma dlinfo_request d i dirs request info (m : M dl Z) a d' :
  searched d i dirs -> info <> 0 ->
  request = RTLD_DI_SERINFOSIZE /\ m = serinfo_size i info \/ request = RTLD_DI_SERINFO /\ m = serinfo i info ->
  m (log Ev_read_lock d) = Ok (a, d') -> dlinfo path_pointer tls_data (Handle i) request info d = Ok (a, log Ev_read_unlock d').
Proof.
  intros Hs Hinfo Hreq Hm. unfold dlinfo. apply reading_Ok. apply (searched_log Ev_read_lock) in Hs. revert Hs Hm.
  generalize (log Ev_read_lock d). clear d. intros d [Hl (id & _ & _ & Hid & _)] Hm.
  unfold loaded, is_loaded, gets, mbind, M_bind, mret, M_ret.
  rewrite bool_decide_true by done. rewrite (get_identity_same _ _ _ Hid). cbv iota.
  unfold not_null. rewrite (proj2 (Z.eqb_neq info 0) Hinfo). destruct Hreq as [[-> ->]|[-> ->]]; exact Hm.
Qed.

(** C27: Asking for the search path of a library never touches memory outside of the caller's buffer.  First, the request for the size
    stores the number of directories and the number of bytes that are needed.  Second, the request for the path itself, whatever the
    buffer's header says: it only writes between the header and the end of the buffer; it succeeds exactly if the header
    leaves enough room -- with the stored size always --; and then the entries are the directories of the search, in order, as
    terminated strings within the buffer. *)
Theorem dlinfo_search_path d i dirs info (cnt := dls_cnt (d_mem d) info) (size := dls_size (d_mem d) info) :
  searched d i dirs -> 0 < info -> info + 16 <= 2^64 -> sizeof_Serinfo + Z.of_nat (length dirs) * sizeof_Serpath + total dirs < 2^32 ->
  (exists d', dlinfo path_pointer tls_data (Handle i) RTLD_DI_SERINFOSIZE info d = Ok (0, d')
     /\ dls_cnt (d_mem d') info = Z.of_nat (length dirs)
     /\ dls_size (d_mem d') info = strings (Z.of_nat (length dirs)) + total dirs
     /\ forall x, x < info \/ info + 16 <= x -> rd (d_mem d') x = rd (d_mem d) x)
  /\ (0 <= cnt < 2^32 -> 0 <= size -> info + size <= 2^64 ->
      exists r d', dlinfo path_pointer tls_data (Handle i) RTLD_DI_SERINFO info d = Ok (r, d')
        /\ (r = 0 \/ r = -1 /\ error_msg d' <> None)
        /\ (forall x, x < info + 16 \/ info + size <= x -> rd (d_mem d') x = rd (d_mem d) x)
        /\ (r = 0 <-> dirs = [] \/ Z.of_nat (length dirs) <= cnt /\ strings cnt + total dirs <= size)
        /\ (r = 0 -> forall j dir, dirs !! j = Some dir ->
             entry_at (d_mem d') info (Z.of_nat j) dir (info + strings cnt) (info + size))).
Proof.
  intros Hs Hinfo Htop Hsmall. pose proof (total_nonneg dirs) as Hnn. unfold sizeof_Serinfo, sizeof_Serpath, strings in *. split.
  - set (n := Z.of_nat (length dirs)) in *. assert (0 <= n) as Hn by apply Nat2Z.is_nonneg. set (d0 := log Ev_read_lock (log Ev_read_lock d)).
    assert (searched d0 i dirs) as Hs0 by (by do 2 apply searched_log).
    set (d1 := d0 <| d_mem ::= fun m => wr m (info + 8) (le_bytes 4 0) |>).
    assert (searched d1 i dirs) as Hs1 by (destruct Hs0; by split).
    set (d2 := d1 <| d_mem ::= fun m => wr m (info + 8) (le_bytes 4 n) |> <| d_mem ::= fun m => wr m info (le_bytes 8 (16 + n * 16 + total dirs)) |>).
    assert (d_mem d2 = wr (wr (wr (d_mem d) (info + 8) (le_bytes 4 0)) (info + 8) (le_bytes 4 n)) info (le_bytes 8 (16 + n * 16 + total dirs))) as Hd2 by done.
    exists (log Ev_read_unlock (log Ev_read_unlock d2)). split; [|].
    { eapply (dlinfo_request d i dirs); [done|lia|left; by split|]. apply reading_Ok. fold d0.
      unfold mbind, M_bind. change (store (info + 8) (le_bytes 4 0) d0) with (@Ok (unit * dl) (tt, d1)). cbv iota beta.
      rewrite (serinfo_dirs_Ok _ _ _ Hs1). cbv iota beta zeta.
      rewrite count_dirs, sum_dirs by lia. rewrite !Z.add_0_l. fold n. rewrite (w64_small (sizeof_Serinfo + n * sizeof_Serpath + total dirs)); [done|].
      unfold is_u64, sizeof_Serinfo, sizeof_Serpath. lia. }
    change (d_mem (log Ev_read_unlock (log Ev_read_unlock d2))) with (d_mem d2). rewrite Hd2. clearbody d2. split_and!.
    + unfold dls_cnt. rewrite load_le_out by (rewrite le_bytes_length; lia). rewrite (load_le_32 _ _ n) by apply reads_wr.
      unfold w32. rewrite Z.mod_small; lia.
    + unfold dls_size, word. rewrite (load_le_64 _ _ (16 + n * 16 + total dirs)) by apply reads_wr. apply w64_small. unfold is_u64, sizeof_Serinfo, sizeof_Serpath. lia.
    + intros x Hx. rewrite !rd_wr_out; rewrite ?le_bytes_length; done || lia.
  - intros Hcnt Hsize Hend. set (d0 := log Ev_read_lock (log Ev_read_lock d)).
    assert (searched d0 i dirs) as Hs0 by (by do 2 apply searched_log).
    destruct (serinfo_fill_spec info cnt size ltac:(lia) Hcnt Hend dirs 0 (16 + cnt * 16) d0) as (r & d' & Hr & [_ Hm Hres Hok Hent]);
      [by split|lia|lia|unfold strings, sizeof_Serinfo, sizeof_Serpath; lia|lia|].
    exists r, (log Ev_read_unlock (log Ev_read_unlock d')). split.
    { eapply (dlinfo_request d i dirs); [done|lia|right; by split|]. apply reading_Ok. fold d0.
      unfold mbind, M_bind, gets. rewrite (serinfo_dirs_Ok _ _ _ Hs0). change (d_mem d0) with (d_mem d). fold cnt.
      rewrite w64_small; [exact Hr|]. unfold is_u64, sizeof_Serinfo, sizeof_Serpath. lia. }
    split; [exact Hres|]. split; [|split].
    + intros x Hx. apply Hm. unfold dls_serpath, sizeof_Serinfo. lia.
    + rewrite Hok. by rewrite Z.add_0_l.
    + intros Hr0 j dir Hj. exact (Hent Hr0 j dir Hj).
Qed.

(** * Finding the object of an address *)

Lemma segment_with_Some w addr o f : segment_with w addr o = Some f ->
  exists ob s, objects w !! o = Some ob /\ s ∈ o_memory_map ob /\ MemorySegment.contains s addr = true
    /\ f = FindObject (MemorySegment.address s) (w64 (MemorySegment.address s + MemorySegment.size s)) (o_file ob) (eh_frame (o_dyn ob)).
Proof.
  unfold segment_with. destruct (objects w !! o) as [ob|]; [|done]. destruct (find _ _) as [s|] eqn:Hf; [|done].
  intros [= <-]. apply find_some in Hf as [Hin Hc]. exists ob, s. split_and!; [done|by apply list_elem_of_In|done|done].
Qed.
Lemma segment_with_None w addr o ob s :
  segment_with w addr o = None -> objects w !! o = Some ob -> s ∈ o_memory_map ob -> MemorySegment.contains s addr = false.
Proof.
  unfold segment_with. intros Hn Ho Hs. rewrite Ho in Hn. destruct (find _ _) as [s'|] eqn:Hf; [done|].
  eapply find_none in Hf; [exact Hf|]. by apply list_elem_of_In.
Qed.

(** C29: The unwinder finds every piece of loaded code, and nothing else.  The lookup by address answers with the place, the library
    and the exception frames of a segment of some loaded version that contains the address -- outdated versions
    included --, which is then between the two bounds of the answer; it only fails if no segment of any version
    contains the address; and it changes nothing. *)
Theorem find_object_complete address d :
  exists r d', _dl_find_object address d = Ok (r, d')
    /\ d_mem d' = d_mem d /\ objects (d_world d') = objects (d_world d) /\ loader (d_world d') = loader (d_world d)
    /\ match r with
       | Some f =>
           exists o ob s, o ∈ all_versions (d_world d) (lookup (loader (d_world d))) /\ objects (d_world d) !! o = Some ob
             /\ s ∈ o_memory_map ob /\ MemorySegment.contains s address = true
             /\ dlfo_map_start f <= address < dlfo_map_end f /\ dlfo_link_map f = o_file ob /\ dlfo_eh_frame f = eh_frame (o_dyn ob)
       | None =>
           forall o ob s, o ∈ all_versions (d_world d) (lookup (loader (d_world d))) -> objects (d_world d) !! o = Some ob ->
             s ∈ o_memory_map ob -> MemorySegment.contains s address = false
       end.
Proof.
  set (w := d_world d). set (os := all_versions w (lookup (loader w))).
  exists (head (omap (segment_with w address) os)), (log Ev_read_unlock (log Ev_read_lock d)).
  split; [done|]. do 3 (split; [done|]).
  destruct (head _) as [f|] eqn:Hh.
  - apply head_Some_elem_of, list_elem_of_omap in Hh as (o & Ho & (ob & s & Hob & Hs & Hc & ->)%segment_with_Some). exists o, ob, s.
    split_and!; try done; cbn; unfold MemorySegment.contains in Hc; apply andb_prop in Hc as [H1' H2']; unfold MemorySegment.address.
    + by apply Z.leb_le.
    + apply Z.ltb_lt in H2'. by rewrite w64_add_l.
  - intros o ob s Ho Hob Hs. destruct (segment_with w address o) as [f|] eqn:Hf; [|by eapply segment_with_None].
    exfalso. apply head_None in Hh. assert (f ∈ omap (segment_with w address) os) as Hin by (apply list_elem_of_omap; eauto).
    rewrite Hh in Hin. by apply elem_of_nil in Hin.
Qed.
End dl.

(** * An example: the search path of the library 2 *)

Import Samples.
Definition ex_dl (header : list Z) : dl := MkDl (ex_world ex_config) None (wr ∅ 0x1000 header).
Definition ex_header (size cnt : Z) : list Z := le_bytes 8 size ++ le_bytes 4 cnt.
Lemma ex_searched h : searched (ex_dl h) 2 ["/lib"; "/usr/lib"]%string.
Proof. split; [apply (bool_decide_eq_true_1 _); vm_compute; reflexivity|]. eexists _, _, _. by split_and!. Qed.
Definition ex_dlinfo (request : Z) (header : list Z) : res (Z * dl) :=
  dlinfo (fun _ => 0) (fun _ => mret 0) (Handle 2) request 0x1000 (ex_dl header).

(** 62 bytes are needed; with them the second directory is found behind the entries and the first name. *)
Lemma dlinfo_search_path_witness :
  (exists d', ex_dlinfo RTLD_DI_SERINFOSIZE [] = Ok (0, d') /\ dls_size (d_mem d') 0x1000 = 62)
  /\ (exists d', ex_dlinfo RTLD_DI_SERINFO (ex_header 62 2) = Ok (0, d') /\ entry_at (d_mem d') 0x1000 1 "/usr/lib" 0x1030 0x103e)
  /\ exists d', ex_dlinfo RTLD_DI_SERINFO (ex_header 61 2) = Ok (-1, d') /\ rd (d_mem d') 0x103d = 0.
Proof.
  assert (sizeof_Serinfo + Z.of_nat (length ["/lib"; "/usr/lib"]%string) * sizeof_Serpath + total ["/lib"; "/usr/lib"]%string < 2^32) as Hsmall
    by (vm_compute; reflexivity).
  split; [|split].
  - destruct (@dlinfo_search_path (fun _ => 0) (fun _ => mret 0) (ex_dl []) 2 ["/lib"; "/usr/lib"]%string 0x1000 (ex_searched _)) as [(d' & Hr & _ & Hs & _) _];
      [lia|vm_compute; congruence|exact Hsmall|]. exists d'. split; [exact Hr|]. rewrite Hs. vm_compute. reflexivity.
  - destruct (@dlinfo_search_path (fun _ => 0) (fun _ => mret 0) (ex_dl (ex_header 62 2)) 2 ["/lib"; "/usr/lib"]%string 0x1000 (ex_searched _)) as [_ Hfill];
      [lia|vm_compute; congruence|exact Hsmall|].
    destruct Hfill as (r & d' & Hr & _ & _ & Hok & Hent); [vm_compute; split; congruence|vm_compute; congruence|vm_compute; congruence|].
    assert (r = 0) as -> by (apply Hok; right; vm_compute; split; congruence). exists d'. split; [exact Hr|].
    exact (Hent eq_refl 1%nat "/usr/lib"%string eq_refl).
  - destruct (@dlinfo_search_path (fun _ => 0) (fun _ => mret 0) (ex_dl (ex_header 61 2)) 2 ["/lib"; "/usr/lib"]%string 0x1000 (ex_searched _)) as [_ Hfill];
      [lia|vm_compute; congruence|exact Hsmall|].
    destruct Hfill as (r & d' & Hr & Hres & Hm & Hok & _); [vm_compute; split; congruence|vm_compute; congruence|vm_compute; congruence|].
    destruct Hres as [->|[-> _]].
    + destruct (proj1 Hok eq_refl) as [Hn|[_ Hs]]; [discriminate Hn|]. vm_compute in Hs. by destruct Hs.
    + exists d'. split; [exact Hr|]. rewrite Hm; [vm_compute; reflexivity|]. right. vm_compute. congruence.
Defined.

(** An address in the outdated version of the library *)
Lemma find_object_complete_witness :
  exists d' f, _dl_find_object 0x600000004100 (ex_dl []) = Ok (Some f, d') /\ dlfo_map_start f <= 0x600000004100 < dlfo_map_end f.
Proof.
  destruct (find_object_complete 0x600000004100 (ex_dl [])) as (r & d' & Hr & _ & _ & _ & Hf).
  assert (exists f, r = Some f) as [f ->] by (vm_compute in Hr; injection Hr as <- _; by eexists).
  destruct Hf as (o & ob & s & _ & _ & _ & _ & Hb & _). exists d', f. split; [exact Hr|exact Hb].
Defined.
End DlInterfaceProofs.
