(* ===== verification/GdbProofs.v ===== *)
(** Theorems about the debugger interface (src/src/comp/gdb.cpp): the flat list shows every loaded version, in
    order, and never forgets an entry. *)
From S2P Require Import Prelude Platform Segment World Object Gdb Loader Samples.

Module GdbProofs.
Import World GDB Loader Samples.

(** * The list of versions *)

Abbreviation shown l := (l_versions <$> l).

Section entries.
Context `{Object.Env}.
Lemma shown_entry w id c : l_versions (entry w id c) = c.
Proof. unfold entry. by destruct (objects w !! c). Qed.
Lemma shown_all w : shown (all_entries w) = all_versions w (lookup (loader w)).
Proof.
  unfold all_entries, all_versions. induction (lookup (loader w)) as [|i l IH]; [done|]. cbn. rewrite fmap_app, IH. f_equal.
  destruct (identities w !! i) as [id|]; [|done]. rewrite <- list_fmap_compose. rewrite <- (list_fmap_id (versions id)) at 2.
  apply list_fmap_ext. intros _ c _. apply shown_entry.
Qed.

End entries.

(** * The loop *)

(** The list begins with what is to be shown, in order. *)
Lemma merge_prefix want have :
  l_versions <$> take (length want) (merge want have) = l_versions <$> want.
Proof.
  revert have; induction want as [|e want IH]; intros have; cbn [merge length take]; [by rewrite firstn_O|].
  destruct have as [|h have]; [cbn; by rewrite IH|].
  case_bool_decide as Heq; cbn; by rewrite IH, ?Heq.
Qed.
(** Nothing is taken out of the list, and what is put in is right. *)
Lemma merge_keeps want have : have `sublist_of` merge want have.
Proof.
  revert have; induction want as [|e want IH]; intros have; [done|]. cbn [merge].
  destruct have as [|h have]; [apply sublist_nil_l|]. case_bool_decide; [by constructor|]. by constructor.
Qed.
Lemma merge_entries want have e : e ∈ merge want have -> e ∈ want \/ e ∈ have.
Proof.
  revert have; induction want as [|x want IH]; intros have; cbn [merge]; [by right|].
  destruct have as [|h have]; [|case_bool_decide]; intros [->|He]%elem_of_cons; try (apply IH in He); set_solver.
Qed.
(** If the list shows only what is to be shown, in order, it is completed. *)
Lemma merge_exact want have : shown have `sublist_of` shown want -> shown (merge want have) = shown want.
Proof.
  revert have; induction want as [|e want IH]; intros have Hs; cbn [merge fmap list_fmap].
  { by apply sublist_nil_r in Hs. }
  destruct have as [|h have].
  { cbn [fmap list_fmap]. f_equal. apply IH, sublist_nil_l. }
  cbn [fmap list_fmap] in Hs |- *. case_bool_decide as Heq; cbn [fmap list_fmap].
  - rewrite Heq in *. f_equal. apply IH. apply sublist_cons_r in Hs as [Hs|(k & [= <-] & Hs)]; [|done].
    transitivity (l_versions e :: shown have); [by constructor|done].
  - f_equal. apply IH. apply sublist_cons_r in Hs as [Hs|(k & [= Hh _] & _)]; [done|by symmetry in Hh].
Qed.
Lemma merge_same want have : shown have = shown want -> merge want have = have.
Proof.
  revert have; induction want as [|e want IH]; intros [|h have] Hs; try done. injection Hs as Hh Hs. cbn [merge].
  rewrite bool_decide_true by done. f_equal. by apply IH.
Qed.
(** An entry whose version is gone stays, and what was behind it is entered a second time. *)
Lemma merge_before want x have : l_versions x ∉ shown want -> merge want (x :: have) = want ++ x :: have.
Proof.
  induction want as [|e want IH]; [done|]. cbn [fmap list_fmap]. intros [Hne Hx]%not_elem_of_cons. cbn [merge].
  rewrite bool_decide_false by done. cbn [app]. f_equal. by apply IH.
Qed.
Lemma merge_stale want l1 k x l2 :
  shown want = shown l1 ++ k -> l_versions x ∉ k ->
  shown (merge want (l1 ++ x :: l2)) = shown want ++ l_versions x :: shown l2.
Proof.
  intros Hw Hx. revert want Hw; induction l1 as [|e l1 IH]; intros want Hw; cbn [app].
  - cbn [fmap list_fmap app] in Hw. subst k. by rewrite merge_before, fmap_app.
  - destruct want as [|e' want]; [done|]. injection Hw as He Hw. cbn [merge]. rewrite bool_decide_true by done.
    cbn [fmap list_fmap app]. rewrite He. f_equal. by apply IH.
Qed.

(** * Refreshing *)

Section refresh.
Context `{Object.Env}.
Lemma refresh_run w :
  r_brk (r_debug w) = true -> debugger (config (loader w)) = true ->
  refresh w = Ok (tt, let l := merge (all_entries w) (flat_link_map (r_debug w)) in
                      w <| r_debug ::= fun r => r <| flat_link_map := l |> <| r_map := Some l |> |>).
Proof.
  intros Hb Hd. assert (r_brk (r_debug w) && debugger (config (loader w)) = true) as Hc by (by rewrite Hb, Hd).
  unfold refresh, mbind, M_bind, get. cbn. by rewrite Hc.
Qed.

(** C26: The debugger sees every version.  With a debugger configured, refreshing always succeeds, changes only the debugger's
    structure, and gives the debugger a list that begins with all versions of all libraries, in the order of the loader with
    the newest version first; each entry is an old one or has the base and the name of its version, and no old entry is lost.
    If every version listed before is still loaded the list shows exactly the loaded versions, and refreshing again does nothing.
    If a version [x] that was listed is gone its entry stays, and the versions behind it are listed a second time. *)
Theorem refresh_shows_versions w :
  r_brk (r_debug w) = true -> debugger (config (loader w)) = true ->
  let old := flat_link_map (r_debug w) in
  let loaded := all_versions w (lookup (loader w)) in
  exists l, refresh w = Ok (tt, w <| r_debug ::= fun r => r <| flat_link_map := l |> <| r_map := Some l |> |>)
    /\ loaded `prefix_of` shown l /\ old `sublist_of` l
    /\ (forall e, e ∈ l -> e ∈ old \/ exists i id, i ∈ lookup (loader w) /\ identities w !! i = Some id /\ l_versions e ∈ versions id
                           /\ e = entry w id (l_versions e))
    /\ (shown old `sublist_of` loaded -> shown l = loaded /\ forall w', refresh w = Ok (tt, w') -> refresh w' = Ok (tt, w'))
    /\ (forall l1 l2 x, loaded = shown l1 ++ shown l2 -> old = l1 ++ x :: l2 -> l_versions x ∉ shown l2 ->
         shown l = loaded ++ l_versions x :: shown l2).
Proof.
  intros Hb Hd old loaded. set (l := merge (all_entries w) old). exists l.
  assert (shown (all_entries w) = loaded) as Hall by apply shown_all. split; [by apply refresh_run|].
  split_and!; [|apply merge_keeps| | |].
  - exists (shown (drop (length (all_entries w)) l)). 
    rewrite <- Hall, <- (merge_prefix (all_entries w) old) at 1. unfold l. by rewrite <- fmap_app, take_drop.
  - intros e [He|He]%merge_entries; [right|by left]. unfold all_entries in He.
    apply list_elem_of_In, in_concat in He as (es & (i & -> & Hi)%list_elem_of_In%list_elem_of_fmap & He%list_elem_of_In). exists i.
    destruct (identities w !! i) as [id|] eqn:Hid; [|by apply not_elem_of_nil in He]. exists id.
    apply list_elem_of_fmap in He as (c & -> & Hc). by rewrite shown_entry.
  - intros Hs. assert (shown l = loaded) as Hl by (rewrite <- Hall; apply merge_exact; by rewrite Hall). split; [done|].
    rewrite refresh_run by done. intros w' [_ <-]%Ok_inj. rewrite refresh_run by done. cbn.
    change (all_entries _) with (all_entries w). rewrite (merge_same (all_entries w)) by (by rewrite Hall). done.
  - intros l1 l2 x Heq Hold Hx. unfold l. rewrite Hold, <- Hall. apply (merge_stale _ l1 (shown l2)); [by rewrite Hall|done].
Qed.
End refresh.

(** * An example: version 12 of libx.so was loaded after 22, and [gone] was discarded *)

Definition ex_debugged (old : list Z) : world :=
  (ex_world ex_config) <| loader ::= fun l => l <| config ::= fun c => c <| debugger := true |> |> |>
    <| r_debug := RDebug 1 true RT_ADD 0 None ((fun c => LinkEntry c 0 EmptyString) <$> old) |>.
Definition ex_refresh (old : list Z) : res (unit * world) := refresh (H1 := ex_env [] [] false) (ex_debugged old).
Definition ex_list (old : list Z) : list Z :=
  match ex_refresh old with Ok (_, w) => shown (flat_link_map (r_debug w)) | _ => [] end.

Lemma refresh_shows_versions_witness :
  ex_list [11; 22] = [11; 12; 22] /\ ex_list [11; 99; 12; 22] = [11; 12; 22; 99; 12; 22].
Proof.
  split.
  - destruct (@refresh_shows_versions (ex_env [] [] false) (ex_debugged [11; 22]) eq_refl eq_refl) as (l & Hr & _ & _ & _ & Hl & _).
    unfold ex_list, ex_refresh. rewrite Hr. cbn. rewrite (proj1 (Hl ltac:(vm_compute; repeat constructor))). vm_compute. reflexivity.
  - destruct (@refresh_shows_versions (ex_env [] [] false) (ex_debugged [11; 99; 12; 22]) eq_refl eq_refl) as (l & Hr & _ & _ & _ & _ & Hl).
    unfold ex_list, ex_refresh. rewrite Hr. cbn -[all_versions].
    rewrite (Hl [LinkEntry 11 0 EmptyString] [LinkEntry 12 0 EmptyString; LinkEntry 22 0 EmptyString] (LinkEntry 99 0 EmptyString)); [vm_compute; reflexivity..|].
    apply (bool_decide_eq_true_1 _). vm_compute. reflexivity.
Defined.
End GdbProofs.
