(* ===== verification/InitProofs.v ===== *)
(** Theorems about the initialization of what is loaded (ObjectIdentity::initialize in src/src/object/identity.cpp,
    Loader::prepare in src/src/loader.cpp): constructors run once, those of the dependencies first, and only after
    everything was relocated. *)
From S2P Require Import Prelude Platform Segment Symbol World Object Identity Gdb Loader Executable Dynamic Relocatable Objects Samples WorldProofs GraphProofs FrameProofs PhaseProofs WellFormedProofs ObjectsProofs.

Module InitProofs.
Import World Object Identity Loader Objects Samples WorldProofs GraphProofs FrameProofs PhaseProofs ObjectsProofs.

(** * The flag of an identity *)

Definition initialized_at (w : world) (i : Z) : option bool := (fun x => initialized (flags x)) <$> identities w !! i.
Definition flag (i : Z) (w : world) : world :=
  w <| identities ::= alter (fun x => x <| flags ::= fun f => f <| initialized := true |> |>) i |>.

Lemma initialized_flag i w x :
  initialized_at (flag i w) x = if decide (x = i) then (if decide (is_Some (identities w !! i)) then Some true else None) else initialized_at w x.
Proof.
  unfold initialized_at, flag. cbn. destruct (decide (x = i)) as [->|Hne]; [|by rewrite lookup_alter_ne].
  rewrite lookup_alter_eq. by destruct (identities w !! i).
Qed.
Definition file_of (w : world) (o : Z) : option Z := o_file <$> objects w !! o.
Lemma frame_file w w' o : frame w w' -> file_of w' o = file_of w o.
Proof. intros Hf. by apply (frame_object_field o_file w w' o Hf). Qed.
Lemma ran_flag i w : ran [] w (flag i w).
Proof. eapply (ran_identity w [] i); [|apply ran_refl|done]. done. Qed.
Lemma frame_initialized w w' i : frame w w' -> initialized_at w' i = initialized_at w i.
Proof. intros Hf. by apply (frame_identity_field (fun x => initialized (flags x)) w w' i Hf). Qed.

(** What is assumed of constructors: they return, and do not load, relocate or initialize libraries themselves. *)
Class InitializesQuietly (ops : ObjectOps) : Prop := {
  framed_initialize o preinit w : keeps (frame w) (v_initialize o preinit);
  ends_initialize o preinit : ends (v_initialize o preinit);
}.

Section initialize.
Context {ops : ObjectOps} `{!InitializesQuietly ops}.

(** * A traversal *)

(** From [w] to [w'] the identities [js] were initialized, in this order; [b] tells whether all went well. *)
Record initialization (b : bool) (w w' : world) (js : list Z) : Prop := {
  in_ran : exists os, Forall2 (fun i o => latest w i = Some o) js os /\ ran (pair V_initialize <$> os) w w';
  in_nodup : NoDup js;
  in_new i : i ∈ js -> initialized_at w i = Some false /\ initialized_at w' i = Some true;
  in_old i : initialized_at w i = Some true -> initialized_at w' i = Some true;
  in_all i : b = true -> initialized_at w' i = Some true -> initialized_at w i = Some true \/ i ∈ js;
  in_deps i o deps d : b = true -> i ∈ js -> latest w i = Some o -> deps_of w o = Some deps -> d ∈ deps ->
    initialized_at w' d = Some true;
  in_file o : file_of w' o = file_of w o;
}.
Lemma in_graph b w w' js : initialization b w w' js -> same_graph w w'.
Proof. intros [(os & _ & R) _ _ _ _ _ _]. apply R. Qed.

Lemma initialization_refl b w : initialization b w w [].
Proof.
  split; try done; [|constructor| | |]; [|by intros i Hi%not_elem_of_nil|by left|by intros i o deps d _ Hi%not_elem_of_nil].
  exists []. split; [done|apply ran_refl].
Qed.
Lemma initialization_trans b w1 w2 w3 js1 js2 :
  initialization true w1 w2 js1 -> initialization b w2 w3 js2 -> initialization b w1 w3 (js1 ++ js2).
Proof.
  intros T1 T2. pose proof (in_graph _ _ _ _ T1) as Hg. split.
  - destruct T1 as [(os1 & M1 & R1) _ _ _ _ _ _], T2 as [(os2 & M2 & R2) _ _ _ _ _ _]. exists (os1 ++ os2). split.
    + apply Forall2_app; [done|]. eapply Forall2_impl; [exact M2|]. cbn. intros d o. by rewrite (same_graph_latest _ _ _ Hg).
    + rewrite fmap_app. by eapply ran_trans.
  - apply NoDup_app. split_and!; [apply T1| |apply T2].
    intros i Hi1 Hi2. apply (in_new _ _ _ _ T1) in Hi1 as [_ ?]. apply (in_new _ _ _ _ T2) in Hi2 as [? _]. congruence.
  - intros i [Hi|Hi]%elem_of_app.
    + apply (in_new _ _ _ _ T1) in Hi as [? ?]. split; [done|]. by apply (in_old _ _ _ _ T2).
    + apply (in_new _ _ _ _ T2) in Hi as [H2 ?]. split; [|done].
      destruct (initialized_at w1 i) as [[]|] eqn:H1; [|done|].
      * apply (in_old _ _ _ _ T1) in H1. congruence.
      * destruct T1 as [(os & _ & [_ [_ Hc] _]) _ _ _ _ _ _]. specialize (Hc i). unfold chain_of, initialized_at in *.
        destruct (identities w1 !! i), (identities w2 !! i); done.
  - intros i Hi. apply (in_old _ _ _ _ T2). by apply (in_old _ _ _ _ T1).
  - intros i Hb Hi. apply (in_all _ _ _ _ T2 i Hb) in Hi as [Hi|Hi]; [|right; apply elem_of_app; by right].
    apply (in_all _ _ _ _ T1 i eq_refl) in Hi as [Hi|Hi]; [by left|right; apply elem_of_app; by left].
  - intros i o deps d Hb [Hi|Hi]%elem_of_app Ho Hd Hin.
    + apply (in_old _ _ _ _ T2). by eapply (in_deps _ _ _ _ T1).
    + apply (in_deps _ _ _ _ T2 i o deps d); [done..| |by rewrite (proj1 Hg)|done]. by rewrite (same_graph_latest _ _ _ Hg).
  - intros o. by rewrite (in_file _ _ _ _ T2), (in_file _ _ _ _ T1).
Qed.

(** One call: nothing to do, a dependency failed, or the constructors of the object ran. *)
Lemma id_initialize_inv fuel i w b w' :
  id_initialize (S fuel) i w = Ok (b, w') ->
  exists o, latest w i = Some o /\
    ((initialized_at w i = Some true /\ b = true /\ w' = w)
     \/ exists deps b1 w1,
         initialized_at w i = Some false /\ deps_of w o = Some deps
         /\ all_until (id_initialize fuel) deps (flag i w) = Ok (b1, w1)
         /\ ((b1 = false /\ b = false /\ w' = w1) \/ (b1 = true /\ initialize o false w1 = Ok (b, w')))).
Proof.
  intros Hr. cbn [id_initialize] in Hr. apply bind_Ok in Hr as (id & w0 & [Hid ->]%get_identity_Ok & Hr).
  destruct (current id) as [o|] eqn:Hc; [|by apply bind_Ok in Hr as (? & ? & ? & _)]. exists o.
  split; [by eapply latest_current|]. unfold initialized_at. rewrite Hid. cbn. destruct (initialized (flags id)).
  { left. by apply Ok_inj in Hr as [<- <-]. }
  right. apply bind_Ok in Hr as ([] & w0 & [_ <-]%Ok_inj & Hr).
  apply bind_Ok in Hr as (ob & w0 & [Hob ->]%get_object_Ok & Hr). apply bind_Ok in Hr as (b1 & w1 & Hall & Hr).
  exists (o_dependencies ob), b1, w1. split; [done|]. split; [unfold deps_of; cbn in Hob; by rewrite Hob|]. split; [exact Hall|].
  destruct b1; [by right|left]. by apply Ok_inj in Hr as [<- <-].
Qed.

Lemma object_initialize_ran o preinit w b w' :
  initialize o preinit w = Ok (b, w') ->
  ran [(if preinit then V_preinitialize else V_initialize, o)] w w' /\ (forall i, initialized_at w' i = initialized_at w i) /\ forall o, file_of w' o = file_of w o.
Proof.
  intros Hr. unfold initialize in Hr. apply bind_Ok in Hr as ([] & w1 & [_ <-]%Ok_inj & Hr).
  eapply framed_initialize in Hr; [|reflexivity]. split_and!; [|intros i; by rewrite (frame_initialized _ _ i Hr)|intros x; by rewrite (frame_file _ _ x Hr)].
  eapply ran_then; [apply ran_called|by apply frame_ran].
Qed.

Lemma all_until_initialization (f : Z -> M world bool) l w b w' :
  (forall i w b w', f i w = Ok (b, w') -> exists js, initialization b w w' js /\ (b = true -> initialized_at w' i = Some true)) ->
  all_until f l w = Ok (b, w') ->
  exists js, initialization b w w' js /\ (b = true -> forall i, i ∈ l -> initialized_at w' i = Some true).
Proof.
  intros Hf. revert w; induction l as [|i l IH]; intros w Hr; cbn in Hr.
  { apply Ok_inj in Hr as [<- <-]. exists []. split; [apply initialization_refl|]. by intros _ i Hi%not_elem_of_nil. }
  apply bind_Ok in Hr as (b1 & w1 & (js1 & T1 & I1)%Hf & Hr). destruct b1.
  - apply IH in Hr as (js2 & T2 & I2). exists (js1 ++ js2). split; [by eapply initialization_trans|].
    intros Hb d [->|Hd]%elem_of_cons; [|by apply I2]. by apply (in_old _ _ _ _ T2), I1.
  - apply Ok_inj in Hr as [<- <-]. by exists js1.
Qed.

(** Between the flag of [i] and its constructors *)
Lemma initialization_flag b i w w1 js :
  initialized_at w i = Some false -> initialization b (flag i w) w1 js ->
  (exists os, Forall2 (fun i o => latest w i = Some o) js os /\ ran (pair V_initialize <$> os) w w1)
  /\ i ∉ js /\ initialized_at w1 i = Some true /\ (forall x, x ∈ js -> initialized_at w x = Some false)
  /\ (forall x, initialized_at w x = Some true -> initialized_at w1 x = Some true)
  /\ (forall x, b = true -> initialized_at w1 x = Some true -> initialized_at w x = Some true \/ x = i \/ x ∈ js).
Proof.
  intros Hi T. assert (initialized_at (flag i w) i = Some true) as Hf.
  { rewrite initialized_flag, decide_True by done. unfold initialized_at in Hi. destruct (identities w !! i); [|done]. by rewrite decide_True. }
  assert (forall x, x <> i -> initialized_at (flag i w) x = initialized_at w x) as Hne by (intros x Hx; by rewrite initialized_flag, decide_False).
  assert (i ∉ js) as Hnot by (intros [Hx _]%(in_new _ _ _ _ T); congruence).
  split_and!; try done.
  - destruct T as [(os & M & R) _ _ _ _ _ _]. exists os. split.
    + eapply Forall2_impl; [exact M|]. cbn. intros d o. by rewrite (same_graph_latest _ _ _ (ran_graph _ _ _ (ran_flag i w))).
    + eapply (ran_trans []); [apply ran_flag|exact R].
  - by apply (in_old _ _ _ _ T).
  - intros x Hx. rewrite <- Hne by (intros ->; done). by apply (in_new _ _ _ _ T).
  - intros x Hx. apply (in_old _ _ _ _ T). destruct (decide (x = i)) as [->|]; [done|by rewrite Hne].
  - intros x Hb Hx. apply (in_all _ _ _ _ T x Hb) in Hx as [Hx|Hx]; [|by right; right].
    destruct (decide (x = i)) as [->|]; [by right; left|left; by rewrite <- Hne].
Qed.

Lemma initialization_failed i w w1 js :
  initialized_at w i = Some false -> initialization false (flag i w) w1 js -> initialization false w w1 js.
Proof.
  intros Hi T. pose proof (in_nodup _ _ _ _ T). destruct (initialization_flag _ _ _ _ _ Hi T) as (R & _ & _ & Hn & Ho & _).
  split; try done; [|apply (in_file _ _ _ _ T)]. intros x Hx. split; [by apply Hn|by apply (in_new _ _ _ _ T)].
Qed.
Lemma initialization_node i o deps w w1 js b w2 :
  initialized_at w i = Some false -> latest w i = Some o -> deps_of w o = Some deps ->
  initialization true (flag i w) w1 js -> (forall d, d ∈ deps -> initialized_at w1 d = Some true) ->
  initialize o false w1 = Ok (b, w2) -> initialization b w w2 (js ++ [i]).
Proof.
  intros Hi Hl Hd T Hdeps (R2 & Hsame & Hfile)%object_initialize_ran. pose proof (in_nodup _ _ _ _ T) as Hnd.
  destruct (initialization_flag _ _ _ _ _ Hi T) as ((os & M & R) & Hnot & Hi1 & Hn & Ho & Ha).
  pose proof (ran_graph _ _ _ (ran_flag i w)) as Hg. split.
  - exists (os ++ [o]). split; [apply Forall2_app; [done|by constructor]|]. rewrite fmap_app. by eapply ran_trans.
  - apply NoDup_app. split_and!; [done| |apply NoDup_singleton]. by intros x Hx ->%list_elem_of_singleton.
  - intros x [Hx| ->%list_elem_of_singleton]%elem_of_app; rewrite Hsame; [|done]. split; [by apply Hn|by apply (in_new _ _ _ _ T)].
  - intros x Hx. rewrite Hsame. by apply Ho.
  - intros x _ Hx. rewrite Hsame in Hx. rewrite elem_of_app, list_elem_of_singleton. destruct (Ha x eq_refl Hx) as [|[]]; auto.
  - intros x ox deps' d _ [Hx| ->%list_elem_of_singleton]%elem_of_app Hlx Hdx Hin; rewrite Hsame.
    + eapply (in_deps _ _ _ _ T x ox deps'); [done..| |by rewrite (proj1 Hg)|done]. by rewrite (same_graph_latest _ _ _ Hg).
    + simplify_eq. by apply Hdeps.
  - intros x. rewrite Hfile. apply (in_file _ _ _ _ T).
Qed.

Lemma id_initialize_initialization fuel i w b w' :
  id_initialize fuel i w = Ok (b, w') -> exists js, initialization b w w' js /\ (b = true -> initialized_at w' i = Some true).
Proof.
  revert i w b w'; induction fuel as [|fuel IH]; intros i w b w' Hr; [done|].
  apply id_initialize_inv in Hr as (o & Ho & [(Hi & -> & ->)|(deps & b1 & w1 & Hi & Hd & Hr & Hb)]).
  { exists []. by split; [apply initialization_refl|]. }
  apply all_until_initialization in Hr as (js & T & Hdeps); [|exact IH].
  destruct Hb as [(-> & -> & ->)|(-> & Hini)].
  - exists js. by split; [eapply initialization_failed|].
  - exists (js ++ [i]). specialize (Hdeps eq_refl). pose proof (initialization_node _ _ _ _ _ _ _ _ Hi Ho Hd T Hdeps Hini) as T2.
    split; [done|]. intros _. apply (in_new _ _ _ _ T2). apply elem_of_app. right. by apply list_elem_of_singleton.
Qed.

(** * Termination *)

(** Every version belongs to the identity it is a version of. *)
Definition filed (w : world) : Prop := forall i o, latest w i = Some o -> file_of w o = Some i.
(** The objects whose identities are not initialized yet *)
Definition pending (w : world) : gset Z := dom (filter (fun x => initialized_at w (o_file x.2) = Some false) (objects w)).
Lemma elem_of_pending w o : o ∈ pending w <-> exists i, file_of w o = Some i /\ initialized_at w i = Some false.
Proof.
  unfold pending, file_of. rewrite elem_of_dom. split.
  - intros [ob [Ho Hs]%map_lookup_filter_Some]. exists (o_file ob). by rewrite Ho.
  - intros (i & Ho & Hs). destruct (objects w !! o) as [ob|] eqn:Hob; [|done]. injection Ho as <-. exists ob.
    by apply map_lookup_filter_Some.
Qed.
Lemma in_back b w w' js i : initialization b w w' js -> initialized_at w' i = Some false -> initialized_at w i = Some false.
Proof.
  intros T Hi. destruct (initialized_at w i) as [[]|] eqn:E; [|done|].
  - apply (in_old _ _ _ _ T) in E. congruence.
  - pose proof (proj2 (in_graph _ _ _ _ T) i) as Hc. unfold chain_of, initialized_at in *.
    destruct (identities w !! i), (identities w' !! i); done.
Qed.
Lemma pending_le b w w' js : initialization b w w' js -> (size (pending w') <= size (pending w))%nat.
Proof.
  intros T. apply subseteq_size. intros o. rewrite !elem_of_pending. intros (i & Ho & Hi). exists i.
  split; [by rewrite <- (in_file _ _ _ _ T)|by eapply in_back].
Qed.
Lemma filed_same w w' : same_graph w w' -> (forall o, file_of w' o = file_of w o) -> filed w -> filed w'.
Proof. intros Hg Hf Hw i o Hl. rewrite Hf. apply Hw. by rewrite <- (same_graph_latest _ _ i Hg). Qed.
Lemma pending_flag w i o :
  latest w i = Some o -> filed w -> initialized_at w i = Some false -> (size (pending (flag i w)) < size (pending w))%nat.
Proof.
  intros Hl Hw Hi. apply Hw in Hl. apply subset_size. split.
  - intros x. rewrite !elem_of_pending. intros (j & Hx & Hj). exists j. split; [done|].
    rewrite initialized_flag in Hj. case_decide; [case_decide; congruence|done].
  - intros Hsub. assert (o ∈ pending (flag i w)) as Hin by (apply Hsub, elem_of_pending; by exists i).
    apply elem_of_pending in Hin as (j & Hx & Hj). change (file_of (flag i w) o) with (file_of w o) in Hx.
    rewrite initialized_flag in Hj. case_decide; [case_decide; congruence|]. congruence.
Qed.

Lemma all_until_initialize_fuel n (f : Z -> M world bool) l w :
  (forall i w, filed w -> (size (pending w) < n)%nat -> f i w <> OutOfFuel) ->
  (forall i w b w', f i w = Ok (b, w') -> exists js, initialization b w w' js) ->
  filed w -> (size (pending w) < n)%nat -> all_until f l w <> OutOfFuel.
Proof.
  intros Hf Ht. revert w; induction l as [|i l IH]; intros w Hfw Hw; [done|]. cbn [all_until].
  intros [Hr|(b & w1 & Hr & Hn)]%bind_OutOfFuel; [by apply (Hf i w)|]. destruct b; [|done].
  apply Ht in Hr as [js T]. apply (IH w1); [| |done].
  - eapply filed_same; [by eapply in_graph|apply T|done].
  - pose proof (pending_le _ _ _ _ T). lia.
Qed.
Lemma id_initialize_fuel fuel i w : filed w -> (size (pending w) < fuel)%nat -> id_initialize fuel i w <> OutOfFuel.
Proof.
  revert i w; induction fuel as [|fuel IH]; intros i w Hf Hw; [lia|]. cbn [id_initialize].
  intros [Hr|(id & w1 & [Hid ->]%get_identity_Ok & Hr)]%bind_OutOfFuel; [by apply ends_get_identity in Hr|].
  destruct (current id) as [o|] eqn:Hc; [|done]. destruct (initialized (flags id)) eqn:Hi; [done|].
  apply bind_OutOfFuel in Hr as [Hr|([] & w1 & [_ <-]%Ok_inj & Hr)]; [done|].
  apply bind_OutOfFuel in Hr as [Hr|(ob & w1 & [_ ->]%get_object_Ok & Hr)]; [by apply ends_get_object in Hr|].
  apply bind_OutOfFuel in Hr as [Hr|(b & w1 & _ & Hr)].
  - revert Hr. apply (all_until_initialize_fuel fuel); [exact IH| | |].
    + intros j v b v' Hr. destruct (id_initialize_initialization _ _ _ _ _ Hr) as (js & T & _). by exists js.
    + eapply (filed_same w); [exact (ran_graph _ _ _ (ran_flag i w))|done|done].
    + assert (initialized_at w i = Some false) as Hn by (unfold initialized_at; by rewrite Hid; cbn; rewrite Hi).
      pose proof (pending_flag w i o (latest_current w i id o Hid Hc) Hf Hn). unfold flag in H. lia.
  - destruct (negb b); [done|]. unfold initialize in Hr. apply bind_OutOfFuel in Hr as [Hr|([] & w2 & _ & Hr)]; [done|].
    by apply ends_initialize in Hr.
Qed.

(** * Order *)

Section order.
Context (rank : Z -> nat).
Abbreviation acyclic := (acyclic rank).

(** The rank of an identity is that of its current version. *)
Definition below (n : nat) (w : world) (js : list Z) : Prop := forall i o, i ∈ js -> latest w i = Some o -> (rank o < n)%nat.
(** When the constructors of an identity run, its dependencies are initialized: before [w], or earlier in the list. *)
Definition dependencies_first (w : world) (js : list Z) : Prop :=
  forall k i o deps d, js !! k = Some i -> latest w i = Some o -> deps_of w o = Some deps -> d ∈ deps ->
    initialized_at w d = Some true \/ d ∈ take k js.

Lemma dependencies_first_app b w w1 w2 js1 js2 :
  initialization true w w1 js1 -> initialization b w1 w2 js2 ->
  dependencies_first w js1 -> dependencies_first w1 js2 -> dependencies_first w (js1 ++ js2).
Proof.
  intros T1 T2 O1 O2 k i o deps d Hk Hl Hd Hin. pose proof (in_graph _ _ _ _ T1) as Hg. apply lookup_app_Some in Hk as [Hk|[Hlen Hk]].
  - destruct (O1 k i o deps d Hk Hl Hd Hin) as [|Hc]; [by left|right]. rewrite take_app_le; [done|]. apply lookup_lt_Some in Hk. lia.
  - rewrite take_app_ge, elem_of_app by done.
    destruct (O2 (k - length js1)%nat i o deps d Hk) as [Hc|Hc]; [by rewrite (same_graph_latest _ _ _ Hg)|by rewrite (proj1 Hg)|done| |by right; right].
    apply (in_all _ _ _ _ T1 d eq_refl) in Hc as [|]; auto.
Qed.
Lemma below_same n w w' js : same_graph w w' -> below n w js -> below n w' js.
Proof. intros Hg Hb i o Hi Hl. apply (Hb i o Hi). by rewrite <- (same_graph_latest _ _ i Hg). Qed.

(** What an acyclic graph gives for the call of [f] *)
Definition in_order (f : Z -> M world bool) : Prop := forall i w b w', f i w = Ok (b, w') ->
  exists js, initialization b w w' js /\ (b = true -> initialized_at w' i = Some true)
    /\ forall n o, acyclic w -> latest w i = Some o -> (rank o < n)%nat -> dependencies_first w js /\ below n w js.

Lemma all_until_initialize_order f l w b w' :
  in_order f -> (forall i w b w', f i w = Ok (b, w') -> is_Some (latest w i)) -> all_until f l w = Ok (b, w') ->
  exists js, initialization b w w' js /\ (b = true -> forall i, i ∈ l -> initialized_at w' i = Some true)
    /\ forall n, acyclic w -> below n w l -> dependencies_first w js /\ below n w js.
Proof.
  intros Hf Hl. revert w; induction l as [|i l IH]; intros w Hr; cbn in Hr.
  { apply Ok_inj in Hr as [<- <-]. exists []. split_and!; [apply initialization_refl|by intros _ i Hi%not_elem_of_nil|].
    intros n _ _. split; [done|by intros i o Hi%not_elem_of_nil]. }
  apply bind_Ok in Hr as (b1 & w1 & Hm & Hr). destruct (Hl _ _ _ _ Hm) as [o Ho]. apply Hf in Hm as (js1 & T1 & I1 & O1).
  destruct b1.
  2: { apply Ok_inj in Hr as [<- <-]. exists js1. split_and!; try done. intros n Ha Hb. apply (O1 n o); [done..|]. apply (Hb i); [left|done]. }
  pose proof (in_graph _ _ _ _ T1) as Hg. apply IH in Hr as (js2 & T2 & I2 & O2). exists (js1 ++ js2).
  split_and!; [by eapply initialization_trans| |].
  - intros -> d [->|Hd]%elem_of_cons; [|by apply I2]. by apply (in_old _ _ _ _ T2), I1.
  - intros n Ha Hb. destruct (O1 n o Ha Ho) as [D1 B1]; [apply (Hb i); [left|done]|].
    destruct (O2 n) as [D2 B2]; [by eapply acyclic_same|eapply below_same; [done|]; intros x y Hx; apply Hb; by right|].
    split; [by eapply dependencies_first_app|]. intros x y [Hx|Hx]%elem_of_app Hy; [by apply (B1 x)|].
    apply (B2 x); [done|]. by rewrite (same_graph_latest _ _ _ Hg).
Qed.

Lemma id_initialize_latest fuel i w b w' : id_initialize fuel i w = Ok (b, w') -> is_Some (latest w i).
Proof. destruct fuel as [|fuel]; [done|]. intros (o & Ho & _)%id_initialize_inv. by exists o. Qed.

Lemma dependencies_first_flag i o w js :
  acyclic w -> latest w i = Some o -> below (rank o) w js -> dependencies_first (flag i w) js -> dependencies_first w js.
Proof.
  intros Ha Ho Hb O k j oj deps d Hk Hl Hd Hin. pose proof (ran_graph _ _ _ (ran_flag i w)) as Hg.
  destruct (O k j oj deps d Hk) as [Hc|]; [by rewrite (same_graph_latest _ _ _ Hg)|by rewrite (proj1 Hg)|done| |by right].
  rewrite initialized_flag in Hc. case_decide as Hdi; [|by left]. subst d.
  pose proof (Ha _ _ _ _ Hd Hin Ho). assert (rank oj < rank o)%nat by (apply (Hb j); [by eapply list_elem_of_lookup_2|done]). lia.
Qed.
Lemma dependencies_first_snoc i o deps w w1 js :
  acyclic w -> initialized_at w i = Some false -> latest w i = Some o -> deps_of w o = Some deps ->
  initialization true (flag i w) w1 js -> (forall d, d ∈ deps -> initialized_at w1 d = Some true) ->
  dependencies_first w js -> dependencies_first w (js ++ [i]).
Proof.
  intros Ha Hi Ho Hd T Hdeps O k j oj deps' d Hk Hl Hd' Hin. apply lookup_app_Some in Hk as [Hk|[Hlen Hk]].
  - destruct (O k j oj deps' d Hk Hl Hd' Hin) as [|Hc]; [by left|right]. rewrite take_app_le; [done|]. apply lookup_lt_Some in Hk. lia.
  - apply list_lookup_singleton_Some in Hk as [Hk <-]. replace k with (length js) by lia. rewrite take_app_length. simplify_eq.
    destruct (initialization_flag _ _ _ _ _ Hi T) as (_ & _ & _ & _ & _ & Hall).
    destruct (Hall d eq_refl (Hdeps d Hin)) as [|[->|]]; [by left| |by right].
    pose proof (Ha _ _ _ _ Hd Hin Ho). lia.
Qed.

Lemma id_initialize_order fuel : in_order (id_initialize fuel).
Proof.
  induction fuel as [|fuel IH]; intros i w b w' Hr; [done|].
  apply id_initialize_inv in Hr as (o & Ho & [(Hi & -> & ->)|(deps & b1 & w1 & Hi & Hd & Hr & Hb)]).
  { exists []. split_and!; [apply initialization_refl|done|]. intros n y _ _ _. split; [done|by intros x z Hx%not_elem_of_nil]. }
  pose proof (ran_graph _ _ _ (ran_flag i w)) as Hg.
  apply all_until_initialize_order in Hr as (js & T & Hdeps & O); [|exact IH|apply id_initialize_latest].
  assert (acyclic w -> dependencies_first w js /\ below (rank o) w js) as O'.
  { intros Ha. destruct (O (rank o)) as [D B]; [by eapply acyclic_same| |].
    - intros d c Hin Hl. rewrite (same_graph_latest _ _ _ Hg) in Hl. by eapply Ha.
    - assert (below (rank o) w js) as B'. { eapply below_same; [|exact B]. split; intros x; symmetry; [apply (proj1 Hg)|apply (proj2 Hg)]. }
      split; [by eapply dependencies_first_flag|done]. }
  destruct Hb as [(-> & -> & ->)|(-> & Hini)].
  - exists js. split_and!; [by eapply initialization_failed|done|]. intros n y Ha Hy Hn. destruct (O' Ha) as [D B].
    split; [done|]. intros x z Hx Hz. pose proof (B x z Hx Hz). simplify_eq. lia.
  - specialize (Hdeps eq_refl). pose proof (initialization_node _ _ _ _ _ _ _ _ Hi Ho Hd T Hdeps Hini) as T2.
    exists (js ++ [i]). split_and!; [done| |].
    + intros _. apply (in_new _ _ _ _ T2). apply elem_of_app. right. by apply list_elem_of_singleton.
    + intros n y Ha Hy Hn. destruct (O' Ha) as [D B]. split; [exact (dependencies_first_snoc i o deps w w1 js Ha Hi Ho Hd T Hdeps D)|].
      intros x z [Hx| ->%list_elem_of_singleton]%elem_of_app Hz; [pose proof (B x z Hx Hz)|]; simplify_eq; lia.
Qed.

(** C20: Constructors run once, and those of the dependencies first.  On every graph of libraries, cyclic or not, initializing a
    library ends.  The libraries whose constructors it runs are pairwise different and were not initialized before; those that were,
    are not touched.  If it succeeds, the library, all libraries it ran constructors of, and all their dependencies are
    initialized; and in a graph without cycles every library's constructors run after those of its dependencies. *)
Theorem constructors_once fuel i w o :
  filed w -> latest w i = Some o -> (size (pending w) < fuel)%nat ->
  id_initialize fuel i w <> OutOfFuel
  /\ forall b w', id_initialize fuel i w = Ok (b, w') ->
     exists js, initialization b w w' js /\ (b = true -> initialized_at w' i = Some true)
       /\ (acyclic w -> dependencies_first w js).
Proof.
  intros Hf Ho Hfuel. split; [by apply id_initialize_fuel|]. intros b w' Hr.
  destruct (id_initialize_order _ _ _ _ _ Hr) as (js & T & Hi & Ha). exists js. split_and!; [done..|].
  intros Hacyclic. apply (Ha (S (rank o)) o); [done..|lia].
Qed.
End order.
End initialize.

(** * The kinds of objects *)

(** What the constructors of shared libraries promise; those of object files are calls in the history. *)
Class QuietConstructors `{Dynamic.DynEnv} : Prop := {
  framed_run_init o preinit w : keeps (frame w) (Dynamic.run_init o preinit);
  ends_run_init o preinit : ends (Dynamic.run_init o preinit);
}.

Section kinds.
Context `{DlhMath} (kernel : kernel_t) `{Env} `{Symbol.StringOps} `{Executable.ElfSegments}
  `{Dynamic.ElfTables} `{Dynamic.RelocatorOps} `{Dynamic.DynEnv} `{Relocatable.RelEnv} `{!QuietConstructors}.

Lemma framed_rel_initialize o preinit w : keeps (frame w) (Relocatable.initialize o preinit).
Proof.
  unfold Relocatable.initialize, Relocatable.call_arrays, Relocatable.call_array, Relocatable.call_init, Relocatable.get_rel.
  repeat first [ apply keeps_get_object | apply framed_emit; done | keeps_step ].
Qed.
Lemma ends_rel_initialize o preinit : ends (Relocatable.initialize o preinit).
Proof.
  unfold Relocatable.initialize, Relocatable.call_arrays, Relocatable.call_array, Relocatable.call_init, Relocatable.get_rel.
  repeat (apply ends_get_object || world_ends_step).
Qed.

#[export] Instance objects_initialize_quietly n : InitializesQuietly (object_ops kernel (S n)).
Proof.
  split.
  - intros o preinit w. cbn. apply keeps_by_kind; [intros _|apply keeps_ret|apply framed_rel_initialize].
    unfold Dynamic.initialize. apply keeps_bind; [apply framed_run_init|intros []; apply keeps_ret].
  - intros o preinit. cbn. apply ends_by_kind; [intros _|done|apply ends_rel_initialize].
    unfold Dynamic.initialize. apply ends_bind; [apply ends_run_init|done].
Qed.
End kinds.

(** * An example *)

Lemma ex_quiet_constructors : @QuietConstructors ex_dyn.
Proof. split; [intros; apply keeps_ret|done]. Qed.

(** main (1) depends on libx.so (2); libx.so has its constructors run first. *)
Lemma constructors_once_witness :
  exists w' js, id_initialize (H0 := ex_objects) 10 1 ex_acyclic = Ok (true, w')
    /\ initialization true ex_acyclic w' js
    /\ dependencies_first ex_acyclic js /\ calls V_initialize (trace w') = [12; 11].
Proof.
  pose proof ex_quiet_constructors as Hq.
  eexists. edestruct (@constructors_once ex_objects (objects_initialize_quietly ex_kernel 0)
    (fun o => if o =? 11 then 1%nat else 0%nat) 10 1 ex_acyclic 11) as [_ Ht].
  - intros i o Hl. unfold latest, chain_of in Hl. destruct (identities ex_acyclic !! i) as [id|] eqn:Hi; [|done].
    apply elem_of_list_to_map_2 in Hi. repeat (apply elem_of_cons in Hi as [[= -> ->]|Hi]; [injection Hl as <-; by vm_compute|]).
    by apply not_elem_of_nil in Hi.
  - vm_compute; reflexivity.
  - vm_compute; lia.
  - destruct (Ht true _ ltac:(vm_compute; reflexivity)) as (js & T & _ & Ho).
    exists js. split; [vm_compute; reflexivity|]. split; [exact T|].
    split; [apply Ho, ex_acyclic_acyclic|vm_compute; reflexivity].
Defined.
End InitProofs.
