(* ===== verification/MainProofs.v ===== *)
(** Theorems about the command line program (Main.v): the configuration it computes, and what holds in the world when the
    program is started. *)
From Stdlib Require Import Ascii.
From S2P Require Import Prelude Platform Segment Symbol Tls World Object Identity Gdb Process Loader Main WorldProofs WellFormedProofs.
From S2P Require Import Executable Dynamic Relocatable Objects Version GlibcInit Start Assembly Samples ObjectsProofs.

Module MainProofs.
Import World Object Identity Loader Main WorldProofs WellFormedProofs.

(** * The configuration *)

Section configuration.
Context `{DlhMath} `{MainEnv}.

Lemma loader_config_Ok o f w c w' : loader_config o f w = Ok (c, w') ->
  exists c1 b, set_detect o f (set_output o f (set_updates o f (set_position o (default_config pic MODE_BREAKPOINT_TRAP)))) = (c1, b)
    /\ set_modes o f (set_delay o f c1) = c.
Proof.
  unfold loader_config. destruct (set_detect _ _ _) as [c1 b] eqn:E. intros (? & w1 & _ & [<- <-]%Ok_inj)%bind_Ok. eauto.
Qed.

(** What the switches amount to *)
Record updates_set (o : Opts) (f : ConfigFile) (c : Config) : Prop := {
  us_update : dynamic_update c = dynamicUpdate o || value_bool f "LD_DYNAMIC_UPDATE" false;
  us_dlupdate : dynamic_dlupdate c = dynamic_update c && (dynamicDlUpdate o || value_bool f "LD_DYNAMIC_DLUPDATE" false);
  us_dependency : dependency_check c = dynamic_update c && (dependencyCheck o || value_bool f "LD_DEPENDENCY_CHECK" false);
  us_force : force_update c = dynamic_update c && (forceUpdate o || value_bool f "LD_FORCE_UPDATE" false);
  us_stop : stop_on_update c = dynamic_update c && (stopOnUpdate o || value_bool f "LD_STOP_ON_UPDATE" false);
  us_content : check_relocation_content c = dynamic_update c && (relocateCheck o || value_bool f "LD_RELOCATE_CHECK" false);
  us_outdated : update_outdated_relocations c = dynamic_update c && (relocateOutdated o || value_bool f "LD_RELOCATE_OUTDATED" false);
  us_symbols : find_debug_symbols c = dynamic_update c && (debugSymbols o || value_bool f "LD_DEBUG_SYMBOLS" false);
  us_root : debug_symbols_root c =
    (if find_debug_symbols c then (if negb (is_empty (debugSymbolsRoot o)) then debugSymbolsRoot o else value_string f "LD_DEBUG_SYMBOLS_ROOT" None)
     else None);
  us_debugger : debugger c = debug o || value_bool f "LD_DEBUG" false;
  us_mtime : use_mtime c = modificationTime o || value_bool f "LD_USE_MTIME" false;
  us_weak : dynamic_weak c = dynamicWeak o || value_bool f "LD_DYNAMIC_WEAK" false;
  us_early : early_statusinfo c = earlyStatusInfo o || value_bool f "LD_EARLY_STATUS_INFO" false;
  us_args : show_args c = showArgs o || value_bool f "LD_SHOW_ARGS" false;
  us_auxv : show_auxv c = showAuxv o || value_bool f "LD_SHOW_AUXV" false;
  us_env : show_env c = showEnv o || value_bool f "LD_SHOW_ENV" false;
  us_vdso : enable_vdso c = true;
  us_identical : cfg_skip_identical c = false;
  us_position : position_independent c =
    (if linkstatic o && xorb (pie o) (noPie o) then pie o else pic);
}.

Lemma set_position_only o c : exists b, set_position o c = c <| position_independent := b |>
  /\ b = (if linkstatic o && xorb (pie o) (noPie o) then pie o else position_independent c).
Proof.
  unfold set_position. destruct c. destruct (linkstatic o), (pie o), (noPie o); cbn; by eexists.
Qed.
(** Compute the configuration setting by setting. *)
Ltac compute_setting :=
  match goal with
  | |- context G [let c := ?v in @?k c] =>
      let v' := eval cbv -[orb value_bool value_string] in v in
      let t := eval cbv beta in (k v') in
      let g := context G [t] in change g
  end.
Record numbers_default (c : Config) : Prop := {
  nd_update : update_mode c = UPDATE_MODE_GOT; nd_trap : trap_mode c = MODE_BREAKPOINT_TRAP; nd_relax : relax_comparison c = 0;
  nd_delay : detect_outdated_delay c = 1; nd_detect : detect_outdated c = DETECT_OUTDATED_DISABLED;
}.
Definition before_detect (o : Opts) (f : ConfigFile) (c : Config) : Prop := updates_set o f c /\ numbers_default c.
Lemma updates_before o f :
  before_detect o f (set_output o f (set_updates o f (set_position o (default_config pic MODE_BREAKPOINT_TRAP)))).
Proof.
  destruct (set_position_only o (default_config pic MODE_BREAKPOINT_TRAP)) as (b & -> & Hb).
  destruct o. cbn [linkstatic pie noPie position_independent default_config] in Hb.
  cbv delta [set_updates] beta. do 2 compute_setting.
  destruct (dynamicUpdate0 || value_bool f _ _) eqn:Ed; repeat compute_setting; cbv delta [set_output] beta; repeat compute_setting;
    [destruct (debugSymbols0 || value_bool f _ _) eqn:Es|].
  all: split; split; cbv -[orb xorb value_bool value_string is_empty pic]; try done.
  all: rewrite ?Hb; try (by rewrite Ed).
Qed.
(** The text that chooses how accesses to outdated versions are detected, and what it chooses *)
Definition detect_text (o : Opts) (f : ConfigFile) : option string :=
  if is_empty (detectOutdated o) then value_string f "LD_DETECT_OUTDATED" (Some "disabled"%string) else detectOutdated o.
Definition detection (m : string) : DetectOutdated :=
  if compare_case m "disabled" then DETECT_OUTDATED_DISABLED
  else if compare_case m "userfaultfd" then DETECT_OUTDATED_VIA_USERFAULTFD
  else if negb (compare_case_n m "uprobes" 7) then DETECT_OUTDATED_DISABLED
  else if negb (compare_case m "uprobes") && compare_case m "uprobes_deps" then DETECT_OUTDATED_WITH_DEPS_VIA_UPROBES
  else DETECT_OUTDATED_VIA_UPROBES.

Lemma detect_only o f c c' b : set_detect o f c = (c', b) -> detect_outdated c = DETECT_OUTDATED_DISABLED ->
  c' = c <| detect_outdated := if negb (dynamic_update c) || is_empty (detect_text o f) then DETECT_OUTDATED_DISABLED
                               else detection (default EmptyString (detect_text o f)) |>.
Proof.
  unfold set_detect, detection. cbv zeta. fold (detect_text o f). generalize (detect_text o f) as mode. intros mode Hd Hc. revert Hd.
  generalize (default EmptyString mode). intros m. destruct (negb (dynamic_update c)), (is_empty mode); cbn [orb];
    try (intros [= <- <-]; by destruct c).
  destruct (compare_case m "disabled"); [intros [= <- <-]; by destruct c|].
  destruct (compare_case m "userfaultfd"); [intros [= <- <-]; by destruct c|].
  destruct (compare_case_n m "uprobes" 7); cbn [negb]; [|intros [= <- <-]; rewrite <- Hc; by destruct c].
  destruct (compare_case m "uprobes"), (compare_case m "uprobes_deps"); intros [= <- <-]; by destruct c.
Qed.

(** The other steps keep the settings for updates. *)
Lemma updates_set_same o f c c' : updates_set o f c ->
  c' = c <| detect_outdated := detect_outdated c' |> <| detect_outdated_delay := detect_outdated_delay c' |>
         <| update_mode := update_mode c' |> <| trap_mode := trap_mode c' |> <| relax_comparison := relax_comparison c' |> ->
  updates_set o f c'.
Proof. intros Hc ->. destruct c. destruct Hc. split; assumption. Qed.

(** The numbers, when everything else is set *)
Lemma numbers_set o f c0 d (c := set_modes o f (set_delay o f (c0 <| detect_outdated := d |>))) :
  numbers_default c0 ->
  dynamic_update c = dynamic_update c0 /\ detect_outdated c = d
  /\ update_mode c = math_max (updateMode o) (value_int f "LD_UPDATE_MODE" UPDATE_MODE_GOT)
  /\ trap_mode c = math_max (trapMode o) (value_int f "LD_TRAP_MODE" MODE_BREAKPOINT_TRAP)
  /\ relax_comparison c = math_max (relaxPatchCheck o) (value_int f "LD_RELAX_CHECK" 0)
  /\ detect_outdated_delay c = (if bool_decide (d = DETECT_OUTDATED_DISABLED) then 1
                                else math_max (delayOutdated o) (value_unsigned f "LD_DETECT_OUTDATED_DELAY" 1))
  /\ (updates_set o f c0 -> updates_set o f c).
Proof.
  destruct c0, d; intros [Nu Nt Nr Ny Nd]; cbn in Nu, Nt, Nr, Ny, Nd; subst; split_and!; try reflexivity; intros []; split; assumption.
Qed.

End configuration.

(** * Libraries for static linking *)

Section link.
Context `{DlhMath} (kernel : kernel_t) `{ObjectOps} `{Env} `{Symbol.StringOps}.

(** A library given as ":file" is only accepted if the libraries "lib:file.so" or "lib:file.a" exist, too: even after
    the file was opened, they are looked for. *)
Theorem link_colon_needs_another fuel file w w' :
  link_library kernel fuel (String ":"%char file) w = Ok (true, w') ->
  exists w1 w2 n, n ∈ [LIB_NAME_SHARED; LIB_NAME_STATIC]
    /\ load_library_by_name kernel fuel (String ":"%char file) LIB_NAME_COLON w = Ok (true, w1)
    /\ load_library_by_name kernel fuel (String ":"%char file) n w2 = Ok (true, w').
Proof.
  unfold link_library. intros (colon & w1 & Hc & Hr)%bind_Ok.
  change (starts_with_colon (String ":"%char file)) with true in Hc. cbv iota in Hc. apply bind_Ok in Hc as (r & w0 & Hl & Hc).
  apply Ok_inj in Hc as [<- <-].
  destruct r; [|apply bind_Ok in Hr as (m & w2 & Hm & Hr); apply Ok_inj in Hm as [<- <-]; by apply Ok_inj in Hr as [? _]].
  change (negb true) with false in Hr. cbv iota in Hr.
  apply bind_Ok in Hr as (m & w2 & Hm & Hr). apply Ok_inj in Hr as [Hr ->]. destruct m; [done|].
  apply bind_Ok in Hm as (shared & w3 & Hs & Hm). destruct shared.
  - apply Ok_inj in Hm as [_ <-]. exists w0, w0, LIB_NAME_SHARED. split; [set_solver|]. split; [exact Hl|exact Hs].
  - apply bind_Ok in Hm as (static & w4 & Ht & Hm). apply Ok_inj in Hm as [Hm <-]. destruct static; [|done].
    exists w0, w3, LIB_NAME_STATIC. split; [set_solver|]. split; [exact Hl|exact Ht].
Qed.
End link.

(** * The whole program *)

Section main.
Context `{DlhMath} (kernel : kernel_t) {ops : ObjectOps} `{!WellTyped ops} `{Env} `{Symbol.StringOps} `{Boot} `{MainEnv}.

(** What the parts that are not modelled promise: they leave the lists of objects alone. *)
Class WellBooted : Prop := {
  wb_tls_allocate : keeps wf tls_allocate; wb_dtv : keeps wf tls_dtv_setup; wb_guards a : keeps wf (setup_guards a);
  wb_globals : keeps wf init_globals; wb_globals_tls : keeps wf init_globals_tls; wb_init : keeps wf glibc_init;
  wb_starting : keeps wf glibc_starting; wb_entry : keeps wf start_entry; wb_trampolines : keeps wf trampoline_update;
  wb_redirect m : keeps wf (redirect_setup m);
  wb_connect s : keeps wf (connect s); wb_contents p s : keeps wf (contents_set p s); 
  (* the environment is memory that no object is made of *)
  wb_env a l w u w' : store_env a l w = Ok (u, w') -> exists t, w' = w <| trace := t |>;
}.
Context `{!WellBooted}.

Lemma boot_relocate_wf upd : keeps wf (relocate kernel upd).
Proof. apply relocate_wf; [apply _|apply wb_trampolines]. Qed.

Ltac main_step :=
  first
    [ lazymatch goal with |- keeps _ (let _ := _ in _) => cbv zeta end
    | apply open_wf | apply library_wf | apply id_initialize_wf | apply notify_wf | apply refresh_wf | apply boot_relocate_wf
    | apply wt_initialize | apply wt_preload | apply wb_tls_allocate | apply wb_dtv | apply wb_guards | apply wb_globals | apply wb_globals_tls
    | apply wb_init | apply wb_starting | apply wb_entry | apply wb_redirect | apply wb_connect | apply wb_contents
    | stable_step ].

Lemma handlers_wf : keeps wf (start_handler_threads kernel).
Proof.
  unfold start_handler_threads, start_userfault, start_inotify, close_if_open, watch, get_loader. repeat main_step.
Qed.
Lemma loader_init_wf fuel self path : keeps wf (loader_init kernel fuel self path).
Proof. unfold loader_init, get_loader. repeat first [ apply handlers_wf | main_step ]. Qed.
Lemma setup_output_wf o f : keeps wf (setup_output kernel o f).
Proof. unfold setup_output. repeat main_step. Qed.
Lemma setup_paths_wf o f : keeps wf (setup_paths o f).
Proof. unfold setup_paths. repeat main_step. Qed.
Lemma set_dynamic_debug_wf tags address i : keeps wf (GDB.set_dynamic_debug kernel tags address i).
Proof. unfold GDB.set_dynamic_debug, Object.compose_pointer, Object.finalize, segment_indices. repeat main_step. Qed.
Lemma prepare_wf start : keeps wf (prepare kernel start).
Proof.
  unfold prepare, GDB.init, Object.initialize, Object.finalize, segment_indices, all_fuel, get_loader.
  repeat first [ apply set_dynamic_debug_wf | main_step ].
Qed.
Lemma entry_wf start custom : keeps wf (get_entry_point start custom).
Proof. unfold get_entry_point. repeat main_step. Qed.

Lemma move_first_wf file :
  keeps (fun w => wf w /\ identity_exists file w)
    (set_loader (fun l => l <| lookup ::= fun k => file :: filter (fun i => i <> file) k |>)).
Proof.
  intros w a w' [Hw Hi] [_ <-]%Ok_inj. split; [|done]. destruct Hw as [Hv Hnd Hobj Hx Hno Hni Hlk Hlnd]. split; cbn; try done.
  - intros i [->|[_ Hin]%list_elem_of_filter]%elem_of_cons; [exact Hi|auto].
  - apply NoDup_cons. split; [by intros [? _]%list_elem_of_filter|]. by apply NoDup_filter.
Qed.
Lemma run_from_wf file start sp custom :
  hoare (fun w => wf w /\ identity_exists file w) (run_from kernel file start sp custom) (fun _ => wf).
Proof.
  unfold run_from. eapply hoare_bind; [apply move_first_wf|]. intros []. cbn beta.
  eapply hoare_bind; [intros w p w' [Hw _] Hp; exact (prepare_wf start w p w' Hw Hp)|]. intros p. cbn beta. match goal with |- hoare _ ?m _ => change (keeps wf m) end.
  destruct (negb p); repeat first [ apply entry_wf | main_step ].
Qed.

Lemma with_history_stable {A} P `{!Stable P} (m : M (traced unit) A) : keeps P (with_history m).
Proof.
  intros w a w' Hw Hr. unfold with_history in Hr. destruct (m _) as [[x t]| |]; [|done..]. apply Ok_inj in Hr as [_ <-].
  by eapply stable; [|exact Hw].
Qed.
Lemma run_start_wf file :
  hoare wf (run_start file) (fun r w => wf w /\ (r <> None -> identity_exists file w)).
Proof.
  unfold run_start. intros w r w' Hw Hr. apply bind_Ok in Hr as ([] & w1 & Hs & Hr).
  apply (stable_set_loader wf) in Hs; [|done..]. apply bind_Ok in Hr as (id & w2 & [Hid ->]%get_identity_Ok & Hr).
  destruct (versions id) as [|o [|]]; [by apply bind_Ok in Hr as (? & ? & ? & _)| |by apply bind_Ok in Hr as (? & ? & ? & _)].
  apply bind_Ok in Hr as (ob & w2 & [_ ->]%get_object_Ok & Hr). apply Ok_inj in Hr as [_ <-]. split; [done|]. intros _. by exists id.
Qed.
(** Both ways to run a program: nothing happens between the checks and the run that concerns the lists. *)
Ltac run_step := first [ apply with_history_stable; apply _ | apply stable_set_identity; [apply _|done] | main_step ].
Lemma env_stable P `{!Stable P} a l : keeps P (store_env a l).
Proof. intros w u w' Hw [t ->]%wb_env. by eapply stable; [|exact Hw]. Qed.

Lemma run_stack_wf file sp custom : keeps wf (run_stack kernel read_argc read_env store_env file sp custom).
Proof.
  unfold run_stack. eapply hoare_bind; [apply run_start_wf|]. intros [start|]; cbn beta iota.
  2: { intros w r w' [Hw _] [<- <-]%Ok_inj. exact Hw. }
  eapply (hoare_conseq (fun w => wf w /\ identity_exists file w)); [|intros w [? He]; split; [done|by apply He]|by intros ? ? H9; apply H9].
  unfold mark_initialized. eapply hoare_bind; [run_step|]. intros []. cbv zeta.
  eapply hoare_bind; [run_step|]. intros []. eapply hoare_bind; [apply env_stable; apply _|]. intros []. apply run_from_wf.
Qed.
Lemma run_args_wf hi he e file args sp size custom : keeps wf (run_args kernel hi he e file args sp size custom).
Proof.
  unfold run_args. eapply hoare_bind; [apply run_start_wf|]. intros [start|]; cbn beta iota.
  2: { intros w r w' [Hw _] [<- <-]%Ok_inj. exact Hw. }
  eapply (hoare_conseq (fun w => wf w /\ identity_exists file w)); [|intros w [? Hex]; split; [done|by apply Hex]|by intros ? ? H9; apply H9].
  unfold mark_initialized. do 2 (eapply hoare_bind; [run_step|]; intros ?). cbv zeta. eapply hoare_bind; [repeat run_step|]. intros ?.
  eapply hoare_bind; [run_step|]. intros [p|].
  2: { intros w r w' [Hw _] [<- <-]%Ok_inj. exact Hw. }
  destruct (Process.init _ _ _) as [p'|]; [|by intros w r w' _ (? & ? & ? & _)%bind_Ok].
  eapply hoare_bind; [run_step|]. intros []. apply run_from_wf.
Qed.

(** ** What precedes the start of a program *)

(** The program [file] in the state [w]: it is the target, it has a single version, which has memory. *)
Definition loaded (file start : Z) (w : world) : Prop :=
  target (loader w) = Some file /\ versions <$> identities w !! file = Some [start]
  /\ exists ob, objects w !! start = Some ob /\ o_memory_map ob <> [].

(** From the state [w0], in which all files are open, to [w']: the program becomes the first of all libraries, everything is prepared
    and initialized successfully, and after that its entry point (or the one asked for) is determined. *)
Definition runs (file : Z) (custom : option string) (sp : Z) (regs : list (Process.reg * Z)) (w0 w' : world) : Prop :=
  exists start w1 w2 w3 entry,
    loaded file start w1
    /\ lookup (loader w1) = file :: filter (fun i => i <> file) (lookup (loader w0))
    /\ prepare kernel start w1 = Ok (true, w2)
    /\ get_entry_point start custom w2 = Ok (entry, w3)
    /\ (custom = None -> forall ob (h := header_at (trace w2) (d_addr (o_data ob))), objects w2 !! start = Some ob ->
         h_type h <> ET_REL -> entry = w64 (o_base ob + h_entry h))
    /\ w' = w3 <| loader ::= fun l => l <| process_started := true |> |>
    /\ regs = Process.start entry sp.

Lemma entry_point_default start w entry w' ob (h := header_at (trace w) (d_addr (o_data ob))) :
  get_entry_point start None w = Ok (entry, w') -> objects w !! start = Some ob -> h_type h <> ET_REL -> entry = w64 (o_base ob + h_entry h).
Proof.
  intros Hr Hob Ht. unfold get_entry_point in Hr. apply bind_Ok in Hr as (ob' & w1 & [Hob' ->]%get_object_Ok & Hr).
  rewrite Hob in Hob'. injection Hob' as <-.
  apply bind_Ok in Hr as (? & ? & [<- <-]%Ok_inj & Hr). apply bind_Ok in Hr as (? & ? & [<- <-]%Ok_inj & Hr).
  apply bind_Ok in Hr as (? & ? & [<- <-]%Ok_inj & Hr). cbn [Z.eqb] in Hr. rewrite bool_decide_false in Hr by done.
  by apply Ok_inj in Hr as [<- _].
Qed.
Lemma run_from_runs file start sp custom w regs w0 w' :
  loaded file start w -> lookup (loader w) = lookup (loader w0) ->
  run_from kernel file start sp custom w = Ok (Some regs, w') -> runs file custom sp regs w0 w'.
Proof.
  intros Hl Hlk Hr. unfold run_from in Hr. apply bind_Ok in Hr as ([] & w1 & [_ <-]%Ok_inj & Hr).
  apply bind_Ok in Hr as (p & w2 & Hp & Hr). destruct p; cbn [negb] in Hr.
  2: { by apply bind_Ok in Hr as (? & ? & _ & [? _]%Ok_inj). }
  apply bind_Ok in Hr as (entry & w3 & He & Hr). apply bind_Ok in Hr as ([] & w4 & [_ <-]%Ok_inj & Hr). apply Ok_inj in Hr as [[= <-] <-].
  eexists start, _, w2, w3, entry. split; [|split; [|split; [exact Hp|split; [exact He|]]]].
  - exact Hl.
  - cbn. by rewrite Hlk.
  - split; [|done]. intros -> ob h Hob Ht. by eapply entry_point_default.
Qed.
Lemma run_start_loaded file w start w' :
  run_start file w = Ok (Some start, w') -> loaded file start w' /\ lookup (loader w') = lookup (loader w).
Proof.
  intros Hr. unfold run_start in Hr. apply bind_Ok in Hr as ([] & w1 & [_ <-]%Ok_inj & Hr).
  apply bind_Ok in Hr as (id & w2 & [Hid ->]%get_identity_Ok & Hr).
  destruct (versions id) as [|o [|]] eqn:Hv; [by apply bind_Ok in Hr as (? & ? & ? & _)| |by apply bind_Ok in Hr as (? & ? & ? & _)].
  apply bind_Ok in Hr as (ob & w2 & [Hob ->]%get_object_Ok & Hr). case_bool_decide as Hm; [by apply Ok_inj in Hr as [? _]|].
  apply Ok_inj in Hr as [[= <-] <-]. split; [|done]. split; [done|]. split; [by rewrite Hid; cbn; rewrite Hv|by exists ob].
Qed.
Lemma mark_loaded file start L w u w' :
  loaded file start w /\ lookup (loader w) = L -> mark_initialized file w = Ok (u, w') -> loaded file start w' /\ lookup (loader w') = L.
Proof.
  intros [(Ht & Hv & Ho) HL] [_ <-]%Ok_inj. split; [|exact HL]. split; [exact Ht|]. split; [|exact Ho]. cbn. rewrite lookup_alter_eq.
  by destruct (identities w !! file).
Qed.
Lemma run_stack_runs file sp custom w0 regs w' :
  run_stack kernel read_argc read_env store_env file sp custom w0 = Ok (Some regs, w') -> runs file custom sp regs w0 w'.
Proof.
  intros Hr. unfold run_stack in Hr. apply bind_Ok in Hr as ([start|] & w1 & Hs & Hr); [|by apply Ok_inj in Hr as [? _]].
  apply run_start_loaded in Hs. apply bind_Ok in Hr as ([] & w2 & Hm & Hr). apply (mark_loaded _ start (lookup (loader w0))) in Hm; [|exact Hs].
  cbv zeta in Hr. apply bind_Ok in Hr as ([] & w3 & [_ <-]%Ok_inj & Hr). apply bind_Ok in Hr as ([] & w4 & [t ->]%wb_env & Hr).
  eapply run_from_runs; [| |exact Hr]; apply Hm.
Qed.
Lemma run_args_runs hi he e file args sp size custom w0 regs w' :
  run_args kernel hi he e file args sp size custom w0 = Ok (Some regs, w') ->
  exists p p', Process.init he args p = Some p' /\ runs file custom (Process.stack_pointer p') regs w0 w'.
Proof.
  intros Hr. unfold run_args in Hr. apply bind_Ok in Hr as ([start|] & w1 & Hs & Hr); [|by apply Ok_inj in Hr as [? _]].
  apply run_start_loaded in Hs. apply bind_Ok in Hr as (ob & w2 & [_ ->]%get_object_Ok & Hr).
  apply bind_Ok in Hr as (tr & w2 & [_ <-]%Ok_inj & Hr). cbv zeta in Hr. apply bind_Ok in Hr as ([] & w2 & Hm & Hr).
  assert (loaded file start w2 /\ lookup (loader w2) = lookup (loader w0)) as Hw2.
  { destruct (bool_decide _); [by apply Ok_inj in Hm as [_ <-]|by eapply mark_loaded]. }
  apply bind_Ok in Hr as (p & w3 & Hp & Hr). unfold with_history in Hp. destruct (Process.construct _ _ _ _ _ _ _ _ _) as [[x t]| |]; [|done..].
  apply Ok_inj in Hp as [-> <-]. destruct p as [p|]; [|by apply Ok_inj in Hr as [? _]].
  match type of Hr with context [Process.init he args ?q] => destruct (Process.init he args q) as [p'|] eqn:Hi end;
    [|by apply bind_Ok in Hr as (? & ? & ? & _)].
  apply bind_Ok in Hr as ([] & w4 & [_ <-]%Ok_inj & Hr). eexists _, p'. split; [exact Hi|].
  eapply run_from_runs; [| |exact Hr]; apply Hw2.
Qed.

(** ** main *)

Lemma load_library_wf fuel file priority : keeps wf (load_library kernel fuel file priority).
Proof. unfold load_library, get_loader. repeat main_step. Qed.
Lemma link_library_wf fuel lib : keeps wf (link_library kernel fuel lib).
Proof. unfold link_library, load_library_by_name. repeat first [ apply load_library_wf | keeps_step ]. Qed.
Lemma preload_all_wf fuel libs : keeps wf (preload_all kernel fuel libs).
Proof. unfold preload_all. repeat first [ apply load_library_wf | keeps_step ]. Qed.
Lemma open_all_wf fuel files start : keeps wf (open_all kernel fuel files start).
Proof.
  revert start. induction files as [|file files IH]; intros start; cbn [open_all]; [apply keeps_ret|]. unfold get_loader.
  apply keeps_bind; [apply keeps_gets|]. intros l. apply keeps_bind; [apply open_wf; apply _|]. intros [i|]; [apply IH|apply keeps_ret].
Qed.

Lemma config_wf o f : keeps wf (loader_config o f).
Proof.
  unfold loader_config. destruct (set_detect _ _ _) as [c b]. unfold reset_uprobes. repeat main_step.
Qed.
Lemma new_loader_wf c : keeps wf (set_loader (fun _ => new_loader c)).
Proof.
  intros w u w' [Hv Hnd Hobj Hx Hno Hni Hlk Hlnd] [_ <-]%Ok_inj. split; cbn; try done; [|apply NoDup_nil_2].
  by intros i Hin%elem_of_nil.
Qed.
Lemma setup_wf fuel base path o : keeps wf (setup kernel fuel base path o).
Proof.
  unfold setup. cbv zeta.
  repeat first [ apply config_wf | apply new_loader_wf | apply loader_init_wf | apply setup_output_wf | apply setup_paths_wf | main_step ].
Qed.

Lemma main_command_wf fuel base argv : keeps wf (main_command kernel fuel base argv).
Proof.
  unfold main_command. destruct (parse_arguments argv) as [a|]; [|apply keeps_ret]. cbv zeta.
  repeat first [ apply setup_wf | apply open_all_wf | apply preload_all_wf | apply link_library_wf | apply run_args_wf
               | apply keeps_all_until; intros ? | keeps_step | case_match ].
Qed.
Lemma main_interpreter_wf fuel base : keeps wf (main_interpreter kernel fuel base).
Proof.
  unfold main_interpreter, get_loader. cbv zeta.
  repeat first [ apply setup_wf | apply preload_all_wf | apply open_wf; apply _ | apply run_stack_wf | keeps_step | case_match ].
Qed.

(** The files are opened one after the other. *)
Inductive opened (fuel : nat) : list string -> list Z -> world -> world -> Prop :=
| opened_none w : opened fuel [] [] w w
| opened_file file files i ids w w1 w2 :
    open kernel fuel file ((default_flags (loader w)) <| updatable := true |>) true NAMESPACE_BASE 0 ET_NONE None w = Ok (Some i, w1) ->
    opened fuel files ids w1 w2 -> opened fuel (file :: files) (i :: ids) w w2.
Lemma open_all_opened fuel files start w i w' :
  open_all kernel fuel files start w = Ok (Some i, w') ->
  exists ids, opened fuel files ids w w' /\ (start = None -> head ids = Some i) /\ (start <> None -> start = Some i).
Proof.
  revert start w. induction files as [|file files IH]; intros start w Hr; cbn [open_all] in Hr.
  - apply Ok_inj in Hr as [-> <-]. exists []. by split_and!; [constructor| |].
  - apply bind_Ok in Hr as (l & w1 & [<- <-]%Ok_inj & Hr). apply bind_Ok in Hr as ([j|] & w1 & Ho & Hr); [|by apply Ok_inj in Hr as [? _]].
    apply IH in Hr as (ids & His & _ & Hs). specialize (Hs ltac:(done)). exists (j :: ids). split; [by econstructor|].
    destruct start as [k|]; cbn in Hs; [by split|]. by split; [intros _; cbn|].
Qed.
Inductive linked (fuel : nat) : list string -> world -> world -> Prop :=
| linked_none w : linked fuel [] w w
| linked_library lib libs w w1 w2 :
    link_library kernel fuel lib w = Ok (true, w1) -> linked fuel libs w1 w2 -> linked fuel (lib :: libs) w w2.
Lemma all_linked fuel libs w w' : all_until (link_library kernel fuel) libs w = Ok (true, w') -> linked fuel libs w w'.
Proof.
  revert w. induction libs as [|lib libs IH]; intros w Hr; cbn [all_until] in Hr; [apply Ok_inj in Hr as [_ <-]; constructor|].
  apply bind_Ok in Hr as ([] & w1 & Hl & Hr); [|by apply Ok_inj in Hr as [? _]]. econstructor; [exact Hl|by apply IH].
Qed.

(** What happens before the program [file] is run in the state [w0], with [sp] pointing to its arguments: Luci as a command ... *)
Definition commanded (fuel : nat) (base : Z) (argv : list string) (w : world) (file : Z) (custom : option string) (sp : Z) (w0 : world) : Prop :=
  exists a bin files ids pre p p' wa wb wc,
    parse_arguments argv = Some a /\ showVersion (options a) = false /\ showHelp (options a) = false /\ positional a = bin :: files
    /\ setup kernel fuel base (head argv) (options a) w = Ok (pre, wa)
    /\ opened fuel (bin :: files) (file :: ids) wa wb
    /\ preload_all kernel fuel pre wb = Ok (tt, wc)
    /\ linked fuel (if linkstatic (options a) then libload (options a) else []) wc w0
    /\ custom = entry (options a)
    /\ Process.init hash_entries (bytes_of <$> (default bin (argv0 (options a)) :: terminal a)) p = Some p' /\ sp = Process.stack_pointer p'.
(** ... and as the interpreter of the program, which is the one that was executed *)
Definition interpreted (fuel : nat) (base : Z) (w : world) (file : Z) (custom : option string) (sp : Z) (w0 : world) : Prop :=
  exists pre wa wb,
    let flags := interpreter_flags (config (loader wa)) (h_type (header_at (trace wa) base)) (default_flags (loader wa)) in
    setup kernel fuel (let b := default 0 (auxiliary AT_BASE) in if b =? 0 then BASEADDRESS else b) None default_opts w = Ok (pre, wa)
    /\ open kernel fuel (c_string (default 0 (auxiliary AT_EXECFN))) flags true NAMESPACE_BASE (if premapped flags then base else 0) ET_NONE None wa
       = Ok (Some file, wb)
    /\ preload_all kernel fuel pre wb = Ok (tt, w0)
    /\ custom = None /\ sp = dlh_stack_pointer.
(** Luci is only asked for its version or help. *)
Definition informs (base : Z) (argv : list string) : Prop :=
  base = BASEADDRESS /\ exists a, parse_arguments argv = Some a /\ (showVersion (options a) || showHelp (options a) = true).

(** How a run of Luci ends *)
Definition ended (fuel : nat) (base : Z) (argv : list string) (r : outcome) (w w' : world) : Prop :=
  match r with
  | Started regs => exists file custom sp w0,
      (if base =? BASEADDRESS then commanded fuel base argv w file custom sp w0 else interpreted fuel base w file custom sp w0)
      /\ runs file custom sp regs w0 w'
  | Exit n => (n = EXIT_SUCCESS /\ informs base argv /\ w' = w) \/ (n = EXIT_FAILURE /\ ~ informs base argv)
  end.

Lemma main_command_ended fuel argv w r w' :
  main_command kernel fuel BASEADDRESS argv w = Ok (r, w') -> ended fuel BASEADDRESS argv r w w'.
Proof.
  intros Hr. unfold main_command in Hr. destruct (parse_arguments argv) as [a|] eqn:Ha.
  2: { apply Ok_inj in Hr as [<- <-]. right. split; [done|]. by intros (_ & ? & ? & _); simplify_eq. }
  cbv zeta in Hr. destruct (showVersion (options a)) eqn:Hv.
  { apply Ok_inj in Hr as [<- <-]. left. split_and!; [done| |done]. split; [done|]. exists a. by rewrite Hv. }
  destruct (showHelp (options a)) eqn:Hh.
  { apply Ok_inj in Hr as [<- <-]. left. split_and!; [done| |done]. split; [done|]. exists a. by rewrite Hv, Hh. }
  assert (~ informs BASEADDRESS argv) as Hno.
  { intros (_ & a' & Ha' & Hsh). rewrite Ha in Ha'. injection Ha' as <-. by rewrite Hv, Hh in Hsh. }
  assert (forall w2, (mret (Exit EXIT_FAILURE) : M world outcome) w2 = Ok (r, w') -> ended fuel BASEADDRESS argv r w w') as Hfail.
  { intros w2 [<- <-]%Ok_inj. by right. }
  apply bind_Ok in Hr as (pre & wa & Hs & Hr). destruct (positional a) as [|bin files] eqn:Hp; [by eapply Hfail|].
  apply bind_Ok in Hr as ([file|] & wb & Ho & Hr); [|by eapply Hfail]. apply open_all_opened in Ho as (ids & Ho & Hhead & _).
  specialize (Hhead eq_refl). destruct ids as [|i ids]; [done|]. injection Hhead as ->.
  apply bind_Ok in Hr as ([] & wc & Hpre & Hr). apply bind_Ok in Hr as (lk & w0 & Hl & Hr). destruct lk; [|by eapply Hfail]. cbn [negb] in Hr.
  apply bind_Ok in Hr as ([regs|] & w5 & Hrun & Hr); apply Ok_inj in Hr as [<- <-]; [|by right].
  apply run_args_runs in Hrun as (p & p' & Hi & Hrun). eexists file, _, _, w0. rewrite Z.eqb_refl. split; [|exact Hrun].
  exists a, bin, files, ids, pre, p, p', wa, wb, wc. split_and!; try done.
  destruct (linkstatic (options a)); [by apply all_linked|apply Ok_inj in Hl as [_ <-]; constructor].
Qed.
(* conversion compares the steps of main_interpreter, not what they compute *)
Strategy expand [main_interpreter].
Lemma main_interpreter_ended fuel base argv w r w' :
  base <> BASEADDRESS -> main_interpreter kernel fuel base w = Ok (r, w') -> ended fuel base argv r w w'.
Proof.
  intros Hb Hr. unfold main_interpreter in Hr. cbv zeta in Hr.
  assert (forall w2, (mret (Exit EXIT_FAILURE) : M world outcome) w2 = Ok (r, w') -> ended fuel base argv r w w') as Hfail.
  { intros w2 [<- <-]%Ok_inj. right. split; [done|]. by intros [? _]. }
  apply bind_Ok in Hr as (pre & wa & Hs & Hr). apply bind_Ok in Hr as (l & ? & [<- <-]%Ok_inj & Hr).
  apply bind_Ok in Hr as (tr & ? & [<- <-]%Ok_inj & Hr). apply bind_Ok in Hr as ([file|] & wb & Ho & Hr); [|by eapply Hfail].
  apply bind_Ok in Hr as ([] & w0 & Hpre & Hr).
  apply bind_Ok in Hr as ([regs|] & w5 & Hrun & Hr); [|by eapply Hfail]. apply Ok_inj in Hr as [<- <-].
  apply run_stack_runs in Hrun. exists file, None, dlh_stack_pointer, w0. rewrite (proj2 (Z.eqb_neq _ _) Hb). split; [|exact Hrun].
  exists pre, wa, wb. cbv zeta. split; [exact Hs|]. split; [exact Ho|]. split; [exact Hpre|]. by split.
Qed.

End main.

(** * The start of GLIBC keeps the promises *)

Section glibc.
Context `{DlhMath} `{ObjectOps} `{Env} `{Symbol.StringOps} (rest : Boot) `{MainEnv}.
Context (p : Version.platform) (auxv : list (Z * Z)) (string_length : Z -> Z) (ifunc : Z -> Z) (tls_address : Z -> Z -> Z) (libc luci : Z).
Abbreviation boot := (Assembly.glibc_boot p auxv string_length ifunc tls_address libc luci rest).

Lemma resolve_all_wf names : keeps wf (GlibcInit.resolve_all names).
Proof.
  induction names as [|n names IH]; cbn [GlibcInit.resolve_all]; [apply keeps_ret|].
  unfold GlibcInit.resolve_name. repeat first [ apply IH | stable_step ].
Qed.
Lemma init_globals_wf : keeps wf (@init_globals boot).
Proof.
  cbn. unfold GlibcInit.init_globals, get_loader. repeat first [ apply resolve_all_wf | stable_step ].
Qed.
Lemma glibc_init_wf : keeps wf (@glibc_init boot).
Proof. cbn. unfold GlibcInit.init. repeat stable_step. Qed.
Lemma resolve_entry_world name s a s' : Start.resolve_symbol ifunc tls_address name s = Ok (a, s') -> s' = s.
Proof. unfold Start.resolve_symbol. intros Hr. by repeat (case_match; try done; try (by apply Ok_inj in Hr as [_ <-])). Qed.
Lemma start_entry_wf : keeps wf (@start_entry boot).
Proof.
  intros w a w' Hw Hr. cbn in Hr. unfold Assembly.entry_of_program in Hr.
  destruct (Start.start_entry _ _ _ _ _) as [[e s]| |] eqn:Hs; [|done..]. apply Ok_inj in Hr as [_ <-].
  enough (Start.s_world s = w) as -> by done. unfold Start.start_entry in Hs.
  apply bind_Ok in Hs as (x & s1 & ->%resolve_entry_world & Hs). destruct (negb _); [by apply Ok_inj in Hs as [_ <-]|].
  apply bind_Ok in Hs as (y & s2 & ->%resolve_entry_world & Hs). destruct (negb _); [|by apply Ok_inj in Hs as [_ <-]].
  apply bind_Ok in Hs as ([] & s3 & [_ <-]%Ok_inj & Hs). apply bind_Ok in Hs as (s4 & s5 & [<- <-]%Ok_inj & Hs).
  apply bind_Ok in Hs as (m & s6 & Hm & Hs). apply Ok_inj in Hs as [_ <-]. cbn in Hm.
  apply bind_Ok in Hm as (z & s7 & ->%resolve_entry_world & Hm). by apply Ok_inj in Hm as [_ <-].
Qed.
Lemma glibc_well_booted : @WellBooted rest _ -> @WellBooted boot _.
Proof.
  intros Hrest. destruct Hrest. split; try assumption; [apply init_globals_wf|apply glibc_init_wf|apply start_entry_wf].
Qed.
End glibc.

(** * An example: "luci /bin/app" *)

Import Objects Samples ObjectsProofs.
Definition ex_opts (file : string) : Opts :=
  MkOpts 0 0 1 [] [] [] [] "" file None None None None None None 1
    true false true false true false false false true false false false false false false false true false false false false false
    false.
Definition ex_config_file : ConfigFile := MkConfigFile (fun _ => None) (fun _ d => d) (fun _ d => d) (fun _ d => d) (fun _ d => d).
Definition ex_main : MainEnv := {|
  LIBPATH_CONF := "/opt/luci/libpath.conf"; LDLUCI_CONF := "/opt/luci/ld-luci.conf"; SOPATH := "/opt/luci/ld-luci.so"; pic := false;
  parse_config _ := ex_config_file; parse_arguments _ := Some (MkArguments (ex_opts "") ["/bin/app"] []);
  compare_case a b := bool_decide (a = b); compare_case_n a b n := String.prefix (String.substring 0 (Z.to_nat n) b) a;
  split s _ := [s]; readable _ _ := false; lines _ _ := []; contents_set _ _ := mret 0; connect _ := mret true;
  self_relocated := true; namespace_start := 1; getpid := 1000;
  phdrs _ := [MkPhdr PT_PHDR 64 (BASEADDRESS + 64) 0xa8]; c_string _ := ""; bytes_of _ := [0x61];
  hash_insert k v m := <[k := v]> m; hash_entries := map_to_list; env := Surroundings [] [] 0x10000 ∅;
  dlh_stack_pointer := 0x7fff0000; read_argc _ := 1; read_env _ := []; store_env _ _ := mret tt;
|}%string.
Definition ex_start_env : Env :=
  let e := ex_env ["/bin/app"; "/opt/luci/ld-luci.so"]%string [] false in
  {| hex := @hex e; dec := @dec e; str_find_last := @str_find_last e; str_split_last := @str_split_last e; file_exists := @file_exists e;
     file_format := @file_format e; mem_format := @mem_format e; archive := @archive e;
     auxiliary k := if k =? Process.AT_PHDR then Some (BASEADDRESS + 64) else if k =? Process.AT_PHNUM then Some 1
       else if k =? AT_PHENT then Some sizeof_Phdr else None;
     parse_number := @parse_number e; file_absolute := @file_absolute e; file_absolute_fd := @file_absolute_fd e;
     stat_is_link := @stat_is_link e; stat_of := @stat_of e; header_at := @header_at e; elf_size := @elf_size e; elf_valid := @elf_valid e;
     elf_dynamic_segment := @elf_dynamic_segment e; build_id_count := @build_id_count e; elf_build_id := @elf_build_id e;
     data_hash := @data_hash e; new_object := @new_object e; debug_symbols_file := @debug_symbols_file e; contents_get := @contents_get e;
     FLAG_RESOLVE_INTERNAL_RELOCATIONS := 1; FLAG_RECONSTRUCT_RELOCATIONS := 2; FLAG_HASH_ATTRIBUTES_FOR_ID := 4;
     bean_diff := @bean_diff e; hook_result := @hook_result e; socket_connected := @socket_connected e; socket_query := @socket_query e |}.
Definition ex_any_segment : Executable.ElfSegments :=
  {| Executable.elf_segments o := if (o =? 1) || (o =? 3) then [(Executable.PT_LOAD, MemorySegment.Build_elf_segment 0 0x800 0 0x800 0x1000 true false false false)] else [] |}.
Definition ex_start_objects : ObjectOps :=
  object_ops (H := dlh_4k) ex_placing (H0 := ex_start_env) (H1 := Symbol.ex_strings) (H2 := ex_any_segment)
    (H3 := ex_tables) (H4 := ex_relocator) (H5 := ex_dyn) (H6 := ex_rel) 2.
Definition ex_blank : world := World (ex_loader ex_config []) no_gdb ∅ ∅ 0 [].
Definition ex_glibc : Boot :=
  Assembly.glibc_boot (H0 := ex_start_objects) (H2 := Symbol.ex_strings) Version.UBUNTU_JAMMY [(GlibcInit.AT_PAGESZ, 0x1000); (GlibcInit.AT_SECURE, 0)]
    (fun _ => 0) (fun a => a) (fun _ a => a) 0x6ffff0001000 0x6ffff0001040 ex_boot.
Definition ex_run : res (outcome * world) :=
  main (H := dlh_4k) ex_placing (H0 := ex_start_objects) (H1 := ex_start_env) (H2 := Symbol.ex_strings) (H3 := ex_glibc) (H4 := ex_main)
    3 ["luci"; "/bin/app"]%string ex_blank.
Lemma ex_blank_wf : wf ex_blank.
Proof.
  split; try (by intros ? [? ?]); try done.
  - intros i Hin. by apply elem_of_nil in Hin.
  - apply NoDup_nil_2.
Qed.
Lemma ex_well_booted : @WellBooted ex_glibc ex_main.
Proof. apply glibc_well_booted. split; try (intros; apply keeps_ret). intros a l w u w' [_ <-]%Ok_inj. exists (trace w). by destruct w. Qed.
Definition ex_registers : outcome := Started (Process.start 0x600000000040 130960).
Definition ex_running : world := after ex_run ex_blank.


Definition ex_configured : res (Config * world) := loader_config (H := dlh_4k) (H4 := ex_main) (ex_opts "") ex_config_file ex_blank.
Definition ex_result_config : Config := match ex_configured with Ok (c, _) => c | _ => ex_config end.

(** The file "/lib/x" alone is not enough. *)
Definition ex_link (files : list string) : res (bool * world) :=
  link_library (H := dlh_4k) ex_placing (H0 := ex_ops [] true false) (H1 := ex_env files [] false) (H2 := Symbol.ex_strings) 3 ":x" (ex_world ex_config).
Lemma ex_link_alone : (fun r => match r with Ok (b, _) => Some b | _ => None end) (ex_link ["/lib/x"]%string) = Some false.
Proof. vm_compute. reflexivity. Qed.
Definition ex_linked : world := after (ex_link ["/lib/x"; "/lib/lib:x.so"]%string) (ex_world ex_config).
Lemma link_colon_needs_another_witness :
  exists w1 w2 n, n ∈ [LIB_NAME_SHARED; LIB_NAME_STATIC]
    /\ load_library_by_name (H := dlh_4k) ex_placing (H0 := ex_ops [] true false) (H1 := ex_env ["/lib/x"; "/lib/lib:x.so"]%string [] false)
         (H2 := Symbol.ex_strings) 3 ":x" LIB_NAME_COLON (ex_world ex_config) = Ok (true, w1)
    /\ load_library_by_name (H := dlh_4k) ex_placing (H0 := ex_ops [] true false) (H1 := ex_env ["/lib/x"; "/lib/lib:x.so"]%string [] false)
         (H2 := Symbol.ex_strings) 3 ":x" n w2 = Ok (true, ex_linked).
Proof.
  apply (@link_colon_needs_another dlh_4k ex_placing (ex_ops [] true false) (ex_env ["/lib/x"; "/lib/lib:x.so"]%string [] false)
    Symbol.ex_strings 3 "x" (ex_world ex_config) ex_linked). vm_compute. reflexivity.
Defined.
End MainProofs.
