(* ===== verification/StartupProofs.v ===== *)
(** Theorems about the order of a start (Loader::prepare in src/src/loader.cpp): everything is relocated and protected
    before the first constructor runs, the start terminates. *)
From S2P Require Import Prelude Platform Segment Symbol World Object Identity Gdb Loader Version GlibcInit Assembly Executable Dynamic Relocatable Objects Samples WorldProofs GraphProofs FrameProofs PhaseProofs WellFormedProofs ObjectsProofs InitProofs MainProofs.

Module StartupProofs.
Import World Object Identity Loader Objects Samples WorldProofs GraphProofs FrameProofs PhaseProofs WellFormedProofs ObjectsProofs InitProofs.

(** * The parts with a state of their own *)

(** They call no virtual functions, return, relocate nothing, and keep the loader's data well-formed. *)
Record tame {A} (m : M world A) : Prop := {
  tame_quiet : quiet m; tame_ends : ends m; tame_wf : keeps wf m;
  tame_status s : keeps (fun w => forall x, status_of w x = s x) m;
}.
Lemma tame_ret {A} (a : A) : tame (mret a).
Proof. split; [apply quiet_ret|done|apply keeps_ret|intros; apply keeps_ret]. Qed.

Class TameBoot (boot : Boot) : Prop := {
  tame_tls_allocate : tame tls_allocate; tame_dtv : tame tls_dtv_setup; tame_guards a : tame (setup_guards a);
  tame_globals : tame init_globals; tame_globals_tls : tame init_globals_tls; tame_init : tame glibc_init;
  tame_starting : tame glibc_starting; tame_trampolines : tame trampoline_update;
}.

(** The functions of comp/glibc/ among them are. *)
Section glibc.
Context `{DlhMath} `{ObjectOps} `{Env} `{Symbol.StringOps} (rest : Boot) `{!TameBoot rest}.
Context (p : Version.platform) (auxv : list (Z * Z)) (string_length : Z -> Z) (ifunc : Z -> Z) (tls_address : Z -> Z -> Z) (libc luci : Z).

Lemma quiet_resolve_all names : quiet (GlibcInit.resolve_all names).
Proof.
  apply keeps_quiet. intros w. induction names as [|n names IH]; cbn [GlibcInit.resolve_all]; [apply keeps_ret|].
  unfold GlibcInit.resolve_name. repeat first [ apply IH | apply ran_emit; done | apply keeps_get_object | keeps_step ].
Qed.
Lemma ends_resolve_all names : ends (GlibcInit.resolve_all names).
Proof.
  induction names as [|n names IH]; cbn [GlibcInit.resolve_all]; [done|].
  unfold GlibcInit.resolve_name. repeat first [ apply IH | world_ends_step ].
Qed.
Lemma status_resolve_all st names : keeps (fun w => forall x, status_of w x = st x) (GlibcInit.resolve_all names).
Proof.
  induction names as [|n names IH]; cbn [GlibcInit.resolve_all]; [apply keeps_ret|].
  unfold GlibcInit.resolve_name. repeat first [ apply IH | apply keeps_modify; done | apply keeps_get_object | keeps_step ].
Qed.
Lemma tame_glibc_globals : tame (GlibcInit.init_globals string_length p auxv ;; mret tt).
Proof.
  split.
  - apply keeps_quiet. intros w. unfold GlibcInit.init_globals, get_loader.
    repeat first [ apply quiet_keeps, quiet_resolve_all | keeps_step ].
  - unfold GlibcInit.init_globals, get_loader. repeat first [ apply ends_resolve_all | world_ends_step ].
  - exact (MainProofs.init_globals_wf rest p auxv string_length ifunc tls_address libc luci).
  - intros st. unfold GlibcInit.init_globals, get_loader. repeat first [ apply status_resolve_all | keeps_step ].
Qed.
Lemma tame_glibc_init : tame (GlibcInit.init ifunc tls_address p ;; mret tt).
Proof.
  split.
  - apply keeps_quiet. intros w. unfold GlibcInit.init. repeat first [ apply ran_emit; done | apply keeps_get_object | keeps_step ].
  - unfold GlibcInit.init. world_ends.
  - exact (MainProofs.glibc_init_wf rest p auxv string_length ifunc tls_address libc luci).
  - intros st. unfold GlibcInit.init. repeat first [ apply keeps_modify; done | apply keeps_get_object | keeps_step ].
Qed.
#[export] Instance tame_glibc_boot : TameBoot (Assembly.glibc_boot p auxv string_length ifunc tls_address libc luci rest).
Proof. split; cbn; try apply TameBoot0; [exact tame_glibc_globals|exact tame_glibc_init]. Qed.
End glibc.

Section startup.
Context `{DlhMath} (kernel : kernel_t) {ops : ObjectOps} `{!PreparesQuietly ops} `{!Confined ops} `{!InitializesQuietly ops}
  `{!WellTyped ops} `{Env} `{Symbol.StringOps} {boot : Boot} `{!TameBoot boot}.

(** * The pieces *)

Lemma mall_one (f : Z -> M world bool) o w b w' : f o w = Ok (b, w') -> mall [o] f w = Ok (b, w').
Proof. intros Hr. cbn. unfold mbind, M_bind. rewrite Hr. by destruct b. Qed.
Lemma finalize_ran o w b w' : Object.finalize kernel o w = Ok (b, w') -> ran [(V_finalize, o)] w w'.
Proof. intros Hr. apply (finalize_versions kernel [o] w b w'). by apply mall_one. Qed.
Lemma ends_finalize o : ends (Object.finalize kernel o).
Proof. unfold Object.finalize, segment_indices, MemorySegment.finalize. world_ends. Qed.

(** The debugger's structure is announced in the memory of the main program and of Luci, which is then protected again. *)
Lemma quiet_debugger (f : world -> rdebug -> rdebug) : quiet (modify (fun w => w <| r_debug ::= f w |>)).
Proof. apply keeps_quiet. intros w. apply keeps_modify. intros w1 []. by split. Qed.
Lemma quiet_compose_pointer o a : quiet (Object.compose_pointer kernel o a).
Proof.
  apply keeps_quiet. intros w. unfold Object.compose_pointer.
  repeat first [ apply quiet_keeps, quiet_framed; intros ?; apply framed_compose | apply keeps_get_object | keeps_step ].
Qed.
Lemma finalize_only o w : keeps (only V_finalize w) (Object.finalize kernel o).
Proof. intros w1 b w2 Hw R%finalize_ran. eapply only_trans; [exact Hw|]. by exists [o]. Qed.
Lemma debugger_init_only tags address w : keeps (only V_finalize w) (GDB.init kernel tags address).
Proof.
  assert (forall i, keeps (only V_finalize w) (GDB.set_dynamic_debug kernel tags address i)) as Hs.
  { intros i. unfold GDB.set_dynamic_debug.
    repeat first [ apply finalize_only | apply quiet_only, quiet_compose_pointer | apply quiet_only, keeps_quiet; intros ?; apply ran_emit; done
                 | apply keeps_get_object | apply keeps_get_identity | keeps_step ]. }
  unfold GDB.init, GDB.refresh, GDB.notify.
  repeat first [ apply Hs | apply quiet_only; refine (quiet_debugger _) | apply quiet_only, quiet_call
               | apply keeps_get_object | apply keeps_get_identity | keeps_step ].
Qed.
Lemma ends_debugger_init tags address : ends (GDB.init kernel tags address).
Proof.
  unfold GDB.init, GDB.refresh, GDB.notify, GDB.set_dynamic_debug, Object.compose_pointer.
  repeat first [ apply ends_finalize | apply ends_compose | world_ends_step ].
Qed.
Lemma debugger_init_wf tags address : keeps wf (GDB.init kernel tags address).
Proof.
  unfold GDB.init, GDB.refresh, GDB.notify, GDB.set_dynamic_debug, Object.compose_pointer, Object.finalize, segment_indices, get_loader.
  solve_stable.
Qed.

(** * The constructors of everything *)

Lemma below_some rank w l : exists n, below rank n w l.
Proof.
  induction l as [|i l [n Hn]]; [exists O; by intros i o Hi%not_elem_of_nil|].
  exists (n + S (default O (rank <$> latest w i)))%nat. intros d o [->|Hd]%elem_of_cons Ho.
  - rewrite Ho. cbn. lia.
  - pose proof (Hn d o Hd Ho). lia.
Qed.
Lemma initialize_all rank fuel l w b w' :
  all_until (id_initialize fuel) l w = Ok (b, w') ->
  exists js, initialization b w w' js /\ (b = true -> forall i, i ∈ l -> initialized_at w' i = Some true)
    /\ (acyclic rank w -> dependencies_first w js).
Proof.
  intros Hr. destruct (below_some rank w l) as [n Hn].
  destruct (all_until_initialize_order rank _ _ _ _ _ (id_initialize_order rank fuel) (id_initialize_latest fuel) Hr) as (js & T & Hi & O).
  exists js. split_and!; [done..|]. intros Ha. by apply (O n).
Qed.
Lemma wf_filed w : wf w -> filed w.
Proof.
  intros Hw i o Hl. unfold latest, chain_of in Hl. destruct (identities w !! i) as [id|] eqn:Hid; [|done]. cbn in Hl.
  destruct (wf_version _ _ Hw i id o Hid) as (ob & Ho & Hf); [by apply head_Some_elem_of|]. unfold file_of. rewrite Ho. cbn. by f_equal.
Qed.
Lemma pending_all w : (size (pending w) < S (size (objects w)))%nat.
Proof.
  assert (size (pending w) <= size (dom (objects w)))%nat as Hs; [|rewrite size_dom in Hs; lia].
  apply subseteq_size. intros o (i & Ho & _)%elem_of_pending. apply elem_of_dom. unfold file_of in Ho. by destruct (objects w !! o).
Qed.
Lemma initialize_all_ends l w : wf w -> all_until (id_initialize (S (size (objects w)))) l w <> OutOfFuel.
Proof.
  intros Hw. eapply (all_until_initialize_fuel (S (size (objects w)))); [|intros i v b v' Hr|by apply wf_filed|apply pending_all].
  - intros i v Hf Hv. by apply id_initialize_fuel.
  - destruct (id_initialize_initialization _ _ _ _ _ Hr) as (js & T & _). by exists js.
Qed.

(** * The start *)

(** A step by one of the parts *)
Lemma tame_run {A} (m : M world A) w a w' :
  tame m -> wf w -> m w = Ok (a, w') -> ran [] w w' /\ (forall x, status_of w' x = status_of w x) /\ wf w'.
Proof.
  intros Hm Hw Hr. split_and!; [by eapply tame_quiet|by eapply (tame_status m Hm (status_of w)); [|exact Hr]|by eapply tame_wf; [| |exact Hr]].
Qed.
Lemma tame_guard : tame (match auxiliary AT_RANDOM with Some a => setup_guards a | None => mret tt end).
Proof. case_match; [apply tame_guards|apply tame_ret]. Qed.
Lemma tame_main_thread t : tame (set_loader (fun l => l <| main_thread := t |>)).
Proof.
  split; [apply keeps_quiet; intros w; by apply ran_loader|done|by apply (stable_set_loader wf)|].
  intros s. by apply keeps_modify.
Qed.
Lemma preinitialize_run start w b w' :
  wf w -> Object.initialize start true w = Ok (b, w') -> ran [(V_preinitialize, start)] w w' /\ wf w'.
Proof.
  intros Hw Hr. split; [by apply object_initialize_ran in Hr as (R & _)|].
  apply (keeps_bind wf) in Hr; [done|by apply (stable_emit wf)|intros; apply wt_initialize|done].
Qed.
Lemma all_fuel_Ok w n w' : all_fuel w = Ok (n, w') -> n = S (size (objects w)) /\ w' = w.
Proof. by intros [<- <-]%Ok_inj. Qed.
Lemma tame_relocate_wf upd : keeps wf (Loader.relocate kernel upd).
Proof. apply relocate_wf; [apply _|apply tame_trampolines]. Qed.

(** The steps of the preparation *)
Lemma prepare_inv start w b w' :
  wf w -> Loader.prepare kernel start w = Ok (b, w') ->
  exists wc r wd,
    ran [] w wc /\ (forall x, status_of wc x = status_of w x) /\ Loader.relocate kernel false wc = Ok (r, wd)
    /\ if r then exists fins w1 w2 w3,
         ran (pair V_finalize <$> fins) wd w1 /\ ran [(V_preinitialize, start)] w1 w2
         /\ all_until (id_initialize (S (size (objects w2)))) (rev (lookup (loader w2))) w2 = Ok (b, w3)
         /\ (if b then ran [(V_finalize, start)] w3 w' else w' = w3)
       else b = false /\ w' = wd.
Proof.
  intros Hw Hr. unfold Loader.prepare in Hr.
  apply bind_Ok in Hr as (x & w0 & [<- <-]%Ok_inj & Hr). apply bind_Ok in Hr as ([] & w0 & Ha & Hr).
  assert (w0 = w) as -> by (unfold assert in Ha; by destruct (bool_decide _); [injection Ha|]).
  apply bind_Ok in Hr as ([] & wa & (Ra & Sa & Wa)%tame_run & Hr); [|apply tame_globals|done].
  apply bind_Ok in Hr as (t & wb & (Rb & Sb & Wb)%tame_run & Hr); [|apply tame_tls_allocate|done].
  apply bind_Ok in Hr as ([] & wc & (Rc & Sc & Wc)%tame_run & Hr); [|apply tame_main_thread|done].
  apply bind_Ok in Hr as (r & wd & Hrel & Hr). exists wc, r, wd. pose proof (tame_relocate_wf _ _ _ _ Wc Hrel) as Wd.
  split_and!; [by eapply ran_then; [eapply ran_then|]|intros x; by rewrite Sc, Sb, Sa|done|].
  destruct r; [|by apply Ok_inj in Hr as [<- <-]].
  apply bind_Ok in Hr as ([] & we & (Re & _ & We)%tame_run & Hr); [|apply tame_guard|done].
  apply bind_Ok in Hr as ([] & wf' & (Rf & _ & Wf)%tame_run & Hr); [|apply tame_dtv|done].
  apply bind_Ok in Hr as ([] & wg & (Rg & _ & Wg)%tame_run & Hr); [|apply tame_globals_tls|done].
  apply bind_Ok in Hr as ([] & wh & (Rh & _ & Wh)%tame_run & Hr); [|apply tame_init|done].
  apply bind_Ok in Hr as ([] & w1 & Hg & Hr). pose proof (debugger_init_wf _ _ _ _ _ Wh Hg) as W1.
  destruct (debugger_init_only _ _ wd _ _ _ (ex_intro _ [] (ran_then _ _ _ _ (ran_then _ _ _ _ (ran_then _ _ _ _ Re Rf) Rg) Rh)) Hg) as [fins R1].
  apply bind_Ok in Hr as (b0 & w2 & (R2 & W2)%preinitialize_run & Hr); [|done].
  apply bind_Ok in Hr as (l & w3 & [<- <-]%Ok_inj & Hr). apply bind_Ok in Hr as (n & w3 & [-> ->]%all_fuel_Ok & Hr).
  apply bind_Ok in Hr as (ok & w3 & Hi & Hr). exists fins, w1, w2, w3. split_and!; [done..| |].
  - destruct ok; [|by apply Ok_inj in Hr as [<- _]]. apply bind_Ok in Hr as (? & ? & _ & Hr). apply bind_Ok in Hr as (? & ? & _ & Hr).
    by apply Ok_inj in Hr as [<- _].
  - destruct ok; [|by apply Ok_inj in Hr as [<- <-]]. apply bind_Ok in Hr as (? & w4 & Hf%finalize_ran & Hr).
    apply bind_Ok in Hr as ([] & w5 & Hs & Hr). apply Ok_inj in Hr as [<- <-]. exact (ran_then _ _ _ _ Hf (tame_quiet _ tame_starting _ _ _ Hs)).
Qed.
Lemma prepare_ends start w : wf w -> Loader.prepare kernel start w <> OutOfFuel.
Proof.
  intros Hw. unfold Loader.prepare.
  intros [Hr|(x & w0 & [<- <-]%Ok_inj & Hr)]%bind_OutOfFuel; [done|].
  apply bind_OutOfFuel in Hr as [Hr|([] & w0 & Ha & Hr)]; [by apply ends_assert in Hr|].
  assert (w0 = w) as -> by (unfold assert in Ha; by destruct (bool_decide _); [injection Ha|]).
  apply bind_OutOfFuel in Hr as [Hr|([] & wa & (_ & _ & Wa)%tame_run & Hr)]; [by apply tame_globals in Hr| |apply tame_globals|done].
  apply bind_OutOfFuel in Hr as [Hr|(t & wb & (_ & _ & Wb)%tame_run & Hr)]; [by apply tame_tls_allocate in Hr| |apply tame_tls_allocate|done].
  apply bind_OutOfFuel in Hr as [Hr|([] & wc & (_ & _ & Wc)%tame_run & Hr)]; [done| |apply tame_main_thread|done].
  apply bind_OutOfFuel in Hr as [Hr|(r & wd & Hrel & Hr)].
  { revert Hr. apply ends_relocate; [apply _..|apply tame_trampolines]. }
  pose proof (tame_relocate_wf _ _ _ _ Wc Hrel) as Wd. destruct r; [|done].
  apply bind_OutOfFuel in Hr as [Hr|([] & we & (_ & _ & We)%tame_run & Hr)]; [by apply tame_guard in Hr| |apply tame_guard|done].
  apply bind_OutOfFuel in Hr as [Hr|([] & wf' & (_ & _ & Wf)%tame_run & Hr)]; [by apply tame_dtv in Hr| |apply tame_dtv|done].
  apply bind_OutOfFuel in Hr as [Hr|([] & wg & (_ & _ & Wg)%tame_run & Hr)]; [by apply tame_globals_tls in Hr| |apply tame_globals_tls|done].
  apply bind_OutOfFuel in Hr as [Hr|([] & wh & (_ & _ & Wh)%tame_run & Hr)]; [by apply tame_init in Hr| |apply tame_init|done].
  apply bind_OutOfFuel in Hr as [Hr|([] & w1 & Hg & Hr)]; [by apply ends_debugger_init in Hr|].
  pose proof (debugger_init_wf _ _ _ _ _ Wh Hg) as W1.
  apply bind_OutOfFuel in Hr as [Hr|(b0 & w2 & (_ & W2)%preinitialize_run & Hr)]; [| |done].
  { revert Hr. apply ends_bind; [done|]. intros []. apply ends_initialize. }
  apply bind_OutOfFuel in Hr as [Hr|(l & w3 & [<- <-]%Ok_inj & Hr)]; [done|].
  apply bind_OutOfFuel in Hr as [Hr|(n & w3 & [-> ->]%all_fuel_Ok & Hr)]; [done|].
  apply bind_OutOfFuel in Hr as [Hr|(ok & w3 & _ & Hr)]; [by apply initialize_all_ends in Hr|].
  revert Hr. destruct ok; [|done]. repeat first [ apply ends_finalize | apply tame_starting | world_ends_step ].
Qed.

(** C19: A start in the right order.  Preparing a program ends, for every graph of libraries.  All libraries are pre-prepared and
    relocated, none twice, and the memory of all versions has its final protection, before the first constructor runs; if that
    fails no constructor runs at all.  Then the pre-initialization of the main program is called, then the constructors of the
    libraries, of none twice, and of the dependencies first (in a graph without cycles); if all goes well every library is initialized,
    and only then the main program is protected once more. *)
Theorem startup_order rank start w :
  wf w ->
  Loader.prepare kernel start w <> OutOfFuel
  /\ forall b w', Loader.prepare kernel start w = Ok (b, w') ->
     exists pre prep fins w1,
       mapM (latest w) (rev (lookup (loader w))) = Some pre /\ NoDup prep
       /\ ran ((pair V_preprepare <$> pre) ++ (pair V_prepare <$> prep) ++ (pair V_finalize <$> fins)) w w1
       /\ (b = false /\ w' = w1
           \/ (forall o, o ∈ pre -> status_of w o = Some STATUS_MAPPED -> o ∈ prep)
              /\ all_versions w (rev (lookup (loader w))) ⊆ fins
              /\ exists w2 w3 js,
                   ran [(V_preinitialize, start)] w1 w2 /\ initialization b w2 w3 js
                   /\ (acyclic rank w -> dependencies_first w2 js)
                   /\ if b then (forall i, i ∈ lookup (loader w) -> initialized_at w3 i = Some true) /\ ran [(V_finalize, start)] w3 w'
                      else w' = w3).
Proof.
  intros Hw. split; [by apply prepare_ends|]. intros b w' (wc & r & wd & R0 & S0 & Hrel & Hr)%prepare_inv; [|done].
  destruct (relocate_ran kernel (tame_quiet _ tame_trampolines) false wc r wd Hrel) as (pre & prep & ups & fins & R1 & Hpre & Hnd & _ & Hups & Hall).
  rewrite (Hups eq_refl) in R1. rewrite (ran_lookup _ _ _ R0) in Hpre, Hall.
  rewrite (mapM_ext _ _ _ (fun d => same_graph_latest _ _ d (ran_graph _ _ _ R0))) in Hpre.
  pose proof (ran_trans _ _ _ _ _ R0 R1) as R. exists pre, prep.
  destruct r; [|destruct Hr as [-> ->]; exists fins, wd; split_and!; [done..|by left]].
  destruct (Hall eq_refl) as (Hprep & _ & ->). destruct Hr as (dbg & w1 & w2 & w3 & R2 & R3 & Hi & Hlast).
  pose proof (ran_trans _ _ _ _ _ R R2) as R'. eexists (_ ++ dbg), w1. split_and!; [done..| |right].
  { rewrite fmap_app. cbn [app fmap list_fmap] in R'. rewrite <- !app_assoc in R'. exact R'. }
  rewrite (all_versions_same _ _ _ (ran_graph _ _ _ R0)). split_and!.
  - intros o Ho Hs. apply Hprep; [done|by rewrite S0].
  - intros o Ho. apply elem_of_app. by left.
  - destruct (initialize_all rank _ _ _ _ _ Hi) as (js & T & Hfin & Hd). exists w2, w3, js.
    pose proof (ran_trans _ _ _ _ _ R' R3) as Rall. split_and!; [done..|intros Ha; eapply Hd, acyclic_same; [apply Rall|done]|].
    destruct b; [|done]. split; [|done]. intros i Hin. apply (Hfin eq_refl). rewrite (ran_lookup _ _ _ Rall). by apply list_elem_of_In, in_rev; rewrite rev_involutive; apply list_elem_of_In.
Qed.
End startup.

(** * An example *)

Definition ex_start_boot : Boot :=
  Assembly.glibc_boot (H0 := ex_objects) (H2 := Symbol.ex_strings) Version.UBUNTU_JAMMY [(GlibcInit.AT_PAGESZ, 0x1000); (GlibcInit.AT_SECURE, 0)]
    (fun _ => 0) (fun a => a) (fun _ a => a) 0x6ffff0001000 0x6ffff0001040 ex_boot.
Lemma ex_tame : TameBoot ex_start_boot.
Proof. apply tame_glibc_boot. split; intros; apply tame_ret. Qed.

(** The program (1, version 11) and libx.so (2) before the start *)
Definition ex_ready : world := ex_acyclic <| loader ::= fun l => l <| self := Some 2 |> <| target := Some 1 |> |>.
Lemma ex_ready_wf : wf ex_ready.
Proof.
  eapply wf_same; [|exact (ex_world_wf ex_config)]. unfold same_shape. split_and!; [done| |done..].
  intros o. destruct (decide (o = 12)) as [->|Hne]; [done|]. unfold ex_ready, ex_acyclic. cbn -[list_to_map]. by rewrite lookup_insert_ne.
Qed.
Lemma ex_ready_acyclic : acyclic (fun o => if o =? 11 then 1%nat else 0%nat) ex_ready.
Proof. exact ex_acyclic_acyclic. Qed.
Definition ex_prepare : res (bool * world) :=
  Loader.prepare (H := dlh_4k) ex_kernel (H0 := ex_objects) (H1 := ex_env [] [] false) (H2 := Symbol.ex_strings) (H3 := ex_start_boot) 11 ex_ready.

Lemma startup_order_witness :
  exists w1 w2 w3 js,
    ran [(V_preinitialize, 11)] w1 w2 /\ initialization true w2 w3 js /\ dependencies_first w2 js
    /\ ran [(V_finalize, 11)] w3 (after ex_prepare ex_ready)
    /\ virtuals (trace (after ex_prepare ex_ready))
       = [(V_preprepare, 12); (V_preprepare, 11); (V_prepare, 12); (V_prepare, 11); (V_finalize, 12); (V_finalize, 22);
          (V_finalize, 11); (V_preinitialize, 11); (V_initialize, 12); (V_initialize, 11); (V_finalize, 11)].
Proof.
  pose proof ex_quiet_parts as Hq. pose proof ex_typed_parts as Ht. pose proof ex_quiet_constructors as Hc. pose proof ex_tame as Hb.
  destruct (@startup_order dlh_4k ex_kernel ex_objects (objects_prepare_quietly ex_kernel 0) (objects_confined ex_kernel 0)
    (objects_initialize_quietly ex_kernel 0) (objects_well_typed ex_kernel 1) (ex_env [] [] false) Symbol.ex_strings ex_start_boot Hb
    (fun o => if o =? 11 then 1%nat else 0%nat) 11 ex_ready ex_ready_wf) as [_ Hr].
  destruct (Hr true (after ex_prepare ex_ready) ltac:(vm_compute; reflexivity))
    as (pre & prep & fins & w1 & _ & _ & _ & [[Hf _]|(_ & _ & w2 & w3 & js & R & T & Hd & _ & Rf)]); [discriminate Hf|].
  exists w1, w2, w3, js. split; [exact R|]. split; [exact T|]. split; [apply Hd; exact ex_ready_acyclic|].
  split; [exact Rf|vm_compute; reflexivity].
Defined.
End StartupProofs.
